(* ===== verification/_CoqProject ===== *)
-Q . S2P
Prelude.v
Interleaving.v
Float64.v
GoStrings.v
GoTime.v
Json.v
Messaging.v
MarketEvent.v
Catalog.v
WalletApi.v
Wallet.v
WalletIsolation.v
LagChecker.v
Outbox.v
BetFlow.v
BetFlowExamples.v
BetInterleaving.v
BetInterleavingExamples.v
OddsManagement.v
OddsCache.v
Settlement.v
BetHistory.v
CatalogService.v
StatusInterleaving.v
Broadcaster.v
GoText.v
JsonCodec.v
Scores.v
GoFormat.v
GammaApi.v
PolymarketNormaliser.v
EventMatcher.v
PriceFeed.v
ScoreFeeds.v
PolymarketFeed.v
Identity.v
HttpApi.v
BetHttp.v
CashierHttp.v
HistoryHttp.v
CatalogHttp.v
CatalogSocket.v
MarketData.v
ScoreSocket.v
EntryPoints.v
Loops.v
ConsumerGroup.v
System.v
Journey.v
Money.v
JourneyExamples.v
Services.v
Warmer.v
FeedLoops.v
ScoreJourney.v
