(* ===== verification/Prelude.v ===== *)
(** * A verification library for the sportsbook

    The repository is a sportsbook of Go services that talk over Kafka, Redis,
    PostgreSQL and gRPC. Money and bets take this way: Market Data Ingestion
    turns provider feeds into canonical events; the catalogue stores them and
    caches market statuses; Odds Management prices selections and publishes
    the prices, which the cache updater copies into Redis; Bet Acceptance checks
    a bet against these caches, reserves the stake in the wallet and queues
    the bet in its outbox; the relay publishes it; Bet History records it;
    Settlement pays it.

    ** Files and the code they model (paths under [src/])

    - [Prelude], [Float64], [GoStrings], [GoTime], [Json]: Go's errors and
      effects, [float64], [strconv], [strings], [time] and [encoding/json].
      [Go D E A] is a state-passing function over a [world]: the data of the
      component, the wall clock in microseconds, a counter of generated
      identifiers, and a schedule of faults that decides which outside calls
      fail. [wp] is its weakest precondition, [go_run] the symbolic execution.
    - [Messaging], [WalletApi]: the outside services as type classes with laws
      (Kafka producer, Redis, the gRPC connection, the wallet's server and its
      view), each with a reference instance.
    - [MarketEvent]: [internal/marketdata/ingestion.go], [composite_normaliser.go].
    - [EventMatcher], [PriceFeed]: [internal/marketdata/event_matcher.go],
      [token_registry.go], [polymarket_price_feed.go],
      [polymarket_ws_price_normaliser.go].
    - [GoText], [GoFormat], [JsonCodec]: the text and JSON that the feeds use:
      [Split], [Fields], [TrimSpace], [%.1f] and [%g] of a float, and decoders
      with their encoders.
    - [GammaApi], [PolymarketNormaliser], [PolymarketFeed]:
      [internal/polymarket/client.go]; [internal/marketdata]'s
      [polymarket_normaliser.go] and [politics_normaliser.go];
      [polymarket_feed.go], which fills the event matcher and the token registry.
    - [Scores], [ScoreFeeds]: the normalisers and the feeds of the NBA, the NHL,
      college basketball and Polymarket's sports socket; [ScoreJourney] follows a
      score from the scoreboard to the hub of the clients.
    - [Identity], [HttpApi]: [internal/identity/service.go]; requests, answers,
      the JWT middleware and the handlers of [cmd/identity/main.go].
    - [BetHttp], [CashierHttp], [HistoryHttp], [CatalogHttp]: the endpoints of
      [cmd/betacceptance/main.go], [cmd/cashier/main.go],
      [cmd/bethistory/main.go] and [internal/catalog/http.go].
    - [MarketData], [ScoreSocket]: [cmd/marketdata/main.go] with [Run] of
      [ingestion.go], all feeds over one topic; the connection of the sports
      socket ([polymarket_score_feed.go]).
    - [Loops], [ConsumerGroup]: the loops that run until they are cancelled as
      interaction trees ([Run] of the consumers, the tickers); what the broker
      does to a group between the log and a handler. [Services], [Warmer], [FeedLoops]:
      these loops with the work of each consumer, of the relay, of the status
      warmer and of the polling feeds.
    - [EntryPoints]: [cmd/*/main.go], what the body of each [run] opens, runs and
      closes, and what its goroutines open beside it, with the constructors that can
      fail.
    - [System]: one state and one step relation for the services together;
      [Journey] follows a price and a bet through them, [Money] what they do to
      money, [JourneyExamples] is a concrete day.
    - [Interleaving]: methods as sequences of outside calls, thread pools and a
      rely-guarantee logic for them. [BetInterleaving] (examples in
      [BetInterleavingExamples]) and [StatusInterleaving] are the bet placement, the
      relay, the transitions and the warmer at that granularity; [WalletIsolation] is
      the wallet's transactions statement by statement, with its advisory and row
      locks.
    - [CatalogSocket]: a client's WebSocket, from its upgrade over the query, the MGET and the
      page to its removal, next to the hub of [Broadcaster].
    - [Catalog], [CatalogService], [Broadcaster]: [internal/catalog/consumer.go];
      [service.go] and [status_cache.go]; [odds_consumer.go] and [broadcaster.go].
    - [OddsManagement], [OddsCache]: [internal/oddsmanagement/service.go],
      [internal/odds/cache_updater.go].
    - [Wallet]: [internal/wallet/service.go] with the tables of
      [migrations/db_wallet].
    - [LagChecker], [Outbox], [BetFlow]: [internal/betacceptance]'s
      [lag_checker.go], [outbox.go], [bet_flow.go]; [BetFlowExamples] runs them
      against the wallet of [Wallet].
    - [Settlement], [BetHistory]: [internal/settlement/consumer.go],
      [internal/bethistory/consumer.go].

    A record models a Go struct or a table's row, a definition the function of
    the same name; a fragment of a longer function (a statement, a message, a
    decoder) has its own definition, named after what it does.

    ** What the theorems show

    - Money: the wallet refines an abstract ledger ([wallet_refines_ledger]),
      balances are the cashier's net and, without repeated credits, the ledger's
      sums; each method on every branch. Bets: what an accepted and a refused
      [PlaceBet] leave behind, and that no published bet lacks its reservation
      ([interleaved_bets_are_backed]). Settlement: which bets are worked on, and for
      each what is recorded, paid and announced ([handleResult_spec]), and the three
      ways it goes wrong (winnings above the bets in flight, redelivery, the
      truncated cent).
    - Messages: the canonical event (but for invalid UTF-8 and a negative zero) and
      the relayed bet survive their way through JSON and Kafka; the relay loses nothing and repeats only what was not
      marked; the odds cache and the status cache are as fresh as claimed; the
      consumers that never handle anything.
    - Prices: the margin of the vig model over exact numbers, and what a feed
      event stores and publishes. [float64] is a class with two instances, the
      binary64 of the kernel's [spec_float] for execution and the real numbers
      for the exact statements.
    - Concurrency: the WebSocket hub and the live price feed as step relations,
      with invariants over all interleavings.
    - Feeds: the catalogue stores the upserts of a game that the feed emits, under
      the id and the name by which the score feeds then find it
      ([polymarket_upsert_is_stored], [scores_find_upserted_events]), and cannot
      reopen or move what is there ([handleCatalogUpsert_keeps_lifecycle]); the scores
      of a started game reach the catalogue and its hub as the provider reports
      them ([scores_reach_the_clients]); which
      markets are main, and what prices and texts they carry.
    - Front ends: a bet, a deposit and a page of bets are those of the user of a
      valid token whatever the request's headers say; who can log in, until when
      a token validates, and that no operation revokes it; the catalogue's page is
      that of a reference grouping, lists what it should in the right order, and
      never meets a nil pointer.
    - The services together: as they are wired no bet is ever accepted
      ([no_bet_is_ever_accepted]), because Odds Management and Bet History
      dispatch on names of topics that they do not subscribe to
      ([deployed_consumers_idle]); with their handlers called directly, an
      accepted bet carries the price that was computed for it
      ([accepted_at_offered_price]) and reaches the page of its user
      ([accepted_bet_reaches_the_page]). Taking, settling and recording bets never
      changes what a user owns: only the cashier does ([no_bet_changes_a_total]). The feeds share one topic in order
      whatever the interleaving, and nothing they send is a market result, so
      settlement is never asked ([settlement_is_never_asked]).
    - Whole runs: the relay drains the outbox ([relay_drains]); the warmer keeps every
      status readable ([statuses_stay_readable]); a consumer group
      delivers at least once what is below a committed offset, but never again a
      failed message that a later one overtook ([consumer_group_delivery]);
      loops end when they are cancelled and not before; the body of a [run] closes
      what it opened, and which resources its goroutines may still hold is known
      ([runs_close_what_they_open]).
    - Interleaving: between any two outside calls of a method others may run. The
      sequences of calls are the methods ([calls_are_the_methods]); every published
      bet stays backed whatever the interleaving ([interleaved_bets_are_backed]); a
      cached status is behind by its time to live and by the time its writer takes
      between its calls ([status_cache_lags_by_a_call]); the wallet's statements
      under READ COMMITTED give the tables of whole transactions, but for the credit
      that races with a first deposit ([read_committed_serialises]), which never wait for each other in a circle
      ([transactions_never_deadlock]); a WebSocket client gets a page, of the rows of one
      moment and the prices of a later one, and then the messages queued for it in
      order ([socket_gets_snapshot_then_updates]). What
      interleaving breaks is shown on runs: one idempotency key, two bets; the daily
      limit; a row relayed twice; a suspended market open again; updates lost
      between the page and the registration.

    ** Choices and bounds

    - In the files of the components a PostgreSQL transaction is atomic, a statement
      outside one runs alone, and calls of methods interleave as wholes: for the
      wallet [WalletIsolation] proves that this loses nothing but one case (a credit
      that races with the first deposit of its user), for bet placement, the
      relay and the status cache the files on interleaving prove the main
      properties again one outside call at a time. Faults strike between any two
      outside calls, before or after the effect. Rows without an ORDER BY come in
      key order, ties in the order of the keys.
    - Loops over data are structural; loops without an end are interaction trees,
      compared with the iteration of one turn. A consumer's session follows a plan
      (arrivals, order of delivery, lost commits, end, what others do); the theorems
      hold for every plan. Fuel is used where the code iterates until
      a condition: the word search makes at most [len(s) + 2] tests and the
      theorem shows that this is enough; the bisection of [find20CentDelta] has
      the code's own fixed number of turns.
    - int64 arithmetic wraps ([wrap64]); columns of the schema are checked as the
      schema's constraints do, because the statement itself fails on a row that
      violates one. NUMERIC and timestamps are abstracted by the class [Postgres],
      [hashtext] by the class [PgHash]; advisory locks are locks of
      [WalletIsolation] and faults elsewhere. The partitions of the
      bets table are those of the migration, in UTC.
    - [uuid.New] is a parameter from the counter to strings; where freshness
      matters it is assumed injective.
    - bcrypt, the JWT library and the float formats Go leaves to [strconv] are
      classes with the laws their documentation gives. ORDER BY on the texts of the
      catalogue's page is the class [Collation].
    - Strings are bytes. The encoder of the canonical event makes them valid
      UTF-8 ([ToValidUTF8]); in the other documents they are identifiers and texts of
      the databases, which are valid already.
    - Go's map order is a parameter wherever the result could depend on it.

    ** Not modelled

    - Third-party code (sarama, pgx, go-redis, gRPC, gorilla/websocket, jwt, bcrypt)
      beyond the laws stated where it is used; the settings of producers and
      connections (acks, versions, time-outs), which choose among its behaviours.
    - Constructors that only fill a struct, the health checks, the routing of the
      HTTP mux (the routes are the names of the handlers), and the order in which
      the goroutines of a process stop after a signal.
    - Durations of tickers, that of the status warmer apart: a loop does its work at
      each tick, however far apart.
    - Logging, the React front end and the deployment files.

    ** Order of the work

    First the money (wallet, bet acceptance, outbox), then prices and their
    caches, settlement and history, the catalogue and its hub, then the feeds
    and their normalisers, then identity and the HTTP front ends, then the run of
    all feeds with settlement behind it, then the loops, the processes and
    the services together, and last the interleavings within the methods. Left out:
    sessions of several members of one consumer group. *)
From stdpp Require Export base gmap strings list fin_maps pretty.
From Stdlib Require Export ZArith Lia.

Declare Scope go_scope.
Delimit Scope go_scope with go.

(** ** Results and the effect monad

    A Go call that returns [(value, error)] is a [result]. A service method is
    a function on a [world]: the component's persistent data [db] (its tables,
    its Redis instance, the messages it produced), the wall clock, a counter
    of generated identifiers and a schedule of faults of the outside services.
    An error does not undo the state changes made before it, as in Go. *)

Inductive result (E A : Type) : Type :=
| Ok (a : A)
| Err (e : E).
Arguments Ok {E A} a.
Arguments Err {E A} e.
Definition is_ok {E A} (r : result E A) : bool := match r with Ok _ => true | Err _ => false end.

Record world (D : Type) : Type := World {
  db : D;
  clock : Z;
  fresh : nat;
  faults : list bool
}.
Arguments World {D} db clock fresh faults.
Arguments db {D} w.
Arguments clock {D} w.
Arguments fresh {D} w.
Arguments faults {D} w.

Definition set_db {D D'} (d : D') (w : world D) : world D' :=
  World d (clock w) (fresh w) (faults w).
Definition set_faults {D} (fs : list bool) (w : world D) : world D :=
  World (db w) (clock w) (fresh w) fs.

Definition Go (D E A : Type) : Type := world D → world D * result E A.

Section Monad.
Context {D E : Type}.

Definition ret {A} (a : A) : Go D E A := λ w, (w, Ok a).
Definition throw {A} (e : E) : Go D E A := λ w, (w, Err e).
Definition gbind {A B} (m : Go D E A) (k : A → Go D E B) : Go D E B := λ w,
  match m w with
  | (w', Ok a) => k a w'
  | (w', Err e) => (w', Err e)
  end.

(** [v, err := m] with the error handled by the caller. *)
Definition catch {E' A} (m : Go D E A) : Go D E' (result E A) := λ w,
  let '(w', r) := m w in (w', Ok r).

(** [fmt.Errorf("...: %w", err)]: the error is replaced, the state is kept. *)
Definition mapErr {E' A} (f : E → E') (m : Go D E A) : Go D E' A := λ w,
  match m w with
  | (w', Ok a) => (w', Ok a)
  | (w', Err e) => (w', Err (f e))
  end.

Definition gets {A} (f : D → A) : Go D E A := λ w, (w, Ok (f (db w))).
Definition puts (f : D → D) : Go D E unit := λ w, (set_db (f (db w)) w, Ok tt).
Definition now : Go D E Z := λ w, (w, Ok (clock w)).

(** One generated identifier: the counter names it, [name] prints it. *)
Definition newID (name : nat → string) : Go D E string := λ w,
  (World (db w) (clock w) (S (fresh w)) (faults w), Ok (name (fresh w))).

(** A call of an outside service: it fails when the schedule says so. *)
Definition flaky (e : E) : Go D E unit := λ w,
  match faults w with
  | [] => (w, Ok tt)
  | b :: fs => (set_faults fs w, if b : bool then Err e else Ok tt)
  end.

(** A PostgreSQL transaction with [defer tx.Rollback(ctx)]: a failing body or
    a failing commit leaves the tables as they were at [Begin]. *)
Definition tx {A} (eBegin eCommit : E) (body : Go D E A) : Go D E A := λ w,
  match flaky eBegin w with
  | (w1, Err e) => (w1, Err e)
  | (w1, Ok _) =>
      match body w1 with
      | (w2, Err e) => (set_db (db w) w2, Err e)
      | (w2, Ok a) =>
          match flaky eCommit w2 with
          | (w3, Err e) => (set_db (db w) w3, Err e)
          | (w3, Ok _) => (w3, Ok a)
          end
      end
  end.
End Monad.

(** What a database driver call reports. *)
Inductive dberr : Type :=
| ErrNoRows        (** [pgx.ErrNoRows]: the query selected nothing *)
| ErrConstraint    (** a constraint of the schema refused the statement *)
| ErrConn.         (** the statement did not run *)

Section Sql.
Context {D : Type}.

Definition queryRow {A} (f : D → option A) : Go D dberr A := λ w,
  match flaky ErrConn w with
  | (w', Ok _) => (w', match f (db w') with Some a => Ok a | None => Err ErrNoRows end)
  | (w', Err e) => (w', Err e)
  end.

Definition exec (f : D → option D) : Go D dberr unit := λ w,
  match flaky ErrConn w with
  | (w', Ok _) =>
      match f (db w') with
      | Some d => (set_db d w', Ok tt)
      | None => (w', Err ErrConstraint)
      end
  | (w', Err e) => (w', Err e)
  end.
End Sql.

(** A component that owns a part of a larger state. *)
Record lens (D X : Type) : Type := Lens { view : D → X; put : X → D → D }.
Arguments Lens {D X} view put.
Arguments view {D X} l d.
Arguments put {D X} l x d.

Class LensLaws {D X} (l : lens D X) : Prop := {
  view_put x d : view l (put l x d) = x;
  put_view d : put l (view l d) d = d;
  put_put x y d : put l y (put l x d) = put l y d
}.

(** Two disjoint components. *)
Class LensDisjoint {D X Y} (l : lens D X) (k : lens D Y) : Prop :=
  view_put_other x d : view k (put l x d) = view k d.

Definition zoom {D X E A} (l : lens D X) (m : Go X E A) : Go D E A := λ w,
  let '(w', r) := m (set_db (view l (db w)) w) in (set_db (put l (db w') (db w)) w', r).

Notation "x <- m ;; k" := (gbind m (λ x, k))
  (at level 100, m at next level, right associativity) : go_scope.
Notation "m ;;; k" := (gbind m (λ _, k))
  (at level 100, right associativity) : go_scope.
Notation "m 'or_throw' e" := (mapErr (λ _, e) m) (at level 60, e at next level) : go_scope.

(** [for _, x := range xs { body }]. *)
Fixpoint forM_ {D E A} (xs : list A) (body : A → Go D E unit) : Go D E unit :=
  match xs with
  | [] => ret tt
  | x :: xs => gbind (body x) (λ _, forM_ xs body)
  end.

(** ** Machine integers *)

Definition int64_min : Z := - 2 ^ 63.
Definition int64_max : Z := 2 ^ 63 - 1.
Definition wrap64 (z : Z) : Z := (z + 2 ^ 63) `mod` 2 ^ 64 - 2 ^ 63.
Definition wrap32 (z : Z) : Z := (z + 2 ^ 31) `mod` 2 ^ 32 - 2 ^ 31.
Definition uint32 (z : Z) : Z := z `mod` 2 ^ 32.
Definition in_int64 (z : Z) : bool := (int64_min <=? z)%Z && (z <=? int64_max)%Z.

(** Times are counted in microseconds, PostgreSQL's resolution. *)
Definition second_us : Z := 1000000.

(** ** Running a method: weakest preconditions

    [wp m Q w] says that [m], run in [w], ends in a state and a result that
    satisfy [Q]. The rules below execute a method symbolically; the only ones
    that branch are the outside calls, one goal per outcome. *)

Definition wp {D E A} (m : Go D E A) (Q : world D → result E A → Prop) (w : world D) : Prop :=
  Q (m w).1 (m w).2.

Section Wp.
Context {D E : Type}.
Implicit Types w : world D.

Lemma wp_intro {A} (m : Go D E A) Q w :
  wp m Q w → ∀ w' r, m w = (w', r) → Q w' r.
Proof. unfold wp. intros H w' r Hm. by rewrite Hm in H. Qed.

Lemma wp_run {A} (m : Go D E A) (Q : world D → result E A → Prop) w :
  (∀ w' r, m w = (w', r) → Q w' r) → wp m Q w.
Proof. unfold wp. destruct (m w) as [w' r]; intros H; by apply H. Qed.

Lemma wp_mono {A} (m : Go D E A) (Q Q' : world D → result E A → Prop) w :
  (∀ w' r, Q w' r → Q' w' r) → wp m Q w → wp m Q' w.
Proof. unfold wp. auto. Qed.

Lemma wp_ret {A} (a : A) (Q : world D → result E A → Prop) w :
  Q w (Ok a) → wp (ret a) Q w.
Proof. done. Qed.

Lemma wp_throw {A} (e : E) (Q : world D → result E A → Prop) w :
  Q w (Err e) → wp (throw e) Q w.
Proof. done. Qed.

Lemma wp_bind {A B} (m : Go D E A) (k : A → Go D E B) Q w :
  wp m (λ w' r, match r with Ok a => wp (k a) Q w' | Err e => Q w' (Err e) end) w →
  wp (gbind m k) Q w.
Proof. unfold wp, gbind. by destruct (m w) as [w' [a|e]]. Qed.

Lemma wp_catch {E' A} (m : Go D E A) (Q : world D → result E' (result E A) → Prop) w :
  wp m (λ w' r, Q w' (Ok r)) w → wp (catch m) Q w.
Proof. unfold wp, catch. by destruct (m w). Qed.

Lemma wp_mapErr {E' A} (f : E → E') (m : Go D E A) (Q : world D → result E' A → Prop) w :
  wp m (λ w' r, match r with Ok a => Q w' (Ok a) | Err e => Q w' (Err (f e)) end) w →
  wp (mapErr f m) Q w.
Proof. unfold wp, mapErr. by destruct (m w) as [w' [a|e]]. Qed.

Lemma wp_gets {A} (f : D → A) (Q : world D → result E A → Prop) w :
  Q w (Ok (f (db w))) → wp (gets f) Q w.
Proof. done. Qed.

Lemma wp_puts f (Q : world D → result E unit → Prop) w :
  Q (set_db (f (db w)) w) (Ok tt) → wp (puts f) Q w.
Proof. done. Qed.

Lemma wp_now (Q : world D → result E Z → Prop) w :
  Q w (Ok (clock w)) → wp now Q w.
Proof. done. Qed.

Lemma wp_newID name (Q : world D → result E string → Prop) w :
  Q (World (db w) (clock w) (S (fresh w)) (faults w)) (Ok (name (fresh w))) →
  wp (newID name) Q w.
Proof. done. Qed.

Lemma set_faults_id w : set_faults (faults w) w = w.
Proof. by destruct w. Qed.

Lemma wp_flaky e (Q : world D → result E unit → Prop) w :
  (∀ fs, Q (set_faults fs w) (Ok tt)) →
  (∀ fs, Q (set_faults fs w) (Err e)) →
  wp (flaky e) Q w.
Proof.
  unfold wp, flaky. intros Hok Herr.
  destruct (faults w) as [|[] fs] eqn:Hf; cbn; try done.
  by rewrite <- (set_faults_id w).
Qed.

(** With no fault to come the effect happens. *)
Lemma wp_flaky_up e (Q : world D → result E unit → Prop) w :
  faults w = [] → Q w (Ok tt) → wp (flaky e) Q w.
Proof. unfold wp, flaky. by intros ->. Qed.

Lemma wp_tx {A} eB eC (body : Go D E A) Q w :
  (∀ fs, Q (set_faults fs w) (Err eB)) →
  (∀ fs, wp body (λ w2 r,
     match r with
     | Ok a => (∀ fs', Q (set_faults fs' w2) (Ok a)) ∧
               (∀ fs', Q (set_faults fs' (set_db (db w) w2)) (Err eC))
     | Err e => Q (set_db (db w) w2) (Err e)
     end) (set_faults fs w)) →
  wp (tx eB eC body) Q w.
Proof.
  intros HB Hbody. unfold tx, wp.
  pose proof (wp_flaky eB (λ w1 r, (∃ fs, w1 = set_faults fs w) ∧ r = Ok tt ∨
    (∃ fs, w1 = set_faults fs w) ∧ r = Err eB) w) as Hf.
  unfold wp in Hf. destruct (flaky eB w) as [w1 r1]; cbn in Hf.
  destruct Hf as [[[fs ->] ->]|[[fs ->] ->]]; eauto.
  specialize (Hbody fs). unfold wp in Hbody.
  destruct (body (set_faults fs w)) as [w2 [a|e]]; cbn in *; [|done].
  destruct Hbody as [H1 H2].
  pose proof (wp_flaky eC (λ w1 r, (∃ fs, w1 = set_faults fs w2) ∧ r = Ok tt ∨
    (∃ fs, w1 = set_faults fs w2) ∧ r = Err eC) w2) as Hc.
  unfold wp in Hc. destruct (flaky eC w2) as [w3 r3]; cbn in Hc.
  destruct Hc as [[[fs3 ->] ->]|[[fs3 ->] ->]]; eauto.
Qed.
End Wp.

Lemma wp_zoom {D X E A} (l : lens D X) (m : Go X E A) (Q : world D → result E A → Prop) w :
  wp m (λ w' r, Q (set_db (put l (db w') (db w)) w') r) (set_db (view l (db w)) w) →
  wp (zoom l m) Q w.
Proof. unfold wp, zoom. by destruct (m _). Qed.

Section WpSql.
Context {D : Type}.
Implicit Types w : world D.

Lemma wp_queryRow {A} (f : D → option A) (Q : world D → result dberr A → Prop) w :
  (∀ fs, Q (set_faults fs w) (Err ErrConn)) →
  (∀ fs, Q (set_faults fs w) (match f (db w) with Some a => Ok a | None => Err ErrNoRows end)) →
  wp (queryRow f) Q w.
Proof.
  intros H1 H2. unfold queryRow, wp.
  pose proof (wp_flaky ErrConn (λ w1 r, (∃ fs, w1 = set_faults fs w) ∧ r = Ok tt ∨
    (∃ fs, w1 = set_faults fs w) ∧ r = Err ErrConn) w) as Hf.
  unfold wp in Hf. destruct (flaky ErrConn w) as [w1 r1]; cbn in Hf.
  destruct Hf as [[[fs ->] ->]|[[fs ->] ->]]; eauto; cbn; apply H2.
Qed.

(** The runs themselves, with the fault that is used up. *)
Lemma exec_run (f : D → option D) w :
  exec f w = if hd false (faults w) then (set_faults (tail (faults w)) w, Err ErrConn) else
    match f (db w) with
    | Some d => (World d (clock w) (fresh w) (tail (faults w)), Ok tt)
    | None => (set_faults (tail (faults w)) w, Err ErrConstraint)
    end.
Proof. by destruct w as [d t n [|[] fs]]. Qed.
Lemma queryRow_run {A} (f : D → option A) w :
  queryRow f w = (set_faults (tail (faults w)) w,
    if hd false (faults w) then Err ErrConn else match f (db w) with Some a => Ok a | None => Err ErrNoRows end).
Proof. by destruct w as [d t n [|[] fs]]. Qed.

Lemma wp_exec (f : D → option D) (Q : world D → result dberr unit → Prop) w :
  (∀ fs, Q (set_faults fs w) (Err ErrConn)) →
  (∀ fs, match f (db w) with
         | Some d => Q (set_db d (set_faults fs w)) (Ok tt)
         | None => Q (set_faults fs w) (Err ErrConstraint)
         end) →
  wp (exec f) Q w.
Proof.
  intros H1 H2. unfold exec, wp.
  pose proof (wp_flaky ErrConn (λ w1 r, (∃ fs, w1 = set_faults fs w) ∧ r = Ok tt ∨
    (∃ fs, w1 = set_faults fs w) ∧ r = Err ErrConn) w) as Hf.
  unfold wp in Hf. destruct (flaky ErrConn w) as [w1 r1]; cbn in Hf.
  destruct Hf as [[[fs ->] ->]|[[fs ->] ->]]; eauto; cbn.
  specialize (H2 fs). by destruct (f (db w)).
Qed.
End WpSql.

(** Symbolic execution: one rule per construct; outside calls branch. *)
Ltac go_step :=
  lazymatch goal with
  | |- wp (gbind _ _) _ _ => apply wp_bind; cbn beta iota zeta
  | |- wp (ret _) _ _ => apply wp_ret; cbn beta iota zeta
  | |- wp (throw _) _ _ => apply wp_throw; cbn beta iota zeta
  | |- wp (catch _) _ _ => apply wp_catch; cbn beta iota zeta
  | |- wp (mapErr _ _) _ _ => apply wp_mapErr; cbn beta iota zeta
  | |- wp (gets _) _ _ => apply wp_gets; cbn beta iota zeta
  | |- wp (puts _) _ _ => apply wp_puts; cbn beta iota zeta
  | |- wp now _ _ => apply wp_now; cbn beta iota zeta
  | |- wp (newID _) _ _ => apply wp_newID; cbn beta iota zeta
  | |- wp (flaky _) _ _ => apply wp_flaky; intros ?fs; cbn beta iota zeta
  | |- wp (tx _ _ _) _ _ => apply wp_tx; intros ?fs; cbn beta iota zeta
  | |- wp (queryRow _) _ _ => apply wp_queryRow; intros ?fs; cbn beta iota zeta
  | |- wp (zoom _ _) _ _ => apply wp_zoom; cbn beta iota zeta
  | |- wp (exec _) _ _ => apply wp_exec; intros ?fs; cbn beta iota zeta
  | |- wp (if ?b then _ else _) _ _ => destruct b eqn:?; cbn beta iota zeta
  | |- wp (match ?x with _ => _ end) _ _ => destruct x eqn:?; cbn beta iota zeta
  | |- match (match ?x with _ => _ end) with _ => _ end => destruct x eqn:?; cbn beta iota zeta
  | |- match ?x with _ => _ end => destruct x eqn:?; cbn beta iota zeta
  end.
Ltac go_run := repeat go_step.

(** Turn a rule [lem : wp m Q w] and a run [Hm : m w = (w', r)] into [Q w' r]. *)
Tactic Notation "from_wp" constr(lem) "at" hyp(Hm) "as" ident(H) :=
  pose proof lem as H; unfold wp in H; rewrite Hm in H; cbn [fst snd] in H.

(** ** Generic lemmas *)

Lemma run_snd {A B} (p : A * B) b : p.2 = b → p = (p.1, b).
Proof. intros <-. apply surjective_pairing. Qed.

Lemma wrap64_small z : (int64_min ≤ z ≤ int64_max)%Z → wrap64 z = z.
Proof.
  unfold wrap64, int64_min, int64_max. intros H. rewrite Z.mod_small; lia.
Qed.

Lemma wrap64_range z : (int64_min ≤ wrap64 z ≤ int64_max)%Z.
Proof.
  unfold wrap64, int64_min, int64_max.
  pose proof (Z.mod_pos_bound (z + 2 ^ 63) (2 ^ 64) ltac:(lia)). lia.
Qed.

Lemma wrap32_small z : (- 2 ^ 31 ≤ z < 2 ^ 31)%Z → wrap32 z = z.
Proof. unfold wrap32. intros H. rewrite Z.mod_small; lia. Qed.

Lemma in_int64_spec z : in_int64 z = true ↔ (int64_min ≤ z ≤ int64_max)%Z.
Proof. unfold in_int64. rewrite andb_true_iff, !Z.leb_le. done. Qed.

Lemma String_eqb_neq s t : (s =? t)%string = false ↔ s ≠ t.
Proof. apply String.eqb_neq. Qed.

Create HintDb sb.
Create Rewrite HintDb sb.
#[export] Hint Resolve wrap64_small wrap32_small wrap64_range : sb.
#[export] Hint Rewrite in_int64_spec andb_true_iff orb_true_iff negb_true_iff negb_false_iff
  andb_false_iff orb_false_iff
  Z.leb_le Z.ltb_lt Z.leb_gt Z.ltb_ge Z.eqb_eq Z.eqb_neq String.eqb_eq String_eqb_neq : sb.
(** ** Sums over a table *)

Definition map_sum {V} (f : V → Z) (m : gmap string V) : Z :=
  map_fold (λ _ v acc, f v + acc)%Z 0%Z m.

Lemma map_sum_empty {V} (f : V → Z) : map_sum f ∅ = 0%Z.
Proof. apply map_fold_empty. Qed.

Lemma map_sum_insert {V} (f : V → Z) m k v :
  m !! k = None → map_sum f (<[k:=v]> m) = (f v + map_sum f m)%Z.
Proof. intros Hk. unfold map_sum. rewrite map_fold_insert_L; [done|lia|done]. Qed.

Lemma map_sum_update {V} (f : V → Z) m k v v' :
  m !! k = Some v → map_sum f (<[k:=v']> m) = (map_sum f m - f v + f v')%Z.
Proof.
  intros Hk. rewrite <- insert_delete_eq.
  rewrite map_sum_insert by apply lookup_delete_eq.
  rewrite <- (insert_delete_id m k v) at 2 by done.
  rewrite map_sum_insert by apply lookup_delete_eq. lia.
Qed.

Lemma map_sum_delete {V} (f : V → Z) m k v :
  m !! k = Some v → map_sum f (delete k m) = (map_sum f m - f v)%Z.
Proof.
  intros Hk. rewrite <- (insert_delete_id m k v) at 2 by done.
  rewrite map_sum_insert by apply lookup_delete_eq. lia.
Qed.

Lemma map_sum_nonneg {V} (f : V → Z) (m : gmap string V) : (∀ v, 0 ≤ f v)%Z → (0 ≤ map_sum f m)%Z.
Proof.
  intros Hf. induction m as [|k v m Hk IH] using map_ind; [by rewrite map_sum_empty|].
  rewrite map_sum_insert by done. specialize (Hf v). lia.
Qed.

(** Turn boolean tests into propositions. *)
Ltac boolify :=
  repeat match goal with
  | H : _ = true |- _ => progress autorewrite with sb in H
  | H : _ = false |- _ => progress autorewrite with sb in H
  end; autorewrite with sb.

Lemma map_sum_alter {V} (f : V → Z) (g : V → V) m k :
  (∀ v, f (g v) = f v) → map_sum f (alter g k m) = map_sum f m.
Proof.
  intros Hg. destruct (m !! k) as [v|] eqn:Hk.
  - assert (alter g k m = <[k := g v]> m) as ->.
    { apply map_eq. intros i. rewrite lookup_alter, lookup_insert.
      case_decide; [|done]. subst. by rewrite Hk. }
    rewrite (map_sum_update f m k v) by done. rewrite Hg. lia.
  - assert (alter g k m = m) as ->; [|done].
    apply map_eq. intros i. rewrite lookup_alter. case_decide; [|done]. subst. by rewrite Hk.
Qed.

Lemma sublist_map {A B} (f : A → B) (l k : list A) : l `sublist_of` k → f <$> l `sublist_of` f <$> k.
Proof.
  induction 1; cbn; [apply sublist_nil | by apply sublist_skip | by apply sublist_cons].
Qed.

Lemma sublist_keys {A B} (l k : list (A * B)) : l `sublist_of` k → NoDup k.*1 → NoDup l.*1.
Proof. intros Hl Hk. eapply sublist_NoDup; [done|]. by apply sublist_map. Qed.
