(* ===== verification/Interleaving.v ===== *)
(** * Calls that interleave

    A method of a service is not one atomic step: between two of its outside
    calls (a query, a command of Redis, a message to the broker, a remote call)
    the other requests of the process, other processes and the environment go
    on. Here a method is the sequence of its outside calls, each atomic. A pool
    of such sequences runs over one shared world in every order; a rule in the
    style of rely and guarantee proves an invariant of all runs from one proof per
    sequence. Run on its own, a sequence is the method as the other files have it. *)
From stdpp Require Import relations.
From S2P Require Export Prelude.
Local Open Scope go_scope.

(** ** Methods as sequences of outside calls *)

Inductive Calls (D E A : Type) : Type :=
| Return (r : result E A)
| Then {B : Type} (m : world D → world D * B) (k : B → Calls D E A).
Arguments Return {D E A} r.
Arguments Then {D E A B} m k.

Section Calls.
Context {D : Type}.

(** One outside call. *)
Definition call {E A} (m : Go D E A) : Calls D E A := Then m Return.

Fixpoint cbind {E A B} (p : Calls D E A) (k : A → Calls D E B) : Calls D E B :=
  match p with
  | Return (Ok a) => k a
  | Return (Err e) => Return (Err e)
  | Then m f => Then m (λ b, cbind (f b) k)
  end.

(** The result, error or not, handed on as a value; [f] also turns it. *)
Fixpoint cmap {E E' A A'} (f : result E A → result E' A') (p : Calls D E A) : Calls D E' A' :=
  match p with
  | Return r => Return (f r)
  | Then m k => Then m (λ b, cmap f (k b))
  end.
Definition ccatch {E E' A} : Calls D E A → Calls D E' (result E A) := cmap Ok.
Definition cmapErr {E E' A} (f : E → E') : Calls D E A → Calls D E' A :=
  cmap (λ r, match r with Ok a => Ok a | Err e => Err (f e) end).

Definition cret {E A} (a : A) : Calls D E A := Return (Ok a).
Definition cthrow {E A} (e : E) : Calls D E A := Return (Err e).

(** [for _, x := range xs { body }] *)
Fixpoint cforM_ {E A} (xs : list A) (body : A → Calls D E unit) : Calls D E unit :=
  match xs with
  | [] => cret tt
  | x :: xs => cbind (body x) (λ _, cforM_ xs body)
  end.

(** The sequence without interruption. *)
Fixpoint alone {E A} (p : Calls D E A) : Go D E A := λ w,
  match p with
  | Return r => (w, r)
  | Then m k => let '(w', b) := m w in alone (k b) w'
  end.
End Calls.

Declare Scope calls_scope.
Delimit Scope calls_scope with calls.
Notation "x <- p ;; k" := (cbind p (λ x, k))
  (at level 100, p at next level, right associativity) : calls_scope.
Notation "p ;;; k" := (cbind p (λ _, k))
  (at level 100, right associativity) : calls_scope.
Notation "p 'or_throw' e" := (cmapErr (λ _, e) p) (at level 60, e at next level) : calls_scope.

(** Methods that agree on every world, and what [alone] does to each operation. *)
Section Alone.
Context {D : Type}.

Lemma alone_call {E A} (m : Go D E A) w : alone (call m) w = m w.
Proof. cbn. by destruct (m w). Qed.

Lemma alone_bind {E A B} (p : Calls D E A) (k : A → Calls D E B) (m : Go D E A) (g : A → Go D E B) w :
  (∀ w, alone p w = m w) → (∀ a w, alone (k a) w = g a w) → alone (cbind p k) w = gbind m g w.
Proof.
  intros Hp Hk. unfold gbind. rewrite <- Hp. clear Hp m. revert w.
  induction p as [[a|e]|B' m f IH]; intros w; cbn; [by rewrite Hk|done|]. destruct (m w). by rewrite IH.
Qed.

Lemma alone_cmap {E E' A A'} (f : result E A → result E' A') (p : Calls D E A) w :
  alone (cmap f p) w = ((alone p w).1, f (alone p w).2).
Proof. revert w. induction p as [r|B m k IH]; intros w; cbn; [done|]. destruct (m w). by rewrite IH. Qed.

Lemma alone_catch {E E' A} (p : Calls D E A) (m : Go D E A) w :
  (∀ w, alone p w = m w) → alone (ccatch (E':=E') p) w = catch m w.
Proof. intros Hp. unfold ccatch, catch. rewrite alone_cmap, Hp. by destruct (m w). Qed.

Lemma alone_mapErr {E E' A} (f : E → E') (p : Calls D E A) (m : Go D E A) w :
  (∀ w, alone p w = m w) → alone (cmapErr f p) w = mapErr f m w.
Proof. intros Hp. unfold cmapErr, mapErr. rewrite alone_cmap, Hp. by destruct (m w) as [? []]. Qed.

Lemma alone_forM {E A} (xs : list A) (body : A → Calls D E unit) (body' : A → Go D E unit) w :
  (∀ x w, alone (body x) w = body' x w) → alone (cforM_ xs body) w = forM_ xs body' w.
Proof.
  intros Hb. revert w. induction xs as [|x xs IH]; intros w; [done|]. by apply alone_bind.
Qed.
End Alone.

(** Peel a sequence and its method in step. *)
Ltac alone_step :=
  lazymatch goal with
  | |- alone (cbind _ _) _ = gbind _ _ _ => apply alone_bind; [|intros ?]
  | |- ∀ _, _ => intros ?
  | |- alone (ccatch _) _ = _ => apply alone_catch
  | |- alone (cmapErr _ _) _ = _ => apply alone_mapErr
  | |- alone (cforM_ _ _) _ = _ => apply alone_forM
  | |- alone (call _) _ = _ => apply alone_call
  | |- alone (if ?b then _ else _) _ = _ => destruct b
  | |- alone (match ?x with _ => _ end) _ = _ => destruct x
  | |- alone (Return _) _ = _ => reflexivity
  | |- alone (cret _) _ = _ => reflexivity
  | |- alone (cthrow _) _ = _ => reflexivity
  end.

(** ** Pools *)

Section Pool.
Context {D E A : Type}.
Abbreviation Thread := (Calls D E A).

(** Thread [i] makes its next call. *)
Definition run_thread (i : nat) (c : world D * list Thread) : world D * list Thread :=
  match c.2 !! i with
  | Some (Then m k) => let '(w, b) := m c.1 in (w, <[i := k b]> c.2)
  | _ => c
  end.
Definition run_schedule (schedule : list nat) (c : world D * list Thread) : world D * list Thread :=
  foldl (λ c i, run_thread i c) c schedule.

(** [arrives] says which sequences may start, [outside] what the rest of the
    world may do between two calls. *)
Context (arrives : Thread → Prop) (outside : world D → world D → Prop).

Inductive pool_step : world D * list Thread → world D * list Thread → Prop :=
| pool_call i c : pool_step c (run_thread i c)
| pool_arrival p w ps : arrives p → pool_step (w, ps) (w, ps ++ [p])
| pool_outside w w' ps : outside w w' → pool_step (w, ps) (w', ps).

Lemma run_schedule_steps schedule c : rtc pool_step c (run_schedule schedule c).
Proof. revert c. induction schedule as [|i schedule IH]; intros c; [done|].
  apply (rtc_l _ _ (run_thread i c)); [apply pool_call|apply IH].
Qed.

Lemma arrivals_steps ps w : Forall arrives ps → rtc pool_step (w, []) (w, ps).
Proof.
  induction ps as [|p ps IH] using rev_ind; intros Ha; [done|].
  apply Forall_app in Ha as [Ha Hp]. apply Forall_inv in Hp.
  apply (rtc_r _ (w, ps) _); [by apply IH|by constructor].
Qed.
End Pool.
Arguments pool_step {D E A}.

(** ** Rely and guarantee

    A thread owns a share [o] (the identifiers it drew, say). [rely o w w'] says
    what the owner of [o] lets the others do; a thread whose share grows from [o] to
    [o'] must respect the rely of every share apart from its own. *)
Class Shares (D O : Type) : Type := {
  inv : world D → Prop;
  rely : O → world D → world D → Prop;
  held : O → world D → Prop;
  apart : O → O → Prop;
  nothing : O;
  rely_refl o w : rely o w w;
  rely_trans o w1 w2 w3 : rely o w1 w2 → rely o w2 w3 → rely o w1 w3;
  rely_held o w w' : rely o w w' → held o w → held o w';
  apart_sym o o' : apart o o' → apart o' o;
  nothing_held w : held nothing w;
  nothing_apart o : apart nothing o
}.

Section Sound.
Context {D O : Type} `{Shares D O}.
Implicit Types (w : world D) (o : O).

(** A call that takes [w] to [w'] while the caller's share goes from [o] to [o']. *)
Definition guarantees o o' w w' : Prop :=
  inv w' ∧ held o' w' ∧ ∀ o2, apart o o2 → held o2 w → apart o' o2 ∧ rely o2 w w'.

(** Wherever the others leave the world, the sequence keeps the invariant and
    ends with [Q]. *)
Fixpoint sound {E A} (Q : result E A → O → world D → Prop) (p : Calls D E A) o w : Prop :=
  match p with
  | Return r => ∀ w', rely o w w' → inv w' → held o w' → Q r o w'
  | Then m k => ∀ w', rely o w w' → inv w' → held o w' →
      ∃ o', guarantees o o' w' (m w').1 ∧ sound Q (k (m w').2) o' (m w').1
  end.

Lemma sound_rely {E A} (Q : result E A → O → world D → Prop) p o w w' :
  rely o w w' → sound Q p o w → sound Q p o w'.
Proof. intros Hr. destruct p; cbn; eauto using rely_trans. Qed.

Lemma sound_mono {E A} (Q Q' : result E A → O → world D → Prop) p o w :
  (∀ r o w, Q r o w → Q' r o w) → sound Q p o w → sound Q' p o w.
Proof.
  intros HQ. revert o w. induction p as [r|B m k IH]; intros o w; cbn; [eauto|].
  intros Hs w' Hr Hi Hh. destruct (Hs w' Hr Hi Hh) as (o'&?&?). eauto.
Qed.

(** It is enough to look at the worlds the sequence can start in. *)
Lemma sound_start {E A} (Q : result E A → O → world D → Prop) p o w :
  (∀ w', rely o w w' → inv w' → held o w' → sound Q p o w') → sound Q p o w.
Proof.
  intros Hs. destruct p as [r|B m k]; cbn; intros w' Hr Hi Hh.
  all: by apply (Hs w' Hr Hi Hh w' (rely_refl o w')).
Qed.

Lemma sound_bind {E A B} (Q : result E B → O → world D → Prop) p (k : A → Calls D E B) o w :
  sound (λ r o w, match r with Ok a => sound Q (k a) o w | Err e => sound Q (Return (Err e)) o w end) p o w →
  sound Q (cbind p k) o w.
Proof.
  revert o w. induction p as [[a|e]|B' m f IH]; intros o w; cbn [sound cbind].
  - intros Hs. by apply sound_start.
  - intros Hs w' Hr Hi Hh. by apply (Hs w' Hr Hi Hh w' (rely_refl o w')).
  - intros Hs w' Hr Hi Hh. destruct (Hs w' Hr Hi Hh) as (o'&?&?). eauto.
Qed.

Lemma sound_cmap {E E' A A'} (Q : result E' A' → O → world D → Prop) (f : result E A → result E' A') p o w :
  sound (λ r, Q (f r)) p o w → sound Q (cmap f p) o w.
Proof.
  revert o w. induction p as [r|B m k IH]; intros o w; cbn; [done|].
  intros Hs w' Hr Hi Hh. destruct (Hs w' Hr Hi Hh) as (o'&?&?). eauto.
Qed.

Lemma sound_call {E A} (Q : result E A → O → world D → Prop) (m : Go D E A) o w :
  (∀ w1, rely o w w1 → inv w1 → held o w1 →
     wp m (λ w2 r, ∃ o', guarantees o o' w1 w2 ∧
       ∀ w3, rely o' w2 w3 → inv w3 → held o' w3 → Q r o' w3) w1) →
  sound Q (call m) o w.
Proof. intros Hm w1 Hr Hi Hh. by apply Hm. Qed.

(** A loop keeps an assertion that the others respect. *)
Lemma sound_forM {E A} (P : O → world D → Prop) (xs : list A) (body : A → Calls D E unit) o w :
  (∀ o w w', rely o w w' → P o w → P o w') →
  (∀ x o w, x ∈ xs → P o w → sound (λ _ o w, P o w) (body x) o w) →
  P o w → sound (λ _ o w, P o w) (cforM_ xs body) o w.
Proof.
  intros Hst. revert o w. induction xs as [|x xs IH]; intros o w Hb HP; cbn [cforM_].
  { intros w' Hr _ _. by eapply Hst. }
  apply sound_bind. eapply sound_mono; [|apply Hb; [by left|done]].
  intros [[]|e] o1 w1 HP1; [|intros w' Hr _ _; by eapply Hst]. apply IH; [|done].
  intros y o2 w2 Hy. apply Hb. by right.
Qed.
End Sound.
#[global] Arguments sound {D O _ E A} Q p o w : simpl never.

(** ** The invariant of a pool *)

Section PoolInvariant.
Context {D O E A : Type} `{Shares D O}.
Abbreviation Thread := (Calls D E A).
Context (arrives : Thread → Prop) (outside : world D → world D → Prop) (Q : result E A → O → world D → Prop).
Context (arrival_sound : ∀ p w, arrives p → inv w → sound Q p nothing w).
Context (outside_respects : ∀ w w', inv w → outside w w' → inv w' ∧ ∀ o, held o w → rely o w w').

(** Every thread is sound for a share of its own. *)
Definition pool_ok (c : world D * list Thread) : Prop :=
  inv c.1 ∧ ∃ os : list O,
    Forall2 (λ p o, held o c.1 ∧ sound Q p o c.1) c.2 os ∧
    ∀ i j o o', i ≠ j → os !! i = Some o → os !! j = Some o' → apart o o'.

Lemma run_thread_ok i c : pool_ok c → pool_ok (run_thread i c).
Proof.
  destruct c as [w ps]. intros (Hi&os&Hps&Hap). unfold run_thread. cbn in *.
  destruct (ps !! i) as [p|] eqn:Hp; [|by split; [|exists os]].
  destruct (Forall2_lookup_l _ _ _ _ _ Hps Hp) as (o&Ho&Hh&Hs).
  destruct p as [r|B m k]; [by split; [|exists os]|].
  destruct (Hs w (rely_refl o w) Hi Hh) as (o'&(Hi'&Hh'&Hoth)&Hs').
  destruct (m w) as [w' b]. cbn in *. split; [done|]. exists (<[i := o']> os). cbn.
  assert (∀ j o2, j ≠ i → os !! j = Some o2 → held o2 w → apart o' o2 ∧ rely o2 w w') as Hothers.
  { intros j o2 Hj Hoj. apply Hoth. by eapply (Hap i j). }
  split.
  - apply Forall2_same_length_lookup_2; [rewrite !length_insert; by eapply Forall2_length|].
    intros j p2 o2. destruct (decide (j = i)) as [->|Hj].
    + intros Hp2 Ho2. rewrite list_lookup_insert_eq in Hp2 by (by eapply lookup_lt_Some).
      rewrite list_lookup_insert_eq in Ho2 by (by eapply lookup_lt_Some). by simplify_eq.
    + rewrite !list_lookup_insert_ne by done. intros Hp2 Ho2.
      destruct (Forall2_lookup_lr _ _ _ _ _ _ Hps Hp2 Ho2) as [Hh2 Hs2].
      destruct (Hothers j o2 Hj Ho2 Hh2) as [_ Hr2].
      split; [by eapply rely_held|by eapply sound_rely].
  - assert (i < length os)%nat as Hlt by (by eapply lookup_lt_Some).
    assert (∀ j o2, j ≠ i → os !! j = Some o2 → apart o' o2) as Hone.
    { intros j o2 Hj Ho2. destruct (Forall2_lookup_r _ _ _ _ _ Hps Ho2) as (p2&_&Hh2&_).
      by apply (Hothers j o2). }
    intros j l o1 o2 Hne H1 H2.
    destruct (decide (j = i)) as [->|Hj], (decide (l = i)) as [->|Hl]; [done| | |].
    all: rewrite ?list_lookup_insert_eq in H1 by done; rewrite ?list_lookup_insert_eq in H2 by done;
      rewrite ?list_lookup_insert_ne in H1 by done; rewrite ?list_lookup_insert_ne in H2 by done; simplify_eq.
    + by apply (Hone l).
    + apply apart_sym. by apply (Hone j).
    + by apply (Hap j l).
Qed.

Lemma pool_step_ok c c' : pool_step arrives outside c c' → pool_ok c → pool_ok c'.
Proof.
  intros [i c0|p w ps Hp|w w' ps Hw] Hok; [by apply run_thread_ok| |]; destruct Hok as (Hi&os&Hps&Hap); cbn in *.
  - split; [done|]. exists (os ++ [nothing]). cbn. split.
    + apply Forall2_app; [done|]. constructor; [|done]. split; [apply nothing_held|by apply arrival_sound].
    + intros i j o o' Hne Ho Ho'.
      apply lookup_app_Some in Ho as [Ho|[_ Ho]]; apply lookup_app_Some in Ho' as [Ho'|[_ Ho']];
        rewrite ?list_lookup_singleton_Some in *; destruct_and?; subst.
      * by eapply Hap.
      * apply apart_sym, nothing_apart.
      * apply nothing_apart.
      * apply nothing_apart.
  - destruct (outside_respects w w' Hi Hw) as [Hi' Hr]. split; [done|]. exists os. split; [|done].
    eapply Forall2_impl; [exact Hps|]. intros p o [Hh Hs]. split; [eapply rely_held|eapply sound_rely]; eauto.
Qed.

(** From an empty pool, the invariant holds in every state that is reached, and
    every sequence that has returned satisfies [Q]. *)
Lemma pool_invariant w c :
  inv w → rtc (pool_step arrives outside) (w, []) c →
  inv c.1 ∧ ∀ i r, c.2 !! i = Some (Return r) → ∃ o, Q r o c.1.
Proof.
  intros Hi Hsteps.
  assert (pool_ok c) as (Hc&os&Hps&_).
  { assert (pool_ok (w, [])) as Hok by (split; [done|]; exists []; by split).
    revert Hok. clear Hi. induction Hsteps; eauto using pool_step_ok. }
  split; [done|]. intros i r Hr. destruct (Forall2_lookup_l _ _ _ _ _ Hps Hr) as (o&_&Hh&Hs).
  exists o. by apply Hs; [apply rely_refl| |].
Qed.
End PoolInvariant.
