(* ===== verification/Float64.v ===== *)
(** * Go's float64

    The code computes prices in [float64]. A definition that uses floats is
    written once, over the operations of the class below, and is used at two
    instances: [binary64], the machine arithmetic of IEEE 754 with its rounding,
    infinities and NaN, which evaluates; and the real numbers, in which the
    mathematical claims about prices are stated. *)
From S2P Require Export Prelude.
From Stdlib Require Import SpecFloat Reals Lra.

Class FloatOps (F : Type) : Type := {
  fadd : F → F → F;
  fsub : F → F → F;
  fmul : F → F → F;
  fdiv : F → F → F;
  fneg : F → F;
  flt : F → F → bool;
  fle : F → F → bool;
  feq : F → F → bool;
  float_of_int : Z → F;          (** [float64(n)] *)
  int_of_float : F → Z;          (** [int64(x)], truncation *)
  math_Round : F → F;            (** half away from zero *)
  math_Log : F → F;
  math_Exp : F → F;
  is_finite : F → bool;
  as_integer : F → option Z      (** the value, when it is a finite integer *)
}.

(** A constant of the source with a decimal point: the rational [n/d], rounded once. *)
Definition lit {F} `{FloatOps F} (n d : Z) : F := fdiv (float_of_int n) (float_of_int d).
Definition fnum {F} `{FloatOps F} (n : Z) : F := float_of_int n.
Definition fgt {F} `{FloatOps F} (x y : F) : bool := flt y x.
Definition fge {F} `{FloatOps F} (x y : F) : bool := fle y x.

(** ** IEEE 754 binary64 *)

Definition binary64 : Type := spec_float.
Definition prec64 : Z := 53.
Definition emax64 : Z := 1024.

(** What Go leaves to the platform: the last bits of [math.Log] and
    [math.Exp], and the conversion to an integer of a value out of range. *)
Class Platform : Type := {
  platform_Log : binary64 → binary64;
  platform_Exp : binary64 → binary64;
  platform_int : binary64 → Z
}.

(** The integer part of a finite value, towards zero. *)
Definition b64_trunc (s : bool) (m : positive) (e : Z) : Z :=
  let a := if (0 <=? e)%Z then Z.shiftl (Zpos m) e else Z.shiftr (Zpos m) (- e) in
  if s then (- a)%Z else a.

Definition b64_int `{Platform} (x : binary64) : Z :=
  match x with
  | S754_zero _ => 0
  | S754_finite s m e =>
      let z := b64_trunc s m e in if in_int64 z then z else platform_int x
  | _ => platform_int x
  end.

Definition b64_of_int (z : Z) : binary64 := binary_normalize prec64 emax64 z 0 false.

Definition b64_round (x : binary64) : binary64 :=
  match x with
  | S754_finite s m e =>
      if (0 <=? e)%Z then x
      else let q := Z.shiftr (Zpos m + Z.shiftl 1 (- e - 1)) (- e) in
           binary_normalize prec64 emax64 (if s then (- q)%Z else q) 0 s
  | _ => x
  end.

Definition b64_finite (x : binary64) : bool :=
  match x with S754_zero _ | S754_finite _ _ _ => true | _ => false end.

Definition b64_integer (x : binary64) : option Z :=
  match x with
  | S754_zero _ => Some 0%Z
  | S754_finite s m e =>
      let z := b64_trunc s m e in
      if (0 <=? e)%Z then Some z
      else if (Z.shiftl (Z.abs z) (- e) =? Zpos m)%Z then Some z else None
  | _ => None
  end.

#[export] Instance binary64_ops `{Platform} : FloatOps binary64 := {|
  fadd := SFadd prec64 emax64;
  fsub := SFsub prec64 emax64;
  fmul := SFmul prec64 emax64;
  fdiv := SFdiv prec64 emax64;
  fneg := SFopp;
  flt := SFltb;
  fle := SFleb;
  feq := SFeqb;
  float_of_int := b64_of_int;
  int_of_float := b64_int;
  math_Round := b64_round;
  math_Log := platform_Log;
  math_Exp := platform_Exp;
  is_finite := b64_finite;
  as_integer := b64_integer
|}.

(** A platform for evaluations that never reach what it stands for. *)
Definition inert_platform : Platform :=
  {| platform_Log := λ x, x; platform_Exp := λ x, x; platform_int := λ _, int64_min |}.

(** ** Exact arithmetic *)

Definition Rltb (x y : R) : bool := if Rlt_dec x y then true else false.
Definition Rleb (x y : R) : bool := if Rle_dec x y then true else false.
Definition Reqb (x y : R) : bool := if Req_dec_T x y then true else false.
Definition R_trunc (x : R) : Z := if Rlt_dec x 0 then (- Int_part (- x))%Z else Int_part x.
Definition R_round (x : R) : R :=
  IZR (if Rlt_dec x 0 then (- Int_part (- x + / 2))%Z else Int_part (x + / 2)).

#[export] Instance real_ops : FloatOps R := {|
  fadd := Rplus;
  fsub := Rminus;
  fmul := Rmult;
  fdiv := Rdiv;
  fneg := Ropp;
  flt := Rltb;
  fle := Rleb;
  feq := Reqb;
  float_of_int := IZR;
  int_of_float := R_trunc;
  math_Round := R_round;
  math_Log := ln;
  math_Exp := exp;
  is_finite := λ _, true;
  as_integer := λ x, if Req_dec_T x (IZR (Int_part x)) then Some (Int_part x) else None
|}.

(** ** Lemmas on exact arithmetic *)

Lemma Rltb_true x y : Rltb x y = true ↔ (x < y)%R.
Proof. unfold Rltb. destruct (Rlt_dec x y); naive_solver. Qed.
Lemma Rltb_false x y : Rltb x y = false ↔ (y <= x)%R.
Proof. unfold Rltb. destruct (Rlt_dec x y); split; intros; try done; lra. Qed.
Lemma Rleb_true x y : Rleb x y = true ↔ (x <= y)%R.
Proof. unfold Rleb. destruct (Rle_dec x y); naive_solver. Qed.
Lemma Rleb_false x y : Rleb x y = false ↔ (y < x)%R.
Proof. unfold Rleb. destruct (Rle_dec x y); split; intros; try done; lra. Qed.

Lemma Int_part_IZR_add z r : (0 <= r < 1)%R → Int_part (IZR z + r) = z.
Proof.
  intros Hr. unfold Int_part.
  assert ((z + 1)%Z = up (IZR z + r)) as <-; [|lia].
  apply tech_up; rewrite plus_IZR; lra.
Qed.
Lemma Int_part_IZR z : Int_part (IZR z) = z.
Proof. rewrite <- (Rplus_0_r (IZR z)). apply Int_part_IZR_add. lra. Qed.

Lemma R_trunc_IZR z : R_trunc (IZR z) = z.
Proof.
  unfold R_trunc. destruct (Rlt_dec _ _).
  - rewrite <- opp_IZR, Int_part_IZR. lia.
  - apply Int_part_IZR.
Qed.

Lemma R_round_IZR z : R_round (IZR z) = IZR z.
Proof.
  unfold R_round. f_equal. destruct (Rlt_dec _ _).
  - rewrite <- opp_IZR, Int_part_IZR_add by lra. lia.
  - apply Int_part_IZR_add. lra.
Qed.

Lemma Int_part_bounds x : (IZR (Int_part x) <= x < IZR (Int_part x) + 1)%R.
Proof. destruct (base_Int_part x). lra. Qed.

Lemma R_trunc_nonneg x : (0 <= x)%R → R_trunc x = Int_part x.
Proof. intros Hx. unfold R_trunc. destruct (Rlt_dec x 0); [lra|done]. Qed.

(** The nearest integer is within one half. *)
Lemma R_round_close x : (Rabs (R_round x - x) <= / 2)%R.
Proof.
  unfold R_round. apply Rabs_le. destruct (Rlt_dec x 0).
  - rewrite opp_IZR. pose proof (Int_part_bounds (- x + / 2)). lra.
  - pose proof (Int_part_bounds (x + / 2)). lra.
Qed.

Create Rewrite HintDb real.
#[export] Hint Rewrite Rltb_true Rltb_false Rleb_true Rleb_false : real.
