(* ===== verification/GoStrings.v ===== *)
(** * Strings and numbers of Go's standard library

    [strconv.Itoa]/[%d] is stdpp's [pretty] on [Z]; [strconv.ParseInt(s, 10, 64)]
    and [Atoi] are [ParseInt]. *)
From S2P Require Export Prelude.
From Stdlib Require Import Ascii.
Local Open Scope Z_scope.

Definition digit_value (c : ascii) : option Z :=
  let n := Z.of_N (N_of_ascii c) in
  if (48 <=? n) && (n <=? 57) then Some (n - 48) else None.

(** The decimal digits of [s] appended to those of [acc]. *)
Fixpoint parse_digits (acc : Z) (s : string) : option Z :=
  match s with
  | EmptyString => Some acc
  | String c s => match digit_value c with
                  | Some d => parse_digits (acc * 10 + d) s
                  | None => None
                  end
  end.

Definition parse_unsigned (s : string) : option Z :=
  match s with EmptyString => None | _ => parse_digits 0 s end.

Definition ParseInt (s : string) : option Z :=
  match (match s with
         | String "-"%char s => Z.opp <$> parse_unsigned s
         | String "+"%char s => parse_unsigned s
         | _ => parse_unsigned s
         end) with
  | Some z => if in_int64 z then Some z else None
  | None => None
  end.

(** ** Printing and reading back *)

Lemma digit_value_char n : (n < 10)%N → digit_value (pretty_N_char n) = Some (Z.of_N n).
Proof.
  intros Hn. assert (n = 0 ∨ n = 1 ∨ n = 2 ∨ n = 3 ∨ n = 4 ∨ n = 5 ∨ n = 6 ∨ n = 7 ∨ n = 8 ∨ n = 9)%N
    as Hc by lia.
  repeat (destruct Hc as [-> | Hc]; [done|]). by subst.
Qed.

Lemma parse_digits_pretty_go x s :
  parse_digits 0 (pretty_N_go x s) = parse_digits (Z.of_N x) s.
Proof.
  revert s. induction (N.lt_wf_0 x) as [x _ IH]; intros s.
  assert (x = 0 ∨ 0 < x)%N as [-> | Hx] by lia; [done|].
  rewrite pretty_N_go_step by done. rewrite IH by (by apply N.div_lt).
  cbn [parse_digits]. rewrite digit_value_char by (by apply N.mod_lt).
  f_equal. rewrite N2Z.inj_div, N2Z.inj_mod. pose proof (Z.div_mod (Z.of_N x) (Z.of_N 10)). lia.
Qed.

Lemma pretty_N_nonempty (n : N) : ∃ c s, pretty n = String c s ∧ digit_value c ≠ None.
Proof.
  unfold pretty, pretty_N. case_decide as Hn; [by eexists _, _|].
  assert (∀ x s, (0 < x)%N → ∃ c s', pretty_N_go x s = String c s' ∧ digit_value c ≠ None) as H;
    [|apply H; lia].
  clear. intros x. induction (N.lt_wf_0 x) as [x _ IH]; intros s Hx.
  rewrite pretty_N_go_step by done.
  destruct (N.eq_0_gt_0_cases (x `div` 10)%N) as [-> | Hd].
  - rewrite pretty_N_go_0. eexists _, _. split; [done|].
    by rewrite digit_value_char by (by apply N.mod_lt).
  - apply IH; [by apply N.div_lt|done].
Qed.

Lemma parse_unsigned_pretty (n : N) : parse_unsigned (pretty n) = Some (Z.of_N n).
Proof.
  destruct (pretty_N_nonempty n) as (c&s&Hp&_).
  unfold parse_unsigned. rewrite Hp, <- Hp. clear.
  unfold pretty, pretty_N. case_decide; [by subst|]. apply parse_digits_pretty_go.
Qed.

Lemma ParseInt_pretty z : int64_min ≤ z ≤ int64_max → ParseInt (pretty z) = Some z.
Proof.
  intros Hz. apply in_int64_spec in Hz as Hb.
  assert (∀ n : N, ∃ c s, pretty n = String c s ∧ c ≠ "-"%char ∧ c ≠ "+"%char) as Hc.
  { intros n. destruct (pretty_N_nonempty n) as (c&s&Hp&Hd). exists c, s.
    split; [done|]. split; intros ->; by apply Hd. }
  assert (∀ n : N, ParseInt (pretty n) = if in_int64 (Z.of_N n) then Some (Z.of_N n) else None) as Hpos.
  { intros n. unfold ParseInt. destruct (Hc n) as (c&s&Hp&H1&H2).
    pose proof (parse_unsigned_pretty n) as Hu. rewrite Hp in *.
    assert (∀ k1 k2 : option Z, match String c s with
      | String "-"%char _ => k1 | String "+"%char _ => k2 | _ => parse_unsigned (String c s) end
      = parse_unsigned (String c s)) as Hm.
    { intros. destruct c as [[] [] [] [] [] [] [] []]; try done. }
    clear Hc. destruct c as [[] [] [] [] [] [] [] []]; try done; by rewrite Hu. }
  destruct z as [|p|p].
  - done.
  - change (pretty (Zpos p)) with (pretty (Npos p)). rewrite Hpos. cbn [Z.of_N]. by rewrite Hb.
  - change (pretty (Zneg p)) with (String "-" (pretty (Npos p))). unfold ParseInt.
    rewrite parse_unsigned_pretty. cbn [fmap option_fmap option_map Z.of_N].
    change (- Zpos p) with (Zneg p). by rewrite Hb.
Qed.
