(* ===== verification/GoTime.v ===== *)
(** * Times as RFC 3339 strings

    [t.UTC().Format(time.RFC3339Nano)] and [time.Parse(time.RFC3339Nano, s)] on
    times counted in microseconds since 1970, on the proleptic Gregorian
    calendar; years 0 to 9999. The theorem: what is printed reads back as the
    same time. *)
From S2P Require Export GoStrings.
From Stdlib Require Import Ascii.
Local Open Scope Z_scope.

Definition day_s : Z := 86400.

(** ** Calendar *)

Record civil : Type := Civil { year : Z; month : Z; day : Z }.

(** Days are counted within 400-year eras of 146097 days that start in March. *)
Definition civil_from_days (z : Z) : civil :=
  let z := z + 719468 in
  let era := z / 146097 in
  let doe := z `mod` 146097 in
  let yoe := (doe - doe / 1460 + doe / 36524 - doe / 146096) / 365 in
  let doy := doe - (365 * yoe + yoe / 4 - yoe / 100) in
  let mp := (5 * doy + 2) / 153 in
  let m := if mp <? 10 then mp + 3 else mp - 9 in
  Civil (yoe + era * 400 + (if m <=? 2 then 1 else 0)) m (doy - (153 * mp + 2) / 5 + 1).

Definition days_from_civil (c : civil) : Z :=
  let y := if month c <=? 2 then year c - 1 else year c in
  let era := y / 400 in
  let yoe := y `mod` 400 in
  let doy := (153 * (if 2 <? month c then month c - 3 else month c + 9) + 2) / 5 + day c - 1 in
  let doe := yoe * 365 + yoe / 4 - yoe / 100 + doy in
  era * 146097 + doe - 719468.

Definition leap (y : Z) : bool :=
  (y `mod` 4 =? 0) && (negb (y `mod` 100 =? 0) || (y `mod` 400 =? 0)).
Definition days_in (y m : Z) : Z :=
  if m =? 2 then if leap y then 29 else 28
  else if (m =? 4) || (m =? 6) || (m =? 9) || (m =? 11) then 30 else 31.

(** ** Printing *)

(** [n] in decimal, at least [width] digits. *)
Definition pad (width : nat) (n : Z) : string :=
  let s := pretty n in
  String.concat "" (repeat "0" (width - String.length s)) +:+ s.

Fixpoint trim_zeros (s : string) : string :=
  match s with
  | EmptyString => EmptyString
  | String c s =>
      match trim_zeros s with
      | EmptyString => if Ascii.eqb c "0"%char then EmptyString else String c EmptyString
      | s' => String c s'
      end
  end.

Definition format_fraction (us : Z) : string :=
  if us =? 0 then "" else "." +:+ trim_zeros (pad 6 us).

Definition FormatRFC3339Nano (t : Z) : string :=
  let s := t / second_us in
  let c := civil_from_days (s / day_s) in
  let sod := s `mod` day_s in
  pad 4 (year c) +:+ "-" +:+ pad 2 (month c) +:+ "-" +:+ pad 2 (day c) +:+ "T" +:+
  pad 2 (sod / 3600) +:+ ":" +:+ pad 2 ((sod / 60) `mod` 60) +:+ ":" +:+ pad 2 (sod `mod` 60) +:+
  format_fraction (t `mod` second_us) +:+ "Z".

(** [time.RFC3339], without the fraction. *)
Definition FormatRFC3339 (t : Z) : string := FormatRFC3339Nano (t / second_us * second_us).

(** ** Reading *)

(** A number of exactly [n] digits, and the rest of the string. *)
Fixpoint take_digits (n : nat) (acc : Z) (s : string) : option (Z * string) :=
  match n, s with
  | O, _ => Some (acc, s)
  | S n, String c s =>
      match digit_value c with Some d => take_digits n (acc * 10 + d) s | None => None end
  | S _, EmptyString => None
  end.

Definition expect (c : Ascii.ascii) (s : string) : option string :=
  match s with
  | String c' s => if Ascii.eqb c c' then Some s else None
  | EmptyString => None
  end.

(** The hour may have one digit. *)
Definition take_hour (s : string) : option (Z * string) :=
  match take_digits 2 0 s with Some r => Some r | None => take_digits 1 0 s end.

(** The digits of a fraction: their value in microseconds, those beyond the
    sixth dropped, when there is at least one. *)
Fixpoint take_fraction (scale acc : Z) (s : string) : Z * string :=
  match s with
  | String c s' =>
      match digit_value c with
      | Some d => take_fraction (scale / 10) (acc + d * scale) s'
      | None => (acc, s)
      end
  | EmptyString => (acc, s)
  end.
Definition parse_fraction (s : string) : Z * string :=
  match s with
  | String c (String d s') =>
      if (Ascii.eqb c "."%char || Ascii.eqb c ","%char) && bool_decide (is_Some (digit_value d))
      then take_fraction 100000 0 (String d s') else (0, s)
  | _ => (0, s)
  end.

(** [Z] or [+hh:mm] or [-hh:mm], the end of the string: the offset in seconds. *)
Definition parse_zone (s : string) : option Z :=
  match s with
  | "Z" => Some 0
  | String c s =>
      if Ascii.eqb c "+"%char || Ascii.eqb c "-"%char then
        '(h, s) ← take_digits 2 0 s;
        s ← expect ":"%char s;
        '(m, s) ← take_digits 2 0 s;
        if bool_decide (s = EmptyString) && (h <=? 24) && (m <=? 60)
        then Some ((if Ascii.eqb c "-"%char then -1 else 1) * (h * 3600 + m * 60)) else None
      else None
  | EmptyString => None
  end.

Definition ParseRFC3339Nano (s : string) : option Z :=
  '(y, s) ← take_digits 4 0 s;
  s ← expect "-"%char s;
  '(mo, s) ← take_digits 2 0 s;
  s ← expect "-"%char s;
  '(d, s) ← take_digits 2 0 s;
  s ← expect "T"%char s;
  '(h, s) ← take_hour s;
  s ← expect ":"%char s;
  '(mi, s) ← take_digits 2 0 s;
  s ← expect ":"%char s;
  '(sec, s) ← take_digits 2 0 s;
  let '(us, s) := parse_fraction s in
  offset ← parse_zone s;
  if (1 <=? mo) && (mo <=? 12) && (1 <=? d) && (d <=? days_in y mo) &&
     (h <? 24) && (mi <? 60) && (sec <? 60)
  then Some ((days_from_civil (Civil y mo d) * day_s + h * 3600 + mi * 60 + sec - offset) * second_us + us)
  else None.

Example format_example : FormatRFC3339Nano 1772368245120000 = "2026-03-01T12:30:45.12Z".
Proof. vm_compute. reflexivity. Qed.
Example parse_example : ParseRFC3339Nano "2026-03-01T12:30:45.12Z" = Some 1772368245120000.
Proof. vm_compute. reflexivity. Qed.
Example parse_offset_example : ParseRFC3339Nano "2026-03-01T13:30:45.12+01:00" = Some 1772368245120000.
Proof. vm_compute. reflexivity. Qed.
Example parse_leap_example : ParseRFC3339Nano "2025-02-29T00:00:00Z" = None.
Proof. vm_compute. reflexivity. Qed.

(** ** Reading back what was printed *)

(** The year of the era, the day of that year (both from March) and the month. *)
Definition yoe_of (doe : Z) : Z := (doe - doe / 1460 + doe / 36524 - doe / 146096) / 365.
Definition doy_of (doe : Z) : Z := doe - (365 * yoe_of doe + yoe_of doe / 4 - yoe_of doe / 100).

Lemma yoe_range doe : 0 <= doe < 146097 → 0 <= yoe_of doe <= 399 ∧ 0 <= doy_of doe <= 365.
Proof. intros H. unfold doy_of, yoe_of. Z.to_euclidean_division_equations. lia. Qed.

(** Only a leap year, counted from March, has a day 365. *)
Lemma leap_day doe :
  0 <= doe < 146097 → doy_of doe = 365 →
  (yoe_of doe + 1) `mod` 4 = 0 ∧ ((yoe_of doe + 1) `mod` 100 ≠ 0 ∨ (yoe_of doe + 1) `mod` 400 = 0).
Proof. intros H. unfold doy_of, yoe_of. intros Hd. Z.to_euclidean_division_equations. lia. Qed.

Lemma days_from_civil_from_days z : days_from_civil (civil_from_days z) = z.
Proof.
  unfold civil_from_days. set (era := (z + 719468) / 146097). set (doe := (z + 719468) mod 146097).
  assert (0 <= doe < 146097) as Hdoe by (apply Z.mod_pos_bound; lia).
  assert (z + 719468 = 146097 * era + doe) as Hz by (apply Z.div_mod; lia).
  fold (yoe_of doe). fold (doy_of doe).
  pose proof (yoe_range doe Hdoe) as [Hy Hd].
  assert (doe = 365 * yoe_of doe + yoe_of doe / 4 - yoe_of doe / 100 + doy_of doe) as Hdec by (unfold doy_of; lia).
  clearbody doe era. revert Hdec Hy Hd. generalize (yoe_of doe) as yoe, (doy_of doe) as doy. intros yoe doy Hdec Hy Hd.
  set (mp := (5 * doy + 2) / 153).
  assert (0 <= mp <= 11) as Hmp by (unfold mp; Z.to_euclidean_division_equations; lia).
  unfold days_from_civil. cbn [year month day].
  assert ((if 2 <? (if mp <? 10 then mp + 3 else mp - 9) then (if mp <? 10 then mp + 3 else mp - 9) - 3
           else (if mp <? 10 then mp + 3 else mp - 9) + 9) = mp) as ->.
  { destruct (Z.ltb_spec mp 10); [rewrite (proj2 (Z.ltb_lt 2 (mp + 3)))|rewrite (proj2 (Z.ltb_ge 2 (mp - 9)))]; lia. }
  assert (∀ y m, (if m <=? 2 then y + (if m <=? 2 then 1 else 0) - 1 else y + (if m <=? 2 then 1 else 0)) = y) as ->.
  { intros y m. destruct (m <=? 2); lia. }
  assert ((yoe + era * 400) / 400 = era) as -> by (Z.to_euclidean_division_equations; lia).
  assert ((yoe + era * 400) mod 400 = yoe) as -> by (Z.to_euclidean_division_equations; lia).
  lia.
Qed.

Lemma civil_valid z :
  let c := civil_from_days z in 1 <= month c <= 12 ∧ 1 <= day c <= days_in (year c) (month c).
Proof.
  unfold civil_from_days. set (era := (z + 719468) / 146097). set (doe := (z + 719468) mod 146097).
  assert (0 <= doe < 146097) as Hdoe by (apply Z.mod_pos_bound; lia).
  fold (yoe_of doe). fold (doy_of doe).
  pose proof (yoe_range doe Hdoe) as [Hy Hd]. pose proof (leap_day doe Hdoe) as Hleap.
  clearbody doe era. revert Hy Hd Hleap. generalize (yoe_of doe) as yoe, (doy_of doe) as doy. intros yoe doy Hy Hd Hleap.
  set (mp := (5 * doy + 2) / 153).
  assert (0 <= mp <= 11) as Hmp by (unfold mp; Z.to_euclidean_division_equations; lia).
  assert (153 * mp <= 5 * doy + 2 < 153 * (mp + 1)) as Hdoy
    by (unfold mp; Z.to_euclidean_division_equations; lia).
  clearbody mp. cbn [year month day].
  set (m := if mp <? 10 then mp + 3 else mp - 9).
  assert (m = if mp <? 10 then mp + 3 else mp - 9) as Hm by done. clearbody m. unfold days_in.
  destruct (decide (mp = 11)) as [->|Hmp11].
  2: { assert (doy - (153 * mp + 2) / 5 + 1 >= 1) by (Z.to_euclidean_division_equations; lia).
       assert (doy - (153 * mp + 2) / 5 + 1 <= 31) by (Z.to_euclidean_division_equations; lia).
       destruct (Z.ltb_spec mp 10).
       all: destruct (Z.eqb_spec m 2); [lia|].
       all: destruct (_ || _) eqn:E; [|lia].
       all: rewrite !orb_true_iff, !Z.eqb_eq in E.
       all: assert (mp = 1 ∨ mp = 3 ∨ mp = 6 ∨ mp = 8) as [->|[->|[->| ->]]] by lia.
       all: split; [lia|]; Z.to_euclidean_division_equations; lia. }
  change (11 <? 10) with false in Hm. change ((153 * 11 + 2) / 5) with 337. subst m.
  change (11 - 9 =? 2) with true. change (11 - 9 <=? 2) with true. cbn. unfold leap.
  split; [lia|]. split; [lia|].
  destruct (decide (doy = 365)) as [Hlast|Hlast].
  - destruct (Hleap Hlast) as [H4 H100].
    assert ((yoe + era * 400 + 1) mod 4 = 0) as -> by (Z.to_euclidean_division_equations; lia).
    cbn. destruct (Z.eqb_spec ((yoe + era * 400 + 1) mod 100) 0); cbn; [|lia].
    assert ((yoe + era * 400 + 1) mod 400 = 0) as ->; [|cbn; lia].
    Z.to_euclidean_division_equations. lia.
  - destruct (_ && _); lia.
Qed.

Lemma year_range z : -719528 <= z < 2932897 → 0 <= year (civil_from_days z) <= 9999.
Proof.
  intros Hz. unfold civil_from_days. set (era := (z + 719468) / 146097). set (doe := (z + 719468) mod 146097).
  assert (0 <= doe < 146097) as Hdoe by (apply Z.mod_pos_bound; lia).
  assert (z + 719468 = 146097 * era + doe) as He by (apply Z.div_mod; lia).
  fold (yoe_of doe). fold (doy_of doe).
  pose proof (yoe_range doe Hdoe) as [Hy Hd].
  assert (doe = 365 * yoe_of doe + yoe_of doe / 4 - yoe_of doe / 100 + doy_of doe) as Hdec by (unfold doy_of; lia).
  clearbody doe era. revert Hdec Hy Hd. generalize (yoe_of doe) as yoe, (doy_of doe) as doy. intros yoe doy Hdec Hy Hd.
  set (mp := (5 * doy + 2) / 153).
  assert (306 <= doy → 10 <= mp) as Hmp1 by (unfold mp; Z.to_euclidean_division_equations; lia).
  assert (doy < 306 → mp < 10) as Hmp2 by (unfold mp; Z.to_euclidean_division_equations; lia).
  assert (0 <= mp) as Hmp0 by (unfold mp; Z.to_euclidean_division_equations; lia).
  assert (mp <= 11) as Hmp3 by (unfold mp; Z.to_euclidean_division_equations; lia).
  clearbody mp. cbn [year]. assert (-1 <= era <= 24) as Hera by lia.
  destruct (Z.ltb_spec mp 10); [rewrite (proj2 (Z.leb_gt (mp + 3) 2)) by lia|rewrite (proj2 (Z.leb_le (mp - 9) 2)) by lia];
    (destruct (decide (era = -1)) as [->|]; [|destruct (decide (era = 24)) as [->|]]);
    Z.to_euclidean_division_equations; lia.
Qed.

(** The digits of a fixed-width field. *)
Lemma append_cons c (s t : string) : String c s +:+ t = String c (s +:+ t).
Proof. done. Qed.
Lemma append_nil (t : string) : "" +:+ t = t.
Proof. done. Qed.
Lemma take_digits_all s acc v rest :
  parse_digits acc s = Some v → take_digits (String.length s) acc (s +:+ rest) = Some (v, rest).
Proof.
  revert acc. induction s as [|c s IH]; intros acc; [by intros [= ->]|].
  rewrite append_cons. cbn. destruct (digit_value c); [apply IH|done].
Qed.

Lemma pretty_N_go_length k x s :
  (x < 10 ^ N.of_nat k)%N → (String.length (pretty_N_go x s) ≤ k + String.length s)%nat.
Proof.
  revert x s. induction k as [|k IH]; intros x s Hx.
  { assert (x = 0)%N as -> by (cbn in Hx; lia). rewrite pretty_N_go_0. lia. }
  assert (x = 0 ∨ 0 < x)%N as [-> | Hpos] by lia; [rewrite pretty_N_go_0; lia|].
  rewrite pretty_N_go_step by done. etrans; [apply IH|cbn; lia].
  apply N.Div0.div_lt_upper_bound. by rewrite Nat2N.inj_succ, N.pow_succ_r' in Hx.
Qed.

Lemma pretty_length (w : nat) n : (0 < w)%nat → 0 <= n < 10 ^ Z.of_nat w → (String.length (pretty n) ≤ w)%nat.
Proof.
  intros Hw Hn. destruct n as [|p|p]; [cbn; lia| |lia].
  change (pretty (Zpos p)) with (pretty (Npos p)). unfold pretty, pretty_N. rewrite decide_False by done.
  etrans; [apply (pretty_N_go_length w)|cbn; lia].
  apply N2Z.inj_lt. rewrite N2Z.inj_pow, nat_N_Z. cbn. lia.
Qed.

Lemma parse_digits_zeros k s : parse_digits 0 (String.concat "" (repeat "0" k) +:+ s) = parse_digits 0 s.
Proof. induction k as [|[|k] IH]; [done|done|exact IH]. Qed.

Lemma zeros_length k : String.length (String.concat "" (repeat "0" k)) = k.
Proof.
  induction k as [|[|k] IH]; [done|done|].
  change (String.concat "" (repeat "0" (S (S k)))) with (String "0" (String.concat "" (repeat "0" (S k)))).
  cbn [String.length]. by rewrite IH.
Qed.

Lemma string_app_length (a b : string) : String.length (a +:+ b) = (String.length a + String.length b)%nat.
Proof. induction a as [|x a IH]; [done|]. rewrite append_cons. cbn. by rewrite IH. Qed.

Lemma parse_digits_pretty n : 0 <= n → parse_digits 0 (pretty n) = Some n.
Proof.
  intros Hn. destruct n as [|p|p]; [done| |lia].
  change (pretty (Zpos p)) with (pretty (Npos p)). pose proof (parse_unsigned_pretty (Npos p)) as Hp.
  unfold parse_unsigned in Hp. by destruct (pretty (Npos p)).
Qed.

Lemma pad_digits w n : (0 < w)%nat → 0 <= n < 10 ^ Z.of_nat w →
  String.length (pad w n) = w ∧ parse_digits 0 (pad w n) = Some n.
Proof.
  intros Hw Hn. unfold pad. rewrite string_app_length, zeros_length, parse_digits_zeros.
  split; [|apply parse_digits_pretty; lia]. pose proof (pretty_length w n Hw Hn). lia.
Qed.

Lemma take_pad w n rest : (0 < w)%nat → 0 <= n < 10 ^ Z.of_nat w →
  take_digits w 0 (pad w n +:+ rest) = Some (n, rest).
Proof.
  intros Hw Hn. destruct (pad_digits w n Hw Hn) as [Hl Hp]. rewrite <- Hl at 1. by apply take_digits_all.
Qed.

Lemma take_pad4 n rest : 0 <= n < 10000 → take_digits 4 0 (pad 4 n +:+ rest) = Some (n, rest).
Proof. intros Hn. by apply take_pad; [lia|]. Qed.
Lemma take_pad2 n rest : 0 <= n < 100 → take_digits 2 0 (pad 2 n +:+ rest) = Some (n, rest).
Proof. intros Hn. by apply take_pad; [lia|]. Qed.
Lemma expect_hit c rest : expect c (String c rest) = Some rest.
Proof. cbn. by rewrite Ascii.eqb_refl. Qed.
Lemma append_single c rest : String c "" +:+ rest = String c rest.
Proof. done. Qed.

(** The value of a fraction whose first digit counts [scale]. *)
Fixpoint frac_value (scale : Z) (s : string) : Z :=
  match s with
  | EmptyString => 0
  | String c s => default 0 (digit_value c) * scale + frac_value (scale / 10) s
  end.
Definition digits (s : string) : Prop := ∃ v, parse_digits 0 s = Some v.

Lemma parse_digits_acc acc acc' s v : parse_digits acc s = Some v → is_Some (parse_digits acc' s).
Proof.
  revert acc acc' v. induction s as [|c s IH]; intros acc acc' v; cbn; [done|].
  destruct (digit_value c); [|done]. apply IH.
Qed.

Lemma digits_cons c s : digits (String c s) → is_Some (digit_value c) ∧ digits s.
Proof.
  intros [v Hv]. cbn in Hv. destruct (digit_value c) as [d|]; [|done].
  split; [done|]. apply parse_digits_acc with (acc' := 0) in Hv as [? ?]. by eexists.
Qed.

Lemma take_fraction_value scale acc s :
  digits s → take_fraction scale acc (s +:+ "Z") = (acc + frac_value scale s, "Z"%string).
Proof.
  revert scale acc. induction s as [|c s IH]; intros scale acc Hs; [by rewrite Z.add_0_r|].
  rewrite append_cons. cbn [take_fraction frac_value].
  apply digits_cons in Hs as [[d ->] Hs]. rewrite IH by done. cbn [default]. by rewrite Z.add_assoc.
Qed.

Lemma digit_zero c d : digit_value c = Some d → Ascii.eqb c "0" = true → d = 0.
Proof. intros Hd Hc%Ascii.eqb_eq. subst. by injection Hd. Qed.

Lemma trim_value scale s : digits s → digits (trim_zeros s) ∧ frac_value scale (trim_zeros s) = frac_value scale s.
Proof.
  revert scale. induction s as [|c s IH]; intros scale Hs; [done|].
  apply digits_cons in Hs as [[d Hd] Hs]. cbn [trim_zeros frac_value].
  destruct (IH (scale / 10) Hs) as [Ht Hv]. rewrite Hd. cbn [default]. rewrite <- Hv.
  destruct (trim_zeros s) as [|c' s'].
  - destruct (Ascii.eqb c "0") eqn:Hc.
    + assert (d = 0) as -> by (by eapply digit_zero). split; [by eexists|done].
    + split; [|cbn; by rewrite Hd]. exists d. cbn. by rewrite Hd.
  - split; [|cbn [frac_value]; by rewrite Hd].
    destruct Ht as [v Hv']. unfold digits. cbn [parse_digits]. rewrite Hd.
    eapply parse_digits_acc in Hv' as [? ?]. by eexists.
Qed.

Lemma frac_value_parse s acc v :
  parse_digits acc s = Some v → v = acc * 10 ^ Z.of_nat (String.length s) +
    frac_value (10 ^ (Z.of_nat (String.length s) - 1)) s.
Proof.
  revert acc. induction s as [|c s IH]; intros acc; cbn [parse_digits frac_value String.length].
  { intros [= ->]. cbn. lia. }
  destruct (digit_value c) as [d|]; [|done]. intros Hp. apply IH in Hp. rewrite Hp. cbn [default].
  assert (10 ^ (Z.of_nat (S (String.length s)) - 1) / 10 = 10 ^ (Z.of_nat (String.length s) - 1)) as ->.
  { destruct (String.length s) as [|n]; [done|].
    replace (Z.of_nat (S (S n)) - 1) with (Z.succ (Z.of_nat n)) by lia.
    replace (Z.of_nat (S n) - 1) with (Z.of_nat n) by lia.
    rewrite Z.pow_succ_r by lia. rewrite Z.mul_comm. by rewrite Z.div_mul. }
  replace (Z.of_nat (S (String.length s)) - 1) with (Z.of_nat (String.length s)) by lia.
  rewrite Nat2Z.inj_succ, Z.pow_succ_r by lia. unfold id. ring.
Qed.

Lemma trim_nonempty s v : parse_digits 0 s = Some v → v ≠ 0 → trim_zeros s ≠ EmptyString.
Proof.
  intros Hp Hv Ht. apply Hv. rewrite (frac_value_parse _ _ _ Hp).
  destruct (trim_value (10 ^ (Z.of_nat (String.length s) - 1)) s) as [_ <-]; [by eexists|]. by rewrite Ht.
Qed.

Lemma parse_format_fraction us :
  0 <= us < 1000000 → parse_fraction (format_fraction us +:+ "Z") = (us, "Z"%string).
Proof.
  intros Hus. unfold format_fraction. destruct (Z.eqb_spec us 0) as [->|Hne]; [done|].
  destruct (pad_digits 6 us ltac:(lia) ltac:(cbn; lia)) as [Hl Hp].
  destruct (trim_value 100000 (pad 6 us)) as [Hd Hv]; [by eexists|].
  pose proof (trim_nonempty _ _ Hp Hne) as Hnil.
  pose proof (frac_value_parse _ _ _ Hp) as Hus'. rewrite Hl in Hus'. change (10 ^ (Z.of_nat 6 - 1)) with 100000 in Hus'.
  destruct (trim_zeros (pad 6 us)) as [|c s] eqn:Ht; [done|].
  destruct (digits_cons c s Hd) as [Hc _]. unfold parse_fraction.
  rewrite !append_cons, append_nil.
  cbn beta iota. rewrite (append_cons c s). cbn beta iota. rewrite bool_decide_true by done. cbn [orb andb Ascii.eqb Bool.eqb].
  change (String c (s +:+ "Z")) with (String c s +:+ "Z"). rewrite take_fraction_value by done.
  rewrite Hv. f_equal. lia.
Qed.

Lemma RFC3339Nano_parse_format t :
  -719528 * day_s * second_us <= t < 2932897 * day_s * second_us →
  ParseRFC3339Nano (FormatRFC3339Nano t) = Some t.
Proof.
  intros Ht. unfold FormatRFC3339Nano. set (sec := t / second_us). set (us := t mod second_us).
  assert (t = sec * second_us + us ∧ 0 <= us < 1000000) as [Heq Hus].
  { unfold sec, us, second_us. pose proof (Z.div_mod t 1000000). pose proof (Z.mod_pos_bound t 1000000). lia. }
  clearbody sec us. set (d := sec / day_s). set (sod := sec mod day_s).
  assert (sec = d * day_s + sod ∧ 0 <= sod < 86400) as [Hsec Hsod].
  { unfold d, sod, day_s. pose proof (Z.div_mod sec 86400). pose proof (Z.mod_pos_bound sec 86400). lia. }
  clearbody d sod. unfold day_s, second_us in *.
  pose proof (year_range d ltac:(lia)) as Hy. pose proof (civil_valid d) as [Hm Hd].
  pose proof (days_from_civil_from_days d) as Hdays. set (c := civil_from_days d) in *.
  assert (day c <= 31) as Hd31 by (unfold days_in in Hd; repeat case_match; lia).
  unfold ParseRFC3339Nano. rewrite take_pad4 by lia. cbn [mbind option_bind].
  rewrite append_single, expect_hit. cbn [mbind option_bind]. rewrite take_pad2 by lia. cbn [mbind option_bind].
  rewrite append_single, expect_hit. cbn [mbind option_bind]. rewrite take_pad2 by lia. cbn [mbind option_bind].
  rewrite append_single, expect_hit. cbn [mbind option_bind]. unfold take_hour.
  assert (0 <= sod / 3600 < 24) by (Z.to_euclidean_division_equations; lia).
  pose proof (Z.mod_pos_bound (sod / 60) 60 ltac:(lia)). pose proof (Z.mod_pos_bound sod 60 ltac:(lia)).
  rewrite take_pad2 by lia. cbn [mbind option_bind].
  rewrite append_single, expect_hit. cbn [mbind option_bind]. rewrite take_pad2 by lia. cbn [mbind option_bind].
  rewrite append_single, expect_hit. cbn [mbind option_bind]. rewrite take_pad2 by lia. cbn [mbind option_bind].
  rewrite parse_format_fraction by lia. change (parse_zone "Z") with (Some 0). cbn [mbind option_bind].
  destruct (_ && _) eqn:E.
  - assert (Civil (year c) (month c) (day c) = c) as -> by (by destruct c). rewrite Hdays. f_equal.
    pose proof (Z.div_mod sod 60 ltac:(lia)). pose proof (Z.div_mod (sod / 60) 60 ltac:(lia)).
    rewrite Z.div_div in * by lia. change (60 * 60) with 3600 in *. unfold day_s, second_us. lia.
  - exfalso. revert E. apply not_false_iff_true. rewrite !andb_true_iff, !Z.leb_le, !Z.ltb_lt. lia.
Qed.

(** Times survive the way through a message: reading what was printed gives
    the same microsecond, for every time from the year 0 to the year 9999. *)
Theorem RFC3339Nano_roundtrip t :
  -719528 * day_s * second_us <= t < 2932897 * day_s * second_us →
  ParseRFC3339Nano (FormatRFC3339Nano t) = Some t.
Proof. apply RFC3339Nano_parse_format. Qed.

Lemma RFC3339Nano_roundtrip_witness :
  ParseRFC3339Nano (FormatRFC3339Nano 1772368245120000) = Some 1772368245120000.
Proof. apply (RFC3339Nano_roundtrip 1772368245120000). unfold day_s, second_us. lia. Defined.
