(* ===== verification/Json.v ===== *)
(** * JSON documents as Go's [encoding/json] reads and writes them

    A document is a tree; a float inside it is a value of the [float64] model
    the document is used with, because [strconv]'s shortest form reads back as
    the number it printed. [Marshal] refuses NaN and infinities, [Unmarshal]
    matches keys without regard to ASCII case, ignores unknown keys, leaves a
    field untouched on [null] and fails on a value of the wrong type. Both make
    strings valid UTF-8 ([ToValidUTF8]). The encoder of the canonical event, whose
    strings come from the providers, says so; in the other documents the strings
    are identifiers and texts of the databases, which hold valid UTF-8 only. *)
From S2P Require Export Prelude Float64.

#[warnings="-register-all"]
Inductive json (F : Type) : Type :=
| JNull
| JBool (b : bool)
| JInt (z : Z)             (** an integer literal *)
| JNum (x : F)             (** any other number *)
| JStr (s : string)
| JArr (l : list (json F))
| JObj (kvs : list (string * json F)).
Arguments JNull {F}.
Arguments JBool {F} b.
Arguments JInt {F} z.
Arguments JNum {F} x.
Arguments JStr {F} s.
Arguments JArr {F} l.
Arguments JObj {F} kvs.

(** A byte string: the text of a document, or something that is not JSON. *)
Inductive bytes (F : Type) : Type :=
| Doc (j : json F)
| Garbage (s : string).
Arguments Doc {F} j.
Arguments Garbage {F} s.

Definition lower_ascii (c : Ascii.ascii) : Ascii.ascii :=
  let n := Ascii.N_of_ascii c in
  if (65 <=? n)%N && (n <=? 90)%N then Ascii.ascii_of_N (n + 32) else c.
Fixpoint ToLower (s : string) : string :=
  match s with
  | EmptyString => EmptyString
  | String c s => String (lower_ascii c) (ToLower s)
  end.

(** ** Valid UTF-8 *)

Definition byte_in (lo hi : N) (c : Ascii.ascii) : bool :=
  (lo <=? Ascii.N_of_ascii c)%N && (Ascii.N_of_ascii c <=? hi)%N.
Definition continuation : Ascii.ascii → bool := byte_in 128 191.

(** The well-formed sequences of two, three and four bytes ([unicode/utf8]). *)
Definition rune2 (a b : Ascii.ascii) : bool := byte_in 194 223 a && continuation b.
Definition rune3 (a b c : Ascii.ascii) : bool :=
  (byte_in 224 224 a && byte_in 160 191 b || byte_in 225 236 a && continuation b ||
   byte_in 237 237 a && byte_in 128 159 b || byte_in 238 239 a && continuation b) && continuation c.
Definition rune4 (a b c d : Ascii.ascii) : bool :=
  (byte_in 240 240 a && byte_in 144 191 b || byte_in 241 243 a && continuation b ||
   byte_in 244 244 a && byte_in 128 143 b) && continuation c && continuation d.

(** U+FFFD, which replaces a byte that starts no sequence. *)
Definition replacement (s : string) : string :=
  String (Ascii.ascii_of_N 239) (String (Ascii.ascii_of_N 191) (String (Ascii.ascii_of_N 189) s)).

Fixpoint ToValidUTF8 (s : string) : string :=
  match s with
  | EmptyString => EmptyString
  | String a s1 =>
      if byte_in 0 127 a then String a (ToValidUTF8 s1) else
      match s1 with
      | String b s2 =>
          if rune2 a b then String a (String b (ToValidUTF8 s2)) else
          match s2 with
          | String c s3 =>
              if rune3 a b c then String a (String b (String c (ToValidUTF8 s3))) else
              match s3 with
              | String d s4 =>
                  if rune4 a b c d then String a (String b (String c (String d (ToValidUTF8 s4))))
                  else replacement (ToValidUTF8 s1)
              | EmptyString => replacement (ToValidUTF8 s1)
              end
          | EmptyString => replacement (ToValidUTF8 s1)
          end
      | EmptyString => replacement (ToValidUTF8 s1)
      end
  end.

(** [utf8.ValidString]. *)
Definition ValidString (s : string) : Prop := ToValidUTF8 s = s.
#[export] Instance ValidString_dec s : Decision (ValidString s).
Proof. unfold ValidString. apply _. Defined.

Fixpoint is_ascii (s : string) : bool :=
  match s with EmptyString => true | String c s => byte_in 0 127 c && is_ascii s end.
Lemma ascii_valid s : is_ascii s = true → ValidString s.
Proof.
  unfold ValidString. induction s as [|c s IH]; [done|]. intros [Hc Hs]%andb_true_iff.
  cbn [ToValidUTF8]. by rewrite Hc, IH.
Qed.
Lemma ToValidUTF8_nil s : (ToValidUTF8 s =? "")%string = (s =? "")%string.
Proof. destruct s as [|a [|b [|c [|d s]]]]; cbn; by repeat case_match. Qed.

Section Json.
Context {F : Type} `{FloatOps F}.

(** ** Encoding *)

Fixpoint marshalable (j : json F) : bool :=
  match j with
  | JNum x => is_finite x
  | JArr l => forallb marshalable l
  | JObj kvs => forallb (λ kv, marshalable kv.2) kvs
  | _ => true
  end.

Definition Marshal (j : json F) : option (bytes F) :=
  if marshalable j then Some (Doc j) else None.

(** ** Decoding

    A decoder takes the value the field had: [null] keeps it. *)
Definition decoder (A : Type) : Type := A → json F → option A.

Definition into_string : decoder string := λ old j,
  match j with JNull => Some old | JStr s => Some s | _ => None end.

Definition into_bool : decoder bool := λ old j,
  match j with JNull => Some old | JBool b => Some b | _ => None end.

Definition into_float64 : decoder F := λ old j,
  match j with
  | JNull => Some old
  | JInt z => if is_finite (float_of_int z) then Some (float_of_int z) else None
  | JNum x => if is_finite x then Some x else None
  | _ => None
  end.

(** [int] and [int64]: an integral float is printed without a fraction, so it
    reads as an integer literal. *)
Definition into_int64 : decoder Z := λ old j,
  match j with
  | JNull => Some old
  | JInt z => if in_int64 z then Some z else None
  | JNum x =>
      match as_integer x with
      | Some z => if in_int64 z then Some z else None
      | None => None
      end
  | _ => None
  end.

(** [*T]: null clears the pointer. *)
Definition into_pointer {A} (zero : A) (dec : decoder A) : decoder (option A) := λ old j,
  match j with
  | JNull => Some None
  | _ => Some <$> dec (default zero old) j
  end.

Definition into_slice {A} (zero : A) (dec : decoder A) : decoder (list A) := λ old j,
  match j with
  | JNull => Some []
  | JArr l => mapM (dec zero) l
  | _ => None
  end.

(** A struct, from its fields. *)
Definition into_struct {A} (build : list (string * json F) → option A) : decoder A := λ old j,
  match j with
  | JNull => Some old
  | JObj kvs => build kvs
  | _ => None
  end.

(** The field tagged [name], from the value [a]: every key that names it is
    decoded, in order. *)
Fixpoint jfield {A} (dec : decoder A) (a : A) (name : string)
    (kvs : list (string * json F)) : option A :=
  match kvs with
  | [] => Some a
  | (k, j) :: kvs =>
      if (ToLower k =? ToLower name)%string
      then a' ← dec a j; jfield dec a' name kvs
      else jfield dec a name kvs
  end.

Definition jstring (name : string) := jfield into_string "" name.
Definition jint (name : string) := jfield into_int64 0%Z name.
Definition jfloat (name : string) := jfield into_float64 (fnum 0) name.
Definition jbool (name : string) := jfield into_bool false name.

(** [json.Unmarshal(data, &v)] with [v] at its zero value. *)
Definition Unmarshal {A} (build : list (string * json F) → option A) (b : bytes F) : option A :=
  match b with
  | Doc (JObj kvs) => build kvs
  | Doc JNull => build []
  | _ => None
  end.
End Json.

(** An object from a struct: absent fields are left out. *)
Definition encode_fields {F} (fs : list (string * option (json F))) : list (string * json F) :=
  omap (λ f, j ← f.2; Some (f.1, j)) fs.

(** ** Decoding a document with known keys *)

Section Fields.
Context {F A : Type} (dec : decoder (F:=F) A).

Lemma jfield_absent a name (fs : list (string * option (json F))) :
  ToLower name ∉ map (λ f, ToLower f.1) fs → jfield dec a name (encode_fields fs) = Some a.
Proof.
  induction fs as [|[k o] fs IH]; intros Hn; [done|]. cbn in Hn.
  apply not_elem_of_cons in Hn as [Hk Hn]. unfold encode_fields in *. cbn.
  destruct o as [j|]; cbn; [|by apply IH].
  destruct (String.eqb_spec (ToLower k) (ToLower name)); [by subst|by apply IH].
Qed.

(** A field of a struct with distinct tags reads what was written. *)
Lemma jfield_encoded a name o (fs : list (string * option (json F))) :
  NoDup (map (λ f, ToLower f.1) fs) → (name, o) ∈ fs →
  jfield dec a name (encode_fields fs) = match o with Some j => dec a j | None => Some a end.
Proof.
  induction fs as [|[k o'] fs IH]; intros Hnd Hin; [by apply not_elem_of_nil in Hin|].
  cbn in Hnd. apply NoDup_cons in Hnd as [Hk Hnd].
  assert (ToLower name ∉ map (λ f, ToLower f.1) fs → jfield dec a name (encode_fields fs) = Some a)
    as Habs by apply jfield_absent.
  apply elem_of_cons in Hin as [[= <- <-]|Hin].
  - unfold encode_fields in *. destruct o as [j|]; cbn; [|by apply Habs].
    rewrite String.eqb_refl. destruct (dec a j) as [a'|]; [|done]. cbn. by apply jfield_absent.
  - assert (ToLower k ≠ ToLower name) as Hne.
    { intros E. apply Hk. rewrite E. by apply (list_elem_of_fmap_2 (λ f, ToLower f.1) _ (name, o)). }
    unfold encode_fields in *. destruct o' as [j|]; cbn; [|by apply IH].
    destruct (String.eqb_spec (ToLower k) (ToLower name)); [done|by apply IH].
Qed.
End Fields.

Section Lookup.
Context {F A : Type} (dec : decoder (F:=F) A) (a : A) (name k : string) (j : json F)
  (kvs : list (string * json F)).

Lemma jfield_hit :
  (ToLower k =? ToLower name)%string = true →
  jfield dec a name ((k, j) :: kvs) = a' ← dec a j; jfield dec a' name kvs.
Proof. intros Hk. cbn [jfield]. by rewrite Hk. Qed.
Lemma jfield_miss :
  (ToLower k =? ToLower name)%string = false →
  jfield dec a name ((k, j) :: kvs) = jfield dec a name kvs.
Proof. intros Hk. cbn [jfield]. by rewrite Hk. Qed.
Lemma jfield_nil : jfield dec a name [] = Some a.
Proof. done. Qed.
End Lookup.

(** Look the fields of a decoder up. *)
Ltac json_keys :=
  unfold jstring, jint, jfloat, jbool;
  repeat first
    [ rewrite jfield_nil
    | rewrite jfield_miss by (vm_compute; reflexivity)
    | rewrite jfield_hit by (vm_compute; reflexivity);
      cbn [into_string into_bool mbind option_bind] ].
