(* ===== verification/Messaging.v ===== *)
(** * The outside services: Kafka, Redis, gRPC

    The brokers and the caches are not part of the repository. Their clients
    are type classes over an abstract state: the operations the code calls and
    the laws it relies on. Every call can fail, and a call that changes
    something can fail after the change. A reference instance of each class
    shows that the laws can hold and makes the components executable. *)
From S2P Require Export Prelude Json.
Local Open Scope go_scope.

(** ** Kafka *)

Record ProducerMessage (F : Type) : Type := {
  Topic : string;
  Key : string;
  Value : bytes F;
  Headers : list (string * string)
}.
Arguments Topic {F} p.
Arguments Key {F} p.
Arguments Value {F} p.
Arguments Headers {F} p.
Arguments Build_ProducerMessage {F}.

(** A delivered message: what was produced, and where the broker put it. *)
Record ConsumerMessage (F : Type) : Type := {
  cm : ProducerMessage F;
  Offset : Z
}.
Arguments cm {F} c.
Arguments Offset {F} c.
Arguments Build_ConsumerMessage {F}.

(** [sarama.SyncProducer]: a message whose send succeeds is in the log once; one
    whose send fails may or may not be. *)
Class SyncProducer (F K : Type) : Type := {
  SendMessage : ProducerMessage F → Go K string unit;
  produced : K → list (ProducerMessage F);
  SendMessage_law m (w : world K) :
    wp (SendMessage m) (λ w' r,
      clock w' = clock w ∧ fresh w' = fresh w ∧
      match r with
      | Ok _ => produced (db w') = produced (db w) ++ [m]
      | Err _ => produced (db w') = produced (db w) ∨ produced (db w') = produced (db w) ++ [m]
      end) w
}.

(** The loop of every consumer: a message handled without an error is marked
    ([session.MarkMessage]) and committed, a failed one is skipped. The result
    lists the offsets committed, in order. *)
Fixpoint ConsumeClaim {F D E} (handle : ConsumerMessage F → Go D E unit)
    (msgs : list (ConsumerMessage F)) : Go D E (list Z) :=
  match msgs with
  | [] => ret []
  | msg :: rest =>
      r <- catch (handle msg) ;;
      marked <- ConsumeClaim handle rest ;;
      ret (match r with Ok _ => Offset msg :: marked | Err _ => marked end)
  end.

(** ** Redis *)

(** [redis.Nil], or a failure of the connection. *)
Inductive rediserr : Type := RedisNil | RedisConn.

(** [redis.Client] with values of type [V]. [redis_at r t k] is what a read of
    [k] at time [t] may return; an entry can be evicted at any call. *)
Class RedisClient (V R : Type) : Type := {
  redis_Get : string → Go R rediserr V;
  redis_Set : string → V → Z → Go R rediserr unit;
  redis_at : R → Z → string → option V;
  redis_Get_law k (w : world R) :
    wp (redis_Get k) (λ w' r,
      clock w' = clock w ∧ fresh w' = fresh w ∧
      (∀ t k' v, redis_at (db w') t k' = Some v → redis_at (db w) t k' = Some v) ∧
      (∀ v, r = Ok v → redis_at (db w) (clock w) k = Some v)) w;
  redis_Set_law k v ttl (w : world R) :
    wp (redis_Set k v ttl) (λ w' r,
      clock w' = clock w ∧ fresh w' = fresh w ∧
      (∀ t k' v', redis_at (db w') t k' = Some v' →
         (k' = k ∧ v' = v ∧ (t < clock w + ttl)%Z) ∨
         redis_at (db w) t k' = Some v' ∧ (k' = k → r ≠ Ok tt))) w
}.

(** ** Reference instances *)

#[export] Instance producer_log F : SyncProducer F (list (ProducerMessage F)).
Proof.
  refine {| SendMessage m :=
              flaky "refused" ;;; puts (λ l, l ++ [m]) ;;; flaky "no acknowledgement";
            produced := id |}.
  intros m w. go_run; cbn; eauto.
Defined.

(** A broker whose log is one of its parts. *)
#[export] Instance producer_snd F K L `{SyncProducer F L} : SyncProducer F (K * L).
Proof.
  refine {| SendMessage m := zoom (Lens snd (λ l x, (x.1, l))) (SendMessage m);
            produced k := produced k.2 |}.
  intros m w. go_step. cbn. eapply wp_mono; [|apply SendMessage_law]. by intros w1 [[]|e].
Defined.

(** Value and expiry time. *)
Abbreviation RedisMap V := (gmap string (V * Z)%type).

Definition redis_live {V} (r : RedisMap V) (t : Z) (k : string) : option V :=
  match r !! k with
  | Some (v, expires) => if (t <? expires)%Z then Some v else None
  | None => None
  end.

#[export] Instance redis_map V : RedisClient V (RedisMap V).
Proof.
  refine {|
    redis_Get k :=
      flaky RedisConn ;;;
      t <- now ;;
      v <- gets (λ r, redis_live r t k) ;;
      match v with Some v => ret v | None => throw RedisNil end;
    redis_Set k v ttl :=
      flaky RedisConn ;;;
      t <- now ;;
      puts (<[k := (v, (t + ttl)%Z)]>) ;;;
      flaky RedisConn;
    redis_at := redis_live |}.
  - intros k w. go_run; cbn; naive_solver.
  - intros k v ttl w. go_run; cbn; split_and!; try done.
    all: intros t k' v' Hv; unfold redis_live in *.
    all: destruct (decide (k' = k)) as [-> | Hk];
      [rewrite ?lookup_insert_eq in Hv | rewrite ?(lookup_insert_ne _ k k') in Hv by done;
       right; split; [done | intros ->; done]].
    all: first [right; split; [done | discriminate]
               | case_match; [|done]; left; naive_solver (boolify; lia)].
Defined.

(** ** gRPC *)

(** A unary call: the request may be lost, the server's answer may be lost. *)
Definition rpc {D E A} (eUnavailable : E) (m : Go D E A) : Go D E A :=
  flaky eUnavailable ;;;
  r <- catch m ;;
  flaky eUnavailable ;;;
  match r with Ok a => ret a | Err e => throw e end.
