(* ===== verification/MarketEvent.v ===== *)
(** * Canonical market data ([internal/marketdata/ingestion.go])

    The event schema of the [market-data-normalised] topic with its JSON
    encoding, and the ingestion service that publishes what the normalisers
    produce. The theorems: an event survives the topic unchanged, and each raw
    provider event is published as its normalised events, in order, under the
    partition key of its market. *)
From S2P Require Export Messaging GoTime.
Local Open Scope Z_scope.
Local Open Scope go_scope.

Record NormalisedMarketEvent (F : Type) : Type := {
  EventType : string;
  ProviderID : string;
  SportID : string;
  EventID : string;
  ev_MarketID : string;
  ev_SelectionID : string;
  SportName : string;
  CompetitionID : string;
  CompetitionName : string;
  Country : string;
  EventName : string;
  StartsAt : string;
  EventStatus : string;
  ev_MarketName : string;
  MarketType : string;
  MarketStatus : string;
  TargetValue : F;
  IsMain : bool;
  ClosesAt : string;
  ev_SelectionName : string;
  SelActive : bool;
  SelTargetValue : F;
  FeedProbability : F;
  HomeScore : Z;
  AwayScore : Z;
  GamePeriod : string;
  GameClock : string;
  ev_OddsDecimal : F;
  ev_OddsAmerican : Z;
  WinningSelectionID : string;
  ev_PublishedAt : string;
  SourceOffset : string
}.
Arguments Build_NormalisedMarketEvent {F}.
Arguments EventType {F} _.
Arguments ProviderID {F} _.
Arguments SportID {F} _.
Arguments EventID {F} _.
Arguments ev_MarketID {F} _.
Arguments ev_SelectionID {F} _.
Arguments SportName {F} _.
Arguments CompetitionID {F} _.
Arguments CompetitionName {F} _.
Arguments Country {F} _.
Arguments EventName {F} _.
Arguments StartsAt {F} _.
Arguments EventStatus {F} _.
Arguments ev_MarketName {F} _.
Arguments MarketType {F} _.
Arguments MarketStatus {F} _.
Arguments TargetValue {F} _.
Arguments IsMain {F} _.
Arguments ClosesAt {F} _.
Arguments ev_SelectionName {F} _.
Arguments SelActive {F} _.
Arguments SelTargetValue {F} _.
Arguments FeedProbability {F} _.
Arguments HomeScore {F} _.
Arguments AwayScore {F} _.
Arguments GamePeriod {F} _.
Arguments GameClock {F} _.
Arguments ev_OddsDecimal {F} _.
Arguments ev_OddsAmerican {F} _.
Arguments WinningSelectionID {F} _.
Arguments ev_PublishedAt {F} _.
Arguments SourceOffset {F} _.

Section Encoding.
Context {F : Type} `{FloatOps F}.

(** An event that only names a market. *)
Definition marketNotice (eventType providerID marketID : string) : NormalisedMarketEvent F := {|
  EventType := eventType; ProviderID := providerID; SportID := ""; EventID := "";
  ev_MarketID := marketID; ev_SelectionID := ""; SportName := ""; CompetitionID := "";
  CompetitionName := ""; Country := ""; EventName := ""; StartsAt := ""; EventStatus := "";
  ev_MarketName := ""; MarketType := ""; MarketStatus := ""; TargetValue := fnum 0; IsMain := false;
  ClosesAt := ""; ev_SelectionName := ""; SelActive := false; SelTargetValue := fnum 0;
  FeedProbability := fnum 0; HomeScore := 0; AwayScore := 0; GamePeriod := ""; GameClock := "";
  ev_OddsDecimal := fnum 0; ev_OddsAmerican := 0; WinningSelectionID := ""; ev_PublishedAt := "";
  SourceOffset := "" |}.

(** The fields as [json.Marshal] writes them: a string as valid UTF-8, and a field
    tagged [omitempty] left out at its zero value. *)
Definition text (s : string) : json F := JStr (ToValidUTF8 s).
Definition omit_string (s : string) : option (json F) :=
  if (s =? "")%string then None else Some (text s).
Definition omit_int (z : Z) : option (json F) := if z =? 0 then None else Some (JInt z).
Definition omit_bool (b : bool) : option (json F) := if b then Some (JBool true) else None.
Definition omit_float (x : F) : option (json F) := if feq x (fnum 0) then None else Some (JNum x).

Definition event_fields (e : NormalisedMarketEvent F) : list (string * option (json F)) := [
  ("event_type", Some (text (EventType e)));
  ("provider_id", Some (text (ProviderID e)));
  ("sport_id", Some (text (SportID e)));
  ("event_id", Some (text (EventID e)));
  ("market_id", Some (text (ev_MarketID e)));
  ("selection_id", omit_string (ev_SelectionID e));
  ("sport_name", omit_string (SportName e));
  ("competition_id", omit_string (CompetitionID e));
  ("competition_name", omit_string (CompetitionName e));
  ("country", omit_string (Country e));
  ("event_name", omit_string (EventName e));
  ("starts_at", omit_string (StartsAt e));
  ("event_status", omit_string (EventStatus e));
  ("market_name", omit_string (ev_MarketName e));
  ("market_type", omit_string (MarketType e));
  ("market_status", omit_string (MarketStatus e));
  ("target_value", omit_float (TargetValue e));
  ("is_main", omit_bool (IsMain e));
  ("closes_at", omit_string (ClosesAt e));
  ("selection_name", omit_string (ev_SelectionName e));
  ("sel_active", omit_bool (SelActive e));
  ("sel_target_value", omit_float (SelTargetValue e));
  ("feed_probability", omit_float (FeedProbability e));
  ("home_score", omit_int (HomeScore e));
  ("away_score", omit_int (AwayScore e));
  ("game_period", omit_string (GamePeriod e));
  ("game_clock", omit_string (GameClock e));
  ("odds_decimal", omit_float (ev_OddsDecimal e));
  ("odds_american", omit_int (ev_OddsAmerican e));
  ("winning_selection_id", omit_string (WinningSelectionID e));
  ("published_at", Some (text (ev_PublishedAt e)));
  ("source_offset", omit_string (SourceOffset e))].

Definition encodeEvent (e : NormalisedMarketEvent F) : json F :=
  JObj (encode_fields (event_fields e)).

Definition decodeEvent (kvs : list (string * json F)) : option (NormalisedMarketEvent F) :=
  et ← jstring "event_type" kvs;
  pid ← jstring "provider_id" kvs;
  sid ← jstring "sport_id" kvs;
  eid ← jstring "event_id" kvs;
  mid ← jstring "market_id" kvs;
  selid ← jstring "selection_id" kvs;
  sname ← jstring "sport_name" kvs;
  cid ← jstring "competition_id" kvs;
  cname ← jstring "competition_name" kvs;
  ctry ← jstring "country" kvs;
  ename ← jstring "event_name" kvs;
  sat ← jstring "starts_at" kvs;
  est ← jstring "event_status" kvs;
  mname ← jstring "market_name" kvs;
  mty ← jstring "market_type" kvs;
  mst ← jstring "market_status" kvs;
  tv ← jfloat "target_value" kvs;
  main ← jbool "is_main" kvs;
  cat ← jstring "closes_at" kvs;
  selname ← jstring "selection_name" kvs;
  act ← jbool "sel_active" kvs;
  stv ← jfloat "sel_target_value" kvs;
  fp ← jfloat "feed_probability" kvs;
  hs ← jint "home_score" kvs;
  aw ← jint "away_score" kvs;
  gp ← jstring "game_period" kvs;
  gc ← jstring "game_clock" kvs;
  od ← jfloat "odds_decimal" kvs;
  oa ← jint "odds_american" kvs;
  ws ← jstring "winning_selection_id" kvs;
  pa ← jstring "published_at" kvs;
  so ← jstring "source_offset" kvs;
  Some (Build_NormalisedMarketEvent et pid sid eid mid selid sname cid cname ctry ename sat est mname
    mty mst tv main cat selname act stv fp hs aw gp gc od oa ws pa so).
End Encoding.

(** ** Ingestion *)

Record RawProviderEvent (F : Type) : Type := {
  raw_ProviderID : string;
  Data : bytes F;
  ReceivedAt : Z
}.
Arguments raw_ProviderID {F} _.
Arguments Data {F} _.
Arguments ReceivedAt {F} _.
Arguments Build_RawProviderEvent {F}.

(** The [Normaliser] interface. An implementation reads the wall clock only. *)
Class Normaliser (F N : Type) : Type :=
  Normalise : N → Z → RawProviderEvent F → result string (list (NormalisedMarketEvent F)).

(** [CompositeNormaliser] dispatches on the provider id. *)
Record CompositeNormaliser (N : Type) : Type := { normalisers : gmap string N }.
Arguments normalisers {N} _.
#[export] Instance composite_normalise {F N} `{Normaliser F N} : Normaliser F (CompositeNormaliser N) :=
  λ c now raw,
    match normalisers c !! raw_ProviderID raw with
    | None => Err "composite: unknown provider"
    | Some n => Normalise n now raw
    end.

(** The stub of the Sportradar adapter. *)
Inductive SportradarNormaliser : Type := sportradar.
#[export] Instance sportradar_normalise {F} `{FloatOps F} : Normaliser F SportradarNormaliser :=
  λ _ _ raw,
    match Unmarshal (λ kvs, t ← jstring "type" kvs; m ← jstring "market_id" kvs; Some (t, m)) (Data raw) with
    | None => Err "sportradar: unmarshal"
    | Some (t, m) =>
        Ok [marketNotice t (raw_ProviderID raw) m]
    end.

Section Ingestion.
Context {F K N : Type} `{FloatOps F} `{SyncProducer F K} `{Normaliser F N}.

Definition stamp (t : Z) (e : NormalisedMarketEvent F) : NormalisedMarketEvent F :=
  Build_NormalisedMarketEvent (EventType e) (ProviderID e) (SportID e) (EventID e) (ev_MarketID e)
    (ev_SelectionID e) (SportName e) (CompetitionID e) (CompetitionName e) (Country e) (EventName e)
    (StartsAt e) (EventStatus e) (ev_MarketName e) (MarketType e) (MarketStatus e) (TargetValue e)
    (IsMain e) (ClosesAt e) (ev_SelectionName e) (SelActive e) (SelTargetValue e) (FeedProbability e)
    (HomeScore e) (AwayScore e) (GamePeriod e) (GameClock e) (ev_OddsDecimal e) (ev_OddsAmerican e)
    (WinningSelectionID e) (FormatRFC3339Nano t) (SourceOffset e).

Definition partitionKey (e : NormalisedMarketEvent F) : string :=
  if (ev_MarketID e =? "")%string then EventID e else ev_MarketID e.

(** The message of an event published at [t], when it can be encoded. *)
Definition eventMessage (t : Z) (e : NormalisedMarketEvent F) : option (ProducerMessage F) :=
  data ← Marshal (encodeEvent (stamp t e));
  Some {| Topic := "market-data-normalised"; Key := partitionKey e; Value := data; Headers := [] |}.

Definition publish_event (e : NormalisedMarketEvent F) : Go K string unit :=
  t <- now ;;
  match eventMessage t e with
  | None => throw "marshal event"
  | Some m => SendMessage m
  end.

(** The loop of [consumeFeed] on the events its channel delivers. *)
Definition consumeFeed (normaliser : N) (feed : list (RawProviderEvent F)) : Go K string unit :=
  forM_ feed (λ raw,
    t <- now ;;
    match Normalise normaliser t raw with
    | Err _ => ret tt
    | Ok events => forM_ events (λ e, catch (publish_event e) ;;; ret tt)
    end).
End Ingestion.

(** ** Lemmas *)

(** A number read back from a field that is left out when it is zero. *)
Definition plus_zero {F} `{FloatOps F} (x : F) : F := if feq x (fnum 0) then fnum 0 else x.

Section Fields.
Context {F : Type} `{FloatOps F} (fs : list (string * option (json F))).
Context (Hnd : NoDup (map (λ f, ToLower f.1) fs)).

Lemma read_string name s :
  (name, Some (text s)) ∈ fs → jstring name (encode_fields fs) = Some (ToValidUTF8 s).
Proof. intros Hin. unfold jstring. by rewrite (jfield_encoded _ _ _ _ _ Hnd Hin). Qed.
Lemma read_omit_string name s :
  (name, omit_string s) ∈ fs → jstring name (encode_fields fs) = Some (ToValidUTF8 s).
Proof.
  intros Hin. unfold jstring. rewrite (jfield_encoded _ _ _ _ _ Hnd Hin). unfold omit_string.
  by destruct (String.eqb_spec s "") as [->|].
Qed.
Lemma read_omit_bool name b : (name, omit_bool b) ∈ fs → jbool name (encode_fields fs) = Some b.
Proof.
  intros Hin. unfold jbool. rewrite (jfield_encoded _ _ _ _ _ Hnd Hin). by destruct b.
Qed.
Lemma read_omit_int name z :
  in_int64 z = true → (name, omit_int z) ∈ fs → jint name (encode_fields fs) = Some z.
Proof.
  intros Hz Hin. unfold jint. rewrite (jfield_encoded _ _ _ _ _ Hnd Hin). unfold omit_int.
  destruct (Z.eqb_spec z 0) as [->|]; [done|]. cbn. by rewrite Hz.
Qed.
Lemma read_omit_float name x :
  is_finite x = true → (name, omit_float x) ∈ fs → jfloat name (encode_fields fs) = Some (plus_zero x).
Proof.
  intros Hx Hin. unfold jfloat. rewrite (jfield_encoded _ _ _ _ _ Hnd Hin). unfold omit_float, plus_zero.
  destruct (feq x (fnum 0)); [done|]. cbn. by rewrite Hx.
Qed.
End Fields.

Section Received.
Context {F : Type} `{FloatOps F}.
Implicit Types e : NormalisedMarketEvent F.

(** What [encoding/json] can write: finite floats, integers of 64 bits. *)
Definition writable e : Prop :=
  is_finite (TargetValue e) = true ∧ is_finite (SelTargetValue e) = true ∧
  is_finite (FeedProbability e) = true ∧ is_finite (ev_OddsDecimal e) = true ∧
  in_int64 (HomeScore e) = true ∧ in_int64 (AwayScore e) = true ∧ in_int64 (ev_OddsAmerican e) = true.

(** The event a consumer reads back: its strings are valid UTF-8, and a negative
    zero, which [omitempty] drops, has become a positive one. *)
Definition received e : NormalisedMarketEvent F :=
  Build_NormalisedMarketEvent
    (ToValidUTF8 (EventType e)) (ToValidUTF8 (ProviderID e)) (ToValidUTF8 (SportID e))
    (ToValidUTF8 (EventID e)) (ToValidUTF8 (ev_MarketID e)) (ToValidUTF8 (ev_SelectionID e))
    (ToValidUTF8 (SportName e)) (ToValidUTF8 (CompetitionID e)) (ToValidUTF8 (CompetitionName e))
    (ToValidUTF8 (Country e)) (ToValidUTF8 (EventName e)) (ToValidUTF8 (StartsAt e))
    (ToValidUTF8 (EventStatus e)) (ToValidUTF8 (ev_MarketName e)) (ToValidUTF8 (MarketType e))
    (ToValidUTF8 (MarketStatus e)) (plus_zero (TargetValue e)) (IsMain e) (ToValidUTF8 (ClosesAt e))
    (ToValidUTF8 (ev_SelectionName e)) (SelActive e) (plus_zero (SelTargetValue e))
    (plus_zero (FeedProbability e)) (HomeScore e) (AwayScore e) (ToValidUTF8 (GamePeriod e))
    (ToValidUTF8 (GameClock e)) (plus_zero (ev_OddsDecimal e)) (ev_OddsAmerican e)
    (ToValidUTF8 (WinningSelectionID e)) (ToValidUTF8 (ev_PublishedAt e))
    (ToValidUTF8 (SourceOffset e)).

(** An event that arrives as it was sent. *)
Definition plain_float (x : F) : Prop := feq x (fnum 0) = true → x = fnum 0.
Definition texts e : list string := [
   EventType e; ProviderID e; SportID e; EventID e; ev_MarketID e; ev_SelectionID e; SportName e;
   CompetitionID e; CompetitionName e; Country e; EventName e; StartsAt e; EventStatus e;
   ev_MarketName e; MarketType e; MarketStatus e; ClosesAt e; ev_SelectionName e; GamePeriod e;
   GameClock e; WinningSelectionID e; ev_PublishedAt e; SourceOffset e].
Definition plain_event e : Prop :=
  plain_float (TargetValue e) ∧ plain_float (SelTargetValue e) ∧ plain_float (FeedProbability e) ∧
  plain_float (ev_OddsDecimal e) ∧ Forall ValidString (texts e).

Lemma plain_float_id x : plain_float x → plus_zero x = x.
Proof. unfold plain_float, plus_zero. intros Hx. destruct (feq x (fnum 0)); [by rewrite Hx|done]. Qed.

Lemma received_plain e : plain_event e → received e = e.
Proof.
  intros (H1&H2&H3&H4&Ht). unfold received.
  rewrite (plain_float_id _ H1), (plain_float_id _ H2), (plain_float_id _ H3), (plain_float_id _ H4).
  unfold texts in Ht. repeat (apply Forall_cons in Ht as [Hv Ht]; rewrite Hv; clear Hv). by destruct e.
Qed.
End Received.

Ltac find_field :=
  unfold event_fields; solve [repeat first [by apply elem_of_cons; left | apply elem_of_cons; right]].

Lemma marshalable_fields {F} `{FloatOps F} (fs : list (string * option (json F))) :
  (∀ k j, (k, Some j) ∈ fs → marshalable j = true) → marshalable (JObj (encode_fields fs)) = true.
Proof.
  intros Hfs. cbn. unfold encode_fields. induction fs as [|[k [j|]] fs IH]; cbn; [done|..].
  - rewrite (Hfs k j) by apply list_elem_of_here. apply IH. intros k' j' Hin. apply (Hfs k').
    by apply list_elem_of_further.
  - apply IH. intros k' j' Hin. apply (Hfs k'). by apply list_elem_of_further.
Qed.

Lemma event_fields_distinct {F} `{FloatOps F} (e : NormalisedMarketEvent F) :
  NoDup (map (λ f, ToLower f.1) (event_fields e)).
Proof.
  assert (∀ l : list string, bool_decide (NoDup l) = true → NoDup l) as Hd by (intros l; apply bool_decide_eq_true).
  apply Hd. vm_compute. reflexivity.
Qed.

Lemma event_marshalable {F} `{FloatOps F} (e : NormalisedMarketEvent F) :
  writable e → marshalable (encodeEvent e) = true.
Proof.
  intros (Hf1&Hf2&Hf3&Hf4&_). apply marshalable_fields. intros k j Hin.
  unfold event_fields in Hin. repeat (apply elem_of_cons in Hin as [Hin|Hin];
    [injection Hin as -> Hj; unfold omit_string, omit_int, omit_bool, omit_float in Hj;
     repeat case_match; by simplify_eq|]).
  by apply not_elem_of_nil in Hin.
Qed.

Lemma decodeEvent_reads {F} `{FloatOps F} kvs (e : NormalisedMarketEvent F) :
  jstring "event_type" kvs = Some (EventType e) →
  jstring "provider_id" kvs = Some (ProviderID e) →
  jstring "sport_id" kvs = Some (SportID e) →
  jstring "event_id" kvs = Some (EventID e) →
  jstring "market_id" kvs = Some (ev_MarketID e) →
  jstring "selection_id" kvs = Some (ev_SelectionID e) →
  jstring "sport_name" kvs = Some (SportName e) →
  jstring "competition_id" kvs = Some (CompetitionID e) →
  jstring "competition_name" kvs = Some (CompetitionName e) →
  jstring "country" kvs = Some (Country e) →
  jstring "event_name" kvs = Some (EventName e) →
  jstring "starts_at" kvs = Some (StartsAt e) →
  jstring "event_status" kvs = Some (EventStatus e) →
  jstring "market_name" kvs = Some (ev_MarketName e) →
  jstring "market_type" kvs = Some (MarketType e) →
  jstring "market_status" kvs = Some (MarketStatus e) →
  jfloat "target_value" kvs = Some (TargetValue e) →
  jbool "is_main" kvs = Some (IsMain e) →
  jstring "closes_at" kvs = Some (ClosesAt e) →
  jstring "selection_name" kvs = Some (ev_SelectionName e) →
  jbool "sel_active" kvs = Some (SelActive e) →
  jfloat "sel_target_value" kvs = Some (SelTargetValue e) →
  jfloat "feed_probability" kvs = Some (FeedProbability e) →
  jint "home_score" kvs = Some (HomeScore e) →
  jint "away_score" kvs = Some (AwayScore e) →
  jstring "game_period" kvs = Some (GamePeriod e) →
  jstring "game_clock" kvs = Some (GameClock e) →
  jfloat "odds_decimal" kvs = Some (ev_OddsDecimal e) →
  jint "odds_american" kvs = Some (ev_OddsAmerican e) →
  jstring "winning_selection_id" kvs = Some (WinningSelectionID e) →
  jstring "published_at" kvs = Some (ev_PublishedAt e) →
  jstring "source_offset" kvs = Some (SourceOffset e) →
  decodeEvent kvs = Some e.
Proof.
  intros. unfold decodeEvent.
  repeat match goal with
  | E : ?l = Some _ |- context [?l] => rewrite E; clear E; cbn [mbind option_bind]
  end.
  by destruct e.
Qed.

Lemma event_decodes {F} `{FloatOps F} (e : NormalisedMarketEvent F) :
  writable e →
  ∃ data, Marshal (encodeEvent e) = Some data ∧ Unmarshal decodeEvent data = Some (received e).
Proof.
  intros He. exists (Doc (encodeEvent e)). split; [unfold Marshal; by rewrite event_marshalable|].
  destruct He as (Hf1&Hf2&Hf3&Hf4&Hi1&Hi2&Hi3).
  pose proof (event_fields_distinct e) as Hnd. cbn [Unmarshal encodeEvent].
  apply decodeEvent_reads; unfold received;
    cbn [EventType ProviderID SportID EventID ev_MarketID ev_SelectionID SportName CompetitionID
      CompetitionName Country EventName StartsAt EventStatus ev_MarketName MarketType MarketStatus
      TargetValue IsMain ClosesAt ev_SelectionName SelActive SelTargetValue FeedProbability HomeScore
      AwayScore GamePeriod GameClock ev_OddsDecimal ev_OddsAmerican WinningSelectionID ev_PublishedAt
      SourceOffset];
    first [ apply (read_omit_string _ Hnd); find_field | apply (read_string _ Hnd); find_field
          | apply (read_omit_bool _ Hnd); find_field
          | apply (read_omit_int _ Hnd); [done|find_field]
          | apply (read_omit_float _ Hnd); [done|find_field] ].
Qed.

(** C32. A canonical event survives the topic: what the ingestion service encodes,
    with its zero fields left out, every consumer decodes to the same event, but
    that the encoder makes its strings valid UTF-8 and a negative zero arrives as
    a positive one. An event with neither arrives as it was sent. *)
Theorem event_roundtrip {F} `{FloatOps F} (e : NormalisedMarketEvent F) :
  writable e →
  (∃ data, Marshal (encodeEvent e) = Some data ∧ Unmarshal decodeEvent data = Some (received e)) ∧
  (plain_event e → received e = e).
Proof. intros He. split; [by apply event_decodes|apply received_plain]. Qed.

(** ** Ingestion of a feed *)

Section IngestionLemmas.
Context {F K N : Type} `{FloatOps F} `{SyncProducer F K} `{Normaliser F N}.
Implicit Types w : world K.

(** The messages of a feed, in order, when all goes well. *)
Definition normalised (n : N) (t : Z) (raw : RawProviderEvent F) : list (NormalisedMarketEvent F) :=
  match Normalise n t raw with Ok es => es | Err _ => [] end.
Definition feedMessages (n : N) (t : Z) (feed : list (RawProviderEvent F)) : list (ProducerMessage F) :=
  feed ≫= λ raw, omap (eventMessage t) (normalised n t raw).

(** What a stretch of the feed adds to the log: [ms], or part of it. *)
Definition appends (ms : list (ProducerMessage F)) w w' : Prop :=
  clock w' = clock w ∧ ∃ sent, sent `sublist_of` ms ∧ produced (db w') = produced (db w) ++ sent.

Lemma appends_app ms ms' w1 w2 w3 : appends ms w1 w2 → appends ms' w2 w3 → appends (ms ++ ms') w1 w3.
Proof.
  intros (Hc1&s1&Hs1&Hp1) (Hc2&s2&Hs2&Hp2). split; [congruence|].
  exists (s1 ++ s2). split; [by apply sublist_app|]. by rewrite Hp2, Hp1, app_assoc.
Qed.
Lemma appends_nil w : appends [] w w.
Proof. split; [done|]. exists []. split; [done|]. by rewrite app_nil_r. Qed.

Lemma publish_event_wp e w :
  wp (publish_event e) (λ w' _, appends (option_list (eventMessage (clock w) e)) w w') w.
Proof.
  unfold publish_event. do 2 go_step. destruct (eventMessage (clock w) e) as [m|]; cbn.
  - eapply wp_mono; [|apply SendMessage_law]. intros w' r (Hc&_&Hp). split; [done|].
    destruct r; [|destruct Hp]; [exists [m]|exists []|exists [m]]; rewrite ?app_nil_r; split; try done;
      apply sublist_nil_l.
  - go_step. apply appends_nil.
Qed.

Lemma publish_events_wp es w :
  wp (forM_ es (λ e, catch (E:=string) (publish_event e) ;;; ret tt)) (λ w' (r : result string unit),
    r = Ok tt ∧ appends (omap (eventMessage (clock w)) es) w w') w.
Proof.
  revert w. induction es as [|e es IH]; intros w; cbn [forM_]; go_step; [by split; [|apply appends_nil]|].
  do 2 go_step. eapply wp_mono; [|apply publish_event_wp]. intros w1 r1 H1'. go_step.
  eapply wp_mono; [|apply IH]. intros w2 r2 [-> H2']. split; [done|].
  destruct H1' as [Hc ?]. rewrite Hc in H2'. cbn.
  assert (∀ o : option (ProducerMessage F), appends (option_list o ++ omap (eventMessage (clock w)) es) w w2 →
    appends (match o with Some y => y :: omap (eventMessage (clock w)) es
             | None => omap (eventMessage (clock w)) es end) w w2) as Hcase by by intros [].
  apply Hcase. eapply appends_app; [|done]. by split.
Qed.

(** Ingestion keeps order and invents nothing: whatever fails, the messages
    a feed adds to the topic are, in order, among those of its normalised
    events (each stamped with the time, keyed by its market or, without one, by
    its event); a raw event that cannot be normalised or a message that cannot
    be sent is skipped and the feed goes on. *)
Theorem consumeFeed_in_order (n : N) feed w w' r :
  consumeFeed n feed w = (w', r) →
  r = Ok tt ∧ ∃ sent, sent `sublist_of` feedMessages n (clock w) feed ∧
    produced (db w') = produced (db w) ++ sent.
Proof.
  intros Hm. revert w' r Hm. apply wp_intro.
  apply wp_mono with (Q := λ w' r, r = Ok tt ∧ appends (feedMessages n (clock w) feed) w w').
  { by intros w' r [-> [_ Hs]]. }
  unfold consumeFeed, feedMessages, normalised. revert w.
  induction feed as [|raw feed IH]; intros w; cbn [forM_]; go_step; [by split; [|apply appends_nil]|].
  do 2 go_step. cbn [mbind list_bind]. destruct (Normalise n (clock w) raw) as [es|e].
  - eapply wp_mono; [|apply publish_events_wp]. intros w1 r1 [-> H1'].
    eapply wp_mono; [|apply IH]. intros w2 r2 [-> H2']. split; [done|].
    destruct H1' as [Hc ?]. rewrite Hc in H2'. eapply appends_app; [|done]. by split.
  - go_step. apply IH.
Qed.
End IngestionLemmas.

(** ** Witnesses *)

Section Witnesses.
#[local] Existing Instance inert_platform.

Definition ex_event : NormalisedMarketEvent binary64 :=
  Build_NormalisedMarketEvent "catalog.upsert" "polymarket" "basketball" "e1" "m1" "m1-0" "Basketball"
    "nba" "NBA" "US" "Celtics @ Heat" "2026-03-01T00:00:00Z" "LIVE" "Celtics @ Heat" "ML" "OPEN"
    (fnum 0) true "2026-03-01T00:00:00Z" "Celtics" true (fnum 0) (lit 55 100) 0 0 "" "" (fnum 0) 0 "" "" "".

Lemma event_roundtrip_witness :
  ∃ data, Marshal (encodeEvent ex_event) = Some data ∧ Unmarshal decodeEvent data = Some ex_event.
Proof.
  assert (writable ex_event) as He by (unfold writable; vm_compute; split_and!; done).
  assert (plain_event ex_event) as Hp.
  { unfold plain_event, plain_float. split_and!; [vm_compute; done..|]. by apply (bool_decide_unpack _). }
  destruct (event_roundtrip ex_event He) as [(data&Hm&Hu) Hid]. exists data. split; [exact Hm|].
  rewrite (Hid Hp) in Hu. exact Hu.
Defined.

(** A name cut in the middle of a letter, and one that is whole. *)
Example cut_name : ToValidUTF8 (String (Ascii.ascii_of_N 195) "x") = replacement "x".
Proof. reflexivity. Qed.
Example whole_name :
  ValidString (String (Ascii.ascii_of_N 195) (String (Ascii.ascii_of_N 169) "x")).
Proof. reflexivity. Qed.

(** Two raw events; the broker refuses the message of the first. *)
Definition ex_raw (m : string) : RawProviderEvent binary64 := {|
  raw_ProviderID := "sportradar"; Data := Doc (JObj [("type", JStr "price.update"); ("market_id", JStr m)]);
  ReceivedAt := 0 |}.
Definition ex_feed_world : world (list (ProducerMessage binary64)) := World [] 0 0 [true].
Definition ex_feed_run := consumeFeed sportradar [ex_raw "m1"; ex_raw "m2"] ex_feed_world.

Lemma consumeFeed_in_order_witness :
  map Key (produced (db ex_feed_run.1)) = ["m2"] ∧ ex_feed_run.2 = Ok tt.
Proof.
  split; [vm_compute; reflexivity|].
  apply (consumeFeed_in_order sportradar [ex_raw "m1"; ex_raw "m2"] ex_feed_world ex_feed_run.1 ex_feed_run.2).
  apply surjective_pairing.
Defined.
End Witnesses.
