(* ===== verification/Catalog.v ===== *)
(** * Market Catalog: tables and feed consumer ([internal/catalog/consumer.go])

    The tables of [migrations/db_catalog] and the handlers that keep them from
    the canonical events. The theorems: the references between the tables are
    an invariant, an upsert is idempotent and never touches a market's status,
    and what a market of the feed looks like after its event. *)
From S2P Require Export MarketEvent.
Local Open Scope Z_scope.
Local Open Scope go_scope.

(** ** PostgreSQL's conversions

    A [NUMERIC(p, s)] column rounds to [s] decimals and refuses what needs more
    than [p] digits; a [TIMESTAMPTZ] column reads a text or refuses it. *)
Class Postgres (F : Type) : Type := {
  numeric : Z → Z → F → option F;
  timestamptz : string → option Z
}.

(** ** Tables *)

Record CompetitionRow : Type := { comp_sport_id : string; comp_name : string; comp_country : string }.

Record EventRow : Type := {
  evt_competition_id : string;
  evt_name : string;
  evt_starts_at : Z;
  evt_status : string;
  evt_home_score : Z;
  evt_away_score : Z;
  evt_game_period : string;
  evt_game_clock : string;
  evt_updated_at : Z
}.

Record MarketRow (F : Type) : Type := {
  mk_event_id : string;
  mk_name : string;
  mk_status : string;
  mk_opens_at : Z;
  mk_closes_at : option Z;
  mk_updated_at : Z;
  mk_type : option string;
  mk_target_value : F;
  mk_is_main : bool
}.
Arguments mk_event_id {F} _.
Arguments mk_name {F} _.
Arguments mk_status {F} _.
Arguments mk_opens_at {F} _.
Arguments mk_closes_at {F} _.
Arguments mk_updated_at {F} _.
Arguments mk_type {F} _.
Arguments mk_target_value {F} _.
Arguments mk_is_main {F} _.
Arguments Build_MarketRow {F}.

Record SelectionRow (F : Type) : Type := {
  sel_market_id : string;
  sel_name : string;
  sel_active : bool;
  sel_target_value : F;
  sel_feed_probability : option F
}.
Arguments sel_market_id {F} _.
Arguments sel_name {F} _.
Arguments sel_active {F} _.
Arguments sel_target_value {F} _.
Arguments sel_feed_probability {F} _.
Arguments Build_SelectionRow {F}.

Record CatalogDB (F : Type) : Type := {
  sports : gmap string string;
  competitions : gmap string CompetitionRow;
  events : gmap string EventRow;
  markets : gmap string (MarketRow F);
  selections : gmap string (SelectionRow F)
}.
Arguments sports {F} _.
Arguments competitions {F} _.
Arguments events {F} _.
Arguments markets {F} _.
Arguments selections {F} _.
Arguments Build_CatalogDB {F}.

Section Tables.
Context {F : Type}.
Definition set_sports m (d : CatalogDB F) :=
  Build_CatalogDB m (competitions d) (events d) (markets d) (selections d).
Definition set_competitions m (d : CatalogDB F) :=
  Build_CatalogDB (sports d) m (events d) (markets d) (selections d).
Definition set_events m (d : CatalogDB F) :=
  Build_CatalogDB (sports d) (competitions d) m (markets d) (selections d).
Definition set_markets m (d : CatalogDB F) :=
  Build_CatalogDB (sports d) (competitions d) (events d) m (selections d).
Definition set_selections m (d : CatalogDB F) :=
  Build_CatalogDB (sports d) (competitions d) (events d) (markets d) m.
End Tables.

(** The CHECK constraints of the status and type columns. *)
Definition event_status_ok (s : string) : bool :=
  bool_decide (s ∈ ["SCHEDULED"; "LIVE"; "FINISHED"; "CANCELLED"]).
Definition market_status_ok (s : string) : bool :=
  bool_decide (s ∈ ["OPEN"; "SUSPENDED"; "CLOSED"; "SETTLED"]).
Definition market_type_ok (s : string) : bool :=
  bool_decide (s ∈ ["ML"; "SPREAD"; "TOTAL"; "BINARY"]).
Definition in_int32 (z : Z) : bool := (- 2 ^ 31 <=? z) && (z <? 2 ^ 31).

(** ** The statements of handleCatalogUpsert

    [None] is an error of the statement. The constraints on the proposed row are
    checked first; a row that exists is updated in the listed columns only, and
    a reference is checked when the row is new. *)
Section Statements.
Context {F : Type} `{FloatOps F} `{Postgres F}.
Implicit Types (e : NormalisedMarketEvent F) (d : CatalogDB F).

Definition upsertSport e d : option (CatalogDB F) :=
  match sports d !! SportID e with
  | Some _ => Some d
  | None => Some (set_sports (<[SportID e := SportName e]> (sports d)) d)
  end.

Definition upsertCompetition e d : option (CatalogDB F) :=
  match competitions d !! CompetitionID e with
  | Some _ => Some d
  | None =>
      _ ← sports d !! SportID e;
      Some (set_competitions (<[CompetitionID e :=
        {| comp_sport_id := SportID e; comp_name := CompetitionName e; comp_country := Country e |}]>
        (competitions d)) d)
  end.

Definition upsertEvent (t : Z) e d : option (CatalogDB F) :=
  starts ← timestamptz (StartsAt e);
  if negb (event_status_ok (EventStatus e)) then None else
  match events d !! EventID e with
  | Some r =>
      Some (set_events (<[EventID e :=
        {| evt_competition_id := evt_competition_id r; evt_name := EventName e; evt_starts_at := starts;
           evt_status := EventStatus e; evt_home_score := evt_home_score r;
           evt_away_score := evt_away_score r; evt_game_period := evt_game_period r;
           evt_game_clock := evt_game_clock r; evt_updated_at := t |}]> (events d)) d)
  | None =>
      _ ← competitions d !! CompetitionID e;
      Some (set_events (<[EventID e :=
        {| evt_competition_id := CompetitionID e; evt_name := EventName e; evt_starts_at := starts;
           evt_status := EventStatus e; evt_home_score := 0; evt_away_score := 0;
           evt_game_period := ""; evt_game_clock := ""; evt_updated_at := t |}]> (events d)) d)
  end.

Definition upsertMarket (t : Z) e d : option (CatalogDB F) :=
  closes ← timestamptz (ClosesAt e);
  target ← numeric 10 5 (TargetValue e);
  if negb (market_status_ok (MarketStatus e)) || negb (market_type_ok (MarketType e)) then None else
  match markets d !! ev_MarketID e with
  | Some r =>
      Some (set_markets (<[ev_MarketID e :=
        {| mk_event_id := mk_event_id r; mk_name := ev_MarketName e; mk_status := mk_status r;
           mk_opens_at := mk_opens_at r; mk_closes_at := mk_closes_at r; mk_updated_at := t;
           mk_type := Some (MarketType e); mk_target_value := target; mk_is_main := IsMain e |}]>
        (markets d)) d)
  | None =>
      _ ← events d !! EventID e;
      Some (set_markets (<[ev_MarketID e :=
        {| mk_event_id := EventID e; mk_name := ev_MarketName e; mk_status := MarketStatus e;
           mk_opens_at := t; mk_closes_at := Some closes; mk_updated_at := t;
           mk_type := Some (MarketType e); mk_target_value := target; mk_is_main := IsMain e |}]>
        (markets d)) d)
  end.

Definition probability_ok (p : F) : bool := fle (fnum 0) p && fle p (fnum 1).

Definition upsertSelection e d : option (CatalogDB F) :=
  target ← numeric 10 5 (SelTargetValue e);
  prob ← numeric 6 5 (FeedProbability e);
  if negb (probability_ok prob) then None else
  match selections d !! ev_SelectionID e with
  | Some r =>
      Some (set_selections (<[ev_SelectionID e :=
        {| sel_market_id := sel_market_id r; sel_name := ev_SelectionName e; sel_active := sel_active r;
           sel_target_value := target; sel_feed_probability := Some prob |}]> (selections d)) d)
  | None =>
      _ ← markets d !! ev_MarketID e;
      Some (set_selections (<[ev_SelectionID e :=
        {| sel_market_id := ev_MarketID e; sel_name := ev_SelectionName e; sel_active := SelActive e;
           sel_target_value := target; sel_feed_probability := Some prob |}]> (selections d)) d)
  end.

(** The UPDATE of handleGameState; the score columns are 32 bits wide. *)
Definition updateGameState (t : Z) e d : option (CatalogDB F) :=
  if negb (in_int32 (HomeScore e)) || negb (in_int32 (AwayScore e)) then None else
  match events d !! EventID e with
  | None => Some d
  | Some r =>
      if negb (event_status_ok (EventStatus e)) then None else
      Some (set_events (<[EventID e :=
        {| evt_competition_id := evt_competition_id r; evt_name := evt_name r;
           evt_starts_at := evt_starts_at r; evt_status := EventStatus e;
           evt_home_score := HomeScore e; evt_away_score := AwayScore e;
           evt_game_period := GamePeriod e; evt_game_clock := GameClock e; evt_updated_at := t |}]>
        (events d)) d)
  end.

(** ** The handlers *)

Definition both (a b : string) : bool := negb (a =? "")%string && negb (b =? "")%string.
Definition when (b : bool) (m : Go (CatalogDB F) string unit) : Go (CatalogDB F) string unit :=
  if b then m else ret tt.

Definition handleCatalogUpsert e : Go (CatalogDB F) string unit :=
  t <- now ;;
  when (both (SportID e) (SportName e)) (exec (upsertSport e) or_throw "upsert sport") ;;;
  when (both (CompetitionID e) (CompetitionName e))
    (exec (upsertCompetition e) or_throw "upsert competition") ;;;
  when (both (EventID e) (EventName e)) (exec (upsertEvent t e) or_throw "upsert event") ;;;
  when (both (ev_MarketID e) (ev_MarketName e)) (exec (upsertMarket t e) or_throw "upsert market") ;;;
  when (both (ev_SelectionID e) (ev_SelectionName e))
    (exec (upsertSelection e) or_throw "upsert selection").

Definition handleGameState e : Go (CatalogDB F) string unit :=
  t <- now ;;
  exec (updateGameState t e) or_throw "update events".
End Statements.

(** ** Well-formed tables *)

Definition refs_ok {F} (d : CatalogDB F) : Prop :=
  (∀ k r, competitions d !! k = Some r → is_Some (sports d !! comp_sport_id r)) ∧
  (∀ k r, events d !! k = Some r → is_Some (competitions d !! evt_competition_id r)) ∧
  (∀ k r, markets d !! k = Some r → is_Some (events d !! mk_event_id r)) ∧
  (∀ k r, selections d !! k = Some r → is_Some (markets d !! sel_market_id r)).

Definition values_ok {F} `{FloatOps F} (d : CatalogDB F) : Prop :=
  (∀ k r, events d !! k = Some r → event_status_ok (evt_status r) = true ∧
     in_int32 (evt_home_score r) = true ∧ in_int32 (evt_away_score r) = true) ∧
  (∀ k r, markets d !! k = Some r → market_status_ok (mk_status r) = true ∧
     (∀ s, mk_type r = Some s → market_type_ok s = true)) ∧
  (∀ k r p, selections d !! k = Some r → sel_feed_probability r = Some p → probability_ok p = true).

Definition catalog_wf {F} `{FloatOps F} (d : CatalogDB F) : Prop := refs_ok d ∧ values_ok d.

(** What an upsert leaves alone in the rows that exist. *)
Definition keeps_lifecycle {F} (d d' : CatalogDB F) : Prop :=
  (∀ k r, markets d !! k = Some r → ∃ r', markets d' !! k = Some r' ∧
     mk_status r' = mk_status r ∧ mk_event_id r' = mk_event_id r ∧
     mk_opens_at r' = mk_opens_at r ∧ mk_closes_at r' = mk_closes_at r) ∧
  (∀ k r, selections d !! k = Some r → ∃ r', selections d' !! k = Some r' ∧
     sel_active r' = sel_active r ∧ sel_market_id r' = sel_market_id r) ∧
  (∀ k r, events d !! k = Some r → ∃ r', events d' !! k = Some r' ∧
     evt_competition_id r' = evt_competition_id r ∧ evt_home_score r' = evt_home_score r ∧
     evt_away_score r' = evt_away_score r ∧ evt_game_period r' = evt_game_period r ∧
     evt_game_clock r' = evt_game_clock r) ∧
  (∀ k n, sports d !! k = Some n → sports d' !! k = Some n) ∧
  (∀ k r, competitions d !! k = Some r → competitions d' !! k = Some r).

(** ** Lemmas *)

Section Lemmas.
Context {F : Type} `{FloatOps F} `{Postgres F}.
Implicit Types (e : NormalisedMarketEvent F) (d : CatalogDB F) (w : world (CatalogDB F)).

Lemma keeps_refl d : keeps_lifecycle d d.
Proof. split_and!; try done; intros k r Hk; exists r; by split_and!. Qed.

Lemma keeps_trans d1 d2 d3 : keeps_lifecycle d1 d2 → keeps_lifecycle d2 d3 → keeps_lifecycle d1 d3.
Proof.
  intros (Hm&Hs&He&Hsp&Hc) (Hm'&Hs'&He'&Hsp'&Hc'). split_and!; eauto.
  - intros k r (r1&H1&?&?&?&?)%Hm. apply Hm' in H1 as (r2&?&?&?&?&?). exists r2. split_and!; congruence.
  - intros k r (r1&H1&?&?)%Hs. apply Hs' in H1 as (r2&?&?&?). exists r2. split_and!; congruence.
  - intros k r (r1&H1&?&?&?&?&?)%He. apply He' in H1 as (r2&?&?&?&?&?&?). exists r2. split_and!; congruence.
Qed.

(** A property of the tables every statement keeps is kept by the handler,
    whatever fails. *)
Lemma handleCatalogUpsert_inv (I : CatalogDB F → Prop) e w :
  (∀ d d', I d → upsertSport e d = Some d' → I d') →
  (∀ d d', I d → upsertCompetition e d = Some d' → I d') →
  (∀ d d', I d → upsertEvent (clock w) e d = Some d' → I d') →
  (∀ d d', I d → upsertMarket (clock w) e d = Some d' → I d') →
  (∀ d d', I d → upsertSelection e d = Some d' → I d') →
  I (db w) → wp (handleCatalogUpsert e) (λ w' _, I (db w')) w.
Proof.
  intros Hsp Hco Hev Hmk Hse Hi.
  assert (∀ b f msg (Q : world (CatalogDB F) → result string unit → Prop) w0,
    (∀ d d', I d → f d = Some d' → I d') → I (db w0) →
    (∀ w1 r, I (db w1) → match r with Ok _ => Q w1 r | Err e => Q w1 (Err e) end) →
    wp (when b (exec f or_throw msg)) Q w0) as Hwhen.
  { intros b f msg Q w0 Hf Hi0 HQ. unfold when. destruct b; [|by apply wp_ret, (HQ w0 (Ok tt))].
    do 2 go_step; [by apply (HQ _ (Err msg))|]. destruct (f (db w0)) as [d|] eqn:Hd.
    - apply (HQ _ (Ok tt)). cbn. by eapply Hf.
    - by apply (HQ _ (Err msg)). }
  unfold handleCatalogUpsert. do 2 go_step.
  do 4 (go_step; apply Hwhen; [by auto|by auto|intros ?w [[]|] ?; [|done]]).
  by apply Hwhen; [auto|auto|intros ? []].
Qed.

(** One row changes: the tables stay well formed. *)
Ltac by_row := intros ? ?; cbn; rewrite ?lookup_insert_Some; intros; destruct_or?; destruct_and?;
  subst; rewrite ?lookup_insert_is_Some'; eauto.

Lemma refs_sport k v d : refs_ok d → refs_ok (set_sports (<[k := v]> (sports d)) d).
Proof. intros (H1'&H2'&H3'&H4'). split_and!; by_row. Qed.
Lemma refs_competition k r d :
  is_Some (sports d !! comp_sport_id r) → refs_ok d →
  refs_ok (set_competitions (<[k := r]> (competitions d)) d).
Proof. intros Hr (H1'&H2'&H3'&H4'). split_and!; by_row. Qed.
Lemma refs_event k r d :
  is_Some (competitions d !! evt_competition_id r) → refs_ok d →
  refs_ok (set_events (<[k := r]> (events d)) d).
Proof. intros Hr (H1'&H2'&H3'&H4'). split_and!; by_row. Qed.
Lemma refs_market k r d :
  is_Some (events d !! mk_event_id r) → refs_ok d →
  refs_ok (set_markets (<[k := r]> (markets d)) d).
Proof. intros Hr (H1'&H2'&H3'&H4'). split_and!; by_row. Qed.
Lemma refs_selection k r d :
  is_Some (markets d !! sel_market_id r) → refs_ok d →
  refs_ok (set_selections (<[k := r]> (selections d)) d).
Proof. intros Hr (H1'&H2'&H3'&H4'). split_and!; by_row. Qed.

Lemma values_event k r d :
  event_status_ok (evt_status r) = true → in_int32 (evt_home_score r) = true →
  in_int32 (evt_away_score r) = true → values_ok d → values_ok (set_events (<[k := r]> (events d)) d).
Proof. intros ??? (H1'&H2'&H3'). split_and!; by_row. Qed.
Lemma values_market k r d :
  market_status_ok (mk_status r) = true → (∀ s, mk_type r = Some s → market_type_ok s = true) →
  values_ok d → values_ok (set_markets (<[k := r]> (markets d)) d).
Proof. intros ?? (H1'&H2'&H3'). split_and!; by_row. Qed.
Lemma values_selection k r d :
  (∀ p, sel_feed_probability r = Some p → probability_ok p = true) →
  values_ok d → values_ok (set_selections (<[k := r]> (selections d)) d).
Proof. intros Hp (H1'&H2'&H3'). split_and!; [done|done|]. intros k' r' p. cbn.
  rewrite lookup_insert_Some. intros [[-> <-]|[? ?]]; eauto. Qed.

(** Case analysis on the outcome of a statement. *)
Ltac on_statement Hd :=
  repeat first
    [ let E := fresh "E" in apply bind_Some in Hd as (?&E&Hd)
    | match type of Hd with
      | context [match ?x with _ => _ end] => let E := fresh "E" in destruct x eqn:E
      end ];
  simplify_eq.

Lemma upsertSport_wf e d d' : catalog_wf d → upsertSport e d = Some d' → catalog_wf d'.
Proof.
  intros [Hr Hv] Hd. unfold upsertSport in Hd. on_statement Hd; [by split|].
  split; [by apply refs_sport|done].
Qed.
Lemma upsertCompetition_wf e d d' : catalog_wf d → upsertCompetition e d = Some d' → catalog_wf d'.
Proof.
  intros [Hr Hv] Hd. unfold upsertCompetition in Hd. on_statement Hd; [by split|].
  split; [apply refs_competition; [cbn; by eexists|done]|done].
Qed.
Lemma upsertEvent_wf t e d d' : catalog_wf d → upsertEvent t e d = Some d' → catalog_wf d'.
Proof.
  intros [Hr Hv] Hd. unfold upsertEvent in Hd. on_statement Hd; boolify; split.
  - apply refs_event; [|done]. cbn. destruct Hr as (_&Hr&_). by eapply Hr.
  - destruct (proj1 Hv _ _ E1) as (?&?&?). by apply values_event.
  - apply refs_event; [cbn; by eexists|done].
  - by apply values_event.
Qed.
Lemma upsertMarket_wf t e d d' : catalog_wf d → upsertMarket t e d = Some d' → catalog_wf d'.
Proof.
  intros [Hr Hv] Hd. unfold upsertMarket in Hd. on_statement Hd; boolify; destruct_and?; split.
  - apply refs_market; [|done]. cbn. destruct Hr as (_&_&Hr&_). by eapply Hr.
  - destruct (proj1 (proj2 Hv) _ _ E2) as (?&?). apply values_market; [done| |done]. by intros ? [= <-].
  - apply refs_market; [cbn; by eexists|done].
  - apply values_market; [done| |done]. by intros ? [= <-].
Qed.
Lemma upsertSelection_wf e d d' : catalog_wf d → upsertSelection e d = Some d' → catalog_wf d'.
Proof.
  intros [Hr Hv] Hd. unfold upsertSelection in Hd. on_statement Hd; boolify; destruct_and?; split.
  - apply refs_selection; [|done]. cbn. destruct Hr as (_&_&_&Hr). by eapply Hr.
  - apply values_selection; [|done]. by intros ? [= <-].
  - apply refs_selection; [cbn; by eexists|done].
  - apply values_selection; [|done]. by intros ? [= <-].
Qed.

Ltac row_cases k0 :=
  let k := fresh "k" in let r := fresh "r" in let Hk := fresh "Hk" in
  intros k r Hk; cbn; destruct (decide (k = k0)) as [->|];
  [rewrite lookup_insert_eq
  | rewrite lookup_insert_ne by done; first [done | exists r; split_and!; done]].

Lemma upsertSport_keeps e d d' : upsertSport e d = Some d' → keeps_lifecycle d d'.
Proof.
  intros Hd. unfold upsertSport in Hd. on_statement Hd; [apply keeps_refl|].
  destruct (keeps_refl d) as (?&?&?&?&?). split_and!; try done. row_cases (SportID e). congruence.
Qed.
Lemma upsertCompetition_keeps e d d' : upsertCompetition e d = Some d' → keeps_lifecycle d d'.
Proof.
  intros Hd. unfold upsertCompetition in Hd. on_statement Hd; [apply keeps_refl|].
  destruct (keeps_refl d) as (?&?&?&?&?). split_and!; try done. row_cases (CompetitionID e). congruence.
Qed.
Lemma upsertEvent_keeps t e d d' : upsertEvent t e d = Some d' → keeps_lifecycle d d'.
Proof.
  intros Hd. unfold upsertEvent in Hd. on_statement Hd; destruct (keeps_refl d) as (?&?&?&?&?);
    split_and!; try done; row_cases (EventID e); [eexists; split; [done|]|congruence]. cbn.
  assert (e0 = r) as -> by congruence. by split_and!.
Qed.
Lemma upsertMarket_keeps t e d d' : upsertMarket t e d = Some d' → keeps_lifecycle d d'.
Proof.
  intros Hd. unfold upsertMarket in Hd. on_statement Hd; destruct (keeps_refl d) as (?&?&?&?&?);
    split_and!; try done; row_cases (ev_MarketID e); [eexists; split; [done|]|congruence]. cbn.
  assert (m = r) as -> by congruence. by split_and!.
Qed.
Lemma upsertSelection_keeps e d d' : upsertSelection e d = Some d' → keeps_lifecycle d d'.
Proof.
  intros Hd. unfold upsertSelection in Hd. on_statement Hd; destruct (keeps_refl d) as (?&?&?&?&?);
    split_and!; try done; row_cases (ev_SelectionID e); [eexists; split; [done|]|congruence]. cbn.
  assert (s = r) as -> by congruence. by split_and!.
Qed.

Lemma updateGameState_wf t e d d' : catalog_wf d → updateGameState t e d = Some d' → catalog_wf d'.
Proof.
  intros [Hr Hv] Hd. unfold updateGameState in Hd. on_statement Hd; [|by split].
  boolify. destruct_and?. split.
  - apply refs_event; [|done]. cbn. destruct Hr as (_&Hr&_). by eapply Hr.
  - by apply values_event.
Qed.

(** ** Doing a statement again

    A statement is settled in tables where it changes nothing. Each is settled
    once it has run, and the later ones, which write other tables, keep it so. *)
Definition settled (f : CatalogDB F → option (CatalogDB F)) d : Prop := f d = Some d.

Lemma upsertSport_again e d d' :
  upsertSport e d = Some d' → ∀ d2, sports d2 = sports d' → settled (upsertSport e) d2.
Proof.
  unfold settled, upsertSport. intros Hd d2 ->. on_statement Hd; [by rewrite E|].
  cbn. by rewrite lookup_insert_eq.
Qed.
Lemma upsertCompetition_again e d d' :
  upsertCompetition e d = Some d' → ∀ d2, competitions d2 = competitions d' →
  settled (upsertCompetition e) d2.
Proof.
  unfold settled, upsertCompetition. intros Hd d2 ->. on_statement Hd; [by rewrite E|].
  cbn. by rewrite lookup_insert_eq.
Qed.
Lemma upsertEvent_again t e d d' :
  upsertEvent t e d = Some d' → ∀ d2, events d2 = events d' → settled (upsertEvent t e) d2.
Proof.
  unfold settled, upsertEvent. intros Hd d2 Heq. on_statement Hd; rewrite E; cbn; rewrite ?E0; cbn;
    rewrite Heq; cbn; rewrite lookup_insert_eq, insert_insert_eq; cbn; cbn in Heq;
    rewrite <- Heq; by destruct d2.
Qed.
Lemma upsertMarket_again t e d d' :
  upsertMarket t e d = Some d' → ∀ d2, markets d2 = markets d' → settled (upsertMarket t e) d2.
Proof.
  unfold settled, upsertMarket. intros Hd d2 Heq. on_statement Hd; rewrite E; cbn; rewrite ?E0; cbn;
    rewrite ?E1; rewrite Heq; cbn; rewrite lookup_insert_eq, insert_insert_eq; cbn; cbn in Heq;
    rewrite <- Heq; by destruct d2.
Qed.
Lemma upsertSelection_again e d d' :
  upsertSelection e d = Some d' → ∀ d2, selections d2 = selections d' → settled (upsertSelection e) d2.
Proof.
  unfold settled, upsertSelection. intros Hd d2 Heq. on_statement Hd; rewrite E; cbn; rewrite ?E0; cbn;
    rewrite ?E1; rewrite Heq; cbn; rewrite lookup_insert_eq, insert_insert_eq; cbn; cbn in Heq;
    rewrite <- Heq; by destruct d2.
Qed.

(** The handler without faults: statements in sequence up to the first failure. *)
Fixpoint run_statements (fs : list ((CatalogDB F → option (CatalogDB F)) * string)) d
  : CatalogDB F * result string unit :=
  match fs with
  | [] => (d, Ok tt)
  | (f, msg) :: fs => match f d with Some d' => run_statements fs d' | None => (d, Err msg) end
  end.

Definition guarded (b : bool) (f : CatalogDB F → option (CatalogDB F)) d : option (CatalogDB F) :=
  if b then f d else Some d.
Definition upsertStatements (t : Z) e : list ((CatalogDB F → option (CatalogDB F)) * string) := [
  (guarded (both (SportID e) (SportName e)) (upsertSport e), "upsert sport");
  (guarded (both (CompetitionID e) (CompetitionName e)) (upsertCompetition e), "upsert competition");
  (guarded (both (EventID e) (EventName e)) (upsertEvent t e), "upsert event");
  (guarded (both (ev_MarketID e) (ev_MarketName e)) (upsertMarket t e), "upsert market");
  (guarded (both (ev_SelectionID e) (ev_SelectionName e)) (upsertSelection e), "upsert selection")].

Lemma handleCatalogUpsert_run e d t n :
  handleCatalogUpsert e (World d t n []) =
    let '(d', r) := run_statements (upsertStatements t e) d in (World d' t n [], r).
Proof.
  assert (∀ b f msg (k : Go (CatalogDB F) string unit) fs d0,
    (∀ d, k (World d t n []) = let '(d', r) := run_statements fs d in (World d' t n [], r)) →
    gbind (when b (exec f or_throw msg)) (λ _, k) (World d0 t n []) =
      let '(d', r) := run_statements ((guarded b f, msg) :: fs) d0 in (World d' t n [], r)) as Hstep.
  { intros b f msg k fs d0 Hk. unfold when, guarded, gbind, mapErr, exec, flaky, ret. cbn.
    destruct b; [|apply Hk]. cbn. destruct (f d0); [apply Hk|done]. }
  unfold handleCatalogUpsert, upsertStatements.
  change (gbind now ?k (World d t n [])) with (k t (World d t n [])). cbv beta.
  do 4 (apply Hstep; clear d; intros d).
  unfold when, guarded, mapErr, exec, flaky, ret. cbn.
  destruct (both (ev_SelectionID e) (ev_SelectionName e)); cbn; [|done].
  by destruct (upsertSelection e d).
Qed.

(** Each statement is settled after it ran, and stays so through the rest. *)
Inductive settles : list ((CatalogDB F → option (CatalogDB F)) * string) → Prop :=
| settles_nil : settles []
| settles_cons f msg fs :
    (∀ d d', f d = Some d' → settled f d') →
    (∀ g m d d', (g, m) ∈ fs → settled f d → g d = Some d' → settled f d') →
    settles fs → settles ((f, msg) :: fs).

Lemma run_settled fs d : Forall (λ f, settled f.1 d) fs → ∀ gs, run_statements (fs ++ gs) d = run_statements gs d.
Proof. induction 1 as [|[f m] fs Hf _ IH]; intros gs; cbn; [done|]. cbn in Hf. rewrite Hf. apply IH. Qed.

Lemma run_twice fs d :
  settles fs → run_statements fs (run_statements fs d).1 = run_statements fs d.
Proof.
  intros Hs. assert (∀ pre, Forall (λ f, settled f.1 d ∧
      (∀ g m d1 d2, (g, m) ∈ fs → settled f.1 d1 → g d1 = Some d2 → settled f.1 d2)) pre →
    run_statements (pre ++ fs) (run_statements fs d).1 = run_statements fs d) as Hgen;
    [|by apply (Hgen [])].
  revert d. induction Hs as [|f msg fs Hf Hkeep Hs IH]; intros d pre Hpre.
  - cbn. rewrite run_settled; [done|]. eapply Forall_impl; [done|]. by intros ? [? _].
  - cbn [run_statements]. destruct (f d) as [d1|] eqn:Hd.
    + replace (pre ++ (f, msg) :: fs) with ((pre ++ [(f, msg)]) ++ fs) by by rewrite <- app_assoc.
      apply IH. apply Forall_app. split.
      * eapply Forall_impl; [done|]. intros [g m] [Hg Hk]. cbn in *. split.
        -- eapply (Hk f msg); [apply list_elem_of_here|done|done].
        -- intros g' m' d2 d3 Hin. apply (Hk g' m'). by apply list_elem_of_further.
      * constructor; [|done]. cbn. split; [by eapply Hf|done].
    + cbn. rewrite run_settled; [by cbn; rewrite Hd|].
      eapply Forall_impl; [done|]. by intros ? [? _].
Qed.

(** The tables a statement does not write. *)
Lemma upsertCompetition_others e d d' : upsertCompetition e d = Some d' → sports d' = sports d.
Proof. unfold upsertCompetition. intros Hd. by on_statement Hd. Qed.
Lemma upsertEvent_others t e d d' : upsertEvent t e d = Some d' →
  sports d' = sports d ∧ competitions d' = competitions d.
Proof. unfold upsertEvent. intros Hd. by on_statement Hd. Qed.
Lemma upsertMarket_others t e d d' : upsertMarket t e d = Some d' →
  sports d' = sports d ∧ competitions d' = competitions d ∧ events d' = events d.
Proof. unfold upsertMarket. intros Hd. by on_statement Hd. Qed.
Lemma upsertSelection_others e d d' : upsertSelection e d = Some d' →
  sports d' = sports d ∧ competitions d' = competitions d ∧ events d' = events d ∧ markets d' = markets d.
Proof. unfold upsertSelection. intros Hd. by on_statement Hd. Qed.

Lemma guarded_settles b f (tbl : Type) (get : CatalogDB F → tbl) msg fs :
  (∀ d d', f d = Some d' → ∀ d2, get d2 = get d' → settled f d2) →
  (∀ g m d d', (g, m) ∈ fs → g d = Some d' → get d' = get d) →
  settles fs → settles ((guarded b f, msg) :: fs).
Proof.
  intros Hagain Hother Hfs. constructor; [| |done].
  - intros d d' Hd. destruct b; [|done]. by eapply Hagain.
  - intros g m d d' Hin Hset Hd. destruct b; [|done]. unfold settled in *. cbn in *.
    eapply Hagain; [exact Hset|]. by eapply Hother.
Qed.

(** The statements after a given one leave its table alone. *)
Ltac later_statements :=
  intros g m d d' Hin; repeat (apply elem_of_cons in Hin as [Hin|Hin]; [injection Hin as -> _|]);
  [..|by apply not_elem_of_nil in Hin];
  unfold guarded; case_match; try congruence;
  first [ intros (?&?&?&?)%upsertSelection_others | intros (?&?&?)%upsertMarket_others
        | intros (?&?)%upsertEvent_others | intros ?%upsertCompetition_others ]; congruence.

Lemma upsertStatements_settle t e : settles (upsertStatements t e).
Proof.
  unfold upsertStatements.
  apply (guarded_settles _ _ _ sports); [apply upsertSport_again|later_statements|].
  apply (guarded_settles _ _ _ competitions); [apply upsertCompetition_again|later_statements|].
  apply (guarded_settles _ _ _ events); [apply upsertEvent_again|later_statements|].
  apply (guarded_settles _ _ _ markets); [apply upsertMarket_again|later_statements|].
  apply (guarded_settles _ _ _ selections); [apply upsertSelection_again|later_statements|].
  constructor.
Qed.
End Lemmas.

(** ** The consumer's dispatch *)

(** The hub of WebSocket clients, as the consumers use it. *)
Class BroadcasterApi (F B : Type) : Type := {
  Broadcast : bytes F → B → B;
  ClientCount : B → Z
}.

Section Consumer.
Context {F B : Type} `{FloatOps F} `{Postgres F} `{BroadcasterApi F B}.

(** The consumer owns its tables and, when configured, feeds the broadcaster. *)
Abbreviation Feed := (CatalogDB F * option B)%type.
Definition feed_db : lens Feed (CatalogDB F) := Lens fst (λ d s, (d, s.2)).

Definition scoreUpdate (e : NormalisedMarketEvent F) : json F := JObj [
  ("type", JStr "score_update");
  ("event_id", JStr (EventID e));
  ("home_score", JInt (HomeScore e));
  ("away_score", JInt (AwayScore e));
  ("game_period", JStr (GamePeriod e));
  ("game_clock", JStr (GameClock e));
  ("status", JStr (EventStatus e))].

Definition broadcastScoreUpdate (e : NormalisedMarketEvent F) : Go Feed string unit :=
  match Marshal (scoreUpdate e) with
  | None => ret tt
  | Some data => puts (λ s, (s.1, Broadcast data <$> s.2))
  end.

(** One turn of ConsumeClaim. Every message is marked, whatever happened to it. *)
Definition handleFeedMessage (msg : ConsumerMessage F) : Go Feed string unit :=
  match Unmarshal decodeEvent (Value (cm msg)) with
  | None => ret tt
  | Some event =>
      if (EventType event =? "catalog.upsert")%string then
        catch (zoom feed_db (handleCatalogUpsert event)) ;;; ret tt
      else if (EventType event =? "game.state")%string then
        r <- catch (zoom feed_db (handleGameState event)) ;;
        match r with
        | Err _ => ret tt
        | Ok _ =>
            b <- gets snd ;;
            match b with Some _ => broadcastScoreUpdate event | None => ret tt end
        end
      else ret tt
  end.
Definition catalogConsumeClaim (msgs : list (ConsumerMessage F)) : Go Feed string (list Z) :=
  ConsumeClaim handleFeedMessage msgs.
End Consumer.

(** ** Properties *)

Section Properties.
Context {F : Type} `{FloatOps F} `{Postgres F}.
Implicit Types (e : NormalisedMarketEvent F) (w : world (CatalogDB F)).

(** Every event of the feed keeps the catalogue well formed, whatever fails
    and wherever the handler stops: each competition has its sport, each event
    its competition, each market its event and each selection its market, and
    statuses, market types, scores and probabilities stay in their domains. *)
Theorem catalog_feed_wf {B} `{BroadcasterApi F B} (msgs : list (ConsumerMessage F)) (w w' : world (CatalogDB F * option B)) r :
  catalogConsumeClaim msgs w = (w', r) → catalog_wf (db w).1 → catalog_wf (db w').1.
Proof.
  intros Hm Hwf. revert w' r Hm. apply wp_intro. revert Hwf. unfold catalogConsumeClaim.
  revert w. induction msgs as [|msg msgs IH]; intros w Hwf; cbn [ConsumeClaim]; go_step; [done|].
  go_step. apply wp_mono with (Q := λ (s : world (CatalogDB F * option B)) (_ : result string unit), catalog_wf (db s).1).
  { intros w1 r1 H1'. go_step. eapply wp_mono; [|by apply IH].
    intros w2 [marked|] ?; [|done]. by go_step. }
  unfold handleFeedMessage. go_step; [|by go_step]. go_step.
  - go_step. do 2 go_step. eapply wp_mono;
      [|apply (handleCatalogUpsert_inv catalog_wf);
        [by apply upsertSport_wf|by apply upsertCompetition_wf|by apply upsertEvent_wf|
         by apply upsertMarket_wf|by apply upsertSelection_wf|done]].
    intros w1 r1 ?. by go_step.
  - go_step; [|by go_step]. go_step. do 2 go_step. unfold handleGameState. do 3 go_step.
    go_step; cbn; [by go_step|]. destruct (updateGameState _ _ _) as [d|] eqn:Hd; cbn.
    + apply updateGameState_wf in Hd; [|done]. do 2 go_step. cbn. destruct (db w).2; cbn; [|by go_step].
      unfold broadcastScoreUpdate. by go_step.
    + by go_step.
Qed.

(** An upsert is idempotent: handling the same catalogue event a second time
    in the same instant gives the same answer, success or failure, and leaves
    every table as the first time left it. *)
Theorem handleCatalogUpsert_idempotent e w w' r :
  faults w = [] → handleCatalogUpsert e w = (w', r) → handleCatalogUpsert e w' = (w', r).
Proof.
  destruct w as [d t n fs]. intros Hw. change (fs = []) in Hw. subst fs. rewrite handleCatalogUpsert_run.
  pose proof (run_twice (upsertStatements t e) d (upsertStatements_settle t e)) as Htwice.
  destruct (run_statements (upsertStatements t e) d) as [d' r']. intros [= <- <-].
  rewrite handleCatalogUpsert_run. cbn [fst] in Htwice. by rewrite Htwice.
Qed.

(** C34. The feed cannot reopen or move anything: whatever the event says and
    whatever fails, a market that exists keeps its status, its event and its
    opening and closing times, a selection keeps its market and whether it is
    active, an event keeps its competition and its score, and no row is lost. *)
Theorem handleCatalogUpsert_keeps_lifecycle e w w' r :
  handleCatalogUpsert e w = (w', r) → keeps_lifecycle (db w) (db w').
Proof.
  intros Hm. revert w' r Hm. apply wp_intro.
  apply (handleCatalogUpsert_inv (keeps_lifecycle (db w))); [..|apply keeps_refl]; intros d d' Hd Hs;
    eapply keeps_trans; eauto using upsertSport_keeps, upsertCompetition_keeps, upsertEvent_keeps,
      upsertMarket_keeps, upsertSelection_keeps.
Qed.
End Properties.

(** ** Witnesses *)

Section Witnesses.
#[local] Existing Instance inert_platform.

(** A database that stores what it is given and reads RFC 3339 times, a hub
    that remembers what it was told. *)
#[local] Instance ex_postgres : Postgres binary64 :=
  {| numeric _ _ x := Some x; timestamptz := ParseRFC3339Nano |}.
#[local] Instance ex_hub : BroadcasterApi binary64 (list (bytes binary64)) :=
  {| Broadcast m b := b ++ [m]; ClientCount b := Z.of_nat (length b) |}.

Definition ex_catalog : CatalogDB binary64 := Build_CatalogDB ∅ ∅ ∅ ∅ ∅.
Definition ex_catalog_world (fs : list bool) : world (CatalogDB binary64) := World ex_catalog 0 0 fs.
Definition ex_upsert (fs : list bool) := handleCatalogUpsert ex_event (ex_catalog_world fs).

Definition ex_message (off : Z) (e : NormalisedMarketEvent binary64) : ConsumerMessage binary64 :=
  {| cm := {| Topic := "market-data-normalised"; Key := partitionKey e; Value := Doc (encodeEvent e);
              Headers := [] |}; Offset := off |}.
Definition ex_catalog_claim :=
  catalogConsumeClaim [ex_message 0 ex_event; ex_message 1 ex_event]
    (World (ex_catalog, Some []) 0 0 [false; false; true]).

Lemma ex_catalog_wf : catalog_wf ex_catalog.
Proof. unfold catalog_wf, refs_ok, values_ok. split_and!; done. Qed.

Lemma catalog_feed_wf_witness :
  ex_catalog_claim.2 = Ok [0; 1] ∧ sel_name <$> selections (db ex_catalog_claim.1).1 !! "m1-0" = Some "Celtics" ∧
  catalog_wf (db ex_catalog_claim.1).1.
Proof.
  split; [vm_compute; reflexivity|].
  split; [vm_compute; reflexivity|].
  apply (catalog_feed_wf [ex_message 0 ex_event; ex_message 1 ex_event]
    (World (ex_catalog, Some []) 0 0 [false; false; true]) ex_catalog_claim.1 ex_catalog_claim.2);
    [apply surjective_pairing|apply ex_catalog_wf].
Defined.

Lemma handleCatalogUpsert_idempotent_witness :
  mk_status <$> markets (db (ex_upsert []).1) !! "m1" = Some "OPEN" ∧
  handleCatalogUpsert ex_event (ex_upsert []).1 = ((ex_upsert []).1, (ex_upsert []).2).
Proof.
  split; [vm_compute; reflexivity|].
  apply (handleCatalogUpsert_idempotent ex_event (ex_catalog_world [])); [reflexivity|apply surjective_pairing].
Defined.

Lemma handleCatalogUpsert_keeps_lifecycle_witness :
  (ex_upsert [false; false; false; true]).2 = Err "upsert market" ∧
  keeps_lifecycle ex_catalog (db (ex_upsert [false; false; false; true]).1).
Proof.
  split; [vm_compute; reflexivity|].
  apply (handleCatalogUpsert_keeps_lifecycle ex_event (ex_catalog_world [false; false; false; true])
    _ (ex_upsert [false; false; false; true]).2), surjective_pairing.
Defined.
End Witnesses.
