(* ===== verification/WalletApi.v ===== *)
(** * The wallet's gRPC interface

    The messages of [proto/sportsbook/v1/common.proto] and [wallet.proto], the
    gRPC status a method fails with, and the contract the Account & Wallet
    service offers to its callers: Bet Acceptance, Settlement, Bet History and
    the cashier are modelled against the classes at the end of this file, and
    [Wallet.v] discharges them. *)
From S2P Require Export Prelude Messaging.
Local Open Scope Z_scope.

(** ** gRPC status *)

Inductive codes : Type :=
| InvalidArgument | NotFound | FailedPrecondition | Internal | Unavailable.

(** The status a call fails with; [message] is the constant part of the text. *)
Record status : Type := Status { code : codes; message : string }.

#[export] Instance codes_eq_dec : EqDecision codes.
Proof. solve_decision. Defined.
#[export] Instance status_eq_dec : EqDecision status.
Proof. solve_decision. Defined.

(** ** Messages *)

Record Money : Type := { AmountMinor : Z; Currency : string }.

(** The accessors of an optional message field: the zero value when unset. *)
Definition GetAmountMinor (m : option Money) : Z :=
  match m with Some m => AmountMinor m | None => 0 end.
Definition GetCurrency (m : option Money) : string :=
  match m with Some m => Currency m | None => "" end.

Inductive KYCStatus : Type :=
| KYC_STATUS_UNSPECIFIED | KYC_STATUS_PENDING | KYC_STATUS_VERIFIED | KYC_STATUS_REJECTED.

Inductive LedgerEntryStatus : Type :=
| LEDGER_ENTRY_STATUS_UNSPECIFIED | LEDGER_ENTRY_STATUS_PENDING_CONFIRMATION
| LEDGER_ENTRY_STATUS_CONFIRMED | LEDGER_ENTRY_STATUS_CANCELLED.

Inductive CreditReason : Type :=
| CREDIT_REASON_UNSPECIFIED | CREDIT_REASON_WIN | CREDIT_REASON_VOID
| CREDIT_REASON_PUSH | CREDIT_REASON_DEPOSIT.

Record GetUserLimitsRequest : Type := { gul_UserId : string }.
Record GetUserLimitsResponse : Type := {
  MaxSingleStake : option Money;
  DailyLimit : option Money;
  DailyStakedSoFar : option Money;
  gul_KycStatus : KYCStatus
}.

Record DeductBalanceRequest : Type := {
  ded_TransactionId : string;
  ded_UserId : string;
  ded_Stake : option Money;
  ded_BetId : string
}.
Record CreditBalanceRequest : Type := {
  cred_TransactionId : string;
  cred_UserId : string;
  cred_Amount : option Money;
  cred_Reason : CreditReason;
  cred_OriginatingBetId : string
}.
Record ConfirmTransactionRequest : Type := { conf_TransactionId : string }.
Record GetBalanceRequest : Type := { gb_UserId : string }.
(** [DepositRequest] and [WithdrawRequest] have the same fields. *)
Record CashierRequest : Type := {
  cash_TransactionId : string;
  cash_UserId : string;
  cash_Amount : option Money;
  cash_PaymentMethod : string
}.

(** The response of DeductBalance, CreditBalance, Deposit and Withdraw. *)
Record TransactionResponse : Type := {
  TransactionId : string;
  txStatus : LedgerEntryStatus;
  AvailableAfter : option Money
}.
Record ConfirmTransactionResponse : Type := {
  conf_resp_TransactionId : string;
  conf_resp_Status : LedgerEntryStatus
}.
Record GetBalanceResponse : Type := {
  gb_resp_UserId : string;
  Available : option Money;
  BetsInFlight : option Money;
  Total : option Money
}.

(** ** The service interface *)

Class WalletServiceServer (D : Type) : Type := {
  wallet_GetUserLimits : GetUserLimitsRequest → Go D status GetUserLimitsResponse;
  wallet_DeductBalance : DeductBalanceRequest → Go D status TransactionResponse;
  wallet_CreditBalance : CreditBalanceRequest → Go D status TransactionResponse;
  wallet_ConfirmTransaction : ConfirmTransactionRequest → Go D status ConfirmTransactionResponse;
  wallet_GetBalance : GetBalanceRequest → Go D status GetBalanceResponse;
  wallet_Deposit : CashierRequest → Go D status TransactionResponse;
  wallet_Withdraw : CashierRequest → Go D status TransactionResponse
}.

(** A reservation as the ledger records it: who staked how much for which bet. *)
Record Reservation : Type := { res_user : string; res_stake : Z; res_bet : string }.

(** What a caller can observe of the ledger: [account d u] is the user's
    (available, bets in flight) pair, [reservation d t] the debit held for
    transaction [t], [known d t] says that some row exists for [t]. *)
Class WalletView (D : Type) : Type := {
  account : D → string → option (Z * Z);
  reservation : D → string → option Reservation;
  known : D → string → bool
}.

Section Effects.
Context {D : Type} `{WalletView D}.

(** A deduction that took effect. *)
Definition deduct_effect (req : DeductBalanceRequest) (d d' : D) : Prop :=
  ∃ a f,
    account d (ded_UserId req) = Some (a, f) ∧
    GetAmountMinor (ded_Stake req) ≤ a ∧
    account d' (ded_UserId req) =
      Some (a - GetAmountMinor (ded_Stake req), f + GetAmountMinor (ded_Stake req)) ∧
    reservation d' (ded_TransactionId req) =
      Some {| res_user := ded_UserId req;
              res_stake := GetAmountMinor (ded_Stake req);
              res_bet := ded_BetId req |} ∧
    (∀ u, u ≠ ded_UserId req → account d' u = account d u) ∧
    (∀ t, t ≠ ded_TransactionId req → reservation d' t = reservation d t) ∧
    (∀ t, known d' t = bool_decide (t = ded_TransactionId req) || known d t).

(** A credit that took effect: the amount goes from bets in flight to available. *)
Definition credit_effect (req : CreditBalanceRequest) (d d' : D) : Prop :=
  account d' (cred_UserId req) =
    (λ p, (p.1 + GetAmountMinor (cred_Amount req), p.2 - GetAmountMinor (cred_Amount req)))
      <$> account d (cred_UserId req) ∧
  (∀ u, u ≠ cred_UserId req → account d' u = account d u) ∧
  (∀ t r, reservation d t = Some r → reservation d' t = Some r) ∧
  (∀ t, known d' t = bool_decide (t = cred_TransactionId req) || known d t).

(** A deposit and a withdrawal that took effect: the amount joins or leaves the
    available money, a first deposit opens the account. *)
Definition cashier_effect (req : CashierRequest) (d d' : D) : Prop :=
  (∀ u, u ≠ cash_UserId req → account d' u = account d u) ∧
  (∀ t, reservation d' t = reservation d t) ∧
  (∀ t, known d' t = bool_decide (t = cash_TransactionId req) || known d t).
Definition deposit_effect (req : CashierRequest) (d d' : D) : Prop :=
  account d' (cash_UserId req) =
    (let p := default (0, 0) (account d (cash_UserId req)) in Some (p.1 + GetAmountMinor (cash_Amount req), p.2)) ∧
  cashier_effect req d d'.
Definition withdraw_effect (req : CashierRequest) (d d' : D) : Prop :=
  ∃ a f, account d (cash_UserId req) = Some (a, f) ∧ GetAmountMinor (cash_Amount req) ≤ a ∧
    account d' (cash_UserId req) = Some (a - GetAmountMinor (cash_Amount req), f) ∧
    cashier_effect req d d'.

(** A call under an idempotency key: a known transaction id is answered from the
    ledger, and a call that reports an error may still have taken effect. *)
Definition once (id : string) (effect : D → D → Prop) (d d' : D) (ok : bool) : Prop :=
  if ok then if known d id then d' = d else effect d d'
  else d' = d ∨ known d id = false ∧ effect d d'.
End Effects.

(** What a caller may rely on, whether it runs in the service's process or
    behind a connection: a call that reports an error may still have taken
    effect, one that reports success has. *)
Class WalletContract (D : Type) `{WalletServiceServer D} `{WalletView D} : Prop := {
  reservation_known (d : D) t r : reservation d t = Some r → known d t = true;

  limits_read_only req (w : world D) :
    wp (wallet_GetUserLimits req) (λ w' r, db w' = db w ∧ clock w' = clock w ∧ fresh w' = fresh w) w;

  (** A known transaction id is answered from the ledger and changes nothing. *)
  deduct_contract req (w : world D) :
    wp (wallet_DeductBalance req) (λ w' r,
      clock w' = clock w ∧ fresh w' = fresh w ∧
      match r with
      | Ok _ => if known (db w) (ded_TransactionId req) then db w' = db w
                else deduct_effect req (db w) (db w')
      | Err _ => db w' = db w ∨
                 known (db w) (ded_TransactionId req) = false ∧ deduct_effect req (db w) (db w')
      end) w;

  (** A credit takes effect again at every call, also with a known id. *)
  credit_contract req (w : world D) :
    wp (wallet_CreditBalance req) (λ w' r,
      clock w' = clock w ∧ fresh w' = fresh w ∧
      match r with
      | Ok _ => credit_effect req (db w) (db w')
      | Err _ => db w' = db w ∨ credit_effect req (db w) (db w')
      end) w;

  confirm_contract req (w : world D) :
    wp (wallet_ConfirmTransaction req) (λ w' r,
      clock w' = clock w ∧ fresh w' = fresh w ∧
      (∀ u, account (db w') u = account (db w) u) ∧
      (∀ t, reservation (db w') t = reservation (db w) t) ∧
      (∀ t, known (db w') t = known (db w) t)) w;

  deposit_contract req (w : world D) :
    wp (wallet_Deposit req) (λ w' r, clock w' = clock w ∧ fresh w' = fresh w ∧
      once (cash_TransactionId req) (deposit_effect req) (db w) (db w') (is_ok r)) w;

  withdraw_contract req (w : world D) :
    wp (wallet_Withdraw req) (λ w' r, clock w' = clock w ∧ fresh w' = fresh w ∧
      once (cash_TransactionId req) (withdraw_effect req) (db w) (db w') (is_ok r)) w
}.

(** ** The client side

    What [sbv1.NewWalletServiceClient] calls: the server's methods, behind a
    connection that may lose the request or the answer. *)

Section Client.
Context {D : Type} `{WalletServiceServer D}.

Definition over_grpc {A B} (method : A → Go D status B) (req : A) : Go D status B :=
  rpc (Status Unavailable "") (method req).

Definition wallet_client : WalletServiceServer D := {|
  wallet_GetUserLimits := over_grpc wallet_GetUserLimits;
  wallet_DeductBalance := over_grpc wallet_DeductBalance;
  wallet_CreditBalance := over_grpc wallet_CreditBalance;
  wallet_ConfirmTransaction := over_grpc wallet_ConfirmTransaction;
  wallet_GetBalance := over_grpc wallet_GetBalance;
  wallet_Deposit := over_grpc wallet_Deposit;
  wallet_Withdraw := over_grpc wallet_Withdraw
|}.

(** A property of the new state that survives an error also holds of the call
    over the connection. *)
Lemma over_grpc_wp {A B} (method : A → Go D status B) (I : world D → world D → Prop)
    (P : D → D → Prop) req w :
  (∀ fs w', I (set_faults fs w) w' → I w w') →
  (∀ fs w', I w w' → I w (set_faults fs w')) →
  I w w →
  (∀ w, wp (method req) (λ w' r, I w w' ∧
    match r with Ok _ => P (db w) (db w') | Err _ => db w' = db w ∨ P (db w) (db w') end) w) →
  wp (over_grpc method req) (λ w' r, I w w' ∧
    match r with Ok _ => P (db w) (db w') | Err _ => db w' = db w ∨ P (db w) (db w') end) w.
Proof.
  intros Hl Hr Hrefl Hm. unfold over_grpc, rpc. go_step. go_step; [|by eauto].
  go_step. go_step. eapply wp_mono; [|apply (Hm (set_faults fs w))].
  intros w' r [HI HP]. apply Hl in HI.
  go_step. go_step; (destruct r; go_run); cbn in *; eauto.
Qed.

Lemma once_over_grpc `{!WalletView D} {A B} (method : A → Go D status B) id effect req w :
  (∀ w, wp (method req) (λ w' r, clock w' = clock w ∧ fresh w' = fresh w ∧
     once id effect (db w) (db w') (is_ok r)) w) →
  wp (over_grpc method req) (λ w' r, clock w' = clock w ∧ fresh w' = fresh w ∧
     once id effect (db w) (db w') (is_ok r)) w.
Proof.
  intros Hm. eapply wp_mono; [|apply (over_grpc_wp method
    (λ w w', clock w' = clock w ∧ fresh w' = fresh w) (λ d d', if known d id then d' = d else effect d d'));
    try naive_solver].
  - unfold once. intros w' [r|e] [[? ?] Heff]; repeat split; try done. cbn.
    destruct (known _ _); [left|]; destruct Heff; auto.
  - intros w1. eapply wp_mono; [|apply Hm]. unfold once.
    intros w' [r|e] (?&?&H'); repeat split; try done. cbn in H'. destruct H' as [?|[-> ?]]; auto.
Qed.

#[export] Instance wallet_client_contract `{!WalletView D} `{!WalletContract D} :
  @WalletContract D wallet_client _.
Proof.
  split; [apply reservation_known|..]; intros req w; cbn [wallet_GetUserLimits wallet_DeductBalance wallet_CreditBalance
                            wallet_ConfirmTransaction wallet_Deposit wallet_Withdraw wallet_client].
  - unfold over_grpc, rpc. go_step. go_step; [|done]. go_step. go_step.
    eapply wp_mono; [|apply limits_read_only]. intros w' r (?&?&?). go_step.
    go_step; (destruct r; go_run); done.
  - eapply wp_mono; [|apply (over_grpc_wp wallet_DeductBalance
      (λ w w', clock w' = clock w ∧ fresh w' = fresh w)
      (λ d d', if known d (ded_TransactionId req) then d' = d else deduct_effect req d d'));
      try naive_solver].
    + intros w' [r|e] [[? ?] Heff]; repeat split; try done.
      destruct (known _ _); [left | ]; destruct Heff; auto.
    + intros w1. eapply wp_mono; [|apply deduct_contract].
      intros w' [r|e] (?&?&H'); repeat split; try done.
      destruct H' as [?|[-> ?]]; auto.
  - eapply wp_mono; [|apply (over_grpc_wp wallet_CreditBalance
      (λ w w', clock w' = clock w ∧ fresh w' = fresh w)
      (λ d d', credit_effect req d d')); try naive_solver].
    + intros w' [r|e] [[? ?] Heff]; auto.
    + intros w1. eapply wp_mono; [|apply credit_contract].
      intros w' [r|e] (?&?&Heff); auto.
  - unfold over_grpc, rpc. go_step. go_step; [|by repeat split]. go_step. go_step.
    eapply wp_mono; [|apply confirm_contract]. intros w' r (?&?&?&?&?). go_step.
    go_step; (destruct r; go_run); by repeat split.
  - apply once_over_grpc, deposit_contract.
  - apply once_over_grpc, withdraw_contract.
Qed.
End Client.
