(* ===== verification/Wallet.v ===== *)
(** * Account & Wallet service ([internal/wallet/service.go])

    The tables of [migrations/db_wallet], every method of the gRPC service, the
    reconciliation job, and the theorems on the double-entry ledger. *)
From S2P Require Export WalletApi.
Local Open Scope Z_scope.
Local Open Scope go_scope.

(** ** Tables (migrations/db_wallet/001_init.sql to 003) *)

Record Balance : Type := {
  available_minor : Z;
  bets_in_flight_minor : Z;
  bal_currency : string;
  bal_updated_at : Z
}.

Record UserLimits : Type := {
  max_single_stake_minor : Z;
  daily_limit_minor : Z;
  lim_currency : string;
  kyc_status : string
}.

Record LedgerEntry : Type := {
  le_user_id : string;
  entry_type : string;
  stake_minor : Z;
  le_currency : string;
  le_status : string;
  le_bet_id : option string;
  created_at : Z;
  confirmed_at : option Z;
  payment_method : option string
}.

Record WalletDB : Type := {
  balances : gmap string Balance;
  user_limits : gmap string UserLimits;
  ledger_entries : gmap string LedgerEntry   (** by [transaction_id], the primary key *)
}.

Definition set_balances (m : gmap string Balance) (d : WalletDB) : WalletDB :=
  {| balances := m; user_limits := user_limits d; ledger_entries := ledger_entries d |}.
Definition set_user_limits (m : gmap string UserLimits) (d : WalletDB) : WalletDB :=
  {| balances := balances d; user_limits := m; ledger_entries := ledger_entries d |}.
Definition set_ledger (m : gmap string LedgerEntry) (d : WalletDB) : WalletDB :=
  {| balances := balances d; user_limits := user_limits d; ledger_entries := m |}.

(** BIGINT columns with [CHECK (... >= 0)]. *)
Definition balance_ok (b : Balance) : bool :=
  (0 <=? available_minor b) && (available_minor b <=? int64_max) &&
  (0 <=? bets_in_flight_minor b) && (bets_in_flight_minor b <=? int64_max).

(** [UPDATE balances SET ... WHERE user_id = $k]: no row, nothing updated; a
    row that violates a CHECK or overflows its column fails the statement. *)
Definition updateBalance (uid : string) (f : Balance → Balance) (d : WalletDB) : option WalletDB :=
  match balances d !! uid with
  | None => Some d
  | Some b => if balance_ok (f b) then Some (set_balances (<[uid := f b]> (balances d)) d) else None
  end.

(** [INSERT INTO ledger_entries]: the primary key and the foreign key on
    [balances(user_id)] must hold. *)
Definition insertLedger (txid : string) (e : LedgerEntry) (d : WalletDB) : option WalletDB :=
  match ledger_entries d !! txid, balances d !! le_user_id e with
  | None, Some _ => if in_int64 (stake_minor e)
                    then Some (set_ledger (<[txid := e]> (ledger_entries d)) d) else None
  | _, _ => None
  end.

(** The same with [ON CONFLICT (transaction_id) DO NOTHING]. *)
Definition insertLedgerOnce (txid : string) (e : LedgerEntry) (d : WalletDB) : option WalletDB :=
  match ledger_entries d !! txid with
  | Some _ => Some d
  | None => insertLedger txid e d
  end.

(** ** Helpers of the service *)

Definition kycStatusFromString (s : string) : KYCStatus :=
  if (s =? "PENDING")%string then KYC_STATUS_PENDING
  else if (s =? "VERIFIED")%string then KYC_STATUS_VERIFIED
  else if (s =? "REJECTED")%string then KYC_STATUS_REJECTED
  else KYC_STATUS_UNSPECIFIED.

Definition ledgerStatusFromString (s : string) : LedgerEntryStatus :=
  if (s =? "PENDING_CONFIRMATION")%string then LEDGER_ENTRY_STATUS_PENDING_CONFIRMATION
  else if (s =? "CONFIRMED")%string then LEDGER_ENTRY_STATUS_CONFIRMED
  else if (s =? "CANCELLED")%string then LEDGER_ENTRY_STATUS_CANCELLED
  else LEDGER_ENTRY_STATUS_UNSPECIFIED.

Definition creditReasonToEntryType (r : CreditReason) : string :=
  match r with
  | CREDIT_REASON_WIN => "CREDIT_WIN"
  | CREDIT_REASON_VOID => "CREDIT_VOID"
  | CREDIT_REASON_PUSH => "CREDIT_PUSH"
  | CREDIT_REASON_DEPOSIT => "CREDIT_DEPOSIT"
  | CREDIT_REASON_UNSPECIFIED => "CREDIT"
  end.

Definition getExistingTransaction (txID : string) : Go WalletDB dberr TransactionResponse :=
  row <- queryRow (λ d, ledger_entries d !! txID) ;;
  ret {| TransactionId := txID;
         txStatus := ledgerStatusFromString (le_status row);
         AvailableAfter := None |}.

Definition interval_24h : Z := 24 * 3600 * second_us.

(** The summand of [SUM(stake_minor)] over the rolling 24 hours before [t]. *)
Definition dailyStakeOf (t : Z) (uid : string) (e : LedgerEntry) : Z :=
  if (le_user_id e =? uid)%string && (entry_type e =? "DEBIT")%string &&
     (t - interval_24h <? created_at e) && negb (le_status e =? "CANCELLED")%string
  then stake_minor e else 0.

(** A sum that does not fit the Go [int64] it is scanned into is an error. *)
Definition scanInt64 (z : Z) : option Z := if in_int64 z then Some z else None.

(** ** Methods *)

Definition GetUserLimits (req : GetUserLimitsRequest) : Go WalletDB status GetUserLimitsResponse :=
  if (gul_UserId req =? "")%string then throw (Status InvalidArgument "user_id required") else
  row <- (queryRow (λ d, user_limits d !! gul_UserId req)
           or_throw (Status NotFound "user not found")) ;;
  t <- now ;;
  staked <- catch (queryRow (λ d, scanInt64 (map_sum (dailyStakeOf t (gul_UserId req)) (ledger_entries d)))) ;;
  let dailyStakedMinor := match staked with Ok z => z | Err _ => 0 end in
  ret {| MaxSingleStake := Some {| AmountMinor := max_single_stake_minor row; Currency := lim_currency row |};
         DailyLimit := Some {| AmountMinor := daily_limit_minor row; Currency := lim_currency row |};
         DailyStakedSoFar := Some {| AmountMinor := dailyStakedMinor; Currency := lim_currency row |};
         gul_KycStatus := kycStatusFromString (kyc_status row) |}.

(** The UPDATE of DeductBalance: debit available, credit bets in flight. *)
Definition reserve (stake t : Z) (b : Balance) : Balance :=
  {| available_minor := available_minor b - stake;
     bets_in_flight_minor := bets_in_flight_minor b + stake;
     bal_currency := bal_currency b;
     bal_updated_at := t |}.

Definition debitEntry (req : DeductBalanceRequest) (t : Z) : LedgerEntry :=
  {| le_user_id := ded_UserId req;
     entry_type := "DEBIT";
     stake_minor := GetAmountMinor (ded_Stake req);
     le_currency := GetCurrency (ded_Stake req);
     le_status := "PENDING_CONFIRMATION";
     le_bet_id := Some (ded_BetId req);
     created_at := t;
     confirmed_at := None;
     payment_method := None |}.

(** DeductBalance from [s.db.Begin] on. The two statements that hash the user id
    and take the advisory lock have no effect on the tables; the lock makes the
    transactions of one user run one after the other. *)
Definition deductTx (req : DeductBalanceRequest) : Go WalletDB status TransactionResponse :=
  let stake := GetAmountMinor (ded_Stake req) in
  availableMinor <- tx (Status Internal "begin tx") (Status Internal "commit") (
    flaky (Status Internal "hash user_id") ;;;
    flaky (Status Internal "advisory lock") ;;;
    b <- (queryRow (λ d, balances d !! ded_UserId req)
           or_throw (Status NotFound "balance not found")) ;;
    if available_minor b <? stake then throw (Status FailedPrecondition "insufficient balance") else
    t <- now ;;
    (exec (updateBalance (ded_UserId req) (reserve stake t))
       or_throw (Status Internal "update balances")) ;;;
    (exec (insertLedger (ded_TransactionId req) (debitEntry req t))
       or_throw (Status Internal "insert ledger entry")) ;;;
    ret (available_minor b)) ;;
  ret {| TransactionId := ded_TransactionId req;
         txStatus := LEDGER_ENTRY_STATUS_PENDING_CONFIRMATION;
         AvailableAfter := Some {| AmountMinor := wrap64 (availableMinor - stake);
                                   Currency := GetCurrency (ded_Stake req) |} |}.

Definition DeductBalance (req : DeductBalanceRequest) : Go WalletDB status TransactionResponse :=
  if (ded_TransactionId req =? "")%string || (ded_UserId req =? "")%string
  then throw (Status InvalidArgument "transaction_id and user_id required") else
  existing <- catch (getExistingTransaction (ded_TransactionId req)) ;;
  match existing with
  | Ok resp => ret resp
  | Err _ => deductTx req
  end.

(** The UPDATE of CreditBalance: the same amount is added to available and
    taken from bets in flight. *)
Definition release (amount t : Z) (b : Balance) : Balance :=
  {| available_minor := available_minor b + amount;
     bets_in_flight_minor := bets_in_flight_minor b - amount;
     bal_currency := bal_currency b;
     bal_updated_at := t |}.

Definition creditEntry (req : CreditBalanceRequest) (t : Z) : LedgerEntry :=
  {| le_user_id := cred_UserId req;
     entry_type := creditReasonToEntryType (cred_Reason req);
     stake_minor := GetAmountMinor (cred_Amount req);
     le_currency := GetCurrency (cred_Amount req);
     le_status := "CONFIRMED";
     le_bet_id := Some (cred_OriginatingBetId req);
     created_at := t;
     confirmed_at := None;
     payment_method := None |}.

Definition creditTx (req : CreditBalanceRequest) : Go WalletDB status unit :=
  let amount := GetAmountMinor (cred_Amount req) in
  tx (Status Internal "begin tx") (Status Internal "commit") (
    t <- now ;;
    (exec (updateBalance (cred_UserId req) (release amount t))
       or_throw (Status Internal "update balances")) ;;;
    (exec (insertLedgerOnce (cred_TransactionId req) (creditEntry req t))
       or_throw (Status Internal "insert ledger entry")) ;;;
    ret tt).

Definition CreditBalance (req : CreditBalanceRequest) : Go WalletDB status TransactionResponse :=
  if (cred_TransactionId req =? "")%string || (cred_UserId req =? "")%string
  then throw (Status InvalidArgument "transaction_id and user_id required") else
  creditTx req ;;;
  row <- catch (queryRow (λ d, balances d !! cred_UserId req)) ;;
  let newAvailable := match row with Ok b => available_minor b | Err _ => 0 end in
  ret {| TransactionId := cred_TransactionId req;
         txStatus := LEDGER_ENTRY_STATUS_CONFIRMED;
         AvailableAfter := Some {| AmountMinor := newAvailable; Currency := GetCurrency (cred_Amount req) |} |}.

Definition confirmEntry (t : Z) (e : LedgerEntry) : LedgerEntry :=
  if (le_status e =? "PENDING_CONFIRMATION")%string
  then {| le_user_id := le_user_id e; entry_type := entry_type e; stake_minor := stake_minor e;
          le_currency := le_currency e; le_status := "CONFIRMED"; le_bet_id := le_bet_id e;
          created_at := created_at e; confirmed_at := Some t; payment_method := payment_method e |}
  else e.

Definition ConfirmTransaction (req : ConfirmTransactionRequest) : Go WalletDB status ConfirmTransactionResponse :=
  if (conf_TransactionId req =? "")%string then throw (Status InvalidArgument "transaction_id required") else
  t <- now ;;
  (exec (λ d, Some (set_ledger (alter (confirmEntry t) (conf_TransactionId req) (ledger_entries d)) d))
     or_throw (Status Internal "confirm transaction")) ;;;
  ret {| conf_resp_TransactionId := conf_TransactionId req;
         conf_resp_Status := LEDGER_ENTRY_STATUS_CONFIRMED |}.

Definition GetBalance (req : GetBalanceRequest) : Go WalletDB status GetBalanceResponse :=
  if (gb_UserId req =? "")%string then throw (Status InvalidArgument "user_id required") else
  b <- (queryRow (λ d, balances d !! gb_UserId req) or_throw (Status NotFound "balance not found")) ;;
  let money z := Some {| AmountMinor := z; Currency := bal_currency b |} in
  ret {| gb_resp_UserId := gb_UserId req;
         Available := money (available_minor b);
         BetsInFlight := money (bets_in_flight_minor b);
         Total := money (wrap64 (available_minor b + bets_in_flight_minor b)) |}.

(** ** Cashier methods *)

(** The defaults of [user_limits] after migration 003. *)
Definition default_limits : UserLimits :=
  {| max_single_stake_minor := 100000; daily_limit_minor := 1000000;
     lim_currency := "USD"; kyc_status := "PENDING" |}.

(** [INSERT INTO user_limits (user_id) VALUES ($1) ON CONFLICT DO NOTHING]. *)
Definition provisionLimits (uid : string) (d : WalletDB) : option WalletDB :=
  match user_limits d !! uid with
  | Some _ => Some d
  | None => Some (set_user_limits (<[uid := default_limits]> (user_limits d)) d)
  end.

(** [INSERT INTO balances ... ON CONFLICT (user_id) DO UPDATE SET available_minor = ... + $1].
    PostgreSQL checks the constraints on the row proposed for insertion before
    it looks for a conflict, so the proposed row must satisfy them too. *)
Definition depositRow (amount t : Z) (old : option Balance) : Balance :=
  match old with
  | None => {| available_minor := amount; bets_in_flight_minor := 0; bal_currency := "USD"; bal_updated_at := t |}
  | Some b => {| available_minor := available_minor b + amount; bets_in_flight_minor := bets_in_flight_minor b;
                 bal_currency := bal_currency b; bal_updated_at := t |}
  end.
Definition upsertBalance (uid : string) (amount t : Z) (d : WalletDB) : option WalletDB :=
  let b := depositRow amount t (balances d !! uid) in
  if balance_ok (depositRow amount t None) && balance_ok b
  then Some (set_balances (<[uid := b]> (balances d)) d) else None.

Definition withdrawRow (amount t : Z) (b : Balance) : Balance :=
  {| available_minor := available_minor b - amount; bets_in_flight_minor := bets_in_flight_minor b;
     bal_currency := bal_currency b; bal_updated_at := t |}.

Definition cashierEntry (ty : string) (req : CashierRequest) (amount : Z) (cur : string) (t : Z) : LedgerEntry :=
  {| le_user_id := cash_UserId req; entry_type := ty; stake_minor := amount; le_currency := cur;
     le_status := "CONFIRMED"; le_bet_id := None; created_at := t; confirmed_at := None;
     payment_method := Some (cash_PaymentMethod req) |}.

(** The first phase shared by Deposit and Withdraw: validation, then the
    idempotency check. [Some resp] ends the call with [resp]. *)
Definition cashierPrecheck (req : CashierRequest) : Go WalletDB status (option TransactionResponse) :=
  match cash_Amount req with
  | None => throw (Status InvalidArgument "transaction_id, user_id and amount are required")
  | Some _ =>
      if (cash_TransactionId req =? "")%string || (cash_UserId req =? "")%string
      then throw (Status InvalidArgument "transaction_id, user_id and amount are required") else
      existing <- catch (queryRow (λ d, ledger_entries d !! cash_TransactionId req)) ;;
      match existing with
      | Ok _ =>
          row <- catch (queryRow (λ d, balances d !! cash_UserId req)) ;;
          let '(avail, cur) := match row with
                               | Ok b => (available_minor b, bal_currency b)
                               | Err _ => (0, "")
                               end in
          ret (Some {| TransactionId := cash_TransactionId req;
                       txStatus := LEDGER_ENTRY_STATUS_CONFIRMED;
                       AvailableAfter := Some {| AmountMinor := avail; Currency := cur |} |})
      | Err ErrNoRows => ret None
      | Err _ => throw (Status Internal "idempotency check")
      end
  end.

Definition cashierResponse (req : CashierRequest) (b : Balance) : TransactionResponse :=
  {| TransactionId := cash_TransactionId req;
     txStatus := LEDGER_ENTRY_STATUS_CONFIRMED;
     AvailableAfter := Some {| AmountMinor := available_minor b; Currency := bal_currency b |} |}.

Definition depositTx (req : CashierRequest) : Go WalletDB status TransactionResponse :=
  let amount := GetAmountMinor (cash_Amount req) in
  b <- tx (Status Internal "begin tx") (Status Internal "commit") (
    flaky (Status Internal "advisory lock") ;;;
    t <- now ;;
    (exec (provisionLimits (cash_UserId req)) or_throw (Status Internal "provision user limits")) ;;;
    old <- gets (λ d, balances d !! cash_UserId req) ;;
    (exec (upsertBalance (cash_UserId req) amount t) or_throw (Status Internal "update balance")) ;;;
    let b := depositRow amount t old in
    (exec (insertLedger (cash_TransactionId req)
             (cashierEntry "CREDIT_DEPOSIT" req amount (bal_currency b) t))
       or_throw (Status Internal "insert ledger")) ;;;
    ret b) ;;
  ret (cashierResponse req b).

Definition Deposit (req : CashierRequest) : Go WalletDB status TransactionResponse :=
  done <- cashierPrecheck req ;;
  match done with
  | Some resp => ret resp
  | None => depositTx req
  end.

Definition withdrawTx (req : CashierRequest) : Go WalletDB status TransactionResponse :=
  let amount := GetAmountMinor (cash_Amount req) in
  b <- tx (Status Internal "begin tx") (Status Internal "commit") (
    flaky (Status Internal "advisory lock") ;;;
    old <- (queryRow (λ d, balances d !! cash_UserId req) or_throw (Status Internal "get balance")) ;;
    if available_minor old <? amount then throw (Status FailedPrecondition "INSUFFICIENT_FUNDS") else
    t <- now ;;
    (exec (updateBalance (cash_UserId req) (withdrawRow amount t)) or_throw (Status Internal "update balance")) ;;;
    let b := withdrawRow amount t old in
    (exec (insertLedger (cash_TransactionId req)
             (cashierEntry "DEBIT_WITHDRAWAL" req amount (bal_currency b) t))
       or_throw (Status Internal "insert ledger")) ;;;
    ret b) ;;
  ret (cashierResponse req b).

Definition Withdraw (req : CashierRequest) : Go WalletDB status TransactionResponse :=
  done <- cashierPrecheck req ;;
  match done with
  | Some resp => ret resp
  | None => withdrawTx req
  end.

(** ** Reconciliation job *)

(** [int(threshold.Seconds())] is computed on whole seconds: [Duration.Seconds]
    of a whole number of seconds is exact below 2^53. [None]: the query failed
    before any row. The callback receives the ids in the order the rows come,
    which the query leaves open. *)
Definition staleEntry (t thresholdSeconds : Z) (e : LedgerEntry) : bool :=
  (le_status e =? "PENDING_CONFIRMATION")%string &&
  (created_at e <? t - thresholdSeconds * second_us).

Definition ReconcileStaleTransactions (thresholdSeconds : Z) : Go WalletDB dberr (list string) :=
  t <- now ;;
  queryRow (λ d, Some (map fst (filter (λ p, staleEntry t thresholdSeconds p.2 = true)
                                  (map_to_list (ledger_entries d))))).

(** ** Transaction granularity

    Every method is a read-only first phase followed by at most one database
    transaction, and the row lock of its first statement serialises the
    transactions on one user. Calls interleave at that granularity: a step runs
    one transaction, whatever an earlier check of the same call saw. *)

Inductive wallet_tx : Type :=
| TxDeduct (req : DeductBalanceRequest)
| TxCredit (req : CreditBalanceRequest)
| TxConfirm (req : ConfirmTransactionRequest)
| TxDeposit (req : CashierRequest)
| TxWithdraw (req : CashierRequest).

Definition run_tx (t : wallet_tx) : Go WalletDB status unit :=
  match t with
  | TxDeduct req => deductTx req ;;; ret tt
  | TxCredit req => creditTx req
  | TxConfirm req => ConfirmTransaction req ;;; ret tt
  | TxDeposit req => depositTx req ;;; ret tt
  | TxWithdraw req => withdrawTx req ;;; ret tt
  end.

Inductive wallet_step (d d' : WalletDB) : Prop :=
| wallet_step_tx t w : db w = d → db (run_tx t w).1 = d' → wallet_step d d'.

(** The same without a credit whose transaction id is already in the ledger. *)
Definition tx_fresh (t : wallet_tx) (d : WalletDB) : Prop :=
  match t with
  | TxCredit req => ledger_entries d !! cred_TransactionId req = None
  | _ => True
  end.
Inductive fresh_step (d d' : WalletDB) : Prop :=
| fresh_step_tx t w : db w = d → tx_fresh t d → db (run_tx t w).1 = d' → fresh_step d d'.

Definition empty_db : WalletDB := {| balances := ∅; user_limits := ∅; ledger_entries := ∅ |}.

(** ** The abstract ledger

    Accounts are pairs (available, bets in flight); an entry determines the
    movement it stands for. *)

Record Ledger : Type := {
  accounts : gmap string (Z * Z);
  entries : gmap string LedgerEntry
}.

Definition acct_of (b : Balance) : Z * Z := (available_minor b, bets_in_flight_minor b).
Definition abs (d : WalletDB) : Ledger :=
  {| accounts := acct_of <$> balances d; entries := ledger_entries d |}.

(** What an entry does to (available, bets in flight): cashier rows carry a
    payment method; DEBIT reserves; every other row releases. *)
Definition movement (e : LedgerEntry) : Z * Z :=
  match payment_method e with
  | Some _ => if (entry_type e =? "CREDIT_DEPOSIT")%string then (stake_minor e, 0) else (- stake_minor e, 0)
  | None => if (entry_type e =? "DEBIT")%string then (- stake_minor e, stake_minor e)
            else (stake_minor e, - stake_minor e)
  end.

Definition holds (l : Ledger) (u : string) : Z * Z := default (0, 0) (accounts l !! u).
Definition add2 (x y : Z * Z) : Z * Z := (x.1 + y.1, x.2 + y.2).
Definition acct_ok (x : Z * Z) : Prop := 0 ≤ x.1 ≤ int64_max ∧ 0 ≤ x.2 ≤ int64_max.

Inductive posting_step (l : Ledger) : Ledger → Prop :=
| post t e :
    entries l !! t = None →
    acct_ok (add2 (holds l (le_user_id e)) (movement e)) →
    posting_step l
      {| accounts := <[le_user_id e := add2 (holds l (le_user_id e)) (movement e)]> (accounts l);
         entries := <[t := e]> (entries l) |}
| confirm t c :
    posting_step l {| accounts := accounts l; entries := alter (confirmEntry c) t (entries l) |}.

(** A credit repeated with a known transaction id moves money without a row. *)
Inductive ledger_step (l : Ledger) : Ledger → Prop :=
| ledger_posting l' : posting_step l l' → ledger_step l l'
| ledger_replayed_credit t u n :
    is_Some (entries l !! t) → is_Some (accounts l !! u) →
    acct_ok (add2 (holds l u) (n, - n)) →
    ledger_step l {| accounts := <[u := add2 (holds l u) (n, - n)]> (accounts l); entries := entries l |}.

(** Per user: the movements of the ledger, and the cashier part of them. *)
Definition avail_part (u : string) (e : LedgerEntry) : Z :=
  if (le_user_id e =? u)%string then (movement e).1 else 0.
Definition flight_part (u : string) (e : LedgerEntry) : Z :=
  if (le_user_id e =? u)%string then (movement e).2 else 0.
Definition cashier_part (u : string) (e : LedgerEntry) : Z :=
  avail_part u e + flight_part u e.

(** ** Statement lemmas *)

Lemma updateBalance_Some uid f d d' :
  updateBalance uid f d = Some d' →
  (balances d !! uid = None ∧ d' = d) ∨
  ∃ b, balances d !! uid = Some b ∧ balance_ok (f b) = true ∧
       d' = set_balances (<[uid := f b]> (balances d)) d.
Proof.
  unfold updateBalance. destruct (balances d !! uid) as [b|]; [|naive_solver].
  destruct (balance_ok (f b)) eqn:?; naive_solver.
Qed.

Lemma insertLedger_Some t e d d' :
  insertLedger t e d = Some d' →
  ledger_entries d !! t = None ∧ is_Some (balances d !! le_user_id e) ∧
  d' = set_ledger (<[t := e]> (ledger_entries d)) d.
Proof.
  unfold insertLedger. intros H. destruct (ledger_entries d !! t); [done|].
  destruct (balances d !! le_user_id e); [|done].
  destruct (in_int64 (stake_minor e)); naive_solver.
Qed.

Lemma insertLedgerOnce_Some t e d d' :
  insertLedgerOnce t e d = Some d' →
  (is_Some (ledger_entries d !! t) ∧ d' = d) ∨
  (ledger_entries d !! t = None ∧ is_Some (balances d !! le_user_id e) ∧
   d' = set_ledger (<[t := e]> (ledger_entries d)) d).
Proof.
  unfold insertLedgerOnce. destruct (ledger_entries d !! t) eqn:Ht; [naive_solver|].
  intros (?&?&?)%insertLedger_Some. auto.
Qed.

Lemma balance_ok_acct b : balance_ok b = true ↔ acct_ok (acct_of b).
Proof. unfold balance_ok, acct_ok, acct_of. rewrite !andb_true_iff, !Z.leb_le. cbn. lia. Qed.

(** ** What one transaction does *)

(** A method leaves the clock and the identifier counter alone and either
    succeeds with [P] of the new tables or fails with the tables as they were. *)
Definition commits {A} (P : WalletDB → A → Prop) (w w' : world WalletDB) (r : result status A) : Prop :=
  clock w' = clock w ∧ fresh w' = fresh w ∧
  match r with Ok a => P (db w') a | Err _ => db w' = db w end.

Ltac commit_tac := unfold commits; cbn; repeat split; eauto; intros; repeat split; eauto.

Lemma deductTx_spec req w :
  let stake := GetAmountMinor (ded_Stake req) in
  wp (deductTx req) (commits (λ d' resp,
    ∃ b, balances (db w) !! ded_UserId req = Some b ∧
      stake ≤ available_minor b ∧
      balance_ok (reserve stake (clock w) b) = true ∧
      ledger_entries (db w) !! ded_TransactionId req = None ∧
      d' = {| balances := <[ded_UserId req := reserve stake (clock w) b]> (balances (db w));
              user_limits := user_limits (db w);
              ledger_entries := <[ded_TransactionId req := debitEntry req (clock w)]> (ledger_entries (db w)) |} ∧
      resp = {| TransactionId := ded_TransactionId req;
                txStatus := LEDGER_ENTRY_STATUS_PENDING_CONFIRMATION;
                AvailableAfter := Some {| AmountMinor := wrap64 (available_minor b - stake);
                                          Currency := GetCurrency (ded_Stake req) |} |}) w) w.
Proof.
  cbn zeta. unfold deductTx; cbn zeta. go_step. go_step.
  { commit_tac. }
  do 2 (go_step; go_step; [|by commit_tac]).
  go_step. go_step. go_step; [by commit_tac|]. cbn.
  destruct (balances (db w) !! ded_UserId req) as [b|] eqn:Hb; [|by commit_tac].
  go_step; [by commit_tac|].
  do 4 go_step. go_step; [by commit_tac|]. cbn.
  destruct (updateBalance _ _ _) as [d1|] eqn:H1; [|by commit_tac].
  do 3 go_step; [by commit_tac|]. cbn.
  destruct (insertLedger _ _ d1) as [d2|] eqn:H2; [|by commit_tac].
  split; [intros fs'; go_step|by commit_tac].
  apply updateBalance_Some in H1 as [[? _]|(b'&Hb'&Hok&->)]; [congruence|].
  assert (b' = b) as -> by congruence.
  apply insertLedger_Some in H2 as (Hn&_&->). boolify.
  commit_tac. exists b. naive_solver.
Qed.

Lemma creditTx_spec req w :
  let amount := GetAmountMinor (cred_Amount req) in
  wp (creditTx req) (commits (λ d' _,
    (∃ b, balances (db w) !! cred_UserId req = Some b ∧
      balance_ok (release amount (clock w) b) = true ∧
      d' = {| balances := <[cred_UserId req := release amount (clock w) b]> (balances (db w));
              user_limits := user_limits (db w);
              ledger_entries :=
                match ledger_entries (db w) !! cred_TransactionId req with
                | Some _ => ledger_entries (db w)
                | None => <[cred_TransactionId req := creditEntry req (clock w)]> (ledger_entries (db w))
                end |}) ∨
    balances (db w) !! cred_UserId req = None ∧
    is_Some (ledger_entries (db w) !! cred_TransactionId req) ∧ d' = db w) w) w.
Proof.
  cbn zeta. unfold creditTx; cbn zeta. go_step; [by commit_tac|].
  do 5 go_step; [by commit_tac|]. cbn.
  destruct (updateBalance _ _ _) as [d1|] eqn:H1; [|by commit_tac].
  do 3 go_step; [by commit_tac|]. cbn.
  destruct (insertLedgerOnce _ _ d1) as [d2|] eqn:H2; [|by commit_tac].
  split; [intros fs'|by commit_tac].
  apply updateBalance_Some in H1 as [[Hb ->]|(b&Hb&Hok&->)].
  - apply insertLedgerOnce_Some in H2 as [[? ->]|(?&[? ?]&_)]; [|naive_solver].
    by commit_tac; eauto 10.
  - apply insertLedgerOnce_Some in H2 as [[[e He] ->]|(Hn&_&->)]; cbn in *;
      commit_tac; left; exists b; rewrite ?He, ?Hn; by eauto.
Qed.

Lemma confirmTransaction_spec req w :
  wp (ConfirmTransaction req) (commits (λ d' resp,
    d' = set_ledger (alter (confirmEntry (clock w)) (conf_TransactionId req) (ledger_entries (db w))) (db w)) w) w.
Proof. unfold ConfirmTransaction. go_run; by commit_tac. Qed.

Lemma cashierPrecheck_read_only req w :
  wp (cashierPrecheck req) (λ w' _, db w' = db w ∧ clock w' = clock w ∧ fresh w' = fresh w) w.
Proof. unfold cashierPrecheck. go_run; done. Qed.

Lemma provisionLimits_Some uid d d' :
  provisionLimits uid d = Some d' →
  balances d' = balances d ∧ ledger_entries d' = ledger_entries d.
Proof. unfold provisionLimits. destruct (user_limits d !! uid); naive_solver. Qed.

Lemma upsertBalance_Some uid a t d d' :
  upsertBalance uid a t d = Some d' →
  0 ≤ a ∧ balance_ok (depositRow a t (balances d !! uid)) = true ∧
  d' = set_balances (<[uid := depositRow a t (balances d !! uid)]> (balances d)) d.
Proof.
  unfold upsertBalance. destruct (_ && _) eqn:H; [|done]. intros [= <-].
  apply andb_true_iff in H as [H ?]. unfold balance_ok in H; cbn in H. rewrite !andb_true_iff, !Z.leb_le in H. destruct H as (((?&?)&?)&?). done.
Qed.

Lemma depositTx_spec req w :
  let amount := GetAmountMinor (cash_Amount req) in
  let u := cash_UserId req in
  wp (depositTx req) (commits (λ d' resp,
    let b := depositRow amount (clock w) (balances (db w) !! u) in
    0 ≤ amount ∧ balance_ok b = true ∧
    ledger_entries (db w) !! cash_TransactionId req = None ∧
    balances d' = <[u := b]> (balances (db w)) ∧
    ledger_entries d' = <[cash_TransactionId req :=
      cashierEntry "CREDIT_DEPOSIT" req amount (bal_currency b) (clock w)]> (ledger_entries (db w)) ∧
    resp = cashierResponse req b) w) w.
Proof.
  cbn zeta. unfold depositTx; cbn zeta. go_step. go_step; [by commit_tac|].
  do 2 go_step; [|by commit_tac].
  do 5 go_step; [by commit_tac|]. cbn.
  destruct (provisionLimits _ _) as [d1|] eqn:H1; [|by commit_tac].
  apply provisionLimits_Some in H1 as [Hb1 Hl1].
  do 5 go_step; [by commit_tac|]. cbn.
  destruct (upsertBalance _ _ _ d1) as [d2|] eqn:H2; [|by commit_tac].
  apply upsertBalance_Some in H2 as (?&Hok&->).
  do 3 go_step; [by commit_tac|]. cbn.
  destruct (insertLedger _ _ _) as [d3|] eqn:H3; [|by commit_tac].
  apply insertLedger_Some in H3 as (Hn&_&->). cbn in *. rewrite Hb1, Hl1 in *.
  split; [intros fs'; go_step|by commit_tac]. commit_tac.
Qed.

Lemma withdrawTx_spec req w :
  let amount := GetAmountMinor (cash_Amount req) in
  let u := cash_UserId req in
  wp (withdrawTx req) (commits (λ d' resp, ∃ b,
    balances (db w) !! u = Some b ∧ amount ≤ available_minor b ∧
    balance_ok (withdrawRow amount (clock w) b) = true ∧
    ledger_entries (db w) !! cash_TransactionId req = None ∧
    balances d' = <[u := withdrawRow amount (clock w) b]> (balances (db w)) ∧
    ledger_entries d' = <[cash_TransactionId req :=
      cashierEntry "DEBIT_WITHDRAWAL" req amount (bal_currency b) (clock w)]> (ledger_entries (db w)) ∧
    resp = cashierResponse req (withdrawRow amount (clock w) b)) w) w.
Proof.
  cbn zeta. unfold withdrawTx; cbn zeta. go_step. go_step; [by commit_tac|].
  do 2 go_step; [|by commit_tac].
  do 3 go_step; [by commit_tac|]. cbn.
  destruct (balances (db w) !! cash_UserId req) as [b|] eqn:Hb; [|by commit_tac].
  go_step; [by commit_tac|].
  do 5 go_step; [by commit_tac|]. cbn.
  destruct (updateBalance _ _ _) as [d1|] eqn:H1; [|by commit_tac].
  apply updateBalance_Some in H1 as [[? _]|(b'&Hb'&Hok&->)]; [congruence|].
  assert (b' = b) as -> by congruence.
  do 3 go_step; [by commit_tac|]. cbn.
  destruct (insertLedger _ _ _) as [d3|] eqn:H3; [|by commit_tac].
  apply insertLedger_Some in H3 as (Hn&_&->). cbn in *. boolify.
  split; [intros fs'; go_step|by commit_tac]. commit_tac. exists b. naive_solver.
Qed.

(** ** Refinement of the abstract ledger *)

Lemma holds_abs d u : holds (abs d) u = default (0, 0) (acct_of <$> balances d !! u).
Proof. unfold holds, abs; cbn. by rewrite lookup_fmap. Qed.

Lemma acct_ok_0 n : 0 ≤ n ≤ int64_max → acct_ok (n, 0).
Proof. unfold acct_ok, int64_max; cbn. lia. Qed.

(** A transaction that stores row [b'] for the entry's user and adds entry [e]
    under a new id is a posting, when [b'] is the old row moved by [e]. *)
Lemma abs_post d d' t e b' :
  ledger_entries d !! t = None →
  balances d' = <[le_user_id e := b']> (balances d) →
  ledger_entries d' = <[t := e]> (ledger_entries d) →
  balance_ok b' = true →
  acct_of b' = add2 (holds (abs d) (le_user_id e)) (movement e) →
  posting_step (abs d) (abs d').
Proof.
  intros Hn Hb Hl Hok Hacct. apply balance_ok_acct in Hok.
  replace (abs d') with
    {| accounts := <[le_user_id e := add2 (holds (abs d) (le_user_id e)) (movement e)]> (accounts (abs d));
       entries := <[t := e]> (entries (abs d)) |}.
  - apply post; [done|]. by rewrite <- Hacct.
  - unfold abs at 4; cbn. by rewrite Hb, Hl, fmap_insert, Hacct.
Qed.

Lemma abs_eq d d' :
  balances d' = balances d → ledger_entries d' = ledger_entries d → abs d' = abs d.
Proof. unfold abs. by intros -> ->. Qed.

Ltac post_tac := unfold acct_of, add2; cbn; f_equal; lia.

(** [run_tx] drops the response. *)
Lemma wp_discard {A} (m : Go WalletDB status A) Q w :
  wp m (λ w' _, Q (db w')) w → wp (m ;;; ret tt) (λ w' _, Q (db w')) w.
Proof. intros H. go_step. eapply wp_mono; [|exact H]. by intros w' [a|e]. Qed.

Lemma deduct_posts req w :
  wp (run_tx (TxDeduct req)) (λ w' _, abs (db w') = abs (db w) ∨ posting_step (abs (db w)) (abs (db w'))) w.
Proof.
  apply (wp_discard (deductTx req) (λ d', abs d' = abs (db w) ∨ posting_step (abs (db w)) (abs d'))).
  eapply wp_mono; [|apply deductTx_spec].
  intros w' [resp|e] (_&_&H); [|left; by rewrite H].
  destruct H as (b&Hb&_&Hok&Hn&Hd&_). right. rewrite Hd.
  eapply (abs_post _ _ _ (debitEntry req (clock w))); [exact Hn|reflexivity|reflexivity|exact Hok|].
  rewrite holds_abs; cbn. rewrite Hb. post_tac.
Qed.

Lemma creditReason_not_debit r : (creditReasonToEntryType r =? "DEBIT")%string = false.
Proof. by destruct r. Qed.

(** A credit with a new id posts; with a known id it moves money without a row. *)
Lemma credit_cases req w :
  let n := GetAmountMinor (cred_Amount req) in
  let old := ledger_entries (db w) !! cred_TransactionId req in
  wp (run_tx (TxCredit req)) (λ w' _,
    abs (db w') = abs (db w) ∨
    (old = None ∧ posting_step (abs (db w)) (abs (db w'))) ∨
    (is_Some old ∧ ledger_step (abs (db w)) (abs (db w')))) w.
Proof.
  cbn zeta. eapply wp_mono; [|apply creditTx_spec].
  intros w' [resp|e] (_&_&H); [|left; by rewrite H].
  destruct H as [(b&Hb&Hok&Hd)|(_&_&Hd)]; [|left; by rewrite Hd].
  right. rewrite Hd. clear Hd.
  destruct (ledger_entries (db w) !! cred_TransactionId req) as [e|] eqn:He.
  - right. split; [eauto|].
    assert (acct_of (release (GetAmountMinor (cred_Amount req)) (clock w) b) =
      add2 (holds (abs (db w)) (cred_UserId req))
           (GetAmountMinor (cred_Amount req), - GetAmountMinor (cred_Amount req))) as Ha.
    { rewrite holds_abs, Hb; cbn. post_tac. }
    unfold abs at 2; cbn. rewrite fmap_insert, Ha.
    apply (ledger_replayed_credit (abs (db w)) (cred_TransactionId req) (cred_UserId req)
             (GetAmountMinor (cred_Amount req))); cbn.
    + by exists e.
    + rewrite lookup_fmap, Hb; cbn. eauto.
    + rewrite <- Ha. by apply balance_ok_acct.
  - left. split; [done|].
    eapply (abs_post _ _ _ (creditEntry req (clock w))); [exact He|reflexivity|reflexivity|exact Hok|].
    rewrite holds_abs; cbn. rewrite Hb. unfold movement; cbn.
    rewrite creditReason_not_debit. post_tac.
Qed.

Lemma confirm_posts req w :
  wp (run_tx (TxConfirm req)) (λ w' _, abs (db w') = abs (db w) ∨ posting_step (abs (db w)) (abs (db w'))) w.
Proof.
  apply (wp_discard (ConfirmTransaction req) (λ d', abs d' = abs (db w) ∨ posting_step (abs (db w)) (abs d'))).
  eapply wp_mono; [|apply confirmTransaction_spec].
  intros w' [resp|e] (_&_&H); [|left; by rewrite H]. right. rewrite H.
  apply (confirm (abs (db w)) (conf_TransactionId req) (clock w)).
Qed.

Lemma deposit_posts req w :
  wp (run_tx (TxDeposit req)) (λ w' _, abs (db w') = abs (db w) ∨ posting_step (abs (db w)) (abs (db w'))) w.
Proof.
  apply (wp_discard (depositTx req) (λ d', abs d' = abs (db w) ∨ posting_step (abs (db w)) (abs d'))).
  eapply wp_mono; [|apply depositTx_spec].
  intros w' [resp|e] (_&_&H); [|left; by rewrite H]. right.
  destruct H as (_&Hok&Hn&Hb&Hl&_).
  eapply (abs_post _ _ _ (cashierEntry _ req _ _ (clock w))); [exact Hn|exact Hb|exact Hl|exact Hok|].
  rewrite holds_abs; cbn. unfold movement, depositRow; cbn.
  destruct (balances (db w) !! cash_UserId req); post_tac.
Qed.

Lemma withdraw_posts req w :
  wp (run_tx (TxWithdraw req)) (λ w' _, abs (db w') = abs (db w) ∨ posting_step (abs (db w)) (abs (db w'))) w.
Proof.
  apply (wp_discard (withdrawTx req) (λ d', abs d' = abs (db w) ∨ posting_step (abs (db w)) (abs d'))).
  eapply wp_mono; [|apply withdrawTx_spec].
  intros w' [resp|e] (_&_&H); [|left; by rewrite H]. right.
  destruct H as (b&Hb0&_&Hok&Hn&Hb&Hl&_).
  eapply (abs_post _ _ _ (cashierEntry _ req _ _ (clock w))); [exact Hn|exact Hb|exact Hl|exact Hok|].
  rewrite holds_abs; cbn. rewrite Hb0. post_tac.
Qed.

Lemma wallet_step_refines d d' : wallet_step d d' → abs d' = abs d ∨ ledger_step (abs d) (abs d').
Proof.
  intros [t w <- <-].
  assert (∀ (m : Go WalletDB status unit), wp m (λ w' _, abs (db w') = abs (db w) ∨
    posting_step (abs (db w)) (abs (db w'))) w →
    abs (db (m w).1) = abs (db w) ∨ ledger_step (abs (db w)) (abs (db (m w).1))) as Hp.
  { unfold wp. intros m [?|?]; [by left|right; by constructor]. }
  destruct t.
  - apply Hp, deduct_posts.
  - pose proof (credit_cases req w) as Hc. unfold wp in Hc.
    destruct Hc as [?|[[_ ?]|[_ ?]]]; [by left|right; by constructor|by right].
  - apply Hp, confirm_posts.
  - apply Hp, deposit_posts.
  - apply Hp, withdraw_posts.
Qed.

Lemma fresh_step_refines d d' : fresh_step d d' → abs d' = abs d ∨ posting_step (abs d) (abs d').
Proof.
  intros [t w <- Hf <-]. destruct t.
  - apply deduct_posts.
  - pose proof (credit_cases req w) as Hc. unfold wp in Hc. cbn in Hf.
    destruct Hc as [?|[[_ ?]|[[? ?] _]]]; [by left|by right|congruence].
  - apply confirm_posts.
  - apply deposit_posts.
  - apply withdraw_posts.
Qed.

(** ** Invariants of the abstract ledger *)

Definition bounded (l : Ledger) : Prop := ∀ u, acct_ok (holds l u).
Definition cashier_balanced (l : Ledger) : Prop := ∀ u,
  (holds l u).1 + (holds l u).2 = map_sum (cashier_part u) (entries l).
Definition double_entry (l : Ledger) : Prop := ∀ u,
  holds l u = (map_sum (avail_part u) (entries l), map_sum (flight_part u) (entries l)).
Definition entries_owned (l : Ledger) : Prop := ∀ t e,
  entries l !! t = Some e → is_Some (accounts l !! le_user_id e).

Lemma holds_insert l u x es u' :
  holds {| accounts := <[u := x]> (accounts l); entries := es |} u' = if decide (u = u') then x else holds l u'.
Proof. unfold holds; cbn. rewrite lookup_insert. by case_decide. Qed.

Lemma confirmEntry_part (part : string → LedgerEntry → Z) :
  (part = avail_part ∨ part = flight_part ∨ part = cashier_part) →
  ∀ u c e, part u (confirmEntry c e) = part u e.
Proof.
  intros Hp u c e. unfold confirmEntry. destruct (_ =? _)%string; [|done].
  by destruct Hp as [-> | [-> | ->]].
Qed.

Lemma bounded_step l l' : ledger_step l l' → bounded l → bounded l'.
Proof.
  intros Hs Hb u. destruct Hs as [l' [t e ? Hok | t c] | t u' n ? ? Hok].
  - rewrite holds_insert. by case_decide.
  - apply Hb.
  - rewrite holds_insert. by case_decide.
Qed.

(** A posting moves exactly what its entry says, for any per-user reading of it. *)
Lemma posting_moves (part : string → LedgerEntry → Z) (proj : Z * Z → Z) l l' :
  (∀ u c e, part u (confirmEntry c e) = part u e) →
  (∀ x y, proj (add2 x y) = proj x + proj y) →
  (∀ u e, part u e = if (le_user_id e =? u)%string then proj (movement e) else 0) →
  posting_step l l' →
  (∀ u, proj (holds l u) = map_sum (part u) (entries l)) →
  ∀ u, proj (holds l' u) = map_sum (part u) (entries l').
Proof.
  intros Hc Hadd Hpart Hs Hinv u. destruct Hs as [t e Hn _|t c]; cbn [entries].
  - rewrite holds_insert, map_sum_insert by done. rewrite Hpart.
    case_decide as Hd.
    + subst. rewrite String.eqb_refl, Hadd, Hinv. lia.
    + assert ((le_user_id e =? u)%string = false) as -> by by apply String.eqb_neq.
      rewrite Hinv. lia.
  - rewrite map_sum_alter by (intros; apply Hc). apply Hinv.
Qed.

Lemma double_entry_step l l' : posting_step l l' → double_entry l → double_entry l'.
Proof.
  intros Hs Hinv u. rewrite (surjective_pairing (holds l' u)). f_equal.
  - apply (posting_moves avail_part fst l); try done.
    + apply confirmEntry_part. auto.
    + intros v. by rewrite Hinv.
  - apply (posting_moves flight_part snd l); try done.
    + apply confirmEntry_part. auto.
    + intros v. by rewrite Hinv.
Qed.

Lemma cashier_balanced_step l l' : ledger_step l l' → cashier_balanced l → cashier_balanced l'.
Proof.
  intros Hs Hinv. destruct Hs as [l' Hs|t u' n ? ? _].
  - intros u. apply (posting_moves cashier_part (λ x, x.1 + x.2) l l'); try done.
    + apply confirmEntry_part. auto.
    + intros x y. unfold add2; cbn. lia.
    + intros v e. unfold cashier_part, avail_part, flight_part. by destruct (_ =? _)%string.
  - intros u. rewrite holds_insert. cbn [entries]. rewrite <- Hinv.
    case_decide; [subst; unfold add2; cbn; lia|done].
Qed.

Lemma entries_owned_step l l' : ledger_step l l' → entries_owned l → entries_owned l'.
Proof.
  intros Hs Hinv. destruct Hs as [l' [t e ? Hok | t c] | t u' n ? ? Hok]; intros t' e'; cbn.
  - rewrite !lookup_insert. do 2 case_decide; naive_solver.
  - rewrite lookup_alter. case_decide; [|naive_solver]. subst.
    destruct (entries l !! t') as [e|] eqn:He; [|done]. intros [= <-].
    unfold confirmEntry. destruct (_ =? _)%string; cbn; naive_solver.
  - rewrite lookup_insert. case_decide; naive_solver.
Qed.

(** Lifting to reachable tables. *)
Lemma reachable_ledger (P : Ledger → Prop) d d' :
  (∀ l l', ledger_step l l' → P l → P l') →
  rtc wallet_step d d' → P (abs d) → P (abs d').
Proof.
  intros Hstep. induction 1 as [|d d1 d' Hs _ IH]; [done|]. intros HP. apply IH.
  destruct (wallet_step_refines _ _ Hs) as [->|]; eauto.
Qed.

Lemma reachable_posting (P : Ledger → Prop) d d' :
  (∀ l l', posting_step l l' → P l → P l') →
  rtc fresh_step d d' → P (abs d) → P (abs d').
Proof.
  intros Hstep. induction 1 as [|d d1 d' Hs _ IH]; [done|]. intros HP. apply IH.
  destruct (fresh_step_refines _ _ Hs) as [->|]; eauto.
Qed.

Lemma holds_empty u : holds (abs empty_db) u = (0, 0).
Proof. done. Qed.

Lemma holds_row d u b : balances d !! u = Some b → holds (abs d) u = acct_of b.
Proof. intros Hb. by rewrite holds_abs, Hb. Qed.

Lemma empty_bounded : bounded (abs empty_db).
Proof. intros u. rewrite holds_empty. unfold acct_ok, int64_max; cbn. lia. Qed.
Lemma empty_cashier_balanced : cashier_balanced (abs empty_db).
Proof. intros u. by rewrite holds_empty. Qed.
Lemma empty_double_entry : double_entry (abs empty_db).
Proof. intros u. by rewrite holds_empty. Qed.
Lemma empty_entries_owned : entries_owned (abs empty_db).
Proof. intros t e. cbn. by rewrite lookup_empty. Qed.

(** ** Ledger rows are immutable but for their confirmation *)

(** [e'] is [e], perhaps confirmed since. *)
Definition later_entry (e e' : LedgerEntry) : Prop :=
  le_user_id e' = le_user_id e ∧ entry_type e' = entry_type e ∧ stake_minor e' = stake_minor e ∧
  le_currency e' = le_currency e ∧ le_bet_id e' = le_bet_id e ∧ created_at e' = created_at e ∧
  payment_method e' = payment_method e ∧
  (le_status e' = le_status e ∨ le_status e = "PENDING_CONFIRMATION" ∧ le_status e' = "CONFIRMED").

#[export] Instance later_entry_preorder : PreOrder later_entry.
Proof.
  split.
  - intros e. unfold later_entry. by eauto 10.
  - intros e1 e2 e3 (?&?&?&?&?&?&?&[?|[??]]) (?&?&?&?&?&?&?&[?|[??]]);
      repeat split; try congruence; first [left; congruence | right; split; congruence].
Qed.

Lemma confirmEntry_later c e : later_entry e (confirmEntry c e).
Proof.
  unfold confirmEntry. destruct (_ =? _)%string eqn:H; [|reflexivity].
  apply String.eqb_eq in H. unfold later_entry; cbn. by eauto 12.
Qed.

Definition keeps_entries (l l' : Ledger) : Prop := ∀ t e,
  entries l !! t = Some e → ∃ e', entries l' !! t = Some e' ∧ later_entry e e'.

#[export] Instance keeps_entries_preorder : PreOrder keeps_entries.
Proof.
  split.
  - intros l t e He. exists e. split; [done|reflexivity].
  - intros l1 l2 l3 H1 H2 t e He. destruct (H1 t e He) as (e'&He'&?).
    destruct (H2 t e' He') as (e''&?&?). exists e''. split; [done|by transitivity e'].
Qed.

Lemma keeps_entries_step l l' : ledger_step l l' → keeps_entries l l'.
Proof.
  intros Hs t e He. destruct Hs as [l' [t' e' Hn Hok | t' c] | t' u n ? ? ?]; cbn.
  - exists e. split; [|reflexivity]. rewrite lookup_insert_ne; naive_solver.
  - rewrite lookup_alter. case_decide as Ht.
    + rewrite Ht, He. eexists. split; [reflexivity|]. apply confirmEntry_later.
    + rewrite He. exists e. split; [done|reflexivity].
  - exists e. split; [done|reflexivity].
Qed.

Lemma reachable_keeps_entries d d' : rtc wallet_step d d' → keeps_entries (abs d) (abs d').
Proof.
  induction 1 as [|d d1 d' Hs _ IH]; [reflexivity|].
  etransitivity; [|exact IH].
  destruct (wallet_step_refines _ _ Hs) as [->|]; [reflexivity|by apply keeps_entries_step].
Qed.

(** ** Whole methods *)

(** The answer to a repeated DeductBalance. *)
Definition replay_response (req : DeductBalanceRequest) (e : LedgerEntry) : TransactionResponse :=
  {| TransactionId := ded_TransactionId req;
     txStatus := ledgerStatusFromString (le_status e);
     AvailableAfter := None |}.

Definition deducted (req : DeductBalanceRequest) (t : Z) (b : Balance) (d : WalletDB) : WalletDB :=
  {| balances := <[ded_UserId req := reserve (GetAmountMinor (ded_Stake req)) t b]> (balances d);
     user_limits := user_limits d;
     ledger_entries := <[ded_TransactionId req := debitEntry req t]> (ledger_entries d) |}.

Definition deduct_response (req : DeductBalanceRequest) (b : Balance) : TransactionResponse :=
  {| TransactionId := ded_TransactionId req;
     txStatus := LEDGER_ENTRY_STATUS_PENDING_CONFIRMATION;
     AvailableAfter := Some {| AmountMinor := wrap64 (available_minor b - GetAmountMinor (ded_Stake req));
                               Currency := GetCurrency (ded_Stake req) |} |}.

Definition deduct_missing_ids (req : DeductBalanceRequest) : bool :=
  (ded_TransactionId req =? "")%string || (ded_UserId req =? "")%string.

Lemma DeductBalance_wp req w :
  wp (DeductBalance req) (commits (λ d' resp,
    (∃ e, ledger_entries (db w) !! ded_TransactionId req = Some e ∧
          d' = db w ∧ resp = replay_response req e) ∨
    (∃ b, ledger_entries (db w) !! ded_TransactionId req = None ∧
          balances (db w) !! ded_UserId req = Some b ∧
          GetAmountMinor (ded_Stake req) ≤ available_minor b ∧
          balance_ok (reserve (GetAmountMinor (ded_Stake req)) (clock w) b) = true ∧
          d' = deducted req (clock w) b (db w) ∧ resp = deduct_response req b)) w) w.
Proof.
  assert (∀ fs, wp (deductTx req) (commits (λ d' resp,
    (∃ e, ledger_entries (db w) !! ded_TransactionId req = Some e ∧
          d' = db w ∧ resp = replay_response req e) ∨
    (∃ b, ledger_entries (db w) !! ded_TransactionId req = None ∧
          balances (db w) !! ded_UserId req = Some b ∧
          GetAmountMinor (ded_Stake req) ≤ available_minor b ∧
          balance_ok (reserve (GetAmountMinor (ded_Stake req)) (clock w) b) = true ∧
          d' = deducted req (clock w) b (db w) ∧ resp = deduct_response req b)) w) (set_faults fs w)) as Htx.
  { intros fs. eapply wp_mono; [|apply deductTx_spec].
    intros w' [resp|e] (?&?&H); repeat split; try done.
    destruct H as (b&?&?&?&?&?&?). right. exists b. by repeat split. }
  unfold DeductBalance. go_step; [by commit_tac|].
  unfold getExistingTransaction.
  do 4 go_step; [apply Htx|]. cbn.
  destruct (ledger_entries (db w) !! ded_TransactionId req) as [e|] eqn:He; [|apply Htx].
  commit_tac. left. exists e. by repeat split.
Qed.

Lemma CreditBalance_wp req w :
  let n := GetAmountMinor (cred_Amount req) in
  wp (CreditBalance req) (commits (λ d' _,
    (∃ b, balances (db w) !! cred_UserId req = Some b ∧
      balance_ok (release n (clock w) b) = true ∧
      balances d' = <[cred_UserId req := release n (clock w) b]> (balances (db w)) ∧
      ledger_entries d' =
        match ledger_entries (db w) !! cred_TransactionId req with
        | Some _ => ledger_entries (db w)
        | None => <[cred_TransactionId req := creditEntry req (clock w)]> (ledger_entries (db w))
        end) ∨
    balances (db w) !! cred_UserId req = None ∧
    is_Some (ledger_entries (db w) !! cred_TransactionId req) ∧ d' = db w) w) w.
Proof.
  cbn zeta. unfold CreditBalance. go_step; [by commit_tac|]. go_step.
  eapply wp_mono; [|apply creditTx_spec].
  intros w' [[]|e] (Hc&Hf&H); [|by repeat split].
  assert (∀ fs, commits (A:=unit) (λ d' _,
    (∃ b, balances (db w) !! cred_UserId req = Some b ∧
      balance_ok (release (GetAmountMinor (cred_Amount req)) (clock w) b) = true ∧
      balances d' = <[cred_UserId req := release (GetAmountMinor (cred_Amount req)) (clock w) b]> (balances (db w)) ∧
      ledger_entries d' =
        match ledger_entries (db w) !! cred_TransactionId req with
        | Some _ => ledger_entries (db w)
        | None => <[cred_TransactionId req := creditEntry req (clock w)]> (ledger_entries (db w))
        end) ∨
    balances (db w) !! cred_UserId req = None ∧
    is_Some (ledger_entries (db w) !! cred_TransactionId req) ∧ d' = db w) w (set_faults fs w') (Ok tt)) as Hw.
  { intros fs. repeat split; [done|done|]. cbn.
    destruct H as [(b&?&?&->)|(?&?&->)]; [left; exists b; by repeat split|by right]. }
  go_step. go_step. go_step; apply Hw.
Qed.

(** The row a cashier call finds under its transaction id ends the call. *)
Definition cashier_missing (req : CashierRequest) : bool :=
  match cash_Amount req with
  | None => true
  | Some _ => (cash_TransactionId req =? "")%string || (cash_UserId req =? "")%string
  end.

Lemma cashierPrecheck_wp req w :
  wp (cashierPrecheck req) (λ w' r,
    db w' = db w ∧ clock w' = clock w ∧ fresh w' = fresh w ∧
    match r with
    | Ok (Some _) => cashier_missing req = false ∧ is_Some (ledger_entries (db w) !! cash_TransactionId req)
    | Ok None => cashier_missing req = false ∧ ledger_entries (db w) !! cash_TransactionId req = None
    | Err _ => True
    end) w.
Proof.
  unfold cashierPrecheck, cashier_missing. destruct (cash_Amount req) as [m|]; [|done].
  destruct (_ || _) eqn:Hids; [done|].
  do 3 go_step; [done|].
  destruct (ledger_entries (db w) !! cash_TransactionId req) as [e|] eqn:He; cbn beta iota zeta.
  - go_run; by eauto 10.
  - by apply wp_ret.
Qed.

Lemma Deposit_wp req w :
  let amount := GetAmountMinor (cash_Amount req) in
  let b := depositRow amount (clock w) (balances (db w) !! cash_UserId req) in
  wp (Deposit req) (commits (λ d' resp,
    is_Some (ledger_entries (db w) !! cash_TransactionId req) ∧ d' = db w ∨
    ledger_entries (db w) !! cash_TransactionId req = None ∧ 0 ≤ amount ∧
    balances d' = <[cash_UserId req := b]> (balances (db w)) ∧
    ledger_entries d' = <[cash_TransactionId req :=
      cashierEntry "CREDIT_DEPOSIT" req amount (bal_currency b) (clock w)]> (ledger_entries (db w)) ∧
    AvailableAfter resp = Some {| AmountMinor := available_minor b; Currency := bal_currency b |}) w) w.
Proof.
  cbn zeta. unfold Deposit. go_step. eapply wp_mono; [|apply cashierPrecheck_wp].
  intros w1 [[resp|]|e] (Hd&Hc&Hf&H); [go_step|..|by split_and!].
  { split_and!; [done..|]. left. by destruct H. }
  eapply wp_mono; [|apply depositTx_spec]. rewrite Hd, Hc.
  intros w2 [resp|e] (?&?&H2); (split_and!; [congruence..|]); [|congruence]. right. destruct H, H2 as (?&_&?&?&?&->). by repeat split.
Qed.

Lemma Withdraw_wp req w :
  let amount := GetAmountMinor (cash_Amount req) in
  wp (Withdraw req) (commits (λ d' _,
    is_Some (ledger_entries (db w) !! cash_TransactionId req) ∧ d' = db w ∨
    ∃ b, balances (db w) !! cash_UserId req = Some b ∧ amount ≤ available_minor b ∧
      ledger_entries (db w) !! cash_TransactionId req = None ∧
      balances d' = <[cash_UserId req := withdrawRow amount (clock w) b]> (balances (db w)) ∧
      ledger_entries d' = <[cash_TransactionId req :=
        cashierEntry "DEBIT_WITHDRAWAL" req amount (bal_currency b) (clock w)]> (ledger_entries (db w))) w) w.
Proof.
  cbn zeta. unfold Withdraw. go_step. eapply wp_mono; [|apply cashierPrecheck_wp].
  intros w1 [[resp|]|e] (Hd&Hc&Hf&H); [go_step|..|by split_and!].
  { split_and!; [done..|]. left. by destruct H. }
  eapply wp_mono; [|apply withdrawTx_spec]. rewrite Hd, Hc.
  intros w2 [resp|e] (?&?&H2); (split_and!; [congruence..|]); [|congruence]. right. destruct H, H2 as (b&?&?&_&?&?&?&_).
  exists b. by repeat split.
Qed.

(** ** The contract of the gRPC interface *)

#[export] Instance wallet_server : WalletServiceServer WalletDB := {|
  wallet_GetUserLimits := GetUserLimits;
  wallet_DeductBalance := DeductBalance;
  wallet_CreditBalance := CreditBalance;
  wallet_ConfirmTransaction := ConfirmTransaction;
  wallet_GetBalance := GetBalance;
  wallet_Deposit := Deposit;
  wallet_Withdraw := Withdraw
|}.

Definition wallet_account (d : WalletDB) (u : string) : option (Z * Z) := acct_of <$> balances d !! u.
Definition wallet_reservation (d : WalletDB) (t : string) : option Reservation :=
  match ledger_entries d !! t with
  | Some e => if (entry_type e =? "DEBIT")%string
              then Some {| res_user := le_user_id e; res_stake := stake_minor e;
                           res_bet := default "" (le_bet_id e) |}
              else None
  | None => None
  end.
Definition wallet_known (d : WalletDB) (t : string) : bool := bool_decide (is_Some (ledger_entries d !! t)).

Lemma GetUserLimits_read_only req w :
  wp (GetUserLimits req) (λ w' _, db w' = db w ∧ clock w' = clock w ∧ fresh w' = fresh w) w.
Proof. unfold GetUserLimits. go_run; done. Qed.

Lemma deducted_account req t b d :
  balances d !! ded_UserId req = Some b →
  wallet_account (deducted req t b d) (ded_UserId req) =
    Some (available_minor b - GetAmountMinor (ded_Stake req),
          bets_in_flight_minor b + GetAmountMinor (ded_Stake req)) ∧
  (∀ u, u ≠ ded_UserId req → wallet_account (deducted req t b d) u = wallet_account d u).
Proof.
  intros Hb. unfold wallet_account, deducted; cbn. split.
  - by rewrite lookup_insert_eq.
  - intros u Hu. by rewrite lookup_insert_ne.
Qed.

Lemma known_insert {V} (m : gmap string V) k v t :
  bool_decide (is_Some (<[k := v]> m !! t)) = bool_decide (t = k) || bool_decide (is_Some (m !! t)).
Proof.
  destruct (decide (t = k)) as [->|Hk].
  - rewrite lookup_insert_eq, (bool_decide_true (k = k)) by done. by rewrite bool_decide_true by by eexists.
  - by rewrite lookup_insert_ne, (bool_decide_false (t = k)) by done.
Qed.
Lemma known_present {V} (m : gmap string V) k t :
  is_Some (m !! k) →
  bool_decide (is_Some (m !! t)) = bool_decide (t = k) || bool_decide (is_Some (m !! t)).
Proof.
  intros Hk. destruct (decide (t = k)) as [->|Ht].
  - rewrite (bool_decide_true (is_Some _)) by done. by rewrite orb_true_r.
  - by rewrite (bool_decide_false (t = k)) by done.
Qed.

#[export] Instance wallet_view : WalletView WalletDB :=
  {| account := wallet_account; reservation := wallet_reservation; known := wallet_known |}.

Lemma deducted_effect req t b d :
  ledger_entries d !! ded_TransactionId req = None →
  balances d !! ded_UserId req = Some b →
  GetAmountMinor (ded_Stake req) ≤ available_minor b →
  deduct_effect req d (deducted req t b d).
Proof.
  intros Hn Hb Hle. exists (available_minor b), (bets_in_flight_minor b).
  destruct (deducted_account req t b d Hb) as [Ha Hother].
  repeat split; try done.
  - cbn. unfold wallet_account. by rewrite Hb.
  - cbn. unfold wallet_reservation, deducted; cbn. by rewrite lookup_insert_eq.
  - intros u Hu. cbn. unfold wallet_reservation, deducted; cbn. by rewrite lookup_insert_ne.
  - intros u. cbn. unfold wallet_known, deducted; cbn. apply known_insert.
Qed.

(** One cashier row more, and the balance that goes with it. *)
Lemma cashier_row_effect req b e d d' :
  ledger_entries d !! cash_TransactionId req = None →
  balances d' = <[cash_UserId req := b]> (balances d) →
  ledger_entries d' = <[cash_TransactionId req := e]> (ledger_entries d) →
  (entry_type e =? "DEBIT")%string = false →
  cashier_effect req d d'.
Proof.
  intros Hn Hb Hl Ht. split_and!.
  - intros u Hu. cbn. unfold wallet_account. by rewrite Hb, lookup_insert_ne.
  - intros t. cbn. unfold wallet_reservation. rewrite Hl, lookup_insert. case_decide; [subst|done]. by rewrite Hn, Ht.
  - intros t. cbn. unfold wallet_known. rewrite Hl. apply known_insert.
Qed.

#[export] Instance wallet_contract : WalletContract WalletDB.
Proof.
  split.
  - intros d t r. cbn. unfold wallet_reservation, wallet_known.
    destruct (ledger_entries d !! t); [|done]. intros _. by apply bool_decide_eq_true.
  - apply GetUserLimits_read_only.
  - intros req w. eapply wp_mono; [|apply DeductBalance_wp].
    intros w' [resp|e] (?&?&H); repeat split; auto. cbn. unfold wallet_known at 1.
    destruct H as [(e&He&->&_)|(b&Hn&Hb&Hle&_&->&_)].
    + by rewrite He.
    + rewrite Hn. cbn. by apply deducted_effect.
  - intros req w. eapply wp_mono; [|apply CreditBalance_wp].
    intros w' [resp|e] (?&?&H); repeat split; auto; cbn.
    + destruct H as [(b&Hb&_&Hbs&_)|(Hb&_&->)]; unfold wallet_account; rewrite Hb; cbn; [|done].
      by rewrite Hbs, lookup_insert_eq.
    + intros u Hu. unfold wallet_account.
      destruct H as [(b&_&_&->&_)|(_&_&->)]; [by rewrite lookup_insert_ne|done].
    + intros t r. unfold wallet_reservation.
      destruct H as [(b&_&_&_&->)|(_&_&->)]; [|done].
      destruct (ledger_entries (db w) !! cred_TransactionId req) eqn:He; [done|].
      destruct (decide (t = cred_TransactionId req)) as [->|Ht]; [by rewrite He|].
      by rewrite lookup_insert_ne.
    + intros t. unfold wallet_known.
      destruct H as [(b&_&_&_&->)|(_&He&->)].
      * destruct (ledger_entries (db w) !! cred_TransactionId req) eqn:He; [|apply known_insert].
        apply known_present. by eexists.
      * by apply known_present.
  - intros req w. eapply wp_mono; [|apply confirmTransaction_spec].
    intros w' [resp|e] (?&?&H); [|cbn; by rewrite H].
    rewrite H. repeat split; [done|done|..]; intros t; cbn.
    + unfold wallet_reservation; cbn. rewrite lookup_alter. case_decide; [subst|done].
      destruct (ledger_entries (db w) !! conf_TransactionId req) as [e|]; [|done].
      cbn. unfold confirmEntry. by destruct (le_status e =? _)%string.
    + unfold wallet_known; cbn. rewrite lookup_alter. case_decide; [subst|done].
      by destruct (ledger_entries (db w) !! conf_TransactionId req).
  - intros req w. eapply wp_mono; [|apply Deposit_wp]. cbn zeta.
    intros w' [resp|e] (?&?&H); (split_and!; [done..|]); unfold once; cbn; unfold wallet_known at 1; [|by left].
    destruct H as [[[e He] ->]|(Hn&Ha&Hb&Hl&_)]; [by rewrite He|]. rewrite Hn. cbn.
    split; [|exact (cashier_row_effect req _ _ _ _ Hn Hb Hl eq_refl)]. cbn. unfold wallet_account. rewrite Hb, lookup_insert_eq. cbn.
    by destruct (balances (db w) !! cash_UserId req).
  - intros req w. eapply wp_mono; [|apply Withdraw_wp]. cbn zeta.
    intros w' [resp|e] (?&?&H); (split_and!; [done..|]); unfold once; cbn; unfold wallet_known at 1; [|by left].
    destruct H as [[[e He] ->]|(b&Hb&Ha&Hn&Hb'&Hl)]; [by rewrite He|]. rewrite Hn. cbn.
    exists (available_minor b), (bets_in_flight_minor b). cbn. unfold wallet_account at 1 2. rewrite Hb, Hb', lookup_insert_eq.
    split_and!; [done|done|done|exact (cashier_row_effect req _ _ _ _ Hn Hb' Hl eq_refl)].
Qed.

(** ** Runs without faults *)

Definition no_faults {D} (w : world D) : Prop := faults w = [].

(** The reference meaning of a DeductBalance with both ids set. *)
Definition deduct_reference (req : DeductBalanceRequest) (t : Z) (d : WalletDB)
  : WalletDB * result status TransactionResponse :=
  match ledger_entries d !! ded_TransactionId req, balances d !! ded_UserId req with
  | Some e, _ => (d, Ok (replay_response req e))
  | None, None => (d, Err (Status NotFound "balance not found"))
  | None, Some b =>
      if available_minor b <? GetAmountMinor (ded_Stake req)
      then (d, Err (Status FailedPrecondition "insufficient balance"))
      else if balance_ok (reserve (GetAmountMinor (ded_Stake req)) t b)
      then if in_int64 (GetAmountMinor (ded_Stake req))
           then (deducted req t b d, Ok (deduct_response req b))
           else (d, Err (Status Internal "insert ledger entry"))
      else (d, Err (Status Internal "update balances"))
  end.

Lemma deductTx_no_faults req d t n :
  ledger_entries d !! ded_TransactionId req = None →
  deductTx req (World d t n []) =
    let '(d', r) := deduct_reference req t d in (World d' t n [], r).
Proof.
  intros Hn. unfold deduct_reference. rewrite Hn.
  unfold deductTx, tx, gbind, mapErr, queryRow, exec; cbn.
  destruct (balances d !! ded_UserId req) as [b|] eqn:Hb; [|done]; cbn.
  destruct (available_minor b <? _) eqn:Hlt; [done|]; cbn.
  unfold updateBalance; rewrite Hb.
  destruct (balance_ok _) eqn:Hok; [|done]; cbn.
  unfold insertLedger; cbn. rewrite Hn, lookup_insert_eq.
  by destruct (in_int64 _).
Qed.

Lemma DeductBalance_no_faults_run req d t n :
  deduct_missing_ids req = false →
  DeductBalance req (World d t n []) =
    let '(d', r) := deduct_reference req t d in (World d' t n [], r).
Proof.
  unfold deduct_missing_ids. intros Hids. unfold DeductBalance. rewrite Hids.
  unfold gbind at 1, catch, getExistingTransaction, gbind at 1, queryRow; cbn.
  destruct (ledger_entries d !! ded_TransactionId req) as [e|] eqn:He; cbn.
  - unfold deduct_reference. by rewrite He.
  - by apply deductTx_no_faults.
Qed.

(** ** Properties *)

(** C10. Every transaction of the service, whatever faults strike it, either
    leaves accounts and ledger as they were or is one step of the abstract
    ledger: it posts one new row and moves the account by exactly what the row
    says, confirms a row, or repeats a credit. *)
Theorem wallet_refines_ledger d d' :
  wallet_step d d' → abs d' = abs d ∨ ledger_step (abs d) (abs d').
Proof. apply wallet_step_refines. Qed.

(** C13. On tables reached from the empty database by any interleaving of calls,
    with any faults, a user's available balance plus bets in flight is the sum
    of the cashier rows of the ledger, deposits minus withdrawals, and both
    columns lie between 0 and the largest int64. *)
Theorem wallet_total_is_cashier_net d u b :
  rtc wallet_step empty_db d → balances d !! u = Some b →
  available_minor b + bets_in_flight_minor b = map_sum (cashier_part u) (ledger_entries d) ∧
  acct_ok (acct_of b).
Proof.
  intros Hr Hb. rewrite <- (holds_row d u b Hb). split.
  - pose proof (reachable_ledger cashier_balanced _ _ cashier_balanced_step Hr empty_cashier_balanced u) as Hs.
    by rewrite (holds_row d u b Hb) in Hs.
  - exact (reachable_ledger bounded _ _ bounded_step Hr empty_bounded u).
Qed.

(** C14. Double entry: after whole transactions run one after the other, when no credit
    repeats a transaction id, each user's (available, bets in flight) pair is the
    sum of the movements of the user's ledger rows, so the ledger alone determines
    the balances. Interleaved transactions come to such a run, except a credit that
    races with the first deposit of its user (see [WalletIsolation]). *)
Theorem wallet_double_entry d u b :
  rtc fresh_step empty_db d → balances d !! u = Some b →
  available_minor b = map_sum (avail_part u) (ledger_entries d) ∧
  bets_in_flight_minor b = map_sum (flight_part u) (ledger_entries d).
Proof.
  intros Hr Hb.
  pose proof (reachable_posting double_entry _ _ double_entry_step Hr empty_double_entry u) as Hs.
  rewrite (holds_row d u b Hb) in Hs. by injection Hs.
Qed.

(** The ledger is append-only: a row once written keeps its transaction id,
    user, type, stake, currency, bet and creation time in every later state;
    its status only ever goes from PENDING_CONFIRMATION to CONFIRMED. *)
Theorem ledger_append_only d d' t e :
  rtc wallet_step d d' → ledger_entries d !! t = Some e →
  ∃ e', ledger_entries d' !! t = Some e' ∧ later_entry e e'.
Proof. intros Hr. apply (reachable_keeps_entries _ _ Hr t e). Qed.

(** DeductBalance, every branch, under any faults: it fails and changes
    nothing, or it finds the transaction in the ledger and changes nothing, or
    the user had the stake available and the method moved it from available to
    bets in flight and wrote one PENDING_CONFIRMATION row. *)
Theorem DeductBalance_spec req w w' r :
  DeductBalance req w = (w', r) →
  match r with
  | Err _ => db w' = db w
  | Ok resp =>
      (∃ e, ledger_entries (db w) !! ded_TransactionId req = Some e ∧
            db w' = db w ∧ resp = replay_response req e) ∨
      (∃ b, ledger_entries (db w) !! ded_TransactionId req = None ∧
            balances (db w) !! ded_UserId req = Some b ∧
            GetAmountMinor (ded_Stake req) ≤ available_minor b ∧
            db w' = deducted req (clock w) b (db w) ∧ resp = deduct_response req b)
  end.
Proof.
  intros Hm. pose proof (wp_intro _ _ _ (DeductBalance_wp req w) _ _ Hm) as (_&_&H).
  destruct r as [resp|e]; [|done].
  destruct H as [?|(b&?&?&?&_&?&?)]; [by left|right; exists b; by repeat split].
Qed.

(** Without faults DeductBalance is its reference definition: replay of a
    known id, then NotFound, then FailedPrecondition when the stake exceeds the
    available balance, then the movement, refused only when a column would
    leave its range. *)
Theorem DeductBalance_no_fault req w :
  no_faults w → deduct_missing_ids req = false →
  DeductBalance req w =
    (World (deduct_reference req (clock w) (db w)).1 (clock w) (fresh w) [],
     (deduct_reference req (clock w) (db w)).2).
Proof.
  unfold no_faults. destruct w as [d t n fs]; cbn. intros -> Hids.
  rewrite DeductBalance_no_faults_run by done. by destruct (deduct_reference req t d).
Qed.

(** CreditBalance only ever moves money from bets in flight to available:
    the sum of the two columns of any user is the same before and after, and a
    credit larger than the user's bets in flight fails and changes nothing. *)
Theorem CreditBalance_never_adds_money req w w' r u b :
  CreditBalance req w = (w', r) → balances (db w) !! u = Some b →
  (∃ b', balances (db w') !! u = Some b' ∧
     available_minor b' + bets_in_flight_minor b' = available_minor b + bets_in_flight_minor b) ∧
  (u = cred_UserId req → bets_in_flight_minor b < GetAmountMinor (cred_Amount req) →
     db w' = db w ∧ ∃ e, r = Err e).
Proof.
  intros Hm Hb. pose proof (wp_intro _ _ _ (CreditBalance_wp req w) _ _ Hm) as (_&_&H).
  destruct r as [resp|e]; [|rewrite H; split; [by exists b|by eauto]].
  destruct H as [(b0&Hb0&Hok&Hbal&_)|(Hn&_&->)].
  - apply balance_ok_acct in Hok. rewrite Hbal. split.
    + destruct (decide (u = cred_UserId req)) as [->|Hu].
      * rewrite lookup_insert_eq. eexists; split; [done|]. cbn. assert (b0 = b) by congruence. subst. lia.
      * rewrite lookup_insert_ne by done. by exists b.
    + intros -> Hlt. assert (b0 = b) by congruence. subst.
      unfold acct_ok in Hok; cbn in Hok. lia.
  - split; [by exists b|]. intros ->. congruence.
Qed.

(** CreditBalance is not idempotent on transaction_id: repeated with an id
    the ledger already holds, it moves the amount again and writes no row. *)
Theorem CreditBalance_replay_moves_again req w b e :
  no_faults w →
  cred_TransactionId req ≠ "" → cred_UserId req ≠ "" →
  ledger_entries (db w) !! cred_TransactionId req = Some e →
  balances (db w) !! cred_UserId req = Some b →
  balance_ok (release (GetAmountMinor (cred_Amount req)) (clock w) b) = true →
  let w' := (CreditBalance req w).1 in
  balances (db w') !! cred_UserId req = Some (release (GetAmountMinor (cred_Amount req)) (clock w) b) ∧
  ledger_entries (db w') = ledger_entries (db w).
Proof.
  unfold no_faults. destruct w as [d t n fs]; cbn. intros -> Ht Hu He Hb Hok.
  apply String.eqb_neq in Ht, Hu.
  unfold CreditBalance. rewrite Ht, Hu. cbn.
  unfold creditTx, tx, gbind, mapErr, exec, now, catch, queryRow, updateBalance; cbn.
  rewrite Hb, Hok. cbn.
  unfold insertLedgerOnce; cbn. rewrite He. cbn. by rewrite lookup_insert_eq.
Qed.

(** Deposit under any faults: it fails and changes nothing; or its id is
    already in the ledger and nothing changes; or the amount is not negative
    and exactly one CREDIT_DEPOSIT row and one balance row are written, the
    balance grown by the amount (a first deposit creates the row at 0 in USD). *)
Theorem Deposit_spec req w w' r :
  Deposit req w = (w', r) →
  let amount := GetAmountMinor (cash_Amount req) in
  let b := depositRow amount (clock w) (balances (db w) !! cash_UserId req) in
  match r with
  | Err _ => db w' = db w
  | Ok resp =>
      is_Some (ledger_entries (db w) !! cash_TransactionId req) ∧ db w' = db w ∨
      ledger_entries (db w) !! cash_TransactionId req = None ∧ 0 ≤ amount ∧
      balances (db w') = <[cash_UserId req := b]> (balances (db w)) ∧
      ledger_entries (db w') = <[cash_TransactionId req :=
        cashierEntry "CREDIT_DEPOSIT" req amount (bal_currency b) (clock w)]> (ledger_entries (db w)) ∧
      AvailableAfter resp = Some {| AmountMinor := available_minor b; Currency := bal_currency b |}
  end.
Proof. intros Hm. from_wp (Deposit_wp req w) at Hm as H. destruct H as (_&_&H). exact H. Qed.

(** Withdraw never overdraws: under any faults it fails and changes nothing,
    or it repeats a known id and changes nothing, or the amount was available
    and it is taken from available, bets in flight untouched, with one
    DEBIT_WITHDRAWAL row. *)
Theorem Withdraw_spec req w w' r :
  Withdraw req w = (w', r) →
  let amount := GetAmountMinor (cash_Amount req) in
  match r with
  | Err _ => db w' = db w
  | Ok resp =>
      is_Some (ledger_entries (db w) !! cash_TransactionId req) ∧ db w' = db w ∨
      ∃ b, balances (db w) !! cash_UserId req = Some b ∧ amount ≤ available_minor b ∧
        ledger_entries (db w) !! cash_TransactionId req = None ∧
        balances (db w') = <[cash_UserId req := withdrawRow amount (clock w) b]> (balances (db w)) ∧
        ledger_entries (db w') = <[cash_TransactionId req :=
          cashierEntry "DEBIT_WITHDRAWAL" req amount (bal_currency b) (clock w)]> (ledger_entries (db w))
  end.
Proof. intros Hm. from_wp (Withdraw_wp req w) at Hm as H. destruct H as (_&_&H). exact H. Qed.

Definition reported_daily (r : result status GetUserLimitsResponse) : option Z :=
  match r with Ok resp => AmountMinor <$> DailyStakedSoFar resp | Err _ => None end.

(** GetUserLimits reports as staked so far the sum of the user's DEBIT rows
    of the last 24 hours, CANCELLED ones left out; but when that one query
    fails the error is dropped and it reports 0: the daily limit fails open. *)
Theorem GetUserLimits_daily_staked req d t n row :
  gul_UserId req ≠ "" → user_limits d !! gul_UserId req = Some row →
  let staked := map_sum (dailyStakeOf t (gul_UserId req)) (ledger_entries d) in
  in_int64 staked = true →
  reported_daily (GetUserLimits req (World d t n [])).2 = Some staked ∧
  reported_daily (GetUserLimits req (World d t n [false; true])).2 = Some 0.
Proof.
  cbn zeta. intros Hu%String.eqb_neq Hrow Hin.
  unfold GetUserLimits, gbind, catch, queryRow, mapErr, scanInt64. rewrite Hu. cbn.
  rewrite Hrow. cbn. by rewrite Hin.
Qed.

(** ** Witnesses *)

Definition usd (n : Z) : option Money := Some {| AmountMinor := n; Currency := "USD" |}.
Definition ex_deposit : CashierRequest :=
  {| cash_TransactionId := "t1"; cash_UserId := "ann"; cash_Amount := usd 1000; cash_PaymentMethod := "card" |}.
Definition ex_deduct : DeductBalanceRequest :=
  {| ded_TransactionId := "t2"; ded_UserId := "ann"; ded_Stake := usd 300; ded_BetId := "bet1" |}.
Definition ex_credit : CreditBalanceRequest :=
  {| cred_TransactionId := "t3"; cred_UserId := "ann"; cred_Amount := usd 200;
     cred_Reason := CREDIT_REASON_WIN; cred_OriginatingBetId := "bet1" |}.
Definition ex_withdraw : CashierRequest :=
  {| cash_TransactionId := "t4"; cash_UserId := "ann"; cash_Amount := usd 50; cash_PaymentMethod := "card" |}.
Definition at_ {D} (d : D) : world D := World d 5000000 0 [].
Definition ex_d1 : WalletDB := db (run_tx (TxDeposit ex_deposit) (at_ empty_db)).1.
Definition ex_d2 : WalletDB := db (run_tx (TxDeduct ex_deduct) (at_ ex_d1)).1.
Definition ex_d3 : WalletDB := db (run_tx (TxCredit ex_credit) (at_ ex_d2)).1.
Definition ex_balance (a f : Z) : Balance :=
  {| available_minor := a; bets_in_flight_minor := f; bal_currency := "USD"; bal_updated_at := 5000000 |}.

Lemma ex_run : rtc wallet_step empty_db ex_d3.
Proof.
  eapply rtc_l; [by apply (wallet_step_tx _ _ (TxDeposit ex_deposit) (at_ empty_db))|].
  eapply rtc_l; [by apply (wallet_step_tx _ _ (TxDeduct ex_deduct) (at_ ex_d1))|].
  eapply rtc_l; [by apply (wallet_step_tx _ _ (TxCredit ex_credit) (at_ ex_d2))|].
  reflexivity.
Qed.

Lemma ex_fresh_run : rtc fresh_step empty_db ex_d3.
Proof.
  eapply rtc_l; [by apply (fresh_step_tx _ _ (TxDeposit ex_deposit) (at_ empty_db))|].
  eapply rtc_l; [by apply (fresh_step_tx _ _ (TxDeduct ex_deduct) (at_ ex_d1))|].
  eapply rtc_l; [by apply (fresh_step_tx _ _ (TxCredit ex_credit) (at_ ex_d2))|].
  reflexivity.
Qed.

Lemma wallet_refines_ledger_witness :
  abs ex_d2 = abs ex_d1 ∨ ledger_step (abs ex_d1) (abs ex_d2).
Proof.
  apply wallet_refines_ledger. by apply (wallet_step_tx _ _ (TxDeduct ex_deduct) (at_ ex_d1)).
Defined.

Lemma wallet_total_is_cashier_net_witness :
  900 + 100 = map_sum (cashier_part "ann") (ledger_entries ex_d3) ∧ acct_ok (900, 100).
Proof. apply (wallet_total_is_cashier_net ex_d3 "ann" (ex_balance 900 100) ex_run). by vm_compute. Defined.

Lemma wallet_double_entry_witness :
  900 = map_sum (avail_part "ann") (ledger_entries ex_d3) ∧
  100 = map_sum (flight_part "ann") (ledger_entries ex_d3).
Proof. apply (wallet_double_entry ex_d3 "ann" (ex_balance 900 100) ex_fresh_run). by vm_compute. Defined.

Lemma ledger_append_only_witness :
  ∃ e', ledger_entries ex_d3 !! "t2" = Some e' ∧ later_entry (debitEntry ex_deduct 5000000) e'.
Proof.
  apply (ledger_append_only ex_d2 ex_d3 "t2"); [|by vm_compute].
  apply rtc_once. by apply (wallet_step_tx _ _ (TxCredit ex_credit) (at_ ex_d2)).
Defined.

Lemma DeductBalance_spec_witness :
  match (DeductBalance ex_deduct (at_ ex_d1)).2 with
  | Err _ => db (DeductBalance ex_deduct (at_ ex_d1)).1 = ex_d1
  | Ok resp =>
      (∃ e, ledger_entries ex_d1 !! "t2" = Some e ∧
            db (DeductBalance ex_deduct (at_ ex_d1)).1 = ex_d1 ∧ resp = replay_response ex_deduct e) ∨
      (∃ b, ledger_entries ex_d1 !! "t2" = None ∧
            balances ex_d1 !! "ann" = Some b ∧ 300 ≤ available_minor b ∧
            db (DeductBalance ex_deduct (at_ ex_d1)).1 = deducted ex_deduct 5000000 b ex_d1 ∧
            resp = deduct_response ex_deduct b)
  end.
Proof. apply (DeductBalance_spec ex_deduct (at_ ex_d1)). by destruct (DeductBalance ex_deduct (at_ ex_d1)). Defined.

Lemma DeductBalance_no_fault_witness :
  DeductBalance ex_deduct (at_ ex_d1) =
    (World (deduct_reference ex_deduct 5000000 ex_d1).1 5000000 0 [],
     (deduct_reference ex_deduct 5000000 ex_d1).2).
Proof. by apply (DeductBalance_no_fault ex_deduct (at_ ex_d1)). Defined.

Definition ex_big_credit : CreditBalanceRequest :=
  {| cred_TransactionId := "t5"; cred_UserId := "ann"; cred_Amount := usd 600;
     cred_Reason := CREDIT_REASON_WIN; cred_OriginatingBetId := "bet1" |}.

Lemma CreditBalance_never_adds_money_witness :
  db (CreditBalance ex_big_credit (at_ ex_d2)).1 = ex_d2.
Proof.
  destruct (CreditBalance_never_adds_money ex_big_credit (at_ ex_d2)
    (CreditBalance ex_big_credit (at_ ex_d2)).1 (CreditBalance ex_big_credit (at_ ex_d2)).2
    "ann" (ex_balance 700 300)) as [_ H].
  - by destruct (CreditBalance ex_big_credit (at_ ex_d2)).
  - by vm_compute.
  - apply H; [done|]. by cbn.
Defined.

Lemma CreditBalance_replay_moves_again_witness :
  balances (db (CreditBalance {| cred_TransactionId := "t3"; cred_UserId := "ann"; cred_Amount := usd 60;
     cred_Reason := CREDIT_REASON_WIN; cred_OriginatingBetId := "bet1" |} (at_ ex_d3)).1) !! "ann" =
    Some (release 60 5000000 (ex_balance 900 100)).
Proof.
  apply (CreditBalance_replay_moves_again
    {| cred_TransactionId := "t3"; cred_UserId := "ann"; cred_Amount := usd 60;
       cred_Reason := CREDIT_REASON_WIN; cred_OriginatingBetId := "bet1" |}
    (at_ ex_d3) (ex_balance 900 100) (creditEntry ex_credit 5000000)); by vm_compute.
Defined.

Lemma Deposit_spec_witness :
  match (Deposit ex_deposit (at_ ex_d3)).2 with
  | Err _ => db (Deposit ex_deposit (at_ ex_d3)).1 = ex_d3
  | Ok resp =>
      is_Some (ledger_entries ex_d3 !! "t1") ∧ db (Deposit ex_deposit (at_ ex_d3)).1 = ex_d3 ∨
      ledger_entries ex_d3 !! "t1" = None ∧ 0 ≤ 1000 ∧
      balances (db (Deposit ex_deposit (at_ ex_d3)).1) =
        <["ann" := depositRow 1000 5000000 (balances ex_d3 !! "ann")]> (balances ex_d3) ∧
      ledger_entries (db (Deposit ex_deposit (at_ ex_d3)).1) = <["t1" :=
        cashierEntry "CREDIT_DEPOSIT" ex_deposit 1000
          (bal_currency (depositRow 1000 5000000 (balances ex_d3 !! "ann"))) 5000000]> (ledger_entries ex_d3) ∧
      AvailableAfter resp = Some {| AmountMinor := available_minor (depositRow 1000 5000000 (balances ex_d3 !! "ann"));
                                    Currency := bal_currency (depositRow 1000 5000000 (balances ex_d3 !! "ann")) |}
  end.
Proof. apply (Deposit_spec ex_deposit (at_ ex_d3)). by destruct (Deposit ex_deposit (at_ ex_d3)). Defined.

Lemma Withdraw_spec_witness :
  match (Withdraw ex_withdraw (at_ ex_d3)).2 with
  | Err _ => db (Withdraw ex_withdraw (at_ ex_d3)).1 = ex_d3
  | Ok resp =>
      is_Some (ledger_entries ex_d3 !! "t4") ∧ db (Withdraw ex_withdraw (at_ ex_d3)).1 = ex_d3 ∨
      ∃ b, balances ex_d3 !! "ann" = Some b ∧ 50 ≤ available_minor b ∧
        ledger_entries ex_d3 !! "t4" = None ∧
        balances (db (Withdraw ex_withdraw (at_ ex_d3)).1) =
          <["ann" := withdrawRow 50 5000000 b]> (balances ex_d3) ∧
        ledger_entries (db (Withdraw ex_withdraw (at_ ex_d3)).1) = <["t4" :=
          cashierEntry "DEBIT_WITHDRAWAL" ex_withdraw 50 (bal_currency b) 5000000]> (ledger_entries ex_d3)
  end.
Proof. apply (Withdraw_spec ex_withdraw (at_ ex_d3)). by destruct (Withdraw ex_withdraw (at_ ex_d3)). Defined.

Definition ex_limits : GetUserLimitsRequest := {| gul_UserId := "ann" |}.

Lemma GetUserLimits_daily_staked_witness :
  reported_daily (GetUserLimits ex_limits (World ex_d2 5000000 0 [])).2 =
    Some (map_sum (dailyStakeOf 5000000 "ann") (ledger_entries ex_d2)) ∧
  reported_daily (GetUserLimits ex_limits (World ex_d2 5000000 0 [false; true])).2 = Some 0.
Proof. by apply (GetUserLimits_daily_staked ex_limits ex_d2 5000000 0 default_limits). Defined.
