(* ===== verification/WalletIsolation.v ===== *)
(** * The wallet's transactions at statement granularity

    [Wallet] runs each transaction of [internal/wallet/service.go] as one step.
    Here its statements interleave with those of other transactions under
    PostgreSQL's READ COMMITTED: a statement sees what is committed and what its
    own transaction has written, a row that is written or selected FOR UPDATE is
    locked until the transaction ends, and a statement that needs a
    row locked by another waits. The theorems: the committed tables are always those
    of a sequence of whole transactions, so every theorem of [Wallet] on its
    steps holds of them - but for a credit of a user whose first deposit commits
    in the middle of it; and the transactions never wait for each other in a
    circle, with the advisory locks among the locks. *)
From stdpp Require Import relations.
From S2P Require Export Wallet.
Local Open Scope Z_scope.

(** ** Rows and locks *)

(** The advisory lock of a number, and the locks of the rows. *)
Inductive LockKey : Type := LAdvisory (h : Z) | LLimits (uid : string) | LBalance (uid : string) | LLedger (txid : string).

#[export] Instance LockKey_eq_dec : EqDecision LockKey.
Proof. solve_decision. Defined.
#[export] Instance LockKey_countable : Countable LockKey.
Proof.
  refine (inj_countable'
    (λ k, match k with LAdvisory h => inl (inl h) | LLimits u => inl (inr u) | LBalance u => inr (inl u) | LLedger t => inr (inr t) end)
    (λ s, match s with inl (inl h) => LAdvisory h | inl (inr u) => LLimits u | inr (inl u) => LBalance u | inr (inr t) => LLedger t end) _).
  by intros [].
Defined.

(** PostgreSQL's [hashtext]: the number whose advisory lock stands for a user. *)
Class PgHash := hashtext : string → Z.

(** What a transaction sees: its own rows before the committed ones. *)
Definition over (own d : WalletDB) : WalletDB := {|
  balances := balances own ∪ balances d;
  user_limits := user_limits own ∪ user_limits d;
  ledger_entries := ledger_entries own ∪ ledger_entries d
|}.

(** The row that a statement has written in [v], kept with the transaction's own. *)
Definition keep_balance (uid : string) (v own : WalletDB) : WalletDB :=
  set_balances (partial_alter (λ _, balances v !! uid) uid (balances own)) own.
Definition keep_limits (uid : string) (v own : WalletDB) : WalletDB :=
  set_user_limits (partial_alter (λ _, user_limits v !! uid) uid (user_limits own)) own.
Definition keep_entry (txid : string) (v own : WalletDB) : WalletDB :=
  set_ledger (partial_alter (λ _, ledger_entries v !! txid) txid (ledger_entries own)) own.

(** ** Transactions under way *)

(** How far a transaction is: [Advised] has the advisory lock, [Locked] holds the balance that SELECT ... FOR UPDATE
    returned, [Updated] the one before the UPDATE, or the row returned by the
    upsert of a deposit. *)
Inductive TxPhase : Type :=
| Begun
| Advised
| Limited
| Locked (b : Balance)
| Updated (b : option Balance)
| Inserted.

Record Flight : Type := {
  fl_tx : wallet_tx;
  fl_now : Z;                  (** NOW() is the time of BEGIN *)
  fl_phase : TxPhase;
  fl_own : WalletDB;
  fl_locks : gset LockKey
}.

Inductive Outcome : Type :=
| Waits
| Fails                        (** an error, or a check of the code: the transaction is rolled back *)
| Goes (f : Flight).

Definition go_on (f : Flight) (p : TxPhase) (own : WalletDB) (locks : gset LockKey) : Outcome :=
  Goes {| fl_tx := fl_tx f; fl_now := fl_now f; fl_phase := p; fl_own := own; fl_locks := locks ∪ fl_locks f |}.

Section Statements.
Variables (d : WalletDB) (others : gset LockKey) (f : Flight).
Abbreviation seen := (over (fl_own f) d).

(** [SELECT pg_advisory_xact_lock(hashtext($1))]; DeductBalance asks for the hash in
    a statement of its own before, which reads no table. *)
Definition advisoryLock `{PgHash} (uid : string) : Outcome :=
  if decide (LAdvisory (hashtext uid) ∈ others) then Waits else go_on f Advised (fl_own f) {[ LAdvisory (hashtext uid) ]}.

(** [SELECT ... FROM balances WHERE user_id = $1 FOR UPDATE], then the check of the funds. *)
Definition selectForUpdate (uid : string) (amount : Z) : Outcome :=
  match balances seen !! uid with
  | None => Fails
  | Some b =>
      if decide (LBalance uid ∈ others) then Waits else
      if available_minor b <? amount then Fails else
      go_on f (Locked b) (fl_own f) {[ LBalance uid ]}
  end.

(** [UPDATE balances ... WHERE user_id = $1] *)
Definition updateRow (uid : string) (g : Balance → Balance) : Outcome :=
  match balances seen !! uid with
  | None => go_on f (Updated None) (fl_own f) ∅
  | Some b =>
      if decide (LBalance uid ∈ others) then Waits else
      match updateBalance uid g seen with
      | None => Fails
      | Some v => go_on f (Updated (Some b)) (keep_balance uid v (fl_own f)) {[ LBalance uid ]}
      end
  end.

(** [INSERT INTO ledger_entries], also with ON CONFLICT DO NOTHING. *)
Definition insertRow (txid : string) (insert : WalletDB → option WalletDB) : Outcome :=
  if decide (LLedger txid ∈ others) then Waits else
  match insert seen with
  | None => Fails
  | Some v =>
      match ledger_entries seen !! txid with
      | Some _ => go_on f Inserted (fl_own f) ∅
      | None => go_on f Inserted (keep_entry txid v (fl_own f)) {[ LLedger txid ]}
      end
  end.

(** [INSERT INTO user_limits ... ON CONFLICT DO NOTHING] *)
Definition provisionRow (uid : string) : Outcome :=
  if decide (LLimits uid ∈ others) then Waits else
  match provisionLimits uid seen with
  | None => Fails
  | Some v =>
      match user_limits seen !! uid with
      | Some _ => go_on f Limited (fl_own f) ∅
      | None => go_on f Limited (keep_limits uid v (fl_own f)) {[ LLimits uid ]}
      end
  end.

(** [INSERT INTO balances ... ON CONFLICT (user_id) DO UPDATE ... RETURNING] *)
Definition upsertRow (uid : string) (amount t : Z) : Outcome :=
  if decide (LBalance uid ∈ others) then Waits else
  match upsertBalance uid amount t seen with
  | None => Fails
  | Some v => go_on f (Updated (balances v !! uid)) (keep_balance uid v (fl_own f)) {[ LBalance uid ]}
  end.

(** The next statement of the transaction; CreditBalance takes no advisory lock. *)
Definition next_statement `{PgHash} : Outcome :=
  let t := fl_now f in
  match fl_tx f, fl_phase f with
  | TxDeduct req, Begun => advisoryLock (ded_UserId req)
  | TxDeduct req, Advised => selectForUpdate (ded_UserId req) (GetAmountMinor (ded_Stake req))
  | TxDeduct req, Locked _ => updateRow (ded_UserId req) (reserve (GetAmountMinor (ded_Stake req)) t)
  | TxDeduct req, Updated _ => insertRow (ded_TransactionId req) (insertLedger (ded_TransactionId req) (debitEntry req t))
  | TxCredit req, Begun => updateRow (cred_UserId req) (release (GetAmountMinor (cred_Amount req)) t)
  | TxCredit req, Updated _ =>
      insertRow (cred_TransactionId req) (insertLedgerOnce (cred_TransactionId req) (creditEntry req t))
  | TxDeposit req, Begun => advisoryLock (cash_UserId req)
  | TxDeposit req, Advised => provisionRow (cash_UserId req)
  | TxDeposit req, Limited => upsertRow (cash_UserId req) (GetAmountMinor (cash_Amount req)) t
  | TxDeposit req, Updated (Some b) =>
      insertRow (cash_TransactionId req) (insertLedger (cash_TransactionId req)
        (cashierEntry "CREDIT_DEPOSIT" req (GetAmountMinor (cash_Amount req)) (bal_currency b) t))
  | TxWithdraw req, Begun => advisoryLock (cash_UserId req)
  | TxWithdraw req, Advised => selectForUpdate (cash_UserId req) (GetAmountMinor (cash_Amount req))
  | TxWithdraw req, Locked _ => updateRow (cash_UserId req) (withdrawRow (GetAmountMinor (cash_Amount req)) t)
  | TxWithdraw req, Updated (Some b) =>
      insertRow (cash_TransactionId req) (insertLedger (cash_TransactionId req)
        (cashierEntry "DEBIT_WITHDRAWAL" req (GetAmountMinor (cash_Amount req)) (bal_currency b) t))
  | _, _ => Fails
  end.
End Statements.

(** ** The server *)

(** The committed tables and the transaction of each connection. *)
Record Server : Type := { committed : WalletDB; flights : gmap string Flight }.

Definition locks_of_others (i : string) (fs : gmap string Flight) : gset LockKey :=
  ⋃ (fl_locks <$> (map_to_list (delete i fs)).*2).

(** [Begin]. ConfirmTransaction has no transaction: [TxConfirm] never gets further. *)
Definition begin_tx (t : wallet_tx) (now : Z) : Flight :=
  {| fl_tx := t; fl_now := now; fl_phase := Begun; fl_own := empty_db; fl_locks := ∅ |}.

Inductive server_step `{PgHash} (s : Server) : Server → Prop :=
| server_begin i t now :
    flights s !! i = None →
    server_step s {| committed := committed s; flights := <[i := begin_tx t now]> (flights s) |}
| server_statement i f f' :
    flights s !! i = Some f → next_statement (committed s) (locks_of_others i (flights s)) f = Goes f' →
    server_step s {| committed := committed s; flights := <[i := f']> (flights s) |}
(** An error, a lost connection, a failed commit. *)
| server_rollback i f :
    flights s !! i = Some f → server_step s {| committed := committed s; flights := delete i (flights s) |}
| server_commit i f :
    flights s !! i = Some f → fl_phase f = Inserted →
    server_step s {| committed := over (fl_own f) (committed s); flights := delete i (flights s) |}
(** ConfirmTransaction is one statement. *)
| server_confirm req w :
    db w = committed s →
    server_step s {| committed := db (ConfirmTransaction req w).1; flights := flights s |}.

(** ** What a statement needs, and what it does *)

Section Outcomes.
Context `{PgHash}.
Implicit Types (d v own : WalletDB) (f : Flight) (others : gset LockKey).
Abbreviation moved f p own locks :=
  {| fl_tx := fl_tx f; fl_now := fl_now f; fl_phase := p; fl_own := own; fl_locks := locks ∪ fl_locks f |}.

Lemma advisoryLock_Goes others f uid f' :
  advisoryLock others f uid = Goes f' ↔
  (LAdvisory (hashtext uid) ∉ others) ∧ f' = moved f Advised (fl_own f) {[ LAdvisory (hashtext uid) ]}.
Proof. unfold advisoryLock, go_on. case_decide; naive_solver. Qed.

Lemma selectForUpdate_Goes d others f uid amount f' :
  selectForUpdate d others f uid amount = Goes f' ↔
  ∃ b, balances (over (fl_own f) d) !! uid = Some b ∧ (LBalance uid ∉ others) ∧ (amount ≤ available_minor b) ∧
    f' = moved f (Locked b) (fl_own f) {[ LBalance uid ]}.
Proof.
  unfold selectForUpdate, go_on. destruct (balances _ !! uid) as [b|]; [|naive_solver].
  case_decide; [naive_solver|]. destruct (Z.ltb_spec (available_minor b) amount); [|naive_solver].
  split; [done|]. intros (b'&[= <-]&_&?&_). lia.
Qed.

Lemma updateRow_Goes d others f uid g f' :
  is_Some (balances (over (fl_own f) d) !! uid) →
  updateRow d others f uid g = Goes f' ↔
  ∃ b, balances (over (fl_own f) d) !! uid = Some b ∧ (LBalance uid ∉ others) ∧ balance_ok (g b) = true ∧
    f' = moved f (Updated (Some b)) (set_balances (<[uid := g b]> (balances (fl_own f))) (fl_own f)) {[ LBalance uid ]}.
Proof.
  intros [b Hb]. unfold updateRow, updateBalance, go_on, keep_balance. rewrite Hb.
  case_decide; [naive_solver|]. destruct (balance_ok (g b)) eqn:Hok.
  - cbn. rewrite lookup_insert_eq. split; [intros [= <-]; by exists b|]. by intros (b0&[= <-]&_&_&->).
  - split; [done|]. intros (b0&[= <-]&_&Hok'&_). congruence.
Qed.

(** An insertion into the ledger that only depends on the row it replaces. *)
Definition inserts (txid : string) (e : LedgerEntry) (once : bool) d : option WalletDB :=
  if once then insertLedgerOnce txid e d else insertLedger txid e d.

Lemma insertRow_Goes d others f txid e once f' :
  insertRow d others f txid (inserts txid e once) = Goes f' ↔
  (LLedger txid ∉ others) ∧
  match ledger_entries (over (fl_own f) d) !! txid with
  | Some _ => once = true ∧ f' = moved f Inserted (fl_own f) ∅
  | None => is_Some (balances (over (fl_own f) d) !! le_user_id e) ∧ in_int64 (stake_minor e) = true ∧
      f' = moved f Inserted (set_ledger (<[txid := e]> (ledger_entries (fl_own f))) (fl_own f)) {[ LLedger txid ]}
  end.
Proof.
  unfold insertRow, go_on, keep_entry. case_decide; [naive_solver|].
  assert (ledger_entries (over (fl_own f) d) !! txid = None → inserts txid e once (over (fl_own f) d) =
    insertLedger txid e (over (fl_own f) d)) as Hnew.
  { intros Hl. unfold inserts, insertLedgerOnce. rewrite Hl. by destruct once. }
  destruct (ledger_entries (over (fl_own f) d) !! txid) as [e0|] eqn:Hl.
  - unfold inserts, insertLedgerOnce, insertLedger. rewrite Hl. destruct once; naive_solver.
  - rewrite (Hnew eq_refl). unfold insertLedger. rewrite Hl.
    destruct (balances _ !! le_user_id e) as [b|]; [|naive_solver].
    destruct (in_int64 _); [|naive_solver]. cbn [ledger_entries set_ledger]. rewrite lookup_insert_eq.
    unfold set_ledger. cbn. naive_solver.
Qed.

Lemma provisionRow_Goes d others f uid f' :
  provisionRow d others f uid = Goes f' ↔
  (LLimits uid ∉ others) ∧
  match user_limits (over (fl_own f) d) !! uid with
  | Some _ => f' = moved f Limited (fl_own f) ∅
  | None => f' = moved f Limited (set_user_limits (<[uid := default_limits]> (user_limits (fl_own f))) (fl_own f)) {[ LLimits uid ]}
  end.
Proof.
  unfold provisionRow, provisionLimits, go_on, keep_limits. case_decide; [naive_solver|].
  destruct (user_limits _ !! uid) eqn:Hl; [naive_solver|]. cbn. rewrite lookup_insert_eq. naive_solver.
Qed.

Lemma upsertRow_Goes d others f uid amount t f' :
  upsertRow d others f uid amount t = Goes f' ↔
  (LBalance uid ∉ others) ∧
  let b := depositRow amount t (balances (over (fl_own f) d) !! uid) in
  (balance_ok (depositRow amount t None) && balance_ok b) = true ∧
  f' = moved f (Updated (Some b)) (set_balances (<[uid := b]> (balances (fl_own f))) (fl_own f)) {[ LBalance uid ]}.
Proof.
  unfold upsertRow, upsertBalance, go_on, keep_balance. case_decide; [naive_solver|]. cbn zeta.
  destruct (_ && _) eqn:Hok; [|naive_solver]. cbn. rewrite lookup_insert_eq. naive_solver.
Qed.
End Outcomes.

(** ** A transaction on its own *)

(** The flight of [t] after [k] statements with nobody else about. *)
Fixpoint after_statements `{PgHash} (d : WalletDB) (t : wallet_tx) (now : Z) (k : nat) : option Flight :=
  match k with
  | O => Some (begin_tx t now)
  | S k => f ← after_statements d t now k;
           match next_statement d ∅ f with Goes f' => Some f' | _ => None end
  end.

Section Stability.
Context `{PgHash}.
Implicit Types (d : WalletDB) (f : Flight) (others : gset LockKey).

(** Two states of the tables that agree on what is locked; rows are not deleted. *)
Definition row_agrees d d' (k : LockKey) : Prop :=
  match k with
  | LAdvisory _ => True
  | LLimits u => user_limits d' !! u = user_limits d !! u
  | LBalance u => balances d' !! u = balances d !! u
  | LLedger t => ledger_entries d' !! t = ledger_entries d !! t
  end.
Record grows d d' : Prop := Grows {
  gr_balances u : is_Some (balances d !! u) → is_Some (balances d' !! u);
  gr_limits u : is_Some (user_limits d !! u) → is_Some (user_limits d' !! u);
  gr_entries t : is_Some (ledger_entries d !! t) → is_Some (ledger_entries d' !! t)
}.

#[export] Instance grows_preorder : PreOrder grows.
Proof. split; [by split|]. intros d1 d2 d3 [? ? ?] [? ? ?]. split; auto. Qed.

Lemma seen_agrees own d d' u : balances d' !! u = balances d !! u → balances (over own d') !! u = balances (over own d) !! u.
Proof. intros E. cbn. by rewrite !lookup_union, E. Qed.

Lemma seen_grows own d d' : grows d d' → grows (over own d) (over own d').
Proof. intros [Hb Hl He]. split; intros k; cbn; rewrite !lookup_union_is_Some; naive_solver. Qed.

(** The statements only depend on the rows they lock, and on rows that are there. *)
Lemma selectForUpdate_stable d d' others f uid amount f' :
  selectForUpdate d others f uid amount = Goes f' → row_agrees d d' (LBalance uid) →
  selectForUpdate d' ∅ f uid amount = Goes f'.
Proof.
  rewrite !selectForUpdate_Goes. intros (b&Hb&_&Ha&->) E. exists b. rewrite (seen_agrees _ d d') by done.
  split_and!; [done|apply not_elem_of_empty|done|done].
Qed.

Lemma updateRow_stable d d' others f uid g f' :
  is_Some (balances (over (fl_own f) d) !! uid) →
  updateRow d others f uid g = Goes f' → row_agrees d d' (LBalance uid) → updateRow d' ∅ f uid g = Goes f'.
Proof.
  intros Hs Hg E. assert (is_Some (balances (over (fl_own f) d') !! uid)) as Hs' by (by rewrite (seen_agrees _ d d')).
  rewrite updateRow_Goes in * by done. destruct Hg as (b&Hb&_&Ha&->). exists b. rewrite (seen_agrees _ d d') by done.
  split_and!; [done|apply not_elem_of_empty|done|done].
Qed.

Lemma insertRow_stable d d' others f txid e once f' :
  grows d d' → insertRow d others f txid (inserts txid e once) = Goes f' →
  (LLedger txid ∈ fl_locks f' → row_agrees d d' (LLedger txid)) →
  insertRow d' ∅ f txid (inserts txid e once) = Goes f'.
Proof.
  rewrite !insertRow_Goes. intros Hg [_ Hs] E. split; [apply not_elem_of_empty|].
  apply (seen_grows (fl_own f)) in Hg as [Hb _ He].
  destruct (ledger_entries (over (fl_own f) d) !! txid) as [e0|] eqn:Hl.
  - destruct (He txid ltac:(by eexists)) as [e1 ->]. done.
  - destruct Hs as (Hbal&Hin&->). cbn in E. rewrite elem_of_union in E.
    assert (ledger_entries (over (fl_own f) d') !! txid = None) as ->.
    { cbn in *. rewrite lookup_union in *. by rewrite E by (left; by apply elem_of_singleton). }
    split_and!; [by apply Hb|done|done].
Qed.

Lemma provisionRow_stable d d' others f uid f' :
  grows d d' → provisionRow d others f uid = Goes f' →
  (LLimits uid ∈ fl_locks f' → row_agrees d d' (LLimits uid)) → provisionRow d' ∅ f uid = Goes f'.
Proof.
  rewrite !provisionRow_Goes. intros Hg [_ Hs] E. split; [apply not_elem_of_empty|].
  apply (seen_grows (fl_own f)) in Hg as [_ Hl' _].
  destruct (user_limits (over (fl_own f) d) !! uid) as [e0|] eqn:Hl.
  - destruct (Hl' uid ltac:(by eexists)) as [e1 ->]. done.
  - subst f'. cbn in E. rewrite elem_of_union in E.
    assert (user_limits (over (fl_own f) d') !! uid = None) as ->; [|done].
    cbn in *. rewrite lookup_union in *. by rewrite E by (left; by apply elem_of_singleton).
Qed.

Lemma upsertRow_stable d d' others f uid amount t f' :
  upsertRow d others f uid amount t = Goes f' → row_agrees d d' (LBalance uid) → upsertRow d' ∅ f uid amount t = Goes f'.
Proof.
  rewrite !upsertRow_Goes. intros [_ Hs] E. rewrite (seen_agrees _ d d') by done.
  split; [apply not_elem_of_empty|done].
Qed.

Lemma advisoryLock_stable others f uid f' : advisoryLock others f uid = Goes f' → advisoryLock ∅ f uid = Goes f'.
Proof. rewrite !advisoryLock_Goes. intros [_ ->]. split; [apply not_elem_of_empty|done]. Qed.

(** A credit of a user who has no balance is followed apart, below. *)
Definition has_balance (t : wallet_tx) (d : WalletDB) : Prop :=
  match t with
  | TxCredit req => is_Some (balances d !! cred_UserId req)
  | TxConfirm _ => False
  | _ => True
  end.
#[export] Instance has_balance_dec t d : Decision (has_balance t d).
Proof. destruct t; cbn; apply _. Defined.

(** The user of a transaction, and that it has a balance where one is updated. *)
Definition tx_user (t : wallet_tx) : string :=
  match t with
  | TxDeduct req => ded_UserId req
  | TxCredit req => cred_UserId req
  | TxDeposit req | TxWithdraw req => cash_UserId req
  | TxConfirm _ => ""
  end.
Definition is_credit (t : wallet_tx) : bool := match t with TxCredit _ => true | _ => false end.
Definition is_locked (p : TxPhase) : bool := match p with Locked _ => true | _ => false end.
Definition has_row d f : Prop :=
  is_credit (fl_tx f) || is_locked (fl_phase f) = true → is_Some (balances (over (fl_own f) d) !! tx_user (fl_tx f)).

(** What a statement adds to the locks and to the rows of its transaction. *)
Record statement_adds d others f f' : Prop := {
  sa_tx : fl_tx f' = fl_tx f ∧ fl_now f' = fl_now f;
  sa_locks : ∃ new, fl_locks f' = new ∪ fl_locks f ∧ new ## others;
  sa_balance u : is_Some (balances (fl_own f') !! u) → is_Some (balances (fl_own f) !! u) ∨ LBalance u ∈ fl_locks f';
  sa_limits u : is_Some (user_limits (fl_own f') !! u) → is_Some (user_limits (fl_own f) !! u) ∨ LLimits u ∈ fl_locks f';
  sa_entry t : is_Some (ledger_entries (fl_own f') !! t) → is_Some (ledger_entries (fl_own f) !! t) ∨ LLedger t ∈ fl_locks f';
  sa_new_entry t : LLedger t ∈ fl_locks f' → LLedger t ∈ fl_locks f ∨ ledger_entries d !! t = None;
  sa_locked : is_locked (fl_phase f') = true → is_Some (balances (over (fl_own f') d) !! tx_user (fl_tx f))
}.

Lemma adds_locks (new old others : gset LockKey) k : k ∉ others → new = {[ k ]} →
  ∃ new', new ∪ old = new' ∪ old ∧ new' ## others.
Proof. intros Hk ->. eexists. split; [done|]. set_solver. Qed.

Lemma adds_entry (k : LockKey) (old : gset LockKey) t : (∀ t, k ≠ LLedger t) → LLedger t ∈ {[ k ]} ∪ old → LLedger t ∈ old.
Proof. intros Hk. rewrite elem_of_union, elem_of_singleton. intros [<-|?]; [by destruct (Hk t)|done]. Qed.

Lemma advisoryLock_adds d others f uid f' :
  advisoryLock others f uid = Goes f' → statement_adds d others f f'.
Proof.
  rewrite advisoryLock_Goes. intros (Hn&->). split; cbn; auto; try done; [by eapply adds_locks|].
  intros t Hin. left. eapply adds_entry, Hin. by intros ? [=].
Qed.

Lemma selectForUpdate_adds d others f uid amount f' :
  tx_user (fl_tx f) = uid → selectForUpdate d others f uid amount = Goes f' → statement_adds d others f f'.
Proof.
  intros <-. rewrite selectForUpdate_Goes. intros (b&Hb&Hn&_&->). split; cbn; auto; try done; [by eapply adds_locks|].
  intros t Hin. left. eapply adds_entry, Hin. by intros ? [=].
Qed.

Lemma written_row {V} (m : gmap string V) u k v (P : string → Prop) :
  P k → is_Some (<[k:=v]> m !! u) → is_Some (m !! u) ∨ P u.
Proof. rewrite lookup_insert_is_Some'. intros Hk [->|?]; auto. Qed.

Lemma updateRow_adds d others f uid g f' :
  is_Some (balances (over (fl_own f) d) !! uid) →
  updateRow d others f uid g = Goes f' → statement_adds d others f f'.
Proof.
  intros Hs. rewrite updateRow_Goes by done. intros (b&Hb&Hn&_&->). split; cbn; auto; try done; [by eapply adds_locks| |].
  - intros u. apply (written_row _ u _ _ (λ u, LBalance u ∈ _)). set_solver.
  - intros t Hin. left. eapply adds_entry, Hin. by intros ? [=].
Qed.

Lemma insertRow_adds d others f txid e once f' :
  insertRow d others f txid (inserts txid e once) = Goes f' → statement_adds d others f f'.
Proof.
  rewrite insertRow_Goes. intros [Hn Hs]. destruct (ledger_entries _ !! txid) eqn:Hl.
  - destruct Hs as [_ ->]. split; cbn; auto; try done; [exists ∅; set_solver|set_solver].
  - destruct Hs as (_&_&->). split; cbn; auto; try done; [by eapply adds_locks| |].
    + intros u. apply (written_row _ u _ _ (λ u, LLedger u ∈ _)). set_solver.
    + intros t [[= ->]%elem_of_singleton|?]%elem_of_union; [right|by left]. cbn in Hl.
      by apply lookup_union_None in Hl as [_ ?].
Qed.

Lemma provisionRow_adds d others f uid f' :
  provisionRow d others f uid = Goes f' → statement_adds d others f f'.
Proof.
  rewrite provisionRow_Goes. intros [Hn Hs]. destruct (user_limits _ !! uid) eqn:Hl; subst f'.
  - split; cbn; auto; try done; [exists ∅; set_solver|set_solver].
  - split; cbn; auto; try done; [by eapply adds_locks| |].
    + intros u. apply (written_row _ u _ _ (λ u, LLimits u ∈ _)). set_solver.
    + intros t Hin. left. eapply adds_entry, Hin. by intros ? [=].
Qed.

Lemma upsertRow_adds d others f uid amount t f' :
  upsertRow d others f uid amount t = Goes f' → statement_adds d others f f'.
Proof.
  rewrite upsertRow_Goes. intros (Hn&_&->). split; cbn; auto; try done; [by eapply adds_locks| |].
  - intros u. apply (written_row _ u _ _ (λ u, LBalance u ∈ _)). set_solver.
  - intros t' Hin. left. eapply adds_entry, Hin. by intros ? [=].
Qed.

Lemma statement_adds_to d others f f' :
  has_row d f → next_statement d others f = Goes f' → statement_adds d others f f'.
Proof.
  intros Hrow Hs. pose proof Hrow as Hseen. unfold has_row in Hseen. unfold next_statement in Hs.
  destruct (fl_tx f) as [req|req|req|req|req] eqn:Ht, (fl_phase f) as [| | |b|[b|]|] eqn:Hp; try done;
    first [ by apply (advisoryLock_adds _ _ _ _ _ Hs)
          | by apply (provisionRow_adds _ _ _ _ _ Hs) | by apply (upsertRow_adds _ _ _ _ _ _ _ Hs)
          | by apply (selectForUpdate_adds _ _ _ _ _ _ ltac:(by rewrite Ht) Hs)
          | by apply (updateRow_adds _ _ _ _ _ _ (Hseen eq_refl) Hs)
          | by apply (insertRow_adds _ _ _ _ _ false _ Hs) | by apply (insertRow_adds _ _ _ _ _ true _ Hs) ].
Qed.

Lemma statement_stable d d' others f f' :
  grows d d' → has_row d f → next_statement d others f = Goes f' →
  (∀ k, k ∈ fl_locks f' → row_agrees d d' k) → next_statement d' ∅ f = Goes f'.
Proof.
  intros Hg Hrow Hs Hk. pose proof Hrow as Hseen. unfold has_row in Hseen. unfold next_statement in *.
  destruct (fl_tx f) as [req|req|req|req|req] eqn:Ht, (fl_phase f) as [| | |b|[b|]|] eqn:Hp; try done;
    first [ exact (advisoryLock_stable others _ _ _ Hs)
          | apply (provisionRow_stable d d' others); auto
          | apply (insertRow_stable d d' others _ _ _ false); auto
          | apply (insertRow_stable d d' others _ _ _ true); auto
          | apply (upsertRow_stable d d' others); [done|]; apply Hk;
              apply upsertRow_Goes in Hs as (_&_&->); cbn; set_solver
          | apply (selectForUpdate_stable d d' others); [done|]; apply Hk;
              apply selectForUpdate_Goes in Hs as (?&_&_&_&->); cbn; set_solver
          | apply (updateRow_stable d d' others); [by apply Hseen|done|]; apply Hk;
              apply updateRow_Goes in Hs as (?&_&_&_&->); [cbn; set_solver|by apply Hseen] ].
Qed.

(** ** The invariant of a flight *)

(** The rows of a transaction are locked by it, and the ledger rows it has
    locked are not committed. *)
Record owned d f : Prop := {
  ow_balance u : is_Some (balances (fl_own f) !! u) → LBalance u ∈ fl_locks f;
  ow_limits u : is_Some (user_limits (fl_own f) !! u) → LLimits u ∈ fl_locks f;
  ow_entry t : is_Some (ledger_entries (fl_own f) !! t) → LLedger t ∈ fl_locks f;
  ow_new t : LLedger t ∈ fl_locks f → ledger_entries d !! t = None
}.

Lemma begin_owned d t now : has_balance t d → owned d (begin_tx t now) ∧ has_row d (begin_tx t now).
Proof.
  intros Hb. split.
  - split; cbn; try (intros u; rewrite lookup_empty; by intros []); set_solver.
  - intros Hl. cbn. rewrite lookup_union_is_Some. right. by destruct t.
Qed.

Lemma statement_owned d others f f' :
  has_balance (fl_tx f) d → owned d f → has_row d f → next_statement d others f = Goes f' →
  fl_tx f' = fl_tx f ∧ fl_now f' = fl_now f ∧ owned d f' ∧ has_row d f' ∧
  ∃ new, fl_locks f' = new ∪ fl_locks f ∧ new ## others.
Proof.
  intros Hm [Hb Hl He Hn] Hr Hs.
  destruct (statement_adds_to d others f f' Hr Hs) as [[Ht Hnow] (new&Hlocks&Hnew) Hb' Hl' He' Hn' Hlk].
  assert (∀ key, key ∈ fl_locks f → key ∈ fl_locks f') as Hsub by (rewrite Hlocks; set_solver).
  split_and!; [done|done| | |by exists new].
  - split; [intros u [?|?]%Hb'|intros u [?|?]%Hl'|intros t [?|?]%He'|intros t [?|?]%Hn']; auto.
  - intros [Hcr|Hloc]%orb_true_iff; rewrite Ht in *; [|by apply Hlk].
    cbn. rewrite lookup_union_is_Some. right. by destruct (fl_tx f).
Qed.

Lemma after_owned d t now k f :
  has_balance t d → after_statements d t now k = Some f → fl_tx f = t ∧ fl_now f = now ∧ owned d f ∧ has_row d f.
Proof.
  intros Hm. revert f. induction k as [|k IH]; intros f; cbn.
  { intros [= <-]. destruct (begin_owned d t now Hm). by split_and!. }
  intros (f0&(Ht&Hnow&Ho&Hr)%IH&Hs)%bind_Some. destruct (next_statement d ∅ f0) as [| |f1] eqn:Hnext; try done.
  injection Hs as ->. subst t now. destruct (statement_owned d ∅ f0 f Hm Ho Hr Hnext) as (?&?&?&?&_). by split_and!.
Qed.

(** On its own, with the tables as they are, the transaction would be where it is. *)
Definition replays d f : Prop :=
  has_balance (fl_tx f) d ∧ ∃ k, after_statements d (fl_tx f) (fl_now f) k = Some f.

(** Or it is a credit whose UPDATE found no balance, its user having none in the
    tables [d0] at the start; its INSERT goes through when a balance has appeared since. *)
Inductive stray d0 d : Flight → Prop :=
| stray_begun t now : stray d0 d (begin_tx t now)
| stray_updated req now :
    balances d0 !! cred_UserId req = None →
    stray d0 d {| fl_tx := TxCredit req; fl_now := now; fl_phase := Updated None; fl_own := empty_db; fl_locks := ∅ |}
| stray_repeated req now :
    balances d0 !! cred_UserId req = None →
    stray d0 d {| fl_tx := TxCredit req; fl_now := now; fl_phase := Inserted; fl_own := empty_db; fl_locks := ∅ |}
| stray_inserted req now :
    balances d0 !! cred_UserId req = None → is_Some (balances d !! cred_UserId req) →
    ledger_entries d !! cred_TransactionId req = None →
    stray d0 d {| fl_tx := TxCredit req; fl_now := now; fl_phase := Inserted;
      fl_own := set_ledger {[ cred_TransactionId req := creditEntry req now ]} empty_db;
      fl_locks := {[ LLedger (cred_TransactionId req) ]} |}.
Definition flight_ok d0 d f : Prop := replays d f ∨ stray d0 d f.

Lemma begin_ok d0 d t now : flight_ok d0 d (begin_tx t now).
Proof. right. constructor. Qed.

Lemma replays_owned d f : replays d f → owned d f ∧ has_row d f.
Proof. intros [Hm [k Hk]]. by apply after_owned in Hk as (_&_&?). Qed.

Lemma stray_owned d0 d f : stray d0 d f → owned d f.
Proof.
  intros []; split; cbn; try (intros u; rewrite ?lookup_empty; by intros []); try set_solver.
  - intros u. rewrite lookup_singleton_is_Some. intros <-. set_solver.
Qed.

Lemma flight_owned d0 d f : flight_ok d0 d f → owned d f.
Proof. intros [Hr|Hs]; [by apply replays_owned|by eapply stray_owned]. Qed.

Lemma statement_replays d others f f' :
  replays d f → next_statement d others f = Goes f' →
  replays d f' ∧ ∃ new, fl_locks f' = new ∪ fl_locks f ∧ new ## others.
Proof.
  intros Hok Hs. destruct (replays_owned d f Hok) as [Ho Hr]. destruct Hok as [Hm [k Hk]].
  destruct (statement_owned d others f f' Hm Ho Hr Hs) as (Ht&Hnow&_&_&Hnew). split; [|done].
  split; [by rewrite Ht|]. exists (S k). cbn. rewrite Ht, Hnow, Hk. cbn.
  by rewrite (statement_stable d d others f f' (reflexivity d) Hr Hs ltac:(by intros [])).
Qed.

Lemma begin_replays d t now : has_balance t d → replays d (begin_tx t now).
Proof. intros Hm. split; [done|]. by exists 0%nat. Qed.

Lemma seen_none own d : own = empty_db → over own d = d.
Proof. intros ->. destruct d. unfold over. cbn. by rewrite !(left_id_L ∅ (∪)). Qed.

Lemma statement_ok d0 d others f f' :
  grows d0 d → flight_ok d0 d f → next_statement d others f = Goes f' →
  flight_ok d0 d f' ∧ ∃ new, fl_locks f' = new ∪ fl_locks f ∧ new ## others.
Proof.
  intros Hg [Hok|Hok] Hs; [destruct (statement_replays d others f f' Hok Hs); split; [by left|done]|].
  destruct Hok as [t now|req now Hd0|req now Hd0|req now Hd0 Hb Hl].
  - destruct (decide (has_balance t d)) as [Hm|Hm].
    { destruct (statement_replays d others _ f' (begin_replays d t now Hm) Hs); split; [by left|done]. }
    destruct t as [req|req|req|req|req]; cbn in Hm; try (by destruct Hm).
    apply eq_None_not_Some in Hm. cbn in Hs. unfold updateRow in Hs. cbn [fl_own begin_tx] in Hs.
    rewrite (seen_none empty_db d) in Hs by done. rewrite Hm in Hs. injection Hs as <-. cbn.
    split; [|exists ∅; set_solver]. right. rewrite (left_id_L ∅ (∪)). constructor.
    apply eq_None_not_Some. intros Hd0%(gr_balances _ _ Hg). by rewrite Hm in Hd0; destruct Hd0.
  - cbn in Hs. apply (insertRow_Goes _ _ _ _ _ true) in Hs as [Hn Hs]. cbn [fl_own] in Hs.
    rewrite (seen_none empty_db d) in Hs by done. destruct (ledger_entries d !! _) eqn:Hl.
    + destruct Hs as [_ ->]. cbn. split; [|exists ∅; set_solver]. right. rewrite (left_id_L ∅ (∪)). by constructor.
    + destruct Hs as (Hb&_&->). cbn. split; [|eexists; split; [done|set_solver]].
      right. rewrite (right_id_L ∅ (∪)). by constructor.
  - done.
  - done.
Qed.

(** A change of the tables that leaves the locked rows and deletes nothing. *)
Lemma after_stable d d' t now k f :
  has_balance t d → grows d d' → after_statements d t now k = Some f →
  (∀ key, key ∈ fl_locks f → row_agrees d d' key) → after_statements d' t now k = Some f.
Proof.
  intros Hm Hg. revert f. induction k as [|k IH]; intros f; cbn; [done|].
  intros (f0&Hf0&Hs)%bind_Some Hk. destruct (next_statement d ∅ f0) as [| |f1] eqn:Hnext; try done. injection Hs as ->.
  destruct (after_owned d t now k f0 Hm Hf0) as (Ht&_&Ho&Hr).
  destruct (statement_owned d ∅ f0 f ltac:(by rewrite Ht) Ho Hr Hnext) as (_&_&_&_&new&Hlocks&_).
  rewrite (IH f0 Hf0) by (intros key Hin; apply Hk; rewrite Hlocks; set_solver). cbn.
  by rewrite (statement_stable d d' ∅ f0 f Hg Hr Hnext Hk).
Qed.

Lemma replays_stable d d' f :
  grows d d' → replays d f → (∀ key, key ∈ fl_locks f → row_agrees d d' key) → replays d' f.
Proof.
  intros Hg [Hm [k Hk]] Hagree. split; [|exists k; by eapply after_stable].
  destruct (fl_tx f); cbn in *; try done. by apply Hg.
Qed.

Lemma flight_stable d0 d d' f :
  grows d d' → flight_ok d0 d f → (∀ key, key ∈ fl_locks f → row_agrees d d' key) → flight_ok d0 d' f.
Proof.
  intros Hg [Hok|Hok] Hagree; [left; by eapply replays_stable|right].
  destruct Hok as [| | |req now Hd0 Hb Hl]; try by constructor.
  constructor; [done|by apply Hg|]. cbn in Hagree. specialize (Hagree (LLedger (cred_TransactionId req))).
  cbn in Hagree. by rewrite Hagree by set_solver.
Qed.

(** ** A transaction that commits *)

(** How many statements lead to a phase. *)
Definition phase_rank (p : TxPhase) : nat :=
  match p with Begun => 0 | Advised => 1 | Limited | Locked _ => 2 | Updated _ => 3 | Inserted => 4 end.

Lemma statement_rank d others f f' : next_statement d others f = Goes f' →
  phase_rank (fl_phase f') =
    if is_credit (fl_tx f) && bool_decide (phase_rank (fl_phase f) = 0%nat) then 3%nat else S (phase_rank (fl_phase f)).
Proof.
  unfold next_statement, advisoryLock, selectForUpdate, updateRow, insertRow, provisionRow, upsertRow, go_on.
  repeat case_match; intros; simplify_eq; reflexivity.
Qed.

Lemma after_rank d t now k f : has_balance t d → after_statements d t now k = Some f →
  phase_rank (fl_phase f) = if is_credit t then match k with O => 0%nat | _ => S (S k) end else k.
Proof.
  intros Hm. revert f. induction k as [|k IH]; intros f; cbn; [intros [= <-]; by destruct (is_credit t)|].
  intros (f0&Hf0&Hs)%bind_Some. destruct (next_statement d ∅ f0) as [| |f1] eqn:Hnext; try done. injection Hs as ->.
  apply statement_rank in Hnext as ->. destruct (after_owned d t now k f0 Hm Hf0) as (Ht&_&_). rewrite Ht.
  rewrite (IH f0 Hf0). destruct (is_credit t); [|done]. by destruct k.
Qed.

Lemma after_next d t now k f : after_statements d t now (S k) = Some f →
  ∃ f0, after_statements d t now k = Some f0 ∧ next_statement d ∅ f0 = Goes f.
Proof.
  cbn. intros (f0&Hf0&Hs)%bind_Some. exists f0. destruct (next_statement d ∅ f0); naive_solver.
Qed.

(** The tables with one balance, one set of limits or one entry more. *)
Lemma over_rows d (b : gmap string Balance) (l : gmap string UserLimits) (e : gmap string LedgerEntry) :
  over {| balances := b; user_limits := l; ledger_entries := e |} d =
  {| balances := b ∪ balances d; user_limits := l ∪ user_limits d; ledger_entries := e ∪ ledger_entries d |}.
Proof. done. Qed.

Ltac rows := cbn; rewrite <- ?insert_union_l, ?(left_id_L ∅ (∪)); try done.

Lemma deduct_commits d req t f :
  after_statements d (TxDeduct req) t 4 = Some f →
  db (run_tx (TxDeduct req) (World d t 0 [])).1 = over (fl_own f) d.
Proof.
  intros (f2&(f1&(fa&(f0&[= <-]&Ha)%after_next&H1)%after_next&H2)%after_next&H3)%after_next.
  apply advisoryLock_Goes in Ha as [_ ->].
  apply selectForUpdate_Goes in H1 as (b&Hb&_&Ha&->). cbn in Hb. rewrite (left_id_L ∅ (∪)) in Hb.
  apply updateRow_Goes in H2 as (b'&Hb'&_&Hok&->); cbn in *; rewrite (left_id_L ∅ (∪)) in *; [|by eexists].
  rewrite Hb in Hb'. injection Hb' as <-.
  apply (insertRow_Goes _ _ _ _ _ false) in H3 as [_ H3]. cbn in H3. rewrite !(left_id_L ∅ (∪)) in H3.
  destruct (ledger_entries d !! ded_TransactionId req) as [e0|] eqn:He; [by destruct H3|]. destruct H3 as (_&Hin&->).
  cbn. unfold deductTx, tx, flaky, gbind, queryRow, exec, mapErr, updateBalance, insertLedger, flaky, throw, ret, now. cbn.
  rewrite Hb. cbn. destruct (Z.ltb_spec (available_minor b) (GetAmountMinor (ded_Stake req))); [lia|]. cbn.
  rewrite Hb. cbn. rewrite Hok. cbn. rewrite He, lookup_insert_eq. cbn. rewrite Hin. cbn.
  unfold set_ledger, set_balances, over. rows.
Qed.

Lemma credit_commits d req t f :
  after_statements d (TxCredit req) t 2 = Some f → fl_phase f = Inserted → is_Some (balances d !! cred_UserId req) →
  db (run_tx (TxCredit req) (World d t 0 [])).1 = over (fl_own f) d.
Proof.
  intros (f1&(f0&[= <-]&H1)%after_next&H2)%after_next _ [b Hb].
  apply updateRow_Goes in H1 as (b'&Hb'&_&Hok&->); cbn in *; rewrite (left_id_L ∅ (∪)) in *; [|by eexists].
  rewrite Hb in Hb'. injection Hb' as <-.
  apply (insertRow_Goes _ _ _ _ _ true) in H2 as [_ H2]. cbn in H2. rewrite !(left_id_L ∅ (∪)) in H2.
  cbn. unfold creditTx, tx, gbind, queryRow, exec, mapErr, updateBalance, insertLedgerOnce, insertLedger. cbn.
  rewrite Hb. cbn. rewrite Hok. cbn.
  destruct (ledger_entries d !! cred_TransactionId req) as [e0|] eqn:He; [destruct H2 as [_ ->]|destruct H2 as (_&Hin&->)]; cbn.
  - unfold set_balances, over. rows.
  - rewrite lookup_insert_eq. cbn. rewrite Hin. cbn. unfold set_ledger, set_balances, over. rows.
Qed.

Lemma withdraw_commits d req t f :
  after_statements d (TxWithdraw req) t 4 = Some f →
  db (run_tx (TxWithdraw req) (World d t 0 [])).1 = over (fl_own f) d.
Proof.
  intros (f2&(f1&(fa&(f0&[= <-]&Ha)%after_next&H1)%after_next&H2)%after_next&H3)%after_next.
  apply advisoryLock_Goes in Ha as [_ ->].
  apply selectForUpdate_Goes in H1 as (b&Hb&_&Ha&->). cbn in Hb. rewrite (left_id_L ∅ (∪)) in Hb.
  apply updateRow_Goes in H2 as (b'&Hb'&_&Hok&->); cbn in *; rewrite (left_id_L ∅ (∪)) in *; [|by eexists].
  rewrite Hb in Hb'. injection Hb' as <-.
  apply (insertRow_Goes _ _ _ _ _ false) in H3 as [_ H3]. cbn in H3. rewrite !(left_id_L ∅ (∪)) in H3.
  destruct (ledger_entries d !! cash_TransactionId req) as [e0|] eqn:He; [by destruct H3|]. destruct H3 as (_&Hin&->).
  cbn. unfold withdrawTx, tx, gbind, queryRow, exec, mapErr, updateBalance, insertLedger. cbn.
  rewrite Hb. cbn. destruct (Z.ltb_spec (available_minor b) (GetAmountMinor (cash_Amount req))); [lia|]. cbn.
  rewrite Hb. cbn. rewrite Hok. cbn. rewrite He, lookup_insert_eq. cbn. rewrite Hin. cbn.
  unfold set_ledger, set_balances, over. rows.
Qed.

Lemma deposit_commits d req t f :
  after_statements d (TxDeposit req) t 4 = Some f →
  db (run_tx (TxDeposit req) (World d t 0 [])).1 = over (fl_own f) d.
Proof.
  intros (f2&(f1&(fa&(f0&[= <-]&Ha)%after_next&H1)%after_next&H2)%after_next&H3)%after_next.
  apply advisoryLock_Goes in Ha as [_ ->].
  apply provisionRow_Goes in H1 as [_ H1]. cbn in H1. rewrite (left_id_L ∅ (∪)) in H1.
  cbn. unfold depositTx, tx, gbind, queryRow, exec, mapErr, provisionLimits, upsertBalance, insertLedger, gets. cbn.
  destruct (user_limits d !! cash_UserId req) as [l|] eqn:Hl; subst f1; cbn in *;
    apply upsertRow_Goes in H2 as (_&Hok&->); cbn in *; rewrite !(left_id_L ∅ (∪)) in *;
    apply (insertRow_Goes _ _ _ _ _ false) in H3 as [_ H3]; cbn in H3; rewrite !(left_id_L ∅ (∪)) in H3;
    rewrite Hok; cbn; rewrite lookup_insert_eq; cbn;
    (destruct (ledger_entries d !! cash_TransactionId req) as [e0|] eqn:He; [by destruct H3|]);
    destruct H3 as (_&Hin&->); rewrite Hin; cbn; unfold set_ledger, set_balances, set_user_limits, over; rows.
Qed.
End Stability.

(** A credit that raced with the first deposit of its user: the row of the ledger
    without the money. *)
Inductive orphan_credit (d0 d : WalletDB) : WalletDB → Prop :=
| orphan_row req now :
    balances d0 !! cred_UserId req = None → is_Some (balances d !! cred_UserId req) →
    ledger_entries d !! cred_TransactionId req = None →
    orphan_credit d0 d (set_ledger (<[cred_TransactionId req := creditEntry req now]> (ledger_entries d)) d).

(** A transaction that has run its statements commits what [run_tx] computes. *)
Lemma replayed_commit `{PgHash} d f : replays d f → fl_phase f = Inserted → wallet_step d (over (fl_own f) d).
Proof.
  intros [Hm [k Hk]] Hp. pose proof (after_rank _ _ _ _ _ Hm Hk) as Hr. rewrite Hp in Hr. cbn in Hr.
  exists (fl_tx f) (World d (fl_now f) 0 []); [done|].
  destruct (fl_tx f) as [req|req|req|req|req] eqn:Ht; cbn in Hr; subst; try done.
  - by apply deduct_commits.
  - destruct k as [|[|[|k]]]; [done..| |done]. by apply credit_commits.
  - by apply deposit_commits.
  - by apply withdraw_commits.
Qed.

(** What the server does to the committed tables at a time. *)
Definition commits_of (d0 d d' : WalletDB) : Prop := d' = d ∨ wallet_step d d' ∨ orphan_credit d0 d d'.

Lemma commit_is_a_step `{PgHash} d0 d f : flight_ok d0 d f → fl_phase f = Inserted → commits_of d0 d (over (fl_own f) d).
Proof.
  intros [Hok|Hok] Hp; [right; left; by apply replayed_commit|].
  destruct Hok as [| |req now Hd0|req now Hd0 Hb Hl]; try done; [left; by apply seen_none|right; right].
  cbn. unfold over. cbn. rewrite !(left_id_L ∅ (∪)), <- insert_union_singleton_l. by constructor.
Qed.

(** ** The invariant of the server *)

Record server_ok `{PgHash} (d0 : WalletDB) (s : Server) : Prop := {
  so_grows : grows d0 (committed s);
  so_flights : map_Forall (λ _ f, flight_ok d0 (committed s) f) (flights s);
  so_locks i j f g : i ≠ j → flights s !! i = Some f → flights s !! j = Some g → fl_locks f ## fl_locks g
}.

Lemma elem_of_locks_of_others i fs k :
  k ∈ locks_of_others i fs ↔ ∃ j g, j ≠ i ∧ fs !! j = Some g ∧ k ∈ fl_locks g.
Proof.
  unfold locks_of_others. rewrite elem_of_union_list. setoid_rewrite list_elem_of_fmap. split.
  - intros (X&(g&->&(p&->&Hp)%list_elem_of_fmap)&Hk). destruct p as [j g].
    apply elem_of_map_to_list, lookup_delete_Some in Hp as [Hj Hg]. by exists j, g.
  - intros (j&g&Hj&Hg&Hk). exists (fl_locks g). split; [|done]. exists g. split; [done|].
    apply list_elem_of_fmap. exists (j, g). split; [done|]. apply elem_of_map_to_list, lookup_delete_Some. done.
Qed.

(** What the others of flight [i] keep when its rows are committed. *)
Lemma over_grows own d : grows d (over own d).
Proof. split; intros u Hu; cbn; rewrite lookup_union_is_Some; by right. Qed.

Lemma over_agrees d f k : owned d f → k ∉ fl_locks f → row_agrees d (over (fl_own f) d) k.
Proof.
  intros [Hb Hl He _] Hk.
  destruct k as [h|u|u|t]; cbn; [done|..]; apply lookup_union_r, eq_None_not_Some; intros Hrow; apply Hk; auto.
Qed.

Section ServerOk.
Context `{PgHash} (d0 : WalletDB).

Lemma server_ok_one s i f f' :
  server_ok d0 s → flights s !! i = Some f → flight_ok d0 (committed s) f' →
  (∃ new, fl_locks f' = new ∪ fl_locks f ∧ new ## locks_of_others i (flights s)) →
  server_ok d0 {| committed := committed s; flights := <[i := f']> (flights s) |}.
Proof.
  intros [Hg Hok Hdis] Hf Hf' (new&Hlocks&Hnew). split; [done|by apply map_Forall_insert_2|].
  assert (∀ j g, i ≠ j → flights s !! j = Some g → fl_locks f' ## fl_locks g) as Hone.
  { intros j g Hij Hj. rewrite Hlocks. apply disjoint_union_l. split; [|by eapply Hdis].
    intros k Hk Hkg. apply (Hnew k Hk), elem_of_locks_of_others. by exists j, g. }
  intros i1 j1 f1 g1 Hij. cbn. rewrite !lookup_insert_Some.
  intros [[<- <-]|[Hi Hf1]] [[<- <-]|[Hj Hg1]]; [done|by eapply (Hone _ _ Hj Hg1)|symmetry; by eapply (Hone _ _ Hi Hf1)|by apply (Hdis i1 j1)].
Qed.

Lemma server_ok_fewer s d i :
  server_ok d0 s → grows d0 d → map_Forall (λ _ f, flight_ok d0 d f) (delete i (flights s)) →
  server_ok d0 {| committed := d; flights := delete i (flights s) |}.
Proof.
  intros [_ _ Hdis] Hg Hok. split; [done|done|]. intros i1 j1 f1 g1 Hij. cbn.
  rewrite !lookup_delete_Some. intros [_ Hf] [_ Hg1]. by eapply Hdis.
Qed.

Lemma confirm_cases req w :
  db (ConfirmTransaction req w).1 = db w ∨
  ∃ t, db (ConfirmTransaction req w).1 =
    set_ledger (alter (confirmEntry t) (conf_TransactionId req) (ledger_entries (db w))) (db w).
Proof.
  unfold ConfirmTransaction. destruct (_ =? _)%string; [by left|].
  unfold gbind, mapErr, exec, flaky, ret. destruct w as [d t n [|[] fs]]; cbn; eauto.
Qed.

Lemma confirm_grows req w : grows (db w) (db (ConfirmTransaction req w).1).
Proof.
  destruct (confirm_cases req w) as [->|[t ->]]; [done|]. split; cbn; [done..|]. intros t' Ht. by rewrite lookup_alter_is_Some.
Qed.

(** The statement of ConfirmTransaction leaves the rows that others have locked. *)
Lemma confirm_stable req w f :
  flight_ok d0 (db w) f → flight_ok d0 (db (ConfirmTransaction req w).1) f.
Proof.
  intros Hok. apply (flight_stable _ (db w)); [apply confirm_grows|done|].
  destruct (confirm_cases req w) as [->|[t ->]]; [by intros []|].
  intros [h|u|u|t']; cbn; [done..|]. intros Hin. pose proof (ow_new _ _ (flight_owned _ _ _ Hok) t' Hin) as Hn.
  destruct (decide (conf_TransactionId req = t')) as [<-|Hne]; [by rewrite lookup_alter_eq, Hn|by rewrite lookup_alter_ne].
Qed.

Lemma server_step_ok s s' : server_ok d0 s → server_step s s' → server_ok d0 s'.
Proof.
  intros Hs [i t now Hi|i f f' Hf Hnext|i f Hf|i f Hf Hp|req w Hw].
  - destruct Hs as [Hg Hok Hdis]. split; [done|by apply map_Forall_insert_2; [apply begin_ok|]|].
    intros i1 j1 f1 g1 Hij. cbn. rewrite !lookup_insert_Some.
    intros [[<- <-]|[? Hf1]] [[<- <-]|[? Hg1]]; cbn; try set_solver.
  - destruct (statement_ok _ _ _ _ _ (so_grows _ _ Hs) (so_flights _ _ Hs i f Hf) Hnext) as [Hf' Hnew]. by eapply server_ok_one.
  - apply server_ok_fewer; [done|apply Hs|]. apply map_Forall_delete, Hs.
  - apply server_ok_fewer; [done|apply (transitivity (so_grows _ _ Hs)), over_grows|].
    intros j g [Hij Hg]%lookup_delete_Some.
    apply (flight_stable _ (committed s)); [apply over_grows|by apply (so_flights _ _ Hs j)|].
    intros k Hk. apply over_agrees; [by eapply flight_owned, (so_flights _ _ Hs i)|].
    intros Hkf. by apply (so_locks _ _ Hs i j f g Hij Hf Hg k).
  - destruct Hs as [Hg Hok Hdis]. split; [|intros j g Hj|done]; cbn.
    + apply (transitivity Hg). rewrite <- Hw. apply confirm_grows.
    + apply confirm_stable. rewrite Hw. by apply (Hok j).
Qed.

Lemma server_step_serialises s s' :
  server_ok d0 s → server_step s s' → commits_of d0 (committed s) (committed s').
Proof.
  intros Hs [i t now Hi|i f f' Hf Hnext|i f Hf|i f Hf Hp|req w Hw]; cbn; [by left..| |].
  - apply commit_is_a_step; [by apply (so_flights _ _ Hs i)|done].
  - right; left. exists (TxConfirm req) w; [done|]. cbn. unfold gbind. by destruct (ConfirmTransaction req w) as [? []].
Qed.
End ServerOk.

(** The server with the tables [d] and no transaction under way. *)
Definition idle (d : WalletDB) : Server := {| committed := d; flights := ∅ |}.

Lemma idle_ok `{PgHash} d : server_ok d (idle d).
Proof. split; [done|apply map_Forall_empty|]. intros i j f g _. cbn. by rewrite lookup_empty. Qed.

Lemma reachable_ok `{PgHash} d s : rtc server_step (idle d) s → server_ok d s.
Proof.
  intros Hs. generalize (idle_ok d). induction Hs as [|s0 s1 s2 Hstep _ IH]; [done|]. intros H0. by apply IH, (server_step_ok d s0).
Qed.

(** ** Waiting *)

(** Every transaction takes its locks in this order. *)
Definition key_rank (k : LockKey) : nat :=
  match k with LAdvisory _ => 0 | LLimits _ => 1 | LBalance _ => 2 | LLedger _ => 3 end.

(** The locks of a flight, by its phase: all below the next one it needs; in
    [Locked] the balance is locked already. *)
Definition lock_bound (p : TxPhase) : nat :=
  match p with Begun => 0 | Advised => 1 | Limited => 2 | Locked _ | Updated _ => 3 | Inserted => 4 end.
Record ordered (f : Flight) : Prop := {
  or_bound k : k ∈ fl_locks f → (key_rank k < lock_bound (fl_phase f))%nat;
  or_locked : is_locked (fl_phase f) = true → LBalance (tx_user (fl_tx f)) ∈ fl_locks f
}.

Section Waiting.
Context `{PgHash}.
Implicit Types (d : WalletDB) (f : Flight) (others : gset LockKey).

Lemma go_on_ordered f p own locks f' :
  ordered f → go_on f p own locks = Goes f' →
  (lock_bound (fl_phase f) ≤ lock_bound p)%nat → (∀ k, k ∈ locks → (key_rank k < lock_bound p)%nat) →
  (is_locked p = true → LBalance (tx_user (fl_tx f)) ∈ locks) → ordered f'.
Proof.
  intros [Hb _] [= <-] Hle Hk Hl. split; cbn.
  - intros k [?|Hin%Hb]%elem_of_union; [auto|lia].
  - intros ?%Hl. set_solver.
Qed.

Lemma statement_ordered d others f f' :
  ordered f → next_statement d others f = Goes f' → ordered f'.
Proof.
  intros Ho. unfold next_statement, advisoryLock, selectForUpdate, updateRow, insertRow, provisionRow, upsertRow.
  destruct (fl_tx f) as [req|req|req|req|req] eqn:Ht, (fl_phase f) as [| | |b|[b|]|] eqn:Hp; try done;
    repeat case_match; try done; intros Hs; (eapply go_on_ordered; [done|exact Hs|..]);
    rewrite ?Hp, ?Ht; cbn; try lia; try done; try set_solver;
    intros k Hk%elem_of_singleton; subst; cbn; lia.
Qed.

Lemma after_ordered d t now k f : after_statements d t now k = Some f → ordered f.
Proof.
  revert f. induction k as [|k IH]; intros f; [intros [= <-]; split; [set_solver|done]|].
  intros (f0&Hf0&Hnext)%after_next. eapply statement_ordered, Hnext. by apply IH.
Qed.

Lemma flight_ordered d0 d f : flight_ok d0 d f → ordered f.
Proof.
  intros [[_ [k Hk]]|[]]; [by eapply after_ordered|..]; split; cbn; try done; try set_solver.
Qed.

(** A transaction waits for a lock above all of its own. *)
Lemma waits_above d others f :
  ordered f → others ## fl_locks f → next_statement d others f = Waits →
  ∃ k, k ∈ others ∧ (lock_bound (fl_phase f) ≤ key_rank k)%nat.
Proof.
  intros [_ Hl] Hd. unfold next_statement, advisoryLock, selectForUpdate, updateRow, insertRow, provisionRow, upsertRow, go_on.
  destruct (fl_tx f) as [req|req|req|req|req] eqn:Ht, (fl_phase f) as [| | |b|[b|]|] eqn:Hp; try done;
    repeat case_match; try done; intros _; cbn in *;
    first [ by exfalso; eapply Hd, Hl | eexists; split; [eassumption|cbn; lia] ].
Qed.
End Waiting.

(** The transactions under way at work: a statement, a commit, or the rollback of one that fails. *)
Inductive drive_step `{PgHash} (s : Server) : Server → Prop :=
| drive_statement i f f' :
    flights s !! i = Some f → next_statement (committed s) (locks_of_others i (flights s)) f = Goes f' →
    drive_step s {| committed := committed s; flights := <[i := f']> (flights s) |}
| drive_commit i f :
    flights s !! i = Some f → fl_phase f = Inserted →
    drive_step s {| committed := over (fl_own f) (committed s); flights := delete i (flights s) |}
| drive_rollback i f :
    flights s !! i = Some f → next_statement (committed s) (locks_of_others i (flights s)) f = Fails →
    fl_phase f ≠ Inserted →
    drive_step s {| committed := committed s; flights := delete i (flights s) |}.

Section Driving.
Context `{PgHash}.

Lemma drive_is_step s s' : drive_step s s' → server_step s s'.
Proof. intros []; econstructor; eauto. Qed.

Lemma someone_holds d s n :
  server_ok d s → flights s ≠ ∅ →
  map_Forall (λ i f, next_statement (committed s) (locks_of_others i (flights s)) f = Waits) (flights s) →
  ∃ i f, flights s !! i = Some f ∧ (n ≤ lock_bound (fl_phase f))%nat.
Proof.
  intros [_ Hok Hdis] Hne Hall. induction n as [|n (i&f&Hf&Hle)].
  { apply map_choose in Hne as (i&f&Hf). exists i, f. split; [done|lia]. }
  destruct (waits_above (committed s) (locks_of_others i (flights s)) f (flight_ordered _ _ _ (Hok i f Hf))) as (key&Hin&Hrank).
  - intros key (j&g&Hj&Hg&Hkg)%elem_of_locks_of_others Hkf. by apply (Hdis j i g f Hj Hg Hf key).
  - by apply Hall.
  - apply elem_of_locks_of_others in Hin as (j&g&_&Hg&Hkg). exists j, g. split; [done|].
    pose proof (or_bound _ (flight_ordered _ _ _ (Hok j g Hg)) key Hkg). lia.
Qed.

Lemma drive_can d s :
  server_ok d s → flights s ≠ ∅ → ∃ s', drive_step s s'.
Proof.
  intros Hok Hne. set (waits := λ (i : string) f, next_statement (committed s) (locks_of_others i (flights s)) f = Waits).
  assert (∀ i f, Decision (waits i f)) as Hdec.
  { intros i f. unfold waits. destruct (next_statement _ _ f); [left; done|right; done|right; done]. }
  destruct (decide (map_Forall waits (flights s))) as [Hall|(i&f&Hf&Hno)%map_not_Forall]; [| |apply _].
  - destruct (someone_holds d s 4 Hok Hne Hall) as (i&f&Hf&Hb). exists {| committed := over (fl_own f) (committed s);
      flights := delete i (flights s) |}. apply drive_commit; [done|]. destruct (fl_phase f); cbn in Hb; first [done|lia].
  - destruct (next_statement (committed s) (locks_of_others i (flights s)) f) eqn:Hs; [done| |eexists; by eapply drive_statement].
    destruct (decide (phase_rank (fl_phase f) = 4%nat)) as [Hi|Hi].
    + eexists. eapply drive_commit; [done|]. by destruct (fl_phase f).
    + eexists. eapply drive_rollback; [done..|]. by intros Hp; rewrite Hp in Hi.
Qed.

(** The statements and commits that are still to come, at most. *)
Definition work_left (s : Server) : Z := map_sum (λ f, 5 - Z.of_nat (phase_rank (fl_phase f))) (flights s).

Lemma phase_rank_bound p : (phase_rank p ≤ 4)%nat.
Proof. destruct p; cbn; lia. Qed.

Lemma work_left_nonneg s : 0 ≤ work_left s.
Proof.
  apply map_sum_nonneg. intros f. pose proof (phase_rank_bound (fl_phase f)). lia.
Qed.

Lemma drive_decreases s s' : drive_step s s' → work_left s' < work_left s.
Proof.
  intros [i f f' Hf Hs|i f Hf Hp|i f Hf Hs Hp]; unfold work_left; cbn.
  - rewrite (map_sum_update _ _ i f) by done. apply statement_rank in Hs as ->.
    destruct (_ && _) eqn:Hc; [|lia]. apply andb_true_iff in Hc as [_ Hr%bool_decide_eq_true]. lia.
  - rewrite (map_sum_delete _ _ i f) by done. pose proof (phase_rank_bound (fl_phase f)). lia.
  - rewrite (map_sum_delete _ _ i f) by done. pose proof (phase_rank_bound (fl_phase f)). lia.
Qed.

Lemma drive_ends s : sn drive_step s.
Proof.
  remember (Z.to_nat (work_left s)) as n eqn:En. revert s En.
  induction (lt_wf n) as [n _ IH]. intros s ->. constructor. intros s' Hs'.
  eapply IH; [|reflexivity]. pose proof (drive_decreases _ _ Hs'). pose proof (work_left_nonneg s'). lia.
Qed.

End Driving.

(** ** Theorems *)

(** C11. The committed tables that the server reaches from [d] when the statements of
    any number of transactions interleave under READ COMMITTED - begun, held up by
    each other's locks, rolled back, committed, with ConfirmTransaction in
    between - are reached from [d] by running whole transactions one after the
    other, but for one thing: a credit of a user who had no balance in [d], whose
    UPDATE found no row and whose INSERT came after the user's first deposit, adds
    its ledger row and no money. So the theorems on [wallet_step] hold of the running
    database as long as the users credited had a balance at the start. *)
Theorem read_committed_serialises `{PgHash} d s :
  rtc server_step (idle d) s → rtc (λ e e', wallet_step e e' ∨ orphan_credit d e e') d (committed s).
Proof.
  intros Hs. change d with (committed (idle d)) at 2. generalize (idle_ok d).
  induction Hs as [s0|s0 s1 s2 Hstep _ IH]; intros Hok; [done|].
  specialize (IH (server_step_ok _ _ _ Hok Hstep)).
  destruct (server_step_serialises _ _ _ Hok Hstep) as [Heq|Hw]; [by rewrite <- Heq|by eapply rtc_l].
Qed.

(** C12. The transactions under way never wait for each other in a circle, because all
    take the advisory lock of their user, then lock the limits, then the balance,
    then the ledger row: from every state that the server reaches, carrying them on
    comes to an end, and it ends only when none is left. Two users of one hash wait for
    each other and no more. The share lock that the foreign key of a ledger row takes
    on the balance is not modelled: the transaction has locked that row itself,
    except for a credit whose user had no balance. *)
Theorem transactions_never_deadlock `{PgHash} d s :
  rtc server_step (idle d) s → sn drive_step s ∧ (nf drive_step s ↔ flights s = ∅).
Proof.
  intros Hok%reachable_ok. split.
  - apply drive_ends.
  - split.
    + intros Hnf. destruct (decide (flights s = ∅)) as [|Hne]; [done|]. by destruct Hnf; apply (drive_can d).
    + intros He [s' [i f f' Hf|i f Hf|i f Hf]]; by rewrite He, lookup_empty in Hf.
Qed.

(** ** Runs *)

Inductive Move : Type := MBegin (i : string) (t : wallet_tx) (now : Z) | MNext (i : string) | MCommit (i : string) | MRollback (i : string).

(** One move; [None] when the server does not allow it, as for a statement that waits. *)
Definition move `{PgHash} (s : Server) (m : Move) : option Server :=
  match m with
  | MBegin i t now =>
      match flights s !! i with
      | Some _ => None
      | None => Some {| committed := committed s; flights := <[i := begin_tx t now]> (flights s) |}
      end
  | MNext i =>
      f ← flights s !! i;
      match next_statement (committed s) (locks_of_others i (flights s)) f with
      | Goes f' => Some {| committed := committed s; flights := <[i := f']> (flights s) |}
      | _ => None
      end
  | MCommit i =>
      f ← flights s !! i;
      match fl_phase f with
      | Inserted => Some {| committed := over (fl_own f) (committed s); flights := delete i (flights s) |}
      | _ => None
      end
  | MRollback i =>
      _ ← flights s !! i; Some {| committed := committed s; flights := delete i (flights s) |}
  end.

Fixpoint moves `{PgHash} (s : Server) (ms : list Move) : option Server :=
  match ms with
  | [] => Some s
  | m :: ms => s' ← move s m; moves s' ms
  end.

Lemma move_step `{PgHash} s m s' : move s m = Some s' → server_step s s'.
Proof.
  destruct m as [i t now|i|i|i]; cbn; unfold mbind, option_bind.
  - destruct (flights s !! i) eqn:Hi; [done|]. intros [= <-]. by constructor.
  - destruct (flights s !! i) as [f|] eqn:Hi; [|done].
    destruct (next_statement _ _ f) as [| |f'] eqn:Hn; [done..|]. intros [= <-]. by eapply server_statement.
  - destruct (flights s !! i) as [f|] eqn:Hi; [|done].
    destruct (fl_phase f) eqn:Hp; try done. intros [= <-]. by apply server_commit.
  - destruct (flights s !! i) as [f|] eqn:Hi; [|done]. intros [= <-]. by eapply server_rollback.
Qed.

Lemma moves_steps `{PgHash} s ms s' : moves s ms = Some s' → rtc server_step s s'.
Proof.
  revert s. induction ms as [|m ms IH]; intros s; cbn; [intros [= <-]; done|].
  intros (s1&Hm&Hms)%bind_Some. eapply rtc_l; [by apply move_step in Hm|]. by apply IH.
Qed.

(** A run that the server allows to its end; only the test is computed. *)
Definition allowed `{PgHash} (s : Server) (ms : list Move) : bool := match moves s ms with Some _ => true | None => false end.
Definition ran `{PgHash} (s : Server) (ms : list Move) : Server := default s (moves s ms).
Lemma allowed_steps `{PgHash} s ms : allowed s ms = true → rtc server_step s (ran s ms).
Proof. unfold allowed, ran. destruct (moves s ms) eqn:Hm; [|done]. intros _. by apply (moves_steps s ms). Qed.

Section Examples.
(** Some hash that tells the users of the examples apart. *)
Let ex_hash : PgHash := λ uid, if (uid =? "ann")%string then 1 else 2.
#[local] Existing Instance ex_hash.

Let deduct : DeductBalanceRequest :=
  {| ded_TransactionId := "t2"; ded_UserId := "ann"; ded_Stake := usd 800; ded_BetId := "bet1" |}.
Let withdraw : CashierRequest :=
  {| cash_TransactionId := "t4"; cash_UserId := "ann"; cash_Amount := usd 500; cash_PaymentMethod := "card" |}.
Let deposit : CashierRequest :=
  {| cash_TransactionId := "t5"; cash_UserId := "bob"; cash_Amount := usd 70; cash_PaymentMethod := "card" |}.

(** Ann's stake and her withdrawal, of more than she has together, while Bob deposits. *)
Definition ex_before : list Move :=
  [MBegin "a" (TxDeduct deduct) 6000000; MBegin "b" (TxWithdraw withdraw) 6000000; MNext "a";
   MBegin "c" (TxDeposit deposit) 7000000; MNext "c"; MNext "c"; MNext "a"; MNext "c"; MNext "a"; MNext "a"; MNext "c"].
Definition ex_after : list Move := [MCommit "c"; MCommit "a"].
Definition ex_server : Server := ran (idle ex_d1) ex_before.
Definition ex_server' : Server := ran ex_server ex_after.

Lemma ex_server_reached : rtc server_step (idle ex_d1) ex_server.
Proof. apply (allowed_steps (idle ex_d1) ex_before). vm_compute. reflexivity. Qed.
Lemma ex_server'_reached : rtc server_step (idle ex_d1) ex_server'.
Proof. eapply rtc_trans; [apply ex_server_reached|]. apply (allowed_steps ex_server ex_after). vm_compute. reflexivity. Qed.

(** The withdrawal waits for the advisory lock; once it has it, it sees too little and ends. *)
Example the_second_debit_waits :
  (f ← flights ex_server !! "b"; Some (next_statement (committed ex_server) (locks_of_others "b" (flights ex_server)) f)) = Some Waits ∧
  (s ← move ex_server' (MNext "b"); f ← flights s !! "b"; Some (next_statement (committed s) (locks_of_others "b" (flights s)) f)) = Some Fails ∧
  (available_minor <$> balances (committed ex_server') !! "ann") = Some 200 ∧
  (available_minor <$> balances (committed ex_server') !! "bob") = Some 70.
Proof. vm_compute. repeat split. Qed.

Lemma read_committed_serialises_witness :
  rtc (λ e e', wallet_step e e' ∨ orphan_credit ex_d1 e e') ex_d1 (committed ex_server') ∧
  (available_minor <$> balances (committed ex_server') !! "ann") = Some 200.
Proof. split; [apply (read_committed_serialises ex_d1), ex_server'_reached|by vm_compute]. Defined.

Lemma transactions_never_deadlock_witness :
  (sn drive_step ex_server ∧ (nf drive_step ex_server ↔ flights ex_server = ∅)) ∧ size (flights ex_server) = 3%nat.
Proof. split; [apply (transactions_never_deadlock ex_d1), ex_server_reached|by vm_compute]. Defined.

(** The exception is real: the UPDATE of a credit finds no row, the first deposit of
    the user commits, and the INSERT that follows leaves the ledger with a credit
    that no balance has received. As one step the INSERT fails. *)
Let credit : CreditBalanceRequest :=
  {| cred_TransactionId := "t6"; cred_UserId := "eve"; cred_Amount := usd 9;
     cred_Reason := CREDIT_REASON_WIN; cred_OriginatingBetId := "bet9" |}.
Let first_deposit : CashierRequest :=
  {| cash_TransactionId := "t7"; cash_UserId := "eve"; cash_Amount := usd 40; cash_PaymentMethod := "card" |}.
Definition ex_race : list Move :=
  [MBegin "a" (TxCredit credit) 5000000; MNext "a"; MBegin "b" (TxDeposit first_deposit) 5000000;
   MNext "b"; MNext "b"; MNext "b"; MNext "b"; MCommit "b"; MNext "a"; MCommit "a"].
Example credit_before_the_first_deposit :
  allowed (idle ex_d1) ex_race = true ∧
  let d := committed (ran (idle ex_d1) ex_race) in
  (available_minor <$> balances d !! "eve") = Some 40 ∧ (bets_in_flight_minor <$> balances d !! "eve") = Some 0 ∧
  (stake_minor <$> ledger_entries d !! "t6") = Some 9 ∧
  (run_tx (TxCredit credit) (at_ ex_d1)).2 = Err (Status Internal "insert ledger entry").
Proof. vm_compute. repeat split. Qed.
End Examples.
