(* ===== verification/LagChecker.v ===== *)
(** * Consumer-group lag ([internal/betacceptance/lag_checker.go])

    [IsLagging] with its Redis cache, [fetchLag] on sarama's two offset APIs
    and [PartitionForMarket]. The theorems: the answer "not lagging" is only
    given when the group had caught up within the cache's 200 ms, every failure
    of the broker answers "lagging", and the partition computed for a market
    can be negative. *)
From S2P Require Export Messaging GoStrings.
Local Open Scope Z_scope.
Local Open Scope go_scope.

Definition lagCacheTTL : Z := 200000.   (** 200 ms in microseconds *)
Definition TopicBetPlaced : string := "bet-placed".
Definition OddsManagementConsumerGroup : string := "odds-management-cg".

(** ** sarama's offset APIs *)

Record OffsetBlock : Type := { block_Offset : Z; block_Err : option string }.

(** [sarama.Client.GetOffset(topic, partition, OffsetNewest)] and
    [sarama.ClusterAdmin.ListConsumerGroupOffsets] with [GetBlock] of its answer.
    [log_end] and [committed] are what a call at this moment would report. *)
Class OffsetApi (K : Type) : Type := {
  GetOffset : string → Z → Go K string Z;
  ListConsumerGroupOffsets : string → string → Z → Go K string (option OffsetBlock);
  log_end : K → string → Z → option Z;
  committed : K → string → string → Z → option Z;
  GetOffset_law topic p (w : world K) :
    wp (GetOffset topic p) (λ w' r,
      db w' = db w ∧ clock w' = clock w ∧ fresh w' = fresh w ∧
      (∀ z, r = Ok z → log_end (db w) topic p = Some z ∧ 0 ≤ z < int64_max)) w;
  ListConsumerGroupOffsets_law group topic p (w : world K) :
    wp (ListConsumerGroupOffsets group topic p) (λ w' r,
      db w' = db w ∧ clock w' = clock w ∧ fresh w' = fresh w ∧
      (∀ b, r = Ok (Some b) → block_Err b = None →
         committed (db w) group topic p = Some (block_Offset b) ∧ -1 ≤ block_Offset b ≤ int64_max)) w
}.

(** ** Partitions *)

Definition fnv_offset : Z := 2166136261.
Definition fnv_prime : Z := 16777619.

(** One turn of the loop: [h ^= uint32(c); h *= 16777619] on [uint32]. *)
Definition fnv_step (h : Z) (c : Ascii.ascii) : Z :=
  uint32 (Z.lxor h (Z.of_N (Ascii.N_of_ascii c)) * fnv_prime).
Fixpoint fnv1a (h : Z) (s : string) : Z :=
  match s with
  | EmptyString => h
  | String c s => fnv1a (fnv_step h c) s
  end.

(** [int32(h) % numPartitions]: Go's remainder takes the sign of its left
    operand. A zero divisor panics. *)
Definition PartitionForMarket (marketID : string) (numPartitions : Z) : option Z :=
  if numPartitions =? 0 then None
  else Some (Z.rem (wrap32 (fnv1a fnv_offset marketID)) numPartitions).

(** ** The checker *)

Section LagChecker.
Context {D R K : Type} `{RedisClient string R} `{OffsetApi K}.
Variables (rdb : lens D R) (kafka : lens D K).

Definition fetchLag (partition : Z) : Go D string Z :=
  latestOffset <- mapErr (λ e, "GetOffset: " +:+ e) (zoom kafka (GetOffset TopicBetPlaced partition)) ;;
  block <- mapErr (λ e, "ListConsumerGroupOffsets: " +:+ e)
    (zoom kafka (ListConsumerGroupOffsets OddsManagementConsumerGroup TopicBetPlaced partition)) ;;
  match block with
  | None => ret latestOffset
  | Some b =>
      match block_Err b with
      | Some e => throw ("committed offset block error: " +:+ e)
      | None =>
          let lag := wrap64 (latestOffset - block_Offset b) in
          ret (if lag <? 0 then 0 else lag)
      end
  end.

Definition lagKey (partition : Z) : string :=
  "lagcheck:" +:+ TopicBetPlaced +:+ ":" +:+ pretty partition.

(** [Get(...).Int64()]: a value that is not a number is an error like any other. *)
Definition cachedLag (partition : Z) : Go D rediserr (option Z) :=
  s <- zoom rdb (redis_Get (lagKey partition)) ;;
  ret (ParseInt s).

(** The two results of the Go function, [(bool, error)]. *)
Definition IsLagging (partition : Z) : Go D string (bool * option string) :=
  cached <- catch (cachedLag partition) ;;
  match cached with
  | Ok (Some z) => ret (0 <? z, None)
  | _ =>
      fetched <- catch (fetchLag partition) ;;
      match fetched with
      | Err e => ret (true, Some ("lag_checker: fetch lag: " +:+ e))
      | Ok lag =>
          catch (E:=rediserr) (zoom rdb (redis_Set (lagKey partition) (pretty lag) lagCacheTTL)) ;;;
          ret (0 <? lag, None)
      end
  end.

(** ** What the cache means

    [caught t p]: at time [t] the group had committed everything the log held
    for partition [p]. The cache is sound when every live zero entry stands for
    such a moment less than [lagCacheTTL] ago. *)
Definition caught_up (k : K) (p : Z) : Prop :=
  ∃ e, log_end k TopicBetPlaced p = Some e ∧
    (e = 0 ∨ ∃ c, committed k OddsManagementConsumerGroup TopicBetPlaced p = Some c ∧ e ≤ c).

Definition cache_sound (caught : Z → Z → Prop) (r : R) : Prop := ∀ t p s z,
  redis_at r t (lagKey p) = Some s → ParseInt s = Some z → z ≤ 0 →
  ∃ t0, t < t0 + lagCacheTTL ∧ caught t0 p.

End LagChecker.

(** ** Lemmas on the hash *)

Lemma fnv1a_range s h : 0 ≤ h < 2 ^ 32 → 0 ≤ fnv1a h s < 2 ^ 32.
Proof.
  revert h. induction s as [|c s IH]; intros h Hh; cbn [fnv1a]; [done|].
  apply IH. unfold fnv_step, uint32. apply Z.mod_pos_bound. lia.
Qed.

Lemma wrap32_range z : - 2 ^ 31 ≤ wrap32 z < 2 ^ 31.
Proof. unfold wrap32. pose proof (Z.mod_pos_bound (z + 2 ^ 31) (2 ^ 32)). lia. Qed.

Lemma lagKey_inj p q : lagKey p = lagKey q → p = q.
Proof.
  unfold lagKey. intros Heq. do 3 apply (inj (String.append _)) in Heq. by apply (inj pretty) in Heq.
Qed.

Lemma PartitionForMarket_bounds m n p :
  PartitionForMarket m n = Some p → 0 < n → - n < p < n.
Proof.
  unfold PartitionForMarket. destruct (Z.eqb_spec n 0); [done|]. intros [= <-] Hn.
  pose proof (Z.rem_bound_abs (wrap32 (fnv1a fnv_offset m)) n). lia.
Qed.

(** ** Lemmas on the checker *)

Section Proofs.
Context {D R K : Type} `{RedisClient string R} `{OffsetApi K}.
Context (rdb : lens D R) (kafka : lens D K).
Context `{!LensLaws rdb} `{!LensLaws kafka} `{!LensDisjoint rdb kafka}.
Implicit Types w : world D.

Lemma fetchLag_wp p w :
  wp (fetchLag kafka p) (λ w' r,
    db w' = db w ∧ clock w' = clock w ∧ fresh w' = fresh w ∧
    (∀ z, r = Ok z → int64_min ≤ z ≤ int64_max ∧
       (z ≤ 0 → caught_up (view kafka (db w)) p))) w.
Proof.
  unfold fetchLag. do 3 go_step.
  eapply wp_mono; [|apply GetOffset_law]. intros w1 r1 (Hd1&Hc1&Hf1&Hr1).
  cbn in *. rewrite Hd1, put_view.
  destruct r1 as [e|]; [|by repeat split]. destruct (Hr1 _ eq_refl) as [He Hrange].
  do 3 go_step. cbn. eapply wp_mono; [|apply ListConsumerGroupOffsets_law].
  intros w2 r2 (Hd2&Hc2&Hf2&Hr2). cbn in *. rewrite Hd2, put_view.
  destruct r2 as [[b|]|]; [| |repeat split; congruence]; go_step.
  - go_step. cbn. repeat split; congruence.
  - destruct (Hr2 _ eq_refl) as [Hcm Hb]; [done|].
    go_step. cbn. split_and!; try congruence; intros z [= <-].
    assert (int64_min ≤ e - block_Offset b ≤ int64_max) as Hin
      by (unfold int64_min, int64_max in *; lia).
    rewrite wrap64_small by done. split; [case_match; unfold int64_min, int64_max in *; lia|].
    intros Hz. exists e. split; [done|]. right. exists (block_Offset b). split; [done|].
    case_match; boolify; lia.
  - cbn. split_and!; try congruence; intros z [= <-].
    + split; unfold int64_min, int64_max in *; [lia|]. intros. exists e. split; [done|]. left. lia.
Qed.

Lemma cachedLag_wp p caught w :
  cache_sound caught (view rdb (db w)) →
  wp (cachedLag rdb p) (λ w' r,
    clock w' = clock w ∧ fresh w' = fresh w ∧
    (∃ x, db w' = put rdb x (db w)) ∧
    cache_sound caught (view rdb (db w')) ∧
    (∀ z, r = Ok (Some z) → z ≤ 0 → ∃ t0, clock w < t0 + lagCacheTTL ∧ caught t0 p)) w.
Proof.
  intros Hs. unfold cachedLag. do 2 go_step.
  eapply wp_mono; [|apply redis_Get_law]. cbn. intros w1 r1 (Hc&Hf&Hold&Hr).
  assert (cache_sound caught (view rdb (put rdb (db w1) (db w)))) as Hs'.
  { rewrite view_put. intros t q s z Hat. apply Hold in Hat. by apply (Hs t q s z). }
  destruct r1 as [s|]; go_run; cbn; split_and!; try done; try by eexists.
  intros z [= Hz] Hle. destruct (Hs (clock w) p s z) as (t0&?&?); eauto.
Qed.

(** The call changes nothing but the cache. *)
Lemma IsLagging_wp caught p w :
  cache_sound caught (view rdb (db w)) →
  (caught_up (view kafka (db w)) p → caught (clock w) p) →
  wp (IsLagging rdb kafka p) (λ w' r,
    cache_sound caught (view rdb (db w')) ∧
    (∃ x, db w' = put rdb x (db w)) ∧ clock w' = clock w ∧ fresh w' = fresh w ∧
    ∃ lagging err, r = Ok (lagging, err) ∧
      (is_Some err → lagging = true) ∧
      (lagging = false → ∃ t0, clock w < t0 + lagCacheTTL ∧ caught t0 p)) w.
Proof.
  intros Hs Hnow. unfold IsLagging. do 2 go_step.
  eapply wp_mono; [|by apply (cachedLag_wp p caught)].
  intros w1 r1 (Hc1&Hf1&[x Hx]&Hs1&Hr1).
  assert (view kafka (db w1) = view kafka (db w)) as Hk1 by (rewrite Hx; apply view_put_other).
  destruct r1 as [[z|]|e]; go_step; cbn.
  1: { split_and!; [done|by eexists|done|done|]. eexists _, None. split_and!; [done|by intros []|].
       intros Hz. boolify. by eapply Hr1. }
  all: go_step; eapply wp_mono; [|apply fetchLag_wp];
    intros w2 [lag|e2] (Hd2&Hc2&Hf2&Hr2); rewrite ?Hd2; go_step; cbn; rewrite ?Hd2;
    [|split_and!; [done|by eexists|congruence|congruence|]; eexists true, (Some _); by split_and!].
  all: go_step; go_step; eapply wp_mono; [|apply redis_Set_law];
    intros w3 r3 (Hc3&Hf3&Hset); cbn in *; rewrite ?Hd2 in *; go_step; cbn;
    rewrite ?Hd2, ?view_put.
  all: destruct (Hr2 _ eq_refl) as [Hin Hcaught];
    assert (lag ≤ 0 → ∃ t0, clock w < t0 + lagCacheTTL ∧ caught t0 p) as Hlag
      by (intros Hz; exists (clock w); split; [unfold lagCacheTTL; lia|]; rewrite Hk1 in *; auto).
  all: split_and!; [|rewrite Hx, put_put; by eexists|congruence|congruence|
    eexists _, None; split_and!; [done|by intros []|intros; boolify; auto]].
  all: intros t q s z Hat Hz Hle; apply Hset in Hat as [(Hk&->&Ht)|[Hat _]]; [|by eapply Hs1].
  all: apply lagKey_inj in Hk as ->; rewrite ParseInt_pretty in Hz by done; simplify_eq;
    exists (clock w); rewrite Hk1 in *; split; [lia|auto].
Qed.
End Proofs.

(** ** A reference broker *)

Record Offsets : Type := {
  ends : gmap (string * Z) Z;
  group_offsets : gmap (string * string * Z) Z
}.

Definition offset_in (lo : Z) (o : option Z) : option Z :=
  match o with Some z => if (lo <=? z) && (z <? int64_max) then Some z else None | None => None end.

#[export] Instance offset_table : OffsetApi Offsets.
Proof.
  refine {|
    GetOffset topic p :=
      flaky "broker" ;;;
      e <- gets (λ k, offset_in 0 (ends k !! (topic, p))) ;;
      match e with Some z => ret z | None => throw "unknown partition" end;
    ListConsumerGroupOffsets group topic p :=
      flaky "broker" ;;;
      c <- gets (λ k, offset_in (-1) (group_offsets k !! (group, topic, p))) ;;
      ret (match c with
           | Some z => Some {| block_Offset := z; block_Err := None |}
           | None => None
           end);
    log_end k topic p := offset_in 0 (ends k !! (topic, p));
    committed k group topic p := offset_in (-1) (group_offsets k !! (group, topic, p)) |}.
  - intros topic p w. go_run; cbn; split_and!; try done. intros ? [= <-].
    split; [done|]. unfold offset_in in *. repeat case_match; simplify_eq; boolify; lia.
  - intros group topic p w. go_run; cbn; split_and!; try done.
    intros b [= Hb] _. destruct (offset_in _ _) as [z|] eqn:Hz; simplify_eq/=. split; [done|].
    unfold offset_in in *. repeat case_match; simplify_eq; boolify; lia.
Defined.

(** A broker made of its offsets and its log. *)
#[export] Instance offset_api_fst K L `{OffsetApi K} : OffsetApi (K * L).
Proof.
  refine {|
    GetOffset topic p := zoom (Lens fst (λ k x, (k, x.2))) (GetOffset topic p);
    ListConsumerGroupOffsets group topic p :=
      zoom (Lens fst (λ k x, (k, x.2))) (ListConsumerGroupOffsets group topic p);
    log_end k := log_end k.1;
    committed k := committed k.1 |}.
  - intros topic p w. go_step. cbn. eapply wp_mono; [|apply GetOffset_law].
    intros w1 r1 (Hd&Hc&Hf&Hr). cbn in *. rewrite Hd. by destruct (db w).
  - intros group topic p w. go_step. cbn. eapply wp_mono; [|apply ListConsumerGroupOffsets_law].
    intros w1 r1 (Hd&Hc&Hf&Hr). cbn in *. rewrite Hd. by destruct (db w).
Defined.

(** ** Properties *)

(** C30. IsLagging fails closed and its cache cannot vouch for more than it saw:
    whatever the broker, the cache and the faults do, a call that returns an
    error returns true with it, and a call that returns false does so because
    the odds-management group had caught up on that partition at some moment
    less than 200 ms ago. Every call leaves a cache of which the same holds. *)
Theorem IsLagging_sound {D R K} `{RedisClient string R} `{OffsetApi K}
    (rdb : lens D R) (kafka : lens D K)
    `{!LensLaws rdb} `{!LensLaws kafka} `{!LensDisjoint rdb kafka}
    (caught : Z → Z → Prop) p (w w' : world D) r :
  IsLagging rdb kafka p w = (w', r) →
  cache_sound caught (view rdb (db w)) →
  (caught_up (view kafka (db w)) p → caught (clock w) p) →
  cache_sound caught (view rdb (db w')) ∧
  view kafka (db w') = view kafka (db w) ∧
  ∃ lagging err, r = Ok (lagging, err) ∧
    (is_Some err → lagging = true) ∧
    (lagging = false → ∃ t0, clock w < t0 + lagCacheTTL ∧ caught t0 p).
Proof.
  intros Hm Hs Hnow. revert w' r Hm. apply wp_intro.
  eapply wp_mono; [|by apply (IsLagging_wp rdb kafka caught)].
  intros w' r (?&[x Hx]&_&_&?). split_and!; [done|rewrite Hx; apply view_put_other|done].
Qed.

(** PartitionForMarket on a positive partition count: with [h] the FNV-1a
    hash of the market id, below [2^31] the result is [h mod n], a partition;
    from [2^31] on it is [- ((2^32 - h) mod n)], never a positive number. *)
Theorem PartitionForMarket_spec m n :
  0 < n →
  let h := fnv1a fnv_offset m in
  0 ≤ h < 2 ^ 32 ∧
  PartitionForMarket m n =
    Some (if h <? 2 ^ 31 then h `mod` n else - ((2 ^ 32 - h) `mod` n)).
Proof.
  intros Hn h. assert (0 ≤ h < 2 ^ 32) as Hh by (apply fnv1a_range; unfold fnv_offset; lia).
  split; [done|]. unfold PartitionForMarket. fold h.
  destruct (Z.eqb_spec n 0); [lia|]. f_equal. destruct (Z.ltb_spec h (2 ^ 31)).
  - rewrite wrap32_small by lia. apply Z.rem_mod_nonneg; lia.
  - assert (wrap32 h = - (2 ^ 32 - h)) as ->.
    { unfold wrap32. rewrite <- (Z_mod_plus_full _ (-1)), Z.mod_small by lia. lia. }
    rewrite Z.rem_opp_l by lia. f_equal. apply Z.rem_mod_nonneg; lia.
Qed.

(** ** Witnesses *)

Definition LagExample : Type := RedisMap string * Offsets.
Definition ex_rdb : lens LagExample (RedisMap string) := Lens fst (λ r d, (r, d.2)).
Definition ex_kafka : lens LagExample Offsets := Lens snd (λ k d, (d.1, k)).
#[export] Instance ex_rdb_laws : LensLaws ex_rdb.
Proof. by split; intros; destruct d. Qed.
#[export] Instance ex_kafka_laws : LensLaws ex_kafka.
Proof. by split; intros; destruct d. Qed.
#[export] Instance ex_disjoint : LensDisjoint ex_rdb ex_kafka.
Proof. done. Qed.

(** A broker whose group has caught up on partition 3, and an empty cache. *)
Definition ex_offsets : Offsets :=
  {| ends := {[ ("bet-placed", 3) := 7 ]};
     group_offsets := {[ ("odds-management-cg", "bet-placed", 3) := 7 ]} |}.
Definition ex_lag_world : world LagExample := World (∅, ex_offsets) 1000 0 [].

Definition ex_lag_run := IsLagging ex_rdb ex_kafka 3 ex_lag_world.

Lemma IsLagging_sound_witness :
  ex_lag_run.2 = Ok (false, None) ∧
  redis_at (db ex_lag_run.1).1 1000 (lagKey 3) = Some "0" ∧
  cache_sound (λ t p, t = 1000 ∧ p = 3) (view ex_rdb (db ex_lag_run.1)).
Proof.
  split; [vm_compute; reflexivity|]. split; [vm_compute; reflexivity|].
  apply (IsLagging_sound ex_rdb ex_kafka (λ t p, t = 1000 ∧ p = 3) 3 ex_lag_world
    ex_lag_run.1 ex_lag_run.2); [apply surjective_pairing| |done].
  intros t p s z Hat. cbn in Hat. unfold redis_live in Hat. by rewrite lookup_empty in Hat.
Defined.

(** Half of the markets have a negative partition: the first one here. *)
Lemma PartitionForMarket_spec_witness :
  0 < 24 ∧ PartitionForMarket "m1" 24 = Some (-13) ∧
  0 ≤ fnv1a fnv_offset "m1" < 2 ^ 32.
Proof.
  split; [lia|]. split; [vm_compute; reflexivity|].
  apply (PartitionForMarket_spec "m1" 24). lia.
Defined.
