(* ===== verification/Outbox.v ===== *)
(** * The transactional outbox ([internal/betacceptance/outbox.go])

    The table of [migrations/db_bet_acceptance], the status a row goes through
    and the relay that publishes ready rows to Kafka. The theorems: what a batch
    sends and marks under any faults, that without faults it publishes the
    oldest ready rows once, and that a failed UPDATE makes it send a row twice. *)
From stdpp Require Import sorting.
From S2P Require Export Messaging.
Local Open Scope Z_scope.
Local Open Scope go_scope.

Inductive OutboxStatus : Type :=
| OutboxStatusPending          (** row written; DeductBalance not yet called *)
| OutboxStatusReadyToPublish   (** DeductBalance succeeded *)
| OutboxStatusPublished
| OutboxStatusCancelled.       (** DeductBalance failed; bet rejected *)

#[export] Instance OutboxStatus_eq_dec : EqDecision OutboxStatus.
Proof. solve_decision. Defined.

(** A row, without its [id], the key of the table. *)
Record OutboxRow (F : Type) : Type := {
  BetID : string;
  ob_Topic : string;
  PartitionKey : string;
  Payload : bytes F;
  ob_Status : OutboxStatus;
  CreatedAt : Z;
  PublishedAt : option Z
}.
Arguments BetID {F} o.
Arguments ob_Topic {F} o.
Arguments PartitionKey {F} o.
Arguments Payload {F} o.
Arguments ob_Status {F} o.
Arguments CreatedAt {F} o.
Arguments PublishedAt {F} o.
Arguments Build_OutboxRow {F}.

Abbreviation OutboxTable F := (gmap string (OutboxRow F)).

Section Outbox.
Context {F : Type}.
Implicit Types (row : OutboxRow F) (t : OutboxTable F).

Definition set_status (s : OutboxStatus) row : OutboxRow F :=
  {| BetID := BetID row; ob_Topic := ob_Topic row; PartitionKey := PartitionKey row;
     Payload := Payload row; ob_Status := s; CreatedAt := CreatedAt row;
     PublishedAt := PublishedAt row |}.
Definition set_published (now : Z) row : OutboxRow F :=
  {| BetID := BetID row; ob_Topic := ob_Topic row; PartitionKey := PartitionKey row;
     Payload := Payload row; ob_Status := OutboxStatusPublished; CreatedAt := CreatedAt row;
     PublishedAt := Some now |}.

(** [INSERT INTO outbox]: the primary key must be new. *)
Definition insertOutbox (id : string) row t : option (OutboxTable F) :=
  match t !! id with Some _ => None | None => Some (<[id := row]> t) end.

Definition is_ready (r : string * OutboxRow F) : bool :=
  bool_decide (ob_Status r.2 = OutboxStatusReadyToPublish).
Definition older (r s : string * OutboxRow F) : Prop := CreatedAt r.2 ≤ CreatedAt s.2.
#[export] Instance older_dec r s : Decision (older r s).
Proof. unfold older. apply _. Defined.

(** The SELECT of [fetchReady]. Rows that another statement holds locked at this
    moment are skipped; rows of equal age come in the order of their keys. *)
Definition ready_rows (locked : string → bool) (limit : nat) t : list (string * OutboxRow F) :=
  take limit (merge_sort older
    (base.filter (λ r, is_ready r && negb (locked r.1) = true) (map_to_list t))).

Definition row_message (r : string * OutboxRow F) : ProducerMessage F :=
  {| Topic := ob_Topic r.2;
     Key := PartitionKey r.2;
     Value := Payload r.2;
     Headers := [("bet_id", BetID r.2); ("outbox_id", r.1)] |}.
End Outbox.

(** ** The relay *)

Section Relay.
Context {F D K : Type} `{SyncProducer F K}.
Variables (outbox : lens D (OutboxTable F)) (kafka : lens D K).
Variable locked : string → bool.

Definition fetchReady (limit : nat) : Go D string (list (string * OutboxRow F)) :=
  zoom outbox (queryRow (λ t, Some (ready_rows locked limit t))) or_throw "query".

Definition markPublished (id : string) : Go D string unit :=
  t <- now ;;
  zoom outbox (exec (λ tbl, Some (alter (set_published t) id tbl))) or_throw "update".

Definition publish (r : string * OutboxRow F) : Go D string unit :=
  mapErr (λ e, "kafka produce: " +:+ e) (zoom kafka (SendMessage (row_message r))) ;;;
  catch (E:=string) (markPublished r.1) ;;;
  ret tt.

Definition publishBatch : Go D string unit :=
  rows <- mapErr (λ e, "fetchReady: " +:+ e) (fetchReady 100) ;;
  forM_ rows (λ r, catch (E:=string) (publish r) ;;; ret tt).
End Relay.

(** ** Lemmas *)

Section Lemmas.
Context {F : Type}.
Implicit Types (t : OutboxTable F) (r : string * OutboxRow F).

#[export] Instance older_total : Total (older (F:=F)).
Proof. intros r s. unfold older. lia. Qed.
#[export] Instance older_trans : Transitive (older (F:=F)).
Proof. intros r s u. unfold older. lia. Qed.

Definition ready_all (locked : string → bool) t : list (string * OutboxRow F) :=
  merge_sort older (base.filter (λ r, is_ready r && negb (locked r.1) = true) (map_to_list t)).

Lemma elem_of_ready_all locked t r :
  r ∈ ready_all locked t ↔
  t !! r.1 = Some r.2 ∧ ob_Status r.2 = OutboxStatusReadyToPublish ∧ locked r.1 = false.
Proof.
  unfold ready_all. rewrite merge_sort_Permutation, list_elem_of_filter.
  destruct r as [k row]. rewrite elem_of_map_to_list. unfold is_ready; cbn.
  rewrite andb_true_iff, bool_decide_eq_true, negb_true_iff. tauto.
Qed.

Lemma ready_all_NoDup locked t : NoDup (ready_all locked t).*1.
Proof.
  unfold ready_all. rewrite merge_sort_Permutation.
  eapply sublist_NoDup; [apply (NoDup_fst_map_to_list t)|].
  apply sublist_map, sublist_filter.
Qed.

Lemma ready_all_sorted locked t : StronglySorted older (ready_all locked t).
Proof. apply StronglySorted_merge_sort; apply _. Qed.

Lemma ready_rows_take locked n t : ready_rows locked n t = take n (ready_all locked t).
Proof. done. Qed.
End Lemmas.

(** What one turn of the loop does to a table and a log. *)
Definition mark {F} (now : Z) (r : string * OutboxRow F) (t : OutboxTable F) : OutboxTable F :=
  alter (set_published now) r.1 t.

Section RelayLemmas.
Context {F D K : Type} `{SyncProducer F K}.
Context (outbox : lens D (OutboxTable F)) (kafka : lens D K).
Context `{!LensLaws outbox} `{!LensLaws kafka} `{!LensDisjoint outbox kafka} `{!LensDisjoint kafka outbox}.
Implicit Types (w : world D) (r : string * OutboxRow F).

(** Only the table and the log change. *)
Definition relay_frame w w' : Prop := ∀ (Y : Type) (l : lens D Y),
  LensDisjoint outbox l → LensDisjoint kafka l → view l (db w') = view l (db w).

Lemma relay_frame_trans w1 w2 w3 : relay_frame w1 w2 → relay_frame w2 w3 → relay_frame w1 w3.
Proof. intros H12 H23 Y l Ho Hk. by rewrite (H23 Y l Ho Hk), (H12 Y l Ho Hk). Qed.

Lemma fetchReady_wp locked n w :
  wp (fetchReady outbox locked n) (λ w' res,
    db w' = db w ∧ clock w' = clock w ∧ fresh w' = fresh w ∧
    (∀ rows, res = Ok rows → rows = ready_rows locked n (view outbox (db w)))) w.
Proof.
  unfold fetchReady. go_step. go_step. go_step; cbn; rewrite ?put_view;
    (split_and!; try done); intros rows [= <-]; done.
Qed.

(** A turn for row [r] leaves the row alone, or sends its message, or sends it
    and marks the row. Without an error the message was sent. *)
Lemma publish_wp r w :
  wp (publish outbox kafka r) (λ w' res,
    relay_frame w w' ∧ clock w' = clock w ∧ fresh w' = fresh w ∧
    ∃ sent marked : bool,
      produced (view kafka (db w')) =
        produced (view kafka (db w)) ++ (if sent then [row_message r] else []) ∧
      view outbox (db w') =
        (if marked then mark (clock w) r else id) (view outbox (db w)) ∧
      (marked = true → sent = true) ∧ (res = Ok tt → sent = true)) w.
Proof.
  unfold publish, markPublished. do 3 go_step.
  eapply wp_mono; [|apply SendMessage_law]. cbn. intros w1 [[]|e] (Hc&Hf&Hp).
  - go_run; cbn;
      rewrite ?view_put_other, ?view_put, ?Hc, ?Hf, ?Hp;
      (split_and!; [intros Y l Ho Hk; cbn; by rewrite !view_put_other|done|done|]).
    + exists true, false. split_and!; by rewrite ?view_put_other.
    + exists true, true. split_and!; by rewrite ?view_put_other.
  - rewrite Hc, Hf, view_put, view_put_other.
    split_and!; [intros Y l Ho Hk; cbn; by rewrite view_put_other|done|done|].
    destruct Hp as [->| ->]; [exists false, false|exists true, false];
      rewrite ?app_nil_r; split_and!; done.
Qed.

Definition mark_all (now : Z) (rows : list (string * OutboxRow F)) (t : OutboxTable F) : OutboxTable F :=
  foldl (λ t r, mark now r t) t rows.

Lemma relay_loop rows w :
  wp (forM_ rows (λ r, catch (E:=string) (publish outbox kafka r) ;;; ret tt)) (λ w' (res : result string unit),
    res = Ok tt ∧ relay_frame w w' ∧ clock w' = clock w ∧ fresh w' = fresh w ∧
    ∃ sent marked,
      sent `sublist_of` rows ∧ marked `sublist_of` sent ∧
      produced (view kafka (db w')) = produced (view kafka (db w)) ++ map row_message sent ∧
      view outbox (db w') = mark_all (clock w) marked (view outbox (db w))) w.
Proof.
  revert w. induction rows as [|r rows IH]; intros w; cbn [forM_]; go_step.
  - split_and!; try done. exists [], []. rewrite app_nil_r. by split_and!.
  - go_step. go_step. eapply wp_mono; [|apply publish_wp].
    intros w1 res1 (Hfr&Hc&Hf&s1&m1&Hp1&Ht1&Hm1&_). go_step.
    eapply wp_mono; [|apply IH]. intros w2 res2 (Hres&Hfr2&Hc2&Hf2&s2&m2&Hs2&Hm2&Hp2&Ht2).
    rewrite Hc2, Hf2, Hc, Hf, Hp2, Ht2, Hp1, Ht1, Hc.
    split_and!; [done|by eapply relay_frame_trans|done|done|].
    exists (if s1 then r :: s2 else s2), (if m1 then r :: m2 else m2).
    rewrite <- app_assoc.
    destruct s1, m1; try (by specialize (Hm1 eq_refl)); split_and!; try done;
      by first [apply sublist_skip | apply sublist_cons].
Qed.

(** [forM_] over rows whose publish succeeds. *)
Class ProducerUp : Prop :=
  send_up m (w : world K) : faults w = [] →
    (SendMessage m w).2 = Ok tt ∧ faults (SendMessage m w).1 = [].

Lemma publish_up `{!ProducerUp} r w :
  faults w = [] →
  wp (publish outbox kafka r) (λ w' res, res = Ok tt ∧ faults w' = [] ∧ clock w' = clock w ∧
    produced (view kafka (db w')) = produced (view kafka (db w)) ++ [row_message r] ∧
    view outbox (db w') = mark (clock w) r (view outbox (db w))) w.
Proof.
  intros Hw. unfold publish, markPublished. do 3 go_step.
  pose proof (SendMessage_law (row_message r) (set_db (view kafka (db w)) w)) as Hlaw.
  destruct (send_up (row_message r) (set_db (view kafka (db w)) w) Hw) as [Hok Hup].
  unfold wp in Hlaw |- *. destruct (SendMessage _ _) as [w1 r1]. cbn in *. subst r1.
  destruct Hlaw as (Hc&_&Hp).
  unfold gbind, catch, now, mapErr, zoom, exec, flaky, ret. cbn. rewrite Hup. cbn. rewrite Hup. cbn.
  rewrite view_put_other, !view_put, Hc, Hp, view_put_other. done.
Qed.

Lemma relay_loop_up `{!ProducerUp} rows w :
  faults w = [] →
  wp (forM_ rows (λ r, catch (E:=string) (publish outbox kafka r) ;;; ret tt)) (λ w' (res : result string unit),
    res = Ok tt ∧ faults w' = [] ∧
    produced (view kafka (db w')) = produced (view kafka (db w)) ++ map row_message rows ∧
    view outbox (db w') = mark_all (clock w) rows (view outbox (db w))) w.
Proof.
  revert w. induction rows as [|r rows IH]; intros w Hw; cbn [forM_]; go_step.
  - rewrite app_nil_r. by split_and!.
  - go_step. go_step. eapply wp_mono; [|by apply publish_up].
    intros w1 res1 (_&Hw1&Hc&Hp&Ht). go_step. eapply wp_mono; [|by apply IH].
    intros w2 res2 (?&?&Hp2&Ht2). rewrite Hp2, Ht2, Hp, Ht, Hc, <- app_assoc. done.
Qed.

Lemma mark_all_lookup now rows t k :
  NoDup rows.*1 →
  mark_all now rows t !! k =
    (if decide (k ∈ rows.*1) then set_published now <$> t !! k else t !! k).
Proof.
  revert t. induction rows as [|r rows IH]; intros t Hnd; cbn; [done|].
  inversion Hnd as [|? ? Hr Hrows]; subst. unfold mark_all in IH. rewrite IH by done. unfold mark.
  destruct (decide (k = r.1)) as [->|Hk].
  - rewrite !(decide_False (P:=r.1 ∈ rows.*1)) by done.
    rewrite decide_True by (apply elem_of_cons; auto). by rewrite lookup_alter_eq.
  - rewrite lookup_alter_ne by done.
    destruct (decide (k ∈ rows.*1)).
    + by rewrite decide_True by (apply elem_of_cons; auto).
    + by rewrite decide_False by (rewrite elem_of_cons; tauto).
Qed.
End RelayLemmas.

(** ** Properties *)

Section Properties.
Context {F D K : Type} `{SyncProducer F K}.
Context (outbox : lens D (OutboxTable F)) (kafka : lens D K).
Context `{!LensLaws outbox} `{!LensLaws kafka} `{!LensDisjoint outbox kafka} `{!LensDisjoint kafka outbox}.
Implicit Types (w : world D) (r : string * OutboxRow F).

Lemma ready_rows_sublist locked n (t : OutboxTable F) : ready_rows locked n t `sublist_of` ready_all locked t.
Proof. rewrite ready_rows_take. apply sublist_take. Qed.

Definition batch_effect locked w w' : Prop :=
  ∃ sent marked : list (string * OutboxRow F),
    produced (view kafka (db w')) = produced (view kafka (db w)) ++ map row_message sent ∧
    (length sent ≤ 100)%nat ∧ NoDup sent.*1 ∧ marked `sublist_of` sent ∧
    (∀ k row, (k, row) ∈ sent →
       view outbox (db w) !! k = Some row ∧ ob_Status row = OutboxStatusReadyToPublish ∧ locked k = false) ∧
    (∀ k, view outbox (db w') !! k =
       if decide (k ∈ marked.*1) then set_published (clock w) <$> view outbox (db w) !! k
       else view outbox (db w) !! k).

Lemma publishBatch_wp locked w :
  wp (publishBatch outbox kafka locked) (λ w' _,
    relay_frame outbox kafka w w' ∧ clock w' = clock w ∧ fresh w' = fresh w ∧ batch_effect locked w w') w.
Proof.
  unfold publishBatch. go_step. go_step.
  eapply wp_mono; [|apply fetchReady_wp; apply _].
  intros w1 [rows|e] (Hd&Hc&Hf&Hrows); rewrite ?Hd.
  2: { split_and!; [by intros Y l ? ?; rewrite Hd|done|done|]. unfold batch_effect. rewrite Hd.
       exists [], []. rewrite app_nil_r. cbn. split_and!; try done; [lia|apply NoDup_nil_2|].
       intros k row Hin. by apply not_elem_of_nil in Hin. }
  rewrite (Hrows rows eq_refl). eapply wp_mono; [|apply relay_loop; apply _].
  intros w2 res2 (->&Hfr&Hc2&Hf2&sent&marked&Hs&Hmk&Hp&Ht). rewrite Hd, Hc in *.
  pose proof (ready_rows_sublist locked 100 (view outbox (db w))) as Hall.
  assert (NoDup sent.*1) as Hnd.
  { eapply sublist_keys; [|apply ready_all_NoDup]. by etrans. }
  split_and!; [by intros Y l Ho Hk; rewrite (Hfr Y l Ho Hk), Hd|done|congruence|].
  exists sent, marked. split_and!; try done.
  - etrans; [by apply sublist_length|]. rewrite ready_rows_take. apply firstn_le_length.
  - intros k row Hin. apply (elem_of_ready_all locked _ (k, row)).
    eapply elem_of_sublist; [done|]. by etrans.
  - intros k. rewrite Ht. apply mark_all_lookup. by eapply sublist_keys.
Qed.

(** A batch of the relay, under any faults of the database and the broker:
    the messages it adds to the log are those of distinct rows, at most a
    hundred, that were READY_TO_PUBLISH, each with the row's topic, key and
    payload; the rows it changes are among the rows it sent, and they become
    PUBLISHED with nothing else changed. No row is lost and no row is marked
    without its message in the log. *)
Theorem publishBatch_spec locked w w' res :
  publishBatch outbox kafka locked w = (w', res) →
  ∃ sent marked : list (string * OutboxRow F),
    produced (view kafka (db w')) = produced (view kafka (db w)) ++ map row_message sent ∧
    (length sent ≤ 100)%nat ∧ NoDup sent.*1 ∧ marked `sublist_of` sent ∧
    (∀ k row, (k, row) ∈ sent →
       view outbox (db w) !! k = Some row ∧ ob_Status row = OutboxStatusReadyToPublish ∧ locked k = false) ∧
    (∀ k, view outbox (db w') !! k =
       if decide (k ∈ marked.*1) then set_published (clock w) <$> view outbox (db w) !! k
       else view outbox (db w) !! k).
Proof.
  intros Hm. revert w' res Hm. apply wp_intro.
  eapply wp_mono; [|apply publishBatch_wp]. by intros w' res (_&_&_&?).
Qed.

Lemma ready_rows_oldest locked n (t : OutboxTable F) r s :
  r ∈ ready_rows locked n t → s ∈ ready_all locked t → s ∉ ready_rows locked n t → older r s.
Proof.
  rewrite ready_rows_take. pose proof (ready_all_sorted locked t) as Hs.
  revert Hs. generalize (ready_all locked t) as l.
  induction n as [|n IH]; intros l; [intros _ Hr; by apply not_elem_of_nil in Hr|].
  destruct l as [|x l]; [intros _ Hr; by apply not_elem_of_nil in Hr|].
  intros Hs. apply StronglySorted_inv in Hs as [Hl Hx]. cbn [take].
  rewrite !elem_of_cons. intros [-> | Hr] [-> | Hin] Hn; try tauto.
  - by eapply Forall_forall in Hx.
  - apply IH with l; tauto.
Qed.

Lemma ready_rows_NoDup locked n (t : OutboxTable F) : NoDup (ready_rows locked n t).*1.
Proof. eapply sublist_keys; [apply ready_rows_sublist|apply ready_all_NoDup]. Qed.

Lemma publishBatch_up `{!ProducerUp (F:=F) (K:=K)} locked w :
  faults w = [] →
  wp (publishBatch outbox kafka locked) (λ w' res,
    res = Ok tt ∧ faults w' = [] ∧
    produced (view kafka (db w')) =
      produced (view kafka (db w)) ++ map row_message (ready_rows locked 100 (view outbox (db w))) ∧
    view outbox (db w') = mark_all (clock w) (ready_rows locked 100 (view outbox (db w))) (view outbox (db w))) w.
Proof.
  intros Hw. unfold publishBatch. go_step. go_step.
  pose proof (fetchReady_wp outbox locked 100 w) as Hf.
  assert (∃ w1 rows, fetchReady outbox locked 100 w = (w1, Ok rows) ∧ faults w1 = []) as (w1&rows&He&Hw1).
  { unfold fetchReady, zoom, mapErr, queryRow, flaky. cbn. rewrite Hw. cbn. by eexists _, _. }
  unfold wp in Hf |- *. rewrite He in *. cbn in *. destruct Hf as (Hd&Hc&_&Hrows).
  rewrite (Hrows rows eq_refl), <- Hd, <- Hc. by apply (relay_loop_up outbox kafka).
Qed.

(** With the database and the broker up, one batch publishes the oldest
    hundred ready rows (all of them, when there are no more than that): each
    exactly once, oldest first, and every one of them is PUBLISHED after. *)
Theorem publishBatch_no_fault `{!ProducerUp (F:=F) (K:=K)} locked w w' res :
  faults w = [] →
  publishBatch outbox kafka locked w = (w', res) →
  let batch := ready_rows locked 100 (view outbox (db w)) in
  res = Ok tt ∧
  produced (view kafka (db w')) = produced (view kafka (db w)) ++ map row_message batch ∧
  NoDup batch.*1 ∧
  (∀ k row, (k, row) ∈ batch → view outbox (db w') !! k = Some (set_published (clock w) row)) ∧
  (∀ k row, view outbox (db w) !! k = Some row → ob_Status row = OutboxStatusReadyToPublish →
     locked k = false → (k, row) ∉ batch →
     length batch = 100%nat ∧ ∀ r, r ∈ batch → CreatedAt r.2 ≤ CreatedAt row).
Proof.
  intros Hw Hm batch. revert w' res Hm. apply wp_intro.
  eapply wp_mono; [|by apply publishBatch_up]. intros w' res (->&_&Hp&Ht).
  pose proof (ready_rows_NoDup locked 100 (view outbox (db w))) as Hnd.
  split_and!; [done|done|done|..].
  - intros k row Hin. rewrite Ht, mark_all_lookup by done. rewrite decide_True.
    + apply elem_of_sublist with (l2 := ready_all locked (view outbox (db w))) in Hin;
        [|apply ready_rows_sublist].
      apply (elem_of_ready_all locked _ (k, row)) in Hin as (Hk&_). cbn in Hk. by rewrite Hk.
    + apply list_elem_of_fmap. by exists (k, row).
  - intros k row Hk Hst Hl Hnin.
    assert ((k, row) ∈ ready_all locked (view outbox (db w))) as Hall by (by apply elem_of_ready_all).
    split; [|intros r Hr; by apply (ready_rows_oldest locked 100 (view outbox (db w)) r (k, row))].
    unfold batch in *. rewrite ready_rows_take in *. rewrite length_take.
    destruct (decide (100 ≤ length (ready_all locked (view outbox (db w))))%nat); [lia|].
    rewrite take_ge in Hnin by lia. done.
Qed.

(** Delivery is at least once, not exactly once: when the message of a row is
    in the log and the row is still READY_TO_PUBLISH, which is what a batch
    whose UPDATE failed leaves behind, the next batch sends the same message
    again and the log holds it twice. *)
Theorem publishBatch_resends `{!ProducerUp (F:=F) (K:=K)} locked w w' res k row before after :
  produced (view kafka (db w)) = before ++ row_message (k, row) :: after →
  view outbox (db w) !! k = Some row → ob_Status row = OutboxStatusReadyToPublish →
  locked k = false → (length (ready_all locked (view outbox (db w))) ≤ 100)%nat →
  faults w = [] →
  publishBatch outbox kafka locked w = (w', res) →
  ∃ new, produced (view kafka (db w')) = before ++ row_message (k, row) :: after ++ new ∧
    row_message (k, row) ∈ new.
Proof.
  intros Hp Hk Hst Hl Hlen Hw Hm. revert w' res Hm. apply wp_intro.
  eapply wp_mono; [|by apply publishBatch_up]. intros w' res (_&_&Hp'&_).
  eexists. split; [by rewrite Hp', Hp, <- app_assoc|].
  rewrite ready_rows_take, take_ge by done.
  apply list_elem_of_In, in_map, list_elem_of_In. by apply elem_of_ready_all.
Qed.
End Properties.

(** ** Witnesses *)

#[export] Instance producer_log_up F : ProducerUp (F:=F) (K:=list (ProducerMessage F)).
Proof. intros m w Hw. cbn. unfold gbind, flaky, puts. rewrite Hw. cbn. by rewrite Hw. Qed.

Definition OutboxExample : Type := OutboxTable unit * list (ProducerMessage unit).
Definition ex_outbox : lens OutboxExample (OutboxTable unit) := Lens fst (λ t d, (t, d.2)).
Definition ex_log : lens OutboxExample (list (ProducerMessage unit)) := Lens snd (λ k d, (d.1, k)).
#[export] Instance ex_outbox_laws : LensLaws ex_outbox.
Proof. by split; intros; destruct d. Qed.
#[export] Instance ex_log_laws : LensLaws ex_log.
Proof. by split; intros; destruct d. Qed.
#[export] Instance ex_outbox_log : LensDisjoint ex_outbox ex_log.
Proof. done. Qed.
#[export] Instance ex_log_outbox : LensDisjoint ex_log ex_outbox.
Proof. done. Qed.

Definition ex_row (bet : string) (s : OutboxStatus) (t : Z) : OutboxRow unit :=
  {| BetID := bet; ob_Topic := "bet-placed"; PartitionKey := "m1"; Payload := Doc JNull;
     ob_Status := s; CreatedAt := t; PublishedAt := None |}.
Definition ex_table : OutboxTable unit :=
  <["o1" := ex_row "b1" OutboxStatusReadyToPublish 20]>
  (<["o2" := ex_row "b2" OutboxStatusReadyToPublish 10]>
  (<["o3" := ex_row "b3" OutboxStatusPending 5]> ∅)).
Definition unlocked (k : string) : bool := false.
Definition ex_batch (fs : list bool) (d : OutboxExample) :=
  publishBatch ex_outbox ex_log unlocked (World d 30 0 fs).
(** The UPDATE of the first row fails, its message is in the log. *)
Definition ex_failed_run := ex_batch [false; false; false; true] (ex_table, []).
Definition ex_failed := db ex_failed_run.1.

Lemma publishBatch_spec_witness :
  map Headers (produced (view ex_log (db ex_failed_run.1))) =
    [[("bet_id", "b2"); ("outbox_id", "o2")]; [("bet_id", "b1"); ("outbox_id", "o1")]] ∧
  ∃ sent marked : list (string * OutboxRow unit),
    produced (view ex_log (db ex_failed_run.1)) = [] ++ map row_message sent ∧ marked `sublist_of` sent.
Proof.
  split; [vm_compute; reflexivity|].
  destruct (publishBatch_spec ex_outbox ex_log unlocked
    (World (ex_table, []) 30 0 [false; false; false; true]) ex_failed_run.1 ex_failed_run.2
    (surjective_pairing _)) as (sent&marked&Hp&_&_&Hs&_).
  exists sent, marked. exact (conj Hp Hs).
Defined.

Lemma publishBatch_no_fault_witness :
  let run := ex_batch [] (ex_table, []) in
  run.2 = Ok tt ∧
  map Headers (produced (db run.1).2) =
    [[("bet_id", "b2"); ("outbox_id", "o2")]; [("bet_id", "b1"); ("outbox_id", "o1")]].
Proof.
  split; [|vm_compute; reflexivity].
  by apply (publishBatch_no_fault ex_outbox ex_log unlocked (World (ex_table, []) 30 0 [])
    _ _ eq_refl (surjective_pairing _)).
Defined.

Lemma publishBatch_resends_witness :
  let run := ex_batch [] ex_failed in
  ∃ new, produced (db run.1).2 =
    [] ++ row_message ("o2", ex_row "b2" OutboxStatusReadyToPublish 10) ::
    [row_message ("o1", ex_row "b1" OutboxStatusReadyToPublish 20)] ++ new ∧
    row_message ("o2", ex_row "b2" OutboxStatusReadyToPublish 10) ∈ new.
Proof.
  apply (publishBatch_resends ex_outbox ex_log unlocked (World ex_failed 30 0 [])
    (ex_batch [] ex_failed).1 (ex_batch [] ex_failed).2).
  7: apply surjective_pairing.
  6: reflexivity.
  5: vm_compute; lia.
  all: vm_compute; reflexivity.
Defined.
