(* ===== verification/BetFlow.v ===== *)
(** * Bet placement ([internal/betacceptance/bet_flow.go])

    [PlaceBet] with its gates, the outbox row, the call to Account & Wallet and
    the idempotency key. The HTTP handler in front of it is in [BetHttp]. The theorems are
    proved against the wallet's contract: what an accepted bet guarantees, what
    a rejected one leaves behind, and that nothing reaches the [bet-placed]
    topic without a reservation of the stake. *)
From Stdlib Require Import Reals Lra.
From S2P Require Export WalletApi LagChecker Outbox GoTime.
Local Open Scope Z_scope.
Local Open Scope go_scope.

(** ** Errors *)

Inductive betErr : Type :=
| ErrMarketNotOpen | ErrOddsMoved | ErrLimitExceeded | ErrOddsNotSettled | ErrInsufficientFunds
| ErrOther (msg : string)   (** an error with no sentinel *)
| ErrPanic.                 (** division by a zero partition count *)

Section Types.
Context {F : Type} `{FloatOps F}.

Record Config : Type := {
  OddsTolerance : F;
  LargeStakeThreshold : Z;
  KafkaNumPartitions : Z;
  MarketStatusTTL : Z;
  cfg_OddsCacheTTL : Z
}.

Definition DefaultConfig : Config := {|
  OddsTolerance := lit 5 100;
  LargeStakeThreshold := 10000;
  KafkaNumPartitions := 24;
  MarketStatusTTL := 5 * second_us;
  cfg_OddsCacheTTL := 30 * second_us
|}.

Record PlaceBetRequest : Type := {
  IdempotencyKey : string;
  UserID : string;
  MarketID : string;
  MarketName : string;
  SelectionID : string;
  SelectionName : string;
  RequestedOddsDecimal : F;
  RequestedOddsAmerican : Z;
  StakeMinor : Z;
  req_Currency : string
}.

Record PlaceBetResponse : Type := {
  resp_BetID : string;
  resp_Status : string;
  resp_OddsDecimal : F;
  resp_OddsAmerican : Z;
  resp_Stake : Z;
  resp_Currency : string;
  PlacedAt : Z
}.

(** The JSON value of the Redis odds cache. *)
Record CachedOdds : Type := {
  co_Decimal : F;
  co_American : Z;
  co_SourceEventOffset : Z
}.

Definition decodeCachedOdds (kvs : list (string * json F)) : option CachedOdds :=
  d ← jfloat "decimal" kvs;
  a ← jint "american" kvs;
  o ← jint "src_offset" kvs;
  Some {| co_Decimal := d; co_American := a; co_SourceEventOffset := o |}.

(** ** Helpers *)

Definition abs64 (x : F) : F := if flt x (fnum 0) then fneg x else x.

Definition validateOdds (req : PlaceBetRequest) (current : CachedOdds) (tolerance : F) : option betErr :=
  if fle (co_Decimal current) (fnum 0) then Some (ErrOther "invalid cached decimal odds") else
  let movement := fdiv (abs64 (fsub (RequestedOddsDecimal req) (co_Decimal current))) (co_Decimal current) in
  if fgt movement tolerance then Some ErrOddsMoved else None.

Definition checkLimits (req : PlaceBetRequest) (limits : GetUserLimitsResponse) : option betErr :=
  let too_much m := AmountMinor m <? StakeMinor req in
  if match MaxSingleStake limits with Some m => too_much m | None => false end
  then Some ErrLimitExceeded else
  match DailyLimit limits, DailyStakedSoFar limits with
  | Some d, Some s =>
      let remaining := wrap64 (AmountMinor d - AmountMinor s) in
      if remaining <? StakeMinor req then Some ErrLimitExceeded else None
  | _, _ => None
  end.

(** [json.Marshal] of the event map: its keys come out in order. *)
Definition buildBetPlacedPayload (betID : string) (req : PlaceBetRequest) (odds : CachedOdds) (t : Z)
  : option (bytes F) :=
  Marshal (JObj [
    ("bet_id", JStr betID);
    ("currency", JStr (req_Currency req));
    ("event_type", JStr "bet.placed");
    ("market_id", JStr (MarketID req));
    ("market_name", JStr (MarketName req));
    ("odds_american", JInt (co_American odds));
    ("odds_decimal", JNum (co_Decimal odds));
    ("placed_at", JStr (FormatRFC3339Nano t));
    ("selection_id", JStr (SelectionID req));
    ("selection_name", JStr (SelectionName req));
    ("stake_minor", JInt (StakeMinor req));
    ("user_id", JStr (UserID req))]).

End Types.
Arguments Config : clear implicits.
Arguments PlaceBetRequest : clear implicits.
Arguments PlaceBetResponse : clear implicits.
Arguments CachedOdds : clear implicits.

(** ** The service's state

    Its outbox table, the Redis instances it reads (the session instance is
    never used), Kafka, and the wallet service behind its gRPC client. *)
Record BetAcceptance (F Ro Rm Rr K W : Type) : Type := {
  ba_outbox : OutboxTable F;
  ba_redisOdds : Ro;
  ba_redisMarket : Rm;
  ba_redisRateLimit : Rr;
  ba_kafka : K;
  ba_wallet : W
}.
Arguments Build_BetAcceptance {F Ro Rm Rr K W}.
Arguments ba_outbox {F Ro Rm Rr K W} b.
Arguments ba_redisOdds {F Ro Rm Rr K W} b.
Arguments ba_redisMarket {F Ro Rm Rr K W} b.
Arguments ba_redisRateLimit {F Ro Rm Rr K W} b.
Arguments ba_kafka {F Ro Rm Rr K W} b.
Arguments ba_wallet {F Ro Rm Rr K W} b.

Section Lenses.
Context {F Ro Rm Rr K W : Type}.
Abbreviation State := (BetAcceptance F Ro Rm Rr K W).

Definition outbox_table : lens State (OutboxTable F) := Lens ba_outbox (λ x s,
  Build_BetAcceptance x (ba_redisOdds s) (ba_redisMarket s) (ba_redisRateLimit s) (ba_kafka s) (ba_wallet s)).
Definition redisOdds : lens State Ro := Lens ba_redisOdds (λ x s,
  Build_BetAcceptance (ba_outbox s) x (ba_redisMarket s) (ba_redisRateLimit s) (ba_kafka s) (ba_wallet s)).
Definition redisMarket : lens State Rm := Lens ba_redisMarket (λ x s,
  Build_BetAcceptance (ba_outbox s) (ba_redisOdds s) x (ba_redisRateLimit s) (ba_kafka s) (ba_wallet s)).
Definition redisRateLimit : lens State Rr := Lens ba_redisRateLimit (λ x s,
  Build_BetAcceptance (ba_outbox s) (ba_redisOdds s) (ba_redisMarket s) x (ba_kafka s) (ba_wallet s)).
Definition kafka : lens State K := Lens ba_kafka (λ x s,
  Build_BetAcceptance (ba_outbox s) (ba_redisOdds s) (ba_redisMarket s) (ba_redisRateLimit s) x (ba_wallet s)).
Definition wallet : lens State W := Lens ba_wallet (λ x s,
  Build_BetAcceptance (ba_outbox s) (ba_redisOdds s) (ba_redisMarket s) (ba_redisRateLimit s) (ba_kafka s) x).

#[export] Instance outbox_table_laws : LensLaws outbox_table.
Proof. by split; intros; destruct d. Qed.
#[export] Instance redisRateLimit_laws : LensLaws redisRateLimit.
Proof. by split; intros; destruct d. Qed.
#[export] Instance kafka_laws : LensLaws kafka.
Proof. by split; intros; destruct d. Qed.
#[export] Instance wallet_laws : LensLaws wallet.
Proof. by split; intros; destruct d. Qed.
#[export] Instance rate_kafka : LensDisjoint redisRateLimit kafka.
Proof. done. Qed.
#[export] Instance outbox_kafka : LensDisjoint outbox_table kafka.
Proof. done. Qed.
#[export] Instance kafka_outbox : LensDisjoint kafka outbox_table.
Proof. done. Qed.
#[export] Instance outbox_wallet : LensDisjoint outbox_table wallet.
Proof. done. Qed.
#[export] Instance kafka_wallet : LensDisjoint kafka wallet.
Proof. done. Qed.
End Lenses.

(** ** The flow *)

Section BetFlow.
Context {F Ro Rm Rr K W : Type} `{FloatOps F}.
Context `{RedisClient (bytes F) Ro} `{RedisClient string Rm} `{RedisClient string Rr}.
Context `{OffsetApi K} `{WalletServiceServer W}.
Abbreviation State := (BetAcceptance F Ro Rm Rr K W).
Abbreviation Flow A := (Go State betErr A).

(** [uuid.New().String()]. *)
Variable uuid : nat → string.
Variable cfg : Config F.

Definition idemKeyOf (req : PlaceBetRequest F) : string := "idem:" +:+ IdempotencyKey req.
Definition marketKeyOf (req : PlaceBetRequest F) : string := "market:status:" +:+ MarketID req.
Definition oddsKeyOf (req : PlaceBetRequest F) : string :=
  "odds:" +:+ MarketID req +:+ ":" +:+ SelectionID req.

Definition writeOutboxPending (betID marketID : string) (payload : bytes F) : Flow unit :=
  id <- newID uuid ;;
  t <- now ;;
  zoom outbox_table (exec (insertOutbox id
    {| BetID := betID; ob_Topic := "bet-placed"; PartitionKey := marketID; Payload := payload;
       ob_Status := OutboxStatusPending; CreatedAt := t; PublishedAt := None |}))
    or_throw (ErrOther "write outbox pending").

(** [UPDATE outbox SET status = READY_TO_PUBLISH WHERE bet_id = $2 AND status = PENDING]. *)
Definition ready_row (betID : string) (row : OutboxRow F) : OutboxRow F :=
  if (BetID row =? betID)%string && bool_decide (ob_Status row = OutboxStatusPending)
  then set_status OutboxStatusReadyToPublish row else row.
Definition markOutboxReady (betID : string) : Flow unit :=
  zoom outbox_table (exec (λ t, Some (ready_row betID <$> t))) or_throw (ErrOther "mark ready").

(** [UPDATE outbox SET status = CANCELLED WHERE bet_id = $2]. *)
Definition cancel_row (betID : string) (row : OutboxRow F) : OutboxRow F :=
  if (BetID row =? betID)%string then set_status OutboxStatusCancelled row else row.
Definition cancelOutbox (betID : string) : Flow unit :=
  zoom outbox_table (exec (λ t, Some (cancel_row betID <$> t))) or_throw (ErrOther "cancel").

(** A result of a pure check. *)
Definition check (e : option betErr) : Flow unit :=
  match e with Some e => throw e | None => ret tt end.

(** Steps 2 to 4: market status, current odds, user limits. *)
Definition marketAndLimits (req : PlaceBetRequest F) : Flow (CachedOdds F) :=
  marketStatus <- zoom redisMarket (redis_Get (marketKeyOf req))
    or_throw (ErrOther "market status cache miss") ;;
  if negb (marketStatus =? "OPEN")%string then throw ErrMarketNotOpen else
  oddsRaw <- zoom redisOdds (redis_Get (oddsKeyOf req)) or_throw (ErrOther "odds cache miss") ;;
  match Unmarshal decodeCachedOdds oddsRaw with
  | None => throw (ErrOther "corrupt odds cache entry")
  | Some currentOdds =>
      check (validateOdds req currentOdds (OddsTolerance cfg)) ;;;
      limitsResp <- zoom wallet (wallet_GetUserLimits {| gul_UserId := UserID req |})
        or_throw (ErrOther "GetUserLimits") ;;
      check (checkLimits req limitsResp) ;;;
      ret currentOdds
  end.

(** Step 5. *)
Definition lagCheck (req : PlaceBetRequest F) : Flow unit :=
  if StakeMinor req <? LargeStakeThreshold cfg then ret tt else
  match PartitionForMarket (MarketID req) (KafkaNumPartitions cfg) with
  | None => throw ErrPanic
  | Some partition =>
      lag <- mapErr ErrOther (IsLagging redisRateLimit kafka partition) ;;
      let '(lagging, lagErr) := lag in
      match lagErr with
      | Some _ => throw ErrOddsNotSettled
      | None => if lagging : bool then throw ErrOddsNotSettled else ret tt
      end
  end.

Definition deductRequest (req : PlaceBetRequest F) (transactionID betID : string) : DeductBalanceRequest :=
  {| ded_TransactionId := transactionID;
     ded_UserId := UserID req;
     ded_Stake := Some {| AmountMinor := StakeMinor req; Currency := req_Currency req |};
     ded_BetId := betID |}.

(** Steps 6 to 8: the outbox row, the deduction, the row's new status. *)
Definition reserveAndQueue (req : PlaceBetRequest F) (currentOdds : CachedOdds F) : Flow string :=
  betID <- newID uuid ;;
  transactionID <- newID uuid ;;
  t <- now ;;
  match buildBetPlacedPayload betID req currentOdds t with
  | None => throw (ErrOther "build payload")
  | Some payload =>
      writeOutboxPending betID (MarketID req) payload ;;;
      deducted <- catch (zoom wallet (wallet_DeductBalance (deductRequest req transactionID betID))) ;;
      match deducted with
      | Err st =>
          catch (E:=betErr) (cancelOutbox betID) ;;;
          throw (if bool_decide (code st = FailedPrecondition) then ErrInsufficientFunds
                 else ErrOther "DeductBalance")
      | Ok _ =>
          catch (E:=betErr) (markOutboxReady betID) ;;;
          ret betID
      end
  end.

Definition idempotencyTTL : Z := 24 * 3600 * second_us.

Definition PlaceBet (req : PlaceBetRequest F) : Flow (PlaceBetResponse F) :=
  existing <- catch (zoom redisRateLimit (redis_Get (idemKeyOf req))) ;;
  match existing with
  | Ok existingBetID =>
      t <- now ;;
      ret {| resp_BetID := existingBetID; resp_Status := "ACCEPTED";
             resp_OddsDecimal := RequestedOddsDecimal req;
             resp_OddsAmerican := RequestedOddsAmerican req;
             resp_Stake := StakeMinor req; resp_Currency := req_Currency req; PlacedAt := t |}
  | Err _ =>
      currentOdds <- marketAndLimits req ;;
      lagCheck req ;;;
      betID <- reserveAndQueue req currentOdds ;;
      catch (zoom redisRateLimit (redis_Set (idemKeyOf req) betID idempotencyTTL)) ;;;
      t <- now ;;
      ret {| resp_BetID := betID; resp_Status := "ACCEPTED";
             resp_OddsDecimal := co_Decimal currentOdds;
             resp_OddsAmerican := co_American currentOdds;
             resp_Stake := StakeMinor req; resp_Currency := req_Currency req; PlacedAt := t |}
  end.
End BetFlow.

(** ** What the theorems speak about *)

Section Specification.
Context {F Ro Rm Rr K W : Type} `{FloatOps F}.
Context `{RedisClient (bytes F) Ro} `{RedisClient string Rm} `{RedisClient string Rr}.
Context `{OffsetApi K} `{WalletServiceServer W} `{!WalletView W}.
Abbreviation State := (BetAcceptance F Ro Rm Rr K W).
Variable uuid : nat → string.
Variable cfg : Config F.

(** Identifiers to come are not in use. *)
Definition ids_fresh (w : world State) : Prop := ∀ n, (fresh w ≤ n)%nat →
  known (ba_wallet (db w)) (uuid n) = false ∧
  ba_outbox (db w) !! uuid n = None ∧
  ∀ id row, ba_outbox (db w) !! id = Some row → BetID row ≠ uuid n.

(** What steps 2 to 4 have seen when they let a request through. *)
Definition gates_passed (req : PlaceBetRequest F) (odds : CachedOdds F) (w : world State) : Prop :=
  redis_at (ba_redisMarket (db w)) (clock w) (marketKeyOf req) = Some "OPEN" ∧
  (∃ raw, redis_at (ba_redisOdds (db w)) (clock w) (oddsKeyOf req) = Some raw ∧
     Unmarshal decodeCachedOdds raw = Some odds) ∧
  validateOdds req odds (OddsTolerance cfg) = None ∧
  ∃ limits wl wl', db wl = ba_wallet (db w) ∧ clock wl = clock w ∧
    wallet_GetUserLimits {| gul_UserId := UserID req |} wl = (wl', Ok limits) ∧
    checkLimits req limits = None.

(** The row of a bet. *)
Definition betRow (req : PlaceBetRequest F) (betID : string) (payload : bytes F) (t : Z)
    (s : OutboxStatus) : OutboxRow F :=
  {| BetID := betID; ob_Topic := "bet-placed"; PartitionKey := MarketID req; Payload := payload;
     ob_Status := s; CreatedAt := t; PublishedAt := None |}.

Definition same_books (w w' : world State) : Prop :=
  ba_outbox (db w') = ba_outbox (db w) ∧ ba_wallet (db w') = ba_wallet (db w).

(** The new row of bet [uuid n], its deduction under [uuid (n + 1)]. *)
Definition new_row (req : PlaceBetRequest F) (odds : CachedOdds F) (s : OutboxStatus)
    (w w' : world State) : Prop :=
  ∃ payload, buildBetPlacedPayload (uuid (fresh w)) req odds (clock w) = Some payload ∧
    ba_outbox (db w') = <[uuid (S (S (fresh w))) :=
      betRow req (uuid (fresh w)) payload (clock w) s]> (ba_outbox (db w)).

Definition stake_reserved (req : PlaceBetRequest F) (w w' : world State) : Prop :=
  deduct_effect (deductRequest req (uuid (S (fresh w))) (uuid (fresh w)))
    (ba_wallet (db w)) (ba_wallet (db w')).

End Specification.

(** ** Lemmas *)

Section Lemmas.
Context {F Ro Rm Rr K W : Type} `{FloatOps F}.
Context `{RedisClient (bytes F) Ro} `{RedisClient string Rm} `{RedisClient string Rr}.
Context `{OffsetApi K} `{WalletServiceServer W} `{!WalletView W} `{!WalletContract W}.
Abbreviation State := (BetAcceptance F Ro Rm Rr K W).
Context (uuid : nat → string) (cfg : Config F).
Implicit Types (w : world State) (req : PlaceBetRequest F).

Lemma fmap_fresh_bet (f : OutboxRow F → OutboxRow F) betID (t : OutboxTable F) id row :
  (∀ row, BetID row ≠ betID → f row = row) →
  (∀ id row, t !! id = Some row → BetID row ≠ betID) →
  f <$> <[id := row]> t = <[id := f row]> t.
Proof.
  intros Hf Ht. rewrite fmap_insert. f_equal. apply map_eq. intros k. rewrite lookup_fmap.
  destruct (t !! k) as [r|] eqn:Hk; [|done]. cbn. by rewrite (Hf r) by (by eapply Ht).
Qed.

Lemma ready_row_other betID (row : OutboxRow F) : BetID row ≠ betID → ready_row betID row = row.
Proof. intros Hr. unfold ready_row. by destruct (String.eqb_spec (BetID row) betID). Qed.
Lemma cancel_row_other betID (row : OutboxRow F) : BetID row ≠ betID → cancel_row betID row = row.
Proof. intros Hr. unfold cancel_row. by destruct (String.eqb_spec (BetID row) betID). Qed.

Ltac books := unfold same_books in *; cbn in *; destruct_and?; split_and!; intros; congruence.

Lemma marketAndLimits_wp req w :
  wp (marketAndLimits cfg req) (λ w' r,
    same_books w w' ∧ ba_kafka (db w') = ba_kafka (db w) ∧
    ba_redisRateLimit (db w') = ba_redisRateLimit (db w) ∧
    clock w' = clock w ∧ fresh w' = fresh w ∧
    ∀ odds, r = Ok odds → gates_passed cfg req odds w) w.
Proof.
  unfold marketAndLimits. do 3 go_step.
  eapply wp_mono; [|apply redis_Get_law]. intros w1 r1 (Hc1&Hf1&_&Hr1).
  destruct r1 as [st|]; [|books]. go_step; [go_step; books|].
  do 3 go_step. eapply wp_mono; [|apply redis_Get_law]. intros w2 r2 (Hc2&Hf2&_&Hr2).
  destruct r2 as [raw|]; [|books]. cbn in *.
  go_step; [|go_step; books].
  go_step. unfold check at 1. go_step; go_step; [books|].
  do 3 go_step.
  match goal with |- wp ?m _ ?w0 => destruct (m w0) as [w3 r3] eqn:Hrun end.
  apply wp_run. intros w3' r3' Hrun'. rewrite Hrun in Hrun'. injection Hrun' as <- <-.
  pose proof (wp_intro _ _ _ (limits_read_only _ _) _ _ Hrun) as (Hd3&Hc3&Hf3). cbn in *.
  destruct r3 as [limits|]; [|books]. go_step. unfold check. go_step; go_step; [books|].
  go_step. cbn in *. split_and!; try congruence; [by split|].
  intros odds [= <-]. boolify. subst.
  split_and!; [by apply Hr1|eexists; split; [rewrite <- Hc1; by apply Hr2|done]|done|].
  eexists limits, _, w3. split_and!; [| |exact Hrun|done]; cbn; congruence.
Qed.

(** [caught] is any record of the moments at which the odds-management group
    had caught up on a partition. *)
Definition lag_settled (caught : Z → Z → Prop) req w : Prop :=
  LargeStakeThreshold cfg ≤ StakeMinor req →
  ∃ p t0, PartitionForMarket (MarketID req) (KafkaNumPartitions cfg) = Some p ∧
    clock w < t0 + lagCacheTTL ∧ caught t0 p.

Lemma lagCheck_wp caught req w :
  cache_sound caught (ba_redisRateLimit (db w)) →
  (∀ p, caught_up (ba_kafka (db w)) p → caught (clock w) p) →
  wp (lagCheck cfg req) (λ w' r,
    same_books w w' ∧ ba_kafka (db w') = ba_kafka (db w) ∧ clock w' = clock w ∧ fresh w' = fresh w ∧
    cache_sound caught (ba_redisRateLimit (db w')) ∧
    (r = Ok tt → lag_settled caught req w)) w.
Proof.
  intros Hs Hnow. unfold lagCheck, lag_settled.
  go_step; [go_step; boolify; split_and!; try done; intros; lia|].
  go_step; [|go_step; split_and!; try done].
  go_step. go_step. eapply wp_mono; [|apply (IsLagging_wp redisRateLimit kafka caught); [done|apply Hnow]].
  intros w1 r1 (Hs1&[x Hx]&Hc1&Hf1&lagging&err&->&_&Hcaught).
  assert (same_books w w1) by (unfold same_books; by rewrite Hx).
  assert (ba_kafka (db w1) = ba_kafka (db w)) by by rewrite Hx.
  destruct err; [by go_step|]. destruct lagging; [by go_step|].
  go_step. split_and!; try done. intros _ _. destruct (Hcaught eq_refl) as (t0&?&?). eauto.
Qed.

(** Steps 6 to 8 when the identifiers are new. *)
Lemma reserveAndQueue_wp `{!Inj (=) (=) uuid} req odds w :
  ids_fresh uuid w →
  wp (reserveAndQueue uuid req odds) (λ w' r,
    clock w' = clock w ∧ (fresh w ≤ fresh w')%nat ∧
    ba_kafka (db w') = ba_kafka (db w) ∧
    ba_redisRateLimit (db w') = ba_redisRateLimit (db w) ∧
    match r with
    | Ok betID =>
        betID = uuid (fresh w) ∧ fresh w' = S (S (S (fresh w))) ∧ stake_reserved uuid req w w' ∧
        (new_row uuid req odds OutboxStatusReadyToPublish w w' ∨
         new_row uuid req odds OutboxStatusPending w w')
    | Err e =>
        (e = ErrInsufficientFunds ∨ ∃ msg, e = ErrOther msg) ∧
        (same_books w w' ∨
         fresh w' = S (S (S (fresh w))) ∧
         (ba_wallet (db w') = ba_wallet (db w) ∨ stake_reserved uuid req w w') ∧
         (new_row uuid req odds OutboxStatusCancelled w w' ∨
          new_row uuid req odds OutboxStatusPending w w'))
    end) w.
Proof.
  intros Hfresh. unfold reserveAndQueue. do 6 go_step. cbn. go_step.
  2: { go_step. cbn. split_and!; auto; [by eauto|by left]. }
  go_step. unfold writeOutboxPending. do 7 go_step; cbn.
  { split_and!; auto; [by eauto|by left]. }
  destruct (Hfresh (S (S (fresh w)))) as (_&Hid&_); [lia|].
  destruct (Hfresh (fresh w)) as (_&_&Hbets); [done|].
  destruct (Hfresh (S (fresh w))) as (Hknown&_&_); [lia|].
  unfold insertOutbox. rewrite Hid. do 3 go_step.
  eapply wp_mono; [|apply deduct_contract]. cbn. intros w1 [resp|st] (Hc&Hf&Hw1); go_step.
  - rewrite Hknown in Hw1. unfold markOutboxReady. go_run; cbn;
      (split_and!; [done|lia|done|done|done|done|done|]).
    + right. by eexists.
    + left. eexists. split; [done|]. cbn.
      rewrite (fmap_fresh_bet _ (uuid (fresh w))); auto using ready_row_other.
      unfold ready_row; cbn. by rewrite String.eqb_refl.
  - unfold cancelOutbox. go_run; cbn; split_and!; try done; try lia; try (case_bool_decide; by eauto); right;
      (split_and!; [done|destruct Hw1 as [->|[_ ?]]; auto|]).
    + right. by eexists.
    + left. eexists. split; [done|]. cbn.
      rewrite (fmap_fresh_bet _ (uuid (fresh w))); auto using cancel_row_other.
      unfold cancel_row; cbn. by rewrite String.eqb_refl.
Qed.

(** Two states that agree on what [PlaceBet] writes. *)
Lemma books_transport w w1 :
  same_books w w1 → fresh w1 = fresh w → clock w1 = clock w →
  (∀ req w', stake_reserved uuid req w1 w' ↔ stake_reserved uuid req w w') ∧
  (∀ req odds s w', new_row uuid req odds s w1 w' ↔ new_row uuid req odds s w w') ∧
  (∀ w', same_books w1 w' ↔ same_books w w') ∧
  (ids_fresh uuid w → ids_fresh uuid w1).
Proof.
  intros [Ho Hw] Hf Hc. unfold stake_reserved, new_row, same_books, ids_fresh.
  rewrite Ho, Hw, Hf, Hc. done.
Qed.

Lemma idem_not_lag req p : lagKey p ≠ idemKeyOf req.
Proof. unfold lagKey, idemKeyOf. by intros [=]. Qed.

Lemma cache_sound_Get caught (r r' : Rr) :
  (∀ t k v, redis_at r' t k = Some v → redis_at r t k = Some v) →
  cache_sound caught r → cache_sound caught r'.
Proof. intros Hsub Hs t p s z Hat. apply Hsub in Hat. by apply (Hs t p s z). Qed.

Definition accepted_response req (odds : CachedOdds F) w : PlaceBetResponse F :=
  {| resp_BetID := uuid (fresh w); resp_Status := "ACCEPTED"; resp_OddsDecimal := co_Decimal odds;
     resp_OddsAmerican := co_American odds; resp_Stake := StakeMinor req;
     resp_Currency := req_Currency req; PlacedAt := clock w |}.
Definition replayed_response req (betID : string) w : PlaceBetResponse F :=
  {| resp_BetID := betID; resp_Status := "ACCEPTED"; resp_OddsDecimal := RequestedOddsDecimal req;
     resp_OddsAmerican := RequestedOddsAmerican req; resp_Stake := StakeMinor req;
     resp_Currency := req_Currency req; PlacedAt := clock w |}.

(** What a request that passed every check did. *)
Definition bet_accepted caught req w w' (resp : PlaceBetResponse F) : Prop :=
  ∃ odds, gates_passed cfg req odds w ∧ lag_settled caught req w ∧
    resp = accepted_response req odds w ∧ stake_reserved uuid req w w' ∧
    (new_row uuid req odds OutboxStatusReadyToPublish w w' ∨
     new_row uuid req odds OutboxStatusPending w w').

(** What a request that was refused may leave behind. *)
Definition bet_refused req w w' (e : betErr) : Prop :=
  same_books w w' ∨
  (e = ErrInsufficientFunds ∨ ∃ msg, e = ErrOther msg) ∧
  (ba_wallet (db w') = ba_wallet (db w) ∨ stake_reserved uuid req w w') ∧
  ∃ odds, new_row uuid req odds OutboxStatusCancelled w w' ∨
          new_row uuid req odds OutboxStatusPending w w'.

Lemma PlaceBet_wp `{!Inj (=) (=) uuid} caught req w :
  ids_fresh uuid w →
  cache_sound caught (ba_redisRateLimit (db w)) →
  (∀ p, caught_up (ba_kafka (db w)) p → caught (clock w) p) →
  wp (PlaceBet uuid cfg req) (λ w' r,
    clock w' = clock w ∧ (fresh w ≤ fresh w')%nat ∧ ba_kafka (db w') = ba_kafka (db w) ∧
    cache_sound caught (ba_redisRateLimit (db w')) ∧
    match r with
    | Ok resp =>
        (∃ betID, redis_at (ba_redisRateLimit (db w)) (clock w) (idemKeyOf req) = Some betID ∧
           resp = replayed_response req betID w ∧ same_books w w') ∨
        bet_accepted caught req w w' resp ∧ fresh w' = S (S (S (fresh w)))
    | Err e => bet_refused req w w' e ∧ (same_books w w' ∨ fresh w' = S (S (S (fresh w))))
    end) w.
Proof.
  intros Hfresh Hs Hnow. unfold PlaceBet. do 3 go_step.
  eapply wp_mono; [|apply redis_Get_law]. cbn. intros w0 r0 (Hc0&Hf0&Hold0&Hr0).
  eapply cache_sound_Get in Hs; [|done].
  destruct r0 as [betID|e0].
  { go_run. simplify_eq. cbn. split_and!; [done|lia|done|done|]. left. eexists.
    unfold replayed_response. rewrite Hc0. split_and!; [by apply Hr0|done|done]. }
  set (w1 := set_db _ w0).
  assert (same_books w w1 ∧ fresh w1 = fresh w ∧ clock w1 = clock w) as (Hb1&Hf1&Hc1) by (by split_and!).
  assert (∀ odds, gates_passed cfg req odds w1 → gates_passed cfg req odds w) as Hgates.
  { intros odds. unfold gates_passed. rewrite Hc1. done. }
  go_step. eapply wp_mono; [|apply marketAndLimits_wp].
  intros w2 r2 (Hb2&Hk2&Hrl2&Hc2&Hf2&Hg2).
  assert (same_books w w2) as Hb2' by books.
  destruct r2 as [odds|]; [|cbn in *; rewrite Hrl2; split_and!; [congruence|lia|congruence|done|by left|by left]].
  go_step. eapply wp_mono; [|apply (lagCheck_wp caught); [by rewrite Hrl2|rewrite Hk2, Hc2, Hc1; exact Hnow]].
  intros w3 r3 (Hb3&Hk3&Hc3&Hf3&Hs3&Hlag).
  assert (same_books w w3) as Hb3' by books.
  destruct r3 as [[]|]; [|split_and!; [congruence|lia|by rewrite Hk3, Hk2|done|by left|by left]].
  destruct (books_transport w w3) as (Hsr&Hnr&Hsb&Hid); [done|congruence|congruence|].
  go_step. eapply wp_mono; [|apply (reserveAndQueue_wp req odds); by apply Hid].
  intros w4 r4 (Hc4&Hf4&Hk4&Hrl4&H4').
  assert (clock w4 = clock w) as Hc4' by congruence.
  destruct r4 as [betID|e].
  - destruct H4' as (->&Hf4'&Hres&Hrow).
    assert (lag_settled caught req w) as Hl.
    { intros Hle. destruct (Hlag eq_refl Hle) as (p&t0&?&?&?). exists p, t0. by rewrite <- Hc1, <- Hc2. }
    do 3 go_step. eapply wp_mono; [|apply redis_Set_law]. cbn. intros w5 r5 (Hc5&Hf5&Hset).
    go_run. cbn. split_and!; [congruence|lia|by rewrite Hk4, Hk3, Hk2| |].
    + intros t p s z Hat. apply Hset in Hat as [(Hk&_)|[Hat _]]; [by apply idem_not_lag in Hk|].
      rewrite Hrl4 in Hat. by apply (Hs3 t p s z).
    + right. split; [|congruence]. exists odds. split_and!; [by apply Hgates, Hg2|done| | |].
      * unfold accepted_response. by rewrite Hc5, Hc4', Hf3, Hf2, Hf1.
      * by apply Hsr in Hres.
      * by destruct Hrow as [Hrow|Hrow]; apply Hnr in Hrow; [left|right].
  - destruct H4' as [He Hbooks]. split_and!; [done|lia|by rewrite Hk4, Hk3, Hk2|by rewrite Hrl4| |].
    + destruct Hbooks as [Hb|(_&Hw&Hrow)]; [by left; apply Hsb|].
      right. split_and!; [done|by rewrite <- Hsr; destruct Hb3' as [_ <-]|].
      exists odds. by rewrite <- !Hnr.
    + destruct Hbooks as [Hb|(Hf'&_)]; [by left; apply Hsb|right; congruence].
Qed.
End Lemmas.

(** ** The system: bet placement, the relay and the other users of the wallet *)

Section System.
Context {F Ro Rm Rr K W : Type} `{FloatOps F}.
Context `{RedisClient (bytes F) Ro} `{RedisClient string Rm} `{RedisClient string Rr}.
Context `{OffsetApi K} `{SyncProducer F K}.
Context `{WalletServiceServer W} `{!WalletView W} `{!WalletContract W}.
Abbreviation State := (BetAcceptance F Ro Rm Rr K W).
Context (uuid : nat → string) (cfg : Config F).
Implicit Types w : world State.

(** One step: a request, a batch of the relay, a credit or a confirmation by
    another service, or a change of the surroundings (time, caches, broker
    offsets, faults to come). *)
Inductive accept_step w w' : Prop :=
| step_PlaceBet req r :
    in_int64 (StakeMinor req) = true → PlaceBet uuid cfg req w = (w', r) → accept_step w w'
| step_publishBatch locked r :
    publishBatch outbox_table kafka locked w = (w', r) → accept_step w w'
| step_CreditBalance req r :
    (∀ n, (fresh w ≤ n)%nat → cred_TransactionId req ≠ uuid n) →
    zoom wallet (wallet_CreditBalance req) w = (w', r) → accept_step w w'
| step_ConfirmTransaction req r :
    zoom wallet (wallet_ConfirmTransaction req) w = (w', r) → accept_step w w'
| step_surroundings :
    ba_outbox (db w') = ba_outbox (db w) → ba_wallet (db w') = ba_wallet (db w) →
    produced (ba_kafka (db w')) = produced (ba_kafka (db w)) → fresh w' = fresh w →
    accept_step w w'.

(** The message of a bet agrees with a reservation the ledger holds. *)
Definition backs (res : Reservation) (payload : bytes F) : Prop :=
  ∃ kvs, payload = Doc (JObj kvs) ∧
    jstring "bet_id" kvs = Some (res_bet res) ∧
    jstring "user_id" kvs = Some (res_user res) ∧
    jint "stake_minor" kvs = Some (res_stake res).
Definition backed (d : W) (payload : bytes F) : Prop :=
  ∃ t res, reservation d t = Some res ∧ backs res payload.

Definition publishable (s : OutboxStatus) : bool :=
  match s with OutboxStatusReadyToPublish | OutboxStatusPublished => true | _ => false end.

Definition all_backed w : Prop :=
  (∀ id row, ba_outbox (db w) !! id = Some row → publishable (ob_Status row) = true →
     backed (ba_wallet (db w)) (Payload row)) ∧
  (∀ m, m ∈ produced (ba_kafka (db w)) → backed (ba_wallet (db w)) (Value m)).

Lemma payload_backed betID req odds t payload :
  in_int64 (StakeMinor req) = true →
  buildBetPlacedPayload betID req odds t = Some payload →
  backs {| res_user := UserID req; res_stake := StakeMinor req; res_bet := betID |} payload.
Proof.
  intros Hin. unfold buildBetPlacedPayload, Marshal. case_match; [|done]. intros [= <-].
  eexists. split; [done|]. json_keys. unfold into_int64. rewrite Hin. cbn [mbind option_bind].
  json_keys. by split_and!.
Qed.

Lemma backed_mono (d d' : W) payload :
  (∀ t res, reservation d t = Some res → reservation d' t = Some res) →
  backed d payload → backed d' payload.
Proof. intros Hr (t&res&Ht&Hb). exists t, res. auto. Qed.

Lemma deduct_keeps_reservations req (d d' : W) :
  known d (ded_TransactionId req) = false → deduct_effect req d d' →
  ∀ t res, reservation d t = Some res → reservation d' t = Some res.
Proof.
  intros Hk (a&f&_&_&_&_&_&Hother&_) t res Ht. rewrite Hother; [done|]. intros ->.
  apply reservation_known in Ht. congruence.
Qed.

(** The invariant only depends on these parts of the state. *)
Lemma invariant_transport w w' :
  ba_outbox (db w') = ba_outbox (db w) → ba_wallet (db w') = ba_wallet (db w) →
  produced (ba_kafka (db w')) = produced (ba_kafka (db w)) → (fresh w ≤ fresh w')%nat →
  ids_fresh uuid w ∧ all_backed w → ids_fresh uuid w' ∧ all_backed w'.
Proof.
  intros Ho Hw Hp Hf [Hids Hb]. unfold ids_fresh, all_backed. rewrite Ho, Hw, Hp.
  split; [|done]. intros n Hn. apply Hids. lia.
Qed.

Lemma cache_sound_trivial (r : Rr) : cache_sound (λ _ _, True) r.
Proof. intros t p s z _ _ _. exists t. split; [unfold lagCacheTTL; lia|done]. Qed.

(** A new row and a deduction under new identifiers. *)
Lemma fresh_after_bet `{!Inj (=) (=) uuid} req odds s w w' :
  ids_fresh uuid w → fresh w' = S (S (S (fresh w))) → new_row uuid req odds s w w' →
  ba_wallet (db w') = ba_wallet (db w) ∨ stake_reserved uuid req w w' →
  ids_fresh uuid w'.
Proof.
  intros Hids Hf (payload&_&Ho) Hw n Hn. rewrite Hf in Hn.
  destruct (Hids n) as (Hk&Hrow&Hbet); [lia|]. rewrite Ho. split_and!.
  - destruct Hw as [->|(a&f&_&_&_&_&_&_&Hk')]; [done|]. rewrite Hk', Hk, orb_false_r.
    apply bool_decide_eq_false. cbn. intros E%(inj uuid). lia.
  - rewrite lookup_insert_ne; [done|]. intros E%(inj uuid). lia.
  - intros id row. rewrite lookup_insert_Some. intros [[_ <-]|[_ Hid]]; [|by eapply Hbet].
    cbn. intros E%(inj uuid). lia.
Qed.

Lemma backed_after_bet req odds s w w' :
  ids_fresh uuid w → all_backed w → in_int64 (StakeMinor req) = true →
  produced (ba_kafka (db w')) = produced (ba_kafka (db w)) →
  new_row uuid req odds s w w' →
  stake_reserved uuid req w w' ∨
    publishable s = false ∧ ba_wallet (db w') = ba_wallet (db w) →
  all_backed w'.
Proof.
  intros Hids [Hrows Hlog] Hin Hp (payload&Hpay&Ho) Hw.
  assert (∀ b, backed (ba_wallet (db w)) b → backed (ba_wallet (db w')) b) as Hmono.
  { intros b. destruct Hw as [Hw|[_ ->]]; [|done]. apply backed_mono.
    eapply deduct_keeps_reservations, Hw. apply Hids. cbn. lia. }
  split; [|rewrite Hp; auto]. rewrite Ho. intros id row.
  rewrite lookup_insert_Some. intros [[_ <-]|[_ Hid]] Hpub; [|eauto].
  destruct Hw as [(a&f&_&_&_&Hres&_)|[Hs _]]; [|cbn in Hpub; congruence].
  eexists _, _. split; [exact Hres|]. by eapply payload_backed.
Qed.

Lemma PlaceBet_invariant `{!Inj (=) (=) uuid} req w w' r :
  in_int64 (StakeMinor req) = true → PlaceBet uuid cfg req w = (w', r) →
  ids_fresh uuid w ∧ all_backed w → ids_fresh uuid w' ∧ all_backed w'.
Proof.
  intros Hin Hm [Hids Hb].
  assert (∀ p, caught_up (ba_kafka (db w)) p → True) as Hc by done.
  pose proof (PlaceBet_wp uuid cfg (λ _ _, True) req w Hids (cache_sound_trivial _) Hc) as Hwp.
  apply (wp_intro _ _ _ Hwp) in Hm as (_&Hf&Hk&_&Hr). clear Hwp.
  assert (produced (ba_kafka (db w')) = produced (ba_kafka (db w))) as Hp by by rewrite Hk.
  assert (same_books w w' → ids_fresh uuid w' ∧ all_backed w') as Hsame.
  { intros [Ho Hw]. by eapply invariant_transport. }
  destruct r as [resp|e].
  - destruct Hr as [(betID&_&_&Hs)|[(odds&_&_&_&Hres&Hrow) Hf']]; [auto|].
    destruct Hrow as [Hrow|Hrow]; (split; [by eapply fresh_after_bet; eauto|eapply backed_after_bet; eauto]).
  - destruct Hr as [Href [Hs|Hf']]; [auto|]. destruct Href as [Hs|(_&Hw&odds&Hrow)]; [auto|].
    destruct Hrow as [Hrow|Hrow];
      (split; [by eapply fresh_after_bet|eapply backed_after_bet; eauto; destruct Hw; auto]).
Qed.

Lemma publishBatch_invariant locked w w' r :
  publishBatch outbox_table kafka locked w = (w', r) →
  ids_fresh uuid w ∧ all_backed w → ids_fresh uuid w' ∧ all_backed w'.
Proof.
  intros Hm [Hids [Hrows Hlog]].
  apply (wp_intro _ _ _ (publishBatch_wp outbox_table kafka locked w)) in Hm
    as (Hfr&_&Hf&sent&marked&Hp&_&_&Hmk&Hsent&Hlook).
  pose proof (Hfr W wallet _ _) as Hw. cbn in Hp, Hw, Hlook, Hsent.
  assert (∀ id row, ba_outbox (db w') !! id = Some row →
    ∃ row0, ba_outbox (db w) !! id = Some row0 ∧ BetID row = BetID row0 ∧ Payload row = Payload row0 ∧
      (publishable (ob_Status row) = true → publishable (ob_Status row0) = true)) as Hold.
  { intros id row. rewrite Hlook. case_decide as Hid; [|by exists row].
    apply list_elem_of_fmap in Hid as ([k row1]&->&Hin). cbn.
    apply elem_of_sublist with (l2 := sent) in Hin; [|done]. apply Hsent in Hin as (->&Hst&_).
    intros [= <-]. exists row1. cbn. by rewrite Hst. }
  split.
  - intros n Hn. rewrite Hf in Hn. destruct (Hids n Hn) as (Hk&Hrow&Hbet). rewrite Hw, Hlook.
    split_and!; [done|case_decide; by rewrite Hrow|].
    intros id row Hid. apply Hold in Hid as (row0&Hid&->&_). by eapply Hbet.
  - rewrite <- Hw in Hrows, Hlog. split.
    + intros id row Hid Hpub. apply Hold in Hid as (row0&Hid&_&->&Hst). eauto.
    + rewrite Hp. intros m [Hm|Hm]%elem_of_app; [auto|].
      apply list_elem_of_In, in_map_iff in Hm as ([k row]&<-&Hin). apply list_elem_of_In in Hin.
      apply Hsent in Hin as (Hrow&Hst&_). cbn. eapply Hrows; [done|]. by rewrite Hst.
Qed.

Lemma CreditBalance_invariant req w w' r :
  (∀ n, (fresh w ≤ n)%nat → cred_TransactionId req ≠ uuid n) →
  zoom wallet (wallet_CreditBalance req) w = (w', r) →
  ids_fresh uuid w ∧ all_backed w → ids_fresh uuid w' ∧ all_backed w'.
Proof.
  intros Hid Hm [Hids [Hrows Hlog]]. revert w' r Hm. apply wp_intro. go_step.
  eapply wp_mono; [|apply credit_contract]. cbn. intros w1 r1 (_&Hf&Heff).
  assert (db w1 = ba_wallet (db w) ∨ credit_effect req (ba_wallet (db w)) (db w1)) as [Hd|Hd]
    by (destruct r1; auto).
  - unfold ids_fresh, all_backed. cbn. by rewrite Hd, Hf.
  - destruct Hd as (_&_&Hres&Hk). split.
    + intros n. cbn. rewrite Hf. intros Hn. destruct (Hids n Hn) as (Hkn&?&?).
      rewrite Hk, Hkn, orb_false_r. split_and!; try done. apply bool_decide_eq_false.
      intros E. by apply (Hid n Hn).
    + split; cbn; intros *; eauto using backed_mono.
Qed.

Lemma ConfirmTransaction_invariant req w w' r :
  zoom wallet (wallet_ConfirmTransaction req) w = (w', r) →
  ids_fresh uuid w ∧ all_backed w → ids_fresh uuid w' ∧ all_backed w'.
Proof.
  intros Hm [Hids [Hrows Hlog]]. revert w' r Hm. apply wp_intro. go_step.
  eapply wp_mono; [|apply confirm_contract]. cbn. intros w1 r1 (_&Hf&_&Hres&Hk).
  assert (∀ b, backed (ba_wallet (db w)) b → backed (db w1) b) as Hmono.
  { intros b. apply backed_mono. intros t res. by rewrite Hres. }
  split; [|split; cbn; intros *; eauto].
  intros n. cbn. rewrite Hf, Hk. apply Hids.
Qed.

Lemma accept_step_invariant `{!Inj (=) (=) uuid} w w' :
  accept_step w w' → ids_fresh uuid w ∧ all_backed w → ids_fresh uuid w' ∧ all_backed w'.
Proof.
  destruct 1; eauto using PlaceBet_invariant, publishBatch_invariant, CreditBalance_invariant,
    ConfirmTransaction_invariant.
  apply invariant_transport; try done. lia.
Qed.
End System.

(** ** Properties *)

Section Properties.
Context {F Ro Rm Rr K W : Type} `{FloatOps F}.
Context `{RedisClient (bytes F) Ro} `{RedisClient string Rm} `{RedisClient string Rr}.
Context `{OffsetApi K}.
Context `{WalletServiceServer W} `{!WalletView W} `{!WalletContract W}.
Abbreviation State := (BetAcceptance F Ro Rm Rr K W).
Context (uuid : nat → string) `{!Inj (=) (=) uuid} (cfg : Config F).
Implicit Types w : world State.

(** C6. An accepted bet: PlaceBet answers ACCEPTED either by replaying the bet id
    stored under the request's idempotency key, changing neither the outbox nor
    the wallet; or after the market was OPEN, the cached odds were within
    tolerance, the limits allowed the stake and, for a large stake, the
    odds-management group had caught up less than 200 ms before. Then the
    wallet has moved exactly the stake from available, which covered it, to bets
    in flight for this bet, and the outbox holds exactly one new row with the
    bet's event, ready to publish (or still pending when that update failed). *)
Theorem PlaceBet_accepted (caught : Z → Z → Prop) req w w' resp :
  PlaceBet uuid cfg req w = (w', Ok resp) →
  ids_fresh uuid w →
  cache_sound caught (ba_redisRateLimit (db w)) →
  (∀ p, caught_up (ba_kafka (db w)) p → caught (clock w) p) →
  (∃ betID, redis_at (ba_redisRateLimit (db w)) (clock w) (idemKeyOf req) = Some betID ∧
     resp = replayed_response req betID w ∧ same_books w w') ∨
  ∃ odds,
    gates_passed cfg req odds w ∧
    (LargeStakeThreshold cfg ≤ StakeMinor req → ∃ p t0,
       PartitionForMarket (MarketID req) (KafkaNumPartitions cfg) = Some p ∧
       clock w < t0 + lagCacheTTL ∧ caught t0 p) ∧
    resp = accepted_response uuid req odds w ∧
    deduct_effect (deductRequest req (uuid (S (fresh w))) (uuid (fresh w)))
      (ba_wallet (db w)) (ba_wallet (db w')) ∧
    (new_row uuid req odds OutboxStatusReadyToPublish w w' ∨
     new_row uuid req odds OutboxStatusPending w w').
Proof.
  intros Hm Hids Hs Hnow.
  apply (wp_intro _ _ _ (PlaceBet_wp uuid cfg caught req w Hids Hs Hnow)) in Hm as (_&_&_&_&Hr).
  destruct Hr as [Hr|[Hr _]]; [by left|by right].
Qed.


(** Large bets on a market whose partition the broker does not have are
    never accepted, whatever the caches, the wallet and the faults do: with the
    hash of PartitionForMarket that is every market of a negative partition. *)
Theorem PlaceBet_unknown_partition req w w' resp p :
  PartitionForMarket (MarketID req) (KafkaNumPartitions cfg) = Some p →
  log_end (ba_kafka (db w)) TopicBetPlaced p = None →
  LargeStakeThreshold cfg ≤ StakeMinor req →
  (∀ t s, redis_at (ba_redisRateLimit (db w)) t (lagKey p) ≠ Some s) →
  (∀ t s, redis_at (ba_redisRateLimit (db w)) t (idemKeyOf req) ≠ Some s) →
  ids_fresh uuid w →
  PlaceBet uuid cfg req w ≠ (w', Ok resp).
Proof.
  intros Hp Hend Hlarge Hlag Hidem Hids Hm.
  assert (cache_sound (λ _ q, q ≠ p) (ba_redisRateLimit (db w))) as Hs.
  { intros t q s z Hat _ _. exists t. split; [unfold lagCacheTTL; lia|].
    intros ->. by apply Hlag in Hat. }
  assert (∀ q, caught_up (ba_kafka (db w)) q → q ≠ p) as Hnow.
  { intros q (e&He&_) ->. congruence. }
  apply (wp_intro _ _ _ (PlaceBet_wp uuid cfg (λ _ q, q ≠ p) req w Hids Hs Hnow)) in Hm
    as (_&_&_&_&[(betID&Hat&_)|[(odds&_&Hsettled&_) _]]); [by apply Hidem in Hat|].
  destruct (Hsettled Hlarge) as (q&t0&Hq&_&Hne). congruence.
Qed.
End Properties.

(** No bet is announced without its stake: from an empty outbox and an empty
    log, after any sequence of requests, relay batches, credits and
    confirmations, under any faults, every message in the log names a bet, a
    user and a stake for which the wallet's ledger holds the reservation; and so
    does every row the relay may still publish. *)
Theorem published_bets_are_backed {F Ro Rm Rr K W : Type} `{FloatOps F}
    `{RedisClient (bytes F) Ro} `{RedisClient string Rm} `{RedisClient string Rr}
    `{OffsetApi K} `{SyncProducer F K} `{WalletServiceServer W} `{!WalletView W} `{!WalletContract W}
    (uuid : nat → string) `{!Inj (=) (=) uuid} (cfg : Config F) (w w' : world (BetAcceptance F Ro Rm Rr K W)) :
  ids_fresh uuid w → ba_outbox (db w) = ∅ → produced (ba_kafka (db w)) = [] →
  rtc (accept_step uuid cfg) w w' →
  (∀ m, m ∈ produced (ba_kafka (db w')) → ∃ t res,
     reservation (ba_wallet (db w')) t = Some res ∧ backs res (Value m)) ∧
  (∀ id row, ba_outbox (db w') !! id = Some row → ob_Status row = OutboxStatusReadyToPublish →
     ∃ t res, reservation (ba_wallet (db w')) t = Some res ∧ backs res (Payload row)).
Proof.
  intros Hids Ho Hp Hsteps.
  assert (ids_fresh uuid w ∧ all_backed w) as Hinv.
  { split; [done|]. split; [intros id row; by rewrite Ho|].
    intros m. rewrite Hp. intros Hm. by apply not_elem_of_nil in Hm. }
  assert (ids_fresh uuid w' ∧ all_backed w') as [_ [Hrows Hlog]].
  { clear Hids Ho Hp. induction Hsteps; [done|]. eauto using accept_step_invariant. }
  split; [done|]. intros id row Hid Hst. apply (Hrows id row Hid). by rewrite Hst.
Qed.

(** validateOdds on exact prices accepts exactly the requests whose odds
    differ from the cached ones by at most the tolerated fraction of the latter,
    and never anything when the cached price is not positive. *)
Theorem validateOdds_exact (req : PlaceBetRequest R) (odds : CachedOdds R) (tolerance : R) :
  validateOdds req odds tolerance = None ↔
  (0 < co_Decimal odds)%R ∧
  (Rabs (RequestedOddsDecimal req - co_Decimal odds) <= tolerance * co_Decimal odds)%R.
Proof.
  unfold validateOdds, abs64, fgt. cbn.
  set (c := co_Decimal odds). set (q := RequestedOddsDecimal req).
  assert ((if Rltb (q - c) 0 then - (q - c) else q - c) = Rabs (q - c))%R as ->.
  { unfold Rltb. destruct (Rlt_dec _ _); [by rewrite Rabs_left|rewrite Rabs_right; lra]. }
  destruct (Rleb c 0) eqn:Hc; [apply Rleb_true in Hc; split; [done|intros [? _]; lra]|].
  apply Rleb_false in Hc.
  assert (Rabs (q - c) = Rabs (q - c) / c * c)%R as Hdiv by (field; lra).
  destruct (Rltb tolerance _) eqn:Ht; autorewrite with real in Ht.
  - split; [done|]. intros [_ Hle]. exfalso. rewrite Hdiv in Hle. nra.
  - split; [|done]. intros _. split; [done|]. rewrite Hdiv. by apply Rmult_le_compat_r; [lra|].
Qed.

(** checkLimits on non-negative limits (which Account & Wallet reports, with
    the amount staked so far) lets a stake through exactly when it exceeds
    neither the single-stake limit nor what is left of the daily one; a limit
    that is not set does not restrict. *)
Theorem checkLimits_exact {F} (req : PlaceBetRequest F) (limits : GetUserLimitsResponse) :
  let non_negative m := match m with Some m => 0 ≤ AmountMinor m ≤ int64_max | None => True end in
  non_negative (DailyLimit limits) → non_negative (DailyStakedSoFar limits) →
  checkLimits req limits = None ↔
  (∀ m, MaxSingleStake limits = Some m → StakeMinor req ≤ AmountMinor m) ∧
  (∀ l s, DailyLimit limits = Some l → DailyStakedSoFar limits = Some s →
     AmountMinor s + StakeMinor req ≤ AmountMinor l).
Proof.
  cbn. intros Hl Hs. unfold checkLimits.
  destruct (MaxSingleStake limits) as [m|]; [destruct (Z.ltb_spec (AmountMinor m) (StakeMinor req))|].
  { split; [done|]. intros [Hm _]. specialize (Hm m eq_refl). lia. }
  all: destruct (DailyLimit limits) as [l|], (DailyStakedSoFar limits) as [s|];
    try (split; [intros _; split; intros; simplify_eq; lia|done]).
  all: rewrite wrap64_small by (unfold int64_min, int64_max in *; lia);
    case_match; boolify; (split; [|done || intros [_ Hd]; specialize (Hd _ _ eq_refl eq_refl); lia]);
    try done; intros _; split; intros; simplify_eq; lia.
Qed.
