(* ===== verification/BetFlowExamples.v ===== *)
(** * Bet placement on concrete inputs

    The service of [BetFlow.v] over the wallet of [Wallet.v], the reference
    caches and broker and machine floats: the witnesses of its theorems, and
    the run in which a lost answer of the wallet strands the stake. *)
From Stdlib Require Import Ascii.
From S2P Require Import BetFlow Wallet.
Local Open Scope Z_scope.

#[local] Existing Instance inert_platform.

(** Identifiers for the examples: [n] letters. *)
Fixpoint ex_uuid (n : nat) : string :=
  match n with O => "u" | S n => String "u"%char (ex_uuid n) end.
#[export] Instance ex_uuid_inj : Inj (=) (=) ex_uuid.
Proof.
  intros n. induction n as [|n IH]; intros [|m] E; [done|by destruct m|by destruct n|].
  f_equal. apply IH. by injection E.
Qed.

Abbreviation Broker := (Offsets * list (ProducerMessage binary64))%type.
Abbreviation Bets :=
  (BetAcceptance binary64 (RedisMap (bytes binary64)) (RedisMap string) (RedisMap string) Broker WalletDB).

Definition ex_req (key market : string) (stake : Z) : PlaceBetRequest binary64 := {|
  IdempotencyKey := key; UserID := "ann"; MarketID := market; MarketName := "Knicks - Nets";
  SelectionID := "home"; SelectionName := "Knicks"; RequestedOddsDecimal := lit 25 10;
  RequestedOddsAmerican := 150; StakeMinor := stake; req_Currency := "USD" |}.

Definition ex_cached : bytes binary64 :=
  Doc (JObj [("decimal", JNum (lit 25 10)); ("american", JInt 150); ("src_offset", JInt 4);
             ("updated_at", JStr "2026-03-01T12:30:45Z")]).

(** Ann has deposited 500.00; two markets are open; the odds-management group
    has caught up on the partition of one of them, the other has none. *)
Definition ex_wallet : WalletDB := db (run_tx (TxDeposit
  {| cash_TransactionId := "dep1"; cash_UserId := "ann"; cash_Amount := usd 50000;
     cash_PaymentMethod := "card" |}) (at_ empty_db)).1.
Definition ex_bets : Bets := Build_BetAcceptance
  ∅
  {[ "odds:knicks-nets:home" := (ex_cached, 9000000); "odds:lakers:home" := (ex_cached, 9000000) ]}
  {[ "market:status:knicks-nets" := ("OPEN", 9000000); "market:status:lakers" := ("OPEN", 9000000) ]}
  ∅
  ({| ends := {[ ("bet-placed", 9) := 7 ]};
      group_offsets := {[ ("odds-management-cg", "bet-placed", 9) := 7 ]} |}, [])
  ex_wallet.
Definition ex_world (fs : list bool) : world Bets := World ex_bets 5000000 0 fs.

Lemma ex_ids_fresh fs : ids_fresh ex_uuid (ex_world fs).
Proof.
  intros n Hn. split_and!; [|done|by intros id row].
  cbn. unfold wallet_known. apply bool_decide_eq_false. intros [e He].
  assert (ledger_entries ex_wallet = {[ "dep1" := cashierEntry "CREDIT_DEPOSIT"
    {| cash_TransactionId := "dep1"; cash_UserId := "ann"; cash_Amount := usd 50000;
       cash_PaymentMethod := "card" |} 50000 "USD" 5000000 ]}) as Hl by (vm_compute; reflexivity).
  rewrite Hl, lookup_singleton_Some in He. destruct He as [He _]. by destruct n.
Qed.

Definition ex_place (fs : list bool) (req : PlaceBetRequest binary64) :=
  PlaceBet ex_uuid DefaultConfig req (ex_world fs).

Definition ex_caught (t p : Z) : Prop := t = 5000000 ∧ p = 9.

Lemma ex_caught_now fs p : caught_up (ba_kafka (db (ex_world fs))) p → ex_caught (clock (ex_world fs)) p.
Proof.
  intros (e&He&_). split; [done|]. cbn in He. unfold offset_in in He.
  destruct (decide (p = 9)) as [|Hp]; [done|].
  rewrite lookup_singleton_ne in He; [done|]. congruence.
Qed.

Lemma PlaceBet_accepted_witness :
  let req := ex_req "k1" "knicks-nets" 20000 in
  let run := ex_place [] req in
  ∃ odds, run.2 = Ok (accepted_response ex_uuid req odds (ex_world [])) ∧
    account (ba_wallet (db run.1)) "ann" = Some (30000, 20000) ∧
    (∃ betID, redis_at (ba_redisRateLimit ex_bets) 5000000 "idem:k1" = Some betID ∨
       deduct_effect (deductRequest req (ex_uuid 1) (ex_uuid 0)) ex_wallet (ba_wallet (db run.1))).
Proof.
  exists {| co_Decimal := lit 25 10; co_American := 150; co_SourceEventOffset := 4 |}.
  assert (ex_place [] (ex_req "k1" "knicks-nets" 20000) =
    ((ex_place [] (ex_req "k1" "knicks-nets" 20000)).1,
     Ok (accepted_response ex_uuid (ex_req "k1" "knicks-nets" 20000)
       {| co_Decimal := lit 25 10; co_American := 150; co_SourceEventOffset := 4 |} (ex_world [])))) as Hrun
    by (apply run_snd; vm_compute; reflexivity).
  split; [vm_compute; reflexivity|]. split; [vm_compute; reflexivity|].
  destruct (PlaceBet_accepted ex_uuid DefaultConfig ex_caught _ _ _ _ Hrun) as [(betID&Hat&_)|(odds&_&_&_&Hd&_)];
    [apply ex_ids_fresh|by intros t p s z|apply ex_caught_now|..].
  - exists betID. left. exact Hat.
  - exists "". right. exact Hd.
Defined.


(** The partition of the second market is -3. *)
Lemma PlaceBet_unknown_partition_witness :
  let req := ex_req "k1" "lakers" 20000 in
  (ex_place [] req).2 = Err ErrOddsNotSettled ∧
  ∀ w' resp, ex_place [] req ≠ (w', Ok resp).
Proof.
  split; [vm_compute; reflexivity|]. intros w' resp.
  apply (PlaceBet_unknown_partition ex_uuid DefaultConfig (ex_req "k1" "lakers" 20000) (ex_world []) w' resp (-3));
    [vm_compute; reflexivity|vm_compute; reflexivity|by cbn|..].
  - intros t s Hat. cbn in Hat. unfold redis_live in Hat. by rewrite lookup_empty in Hat.
  - intros t s Hat. cbn in Hat. unfold redis_live in Hat. by rewrite lookup_empty in Hat.
  - apply ex_ids_fresh.
Defined.

(** A request, then a batch of the relay. *)
Definition ex_placed : world Bets := (ex_place [] (ex_req "k1" "knicks-nets" 20000)).1.
Definition ex_relayed : world Bets := (publishBatch outbox_table kafka (λ _, false) ex_placed).1.

Lemma published_bets_are_backed_witness :
  length (produced (ba_kafka (db ex_relayed))) = 1%nat ∧
  ∀ m, m ∈ produced (ba_kafka (db ex_relayed)) → ∃ t res,
    reservation (ba_wallet (db ex_relayed)) t = Some res ∧ backs res (Value m).
Proof.
  split; [vm_compute; reflexivity|].
  apply (published_bets_are_backed ex_uuid DefaultConfig (ex_world []) ex_relayed);
    [apply ex_ids_fresh|reflexivity|reflexivity|].
  eapply rtc_l; [|eapply rtc_l; [|apply rtc_refl]].
  - apply (step_PlaceBet ex_uuid DefaultConfig (ex_world []) ex_placed (ex_req "k1" "knicks-nets" 20000)
      (ex_place [] (ex_req "k1" "knicks-nets" 20000)).2); [reflexivity|apply surjective_pairing].
  - eapply (step_publishBatch ex_uuid DefaultConfig ex_placed ex_relayed (λ _, false)), surjective_pairing.
Defined.

Lemma checkLimits_exact_witness :
  let limits := {| MaxSingleStake := usd 100000; DailyLimit := usd 1000000;
                   DailyStakedSoFar := usd 990000; gul_KycStatus := KYC_STATUS_VERIFIED |} in
  checkLimits (ex_req "k1" "m" 20000) limits = Some ErrLimitExceeded ∧
  (checkLimits (ex_req "k1" "m" 10000) limits = None ↔
   (∀ m, MaxSingleStake limits = Some m → 10000 ≤ AmountMinor m) ∧
   (∀ l s, DailyLimit limits = Some l → DailyStakedSoFar limits = Some s →
      AmountMinor s + 10000 ≤ AmountMinor l)).
Proof.
  split; [vm_compute; reflexivity|].
  apply (checkLimits_exact (ex_req "k1" "m" 10000)); cbn; unfold int64_max; lia.
Defined.

(** A lost answer strands the stake: when the connection drops after the
    wallet has committed the deduction, PlaceBet reports an error and cancels
    the row of the bet, so nothing is ever published for it, but the stake has
    left Ann's available balance and stays reserved. *)
Theorem PlaceBet_lost_answer_strands_stake :
  let req := ex_req "k1" "knicks-nets" 5000 in
  let run := PlaceBet (H4 := wallet_client) ex_uuid DefaultConfig req
               (ex_world [false; false; false; false; false; false; false;
                          false; false; false; false; false; false; false; false; false; false; true]) in
  run.2 = Err (ErrOther "DeductBalance") ∧
  ob_Status <$> ba_outbox (db run.1) !! ex_uuid 2 = Some OutboxStatusCancelled ∧
  account (ba_wallet (db (ex_world []))) "ann" = Some (50000, 0) ∧
  account (ba_wallet (db run.1)) "ann" = Some (45000, 5000) ∧
  reservation (ba_wallet (db run.1)) (ex_uuid 1) =
    Some {| res_user := "ann"; res_stake := 5000; res_bet := ex_uuid 0 |}.
Proof. split_and!; vm_compute; reflexivity. Qed.
