(* ===== verification/BetInterleaving.v ===== *)
(** * Bet placement under interleaving

    [PlaceBet] and the relay as the sequences of their outside calls, run by any
    number of requests and relays (of any number of processes) over one outbox, one
    log and one wallet, while other services credit and confirm. The
    theorems: without interruption the sequences are the methods of [BetFlow]
    and [Outbox]; in every interleaving what is announced is backed by a
    reservation, and an accepted answer agrees with the row that was queued for it. What
    interleaving does break is computed at the end: two requests under one
    idempotency key both place a bet, the daily limit is exceeded, two
    relays send a row twice. *)
From S2P Require Export BetFlow Interleaving.
Local Open Scope Z_scope.
Local Open Scope calls_scope.

(** ** The sequences *)

Section Sequences.
Context {F Ro Rm Rr K W : Type} `{FloatOps F}.
Context `{RedisClient (bytes F) Ro} `{RedisClient string Rm} `{RedisClient string Rr}.
Context `{OffsetApi K} `{SyncProducer F K} `{WalletServiceServer W}.
Abbreviation State := (BetAcceptance F Ro Rm Rr K W).
Abbreviation Flow A := (Calls State betErr A).
Variable uuid : nat → string.
Variable cfg : Config F.

(** [lc.mu] keeps the two queries of one process together; here they may be apart. *)
Definition fetchLag_calls (partition : Z) : Calls State string Z :=
  latestOffset <- cmapErr (λ e, "GetOffset: " +:+ e) (call (zoom kafka (GetOffset TopicBetPlaced partition))) ;;
  block <- cmapErr (λ e, "ListConsumerGroupOffsets: " +:+ e)
    (call (zoom kafka (ListConsumerGroupOffsets OddsManagementConsumerGroup TopicBetPlaced partition))) ;;
  match block with
  | None => cret latestOffset
  | Some b =>
      match block_Err b with
      | Some e => cthrow ("committed offset block error: " +:+ e)
      | None =>
          let lag := wrap64 (latestOffset - block_Offset b) in
          cret (if lag <? 0 then 0 else lag)
      end
  end.

Definition IsLagging_calls (partition : Z) : Calls State string (bool * option string) :=
  cached <- ccatch (call (cachedLag redisRateLimit partition)) ;;
  match cached with
  | Ok (Some z) => cret (0 <? z, None)
  | _ =>
      fetched <- ccatch (fetchLag_calls partition) ;;
      match fetched with
      | Err e => cret (true, Some ("lag_checker: fetch lag: " +:+ e))
      | Ok lag =>
          ccatch (E':=string) (call (zoom redisRateLimit (redis_Set (lagKey partition) (pretty lag) lagCacheTTL))) ;;;
          cret (0 <? lag, None)
      end
  end.

Definition ccheck (e : option betErr) : Flow unit :=
  match e with Some e => cthrow e | None => cret tt end.

Definition marketAndLimits_calls (req : PlaceBetRequest F) : Flow (CachedOdds F) :=
  marketStatus <- call (zoom redisMarket (redis_Get (marketKeyOf req)))
    or_throw (ErrOther "market status cache miss") ;;
  if negb (marketStatus =? "OPEN")%string then cthrow ErrMarketNotOpen else
  oddsRaw <- call (zoom redisOdds (redis_Get (oddsKeyOf req))) or_throw (ErrOther "odds cache miss") ;;
  match Unmarshal decodeCachedOdds oddsRaw with
  | None => cthrow (ErrOther "corrupt odds cache entry")
  | Some currentOdds =>
      ccheck (validateOdds req currentOdds (OddsTolerance cfg)) ;;;
      limitsResp <- call (zoom wallet (wallet_GetUserLimits {| gul_UserId := UserID req |}))
        or_throw (ErrOther "GetUserLimits") ;;
      ccheck (checkLimits req limitsResp) ;;;
      cret currentOdds
  end.

Definition lagCheck_calls (req : PlaceBetRequest F) : Flow unit :=
  if StakeMinor req <? LargeStakeThreshold cfg then cret tt else
  match PartitionForMarket (MarketID req) (KafkaNumPartitions cfg) with
  | None => cthrow ErrPanic
  | Some partition =>
      lag <- cmapErr ErrOther (IsLagging_calls partition) ;;
      let '(lagging, lagErr) := lag in
      match lagErr with
      | Some _ => cthrow ErrOddsNotSettled
      | None => if lagging : bool then cthrow ErrOddsNotSettled else cret tt
      end
  end.

(** The INSERT with its NOW(). *)
Definition insertPending (id betID marketID : string) (payload : bytes F) : Go State dberr unit :=
  gbind now (λ t, zoom outbox_table (exec (insertOutbox id (
    {| BetID := betID; ob_Topic := "bet-placed"; PartitionKey := marketID; Payload := payload;
       ob_Status := OutboxStatusPending; CreatedAt := t; PublishedAt := None |})))).
Definition writeOutboxPending_calls (betID marketID : string) (payload : bytes F) : Flow unit :=
  id <- call (newID uuid) ;;
  call (insertPending id betID marketID payload) or_throw (ErrOther "write outbox pending").

Definition reserveAndQueue_calls (req : PlaceBetRequest F) (currentOdds : CachedOdds F) : Flow string :=
  betID <- call (newID uuid) ;;
  transactionID <- call (newID uuid) ;;
  t <- call now ;;
  match buildBetPlacedPayload betID req currentOdds t with
  | None => cthrow (ErrOther "build payload")
  | Some payload =>
      writeOutboxPending_calls betID (MarketID req) payload ;;;
      deducted <- ccatch (call (zoom wallet (wallet_DeductBalance (deductRequest req transactionID betID)))) ;;
      match deducted with
      | Err st =>
          ccatch (E':=betErr) (call (cancelOutbox betID)) ;;;
          cthrow (if bool_decide (code st = FailedPrecondition) then ErrInsufficientFunds
                  else ErrOther "DeductBalance")
      | Ok _ =>
          ccatch (E':=betErr) (call (markOutboxReady betID)) ;;;
          cret betID
      end
  end.

Definition PlaceBet_calls (req : PlaceBetRequest F) : Flow (PlaceBetResponse F) :=
  existing <- ccatch (call (zoom redisRateLimit (redis_Get (idemKeyOf req)))) ;;
  match existing with
  | Ok existingBetID =>
      t <- call now ;;
      cret {| resp_BetID := existingBetID; resp_Status := "ACCEPTED";
              resp_OddsDecimal := RequestedOddsDecimal req;
              resp_OddsAmerican := RequestedOddsAmerican req;
              resp_Stake := StakeMinor req; resp_Currency := req_Currency req; PlacedAt := t |}
  | Err _ =>
      currentOdds <- marketAndLimits_calls req ;;
      lagCheck_calls req ;;;
      betID <- reserveAndQueue_calls req currentOdds ;;
      ccatch (call (zoom redisRateLimit (redis_Set (idemKeyOf req) betID idempotencyTTL))) ;;;
      t <- call now ;;
      cret {| resp_BetID := betID; resp_Status := "ACCEPTED";
              resp_OddsDecimal := co_Decimal currentOdds;
              resp_OddsAmerican := co_American currentOdds;
              resp_Stake := StakeMinor req; resp_Currency := req_Currency req; PlacedAt := t |}
  end.

Definition publish_calls (r : string * OutboxRow F) : Calls State string unit :=
  cmapErr (λ e, "kafka produce: " +:+ e) (call (zoom kafka (SendMessage (row_message r)))) ;;;
  ccatch (E':=string) (call (markPublished outbox_table r.1)) ;;;
  cret tt.

(** The locks of SELECT ... FOR UPDATE are gone when the statement ends: there is
    no transaction around the batch. *)
Definition publishBatch_calls (locked : string → bool) : Calls State string unit :=
  rows <- cmapErr (λ e, "fetchReady: " +:+ e) (call (fetchReady outbox_table locked 100)) ;;
  cforM_ rows (λ r, ccatch (E':=string) (publish_calls r) ;;; cret tt).

(** ** Without interruption *)

Ltac alone_run := repeat (cbn beta iota zeta; alone_step).

Lemma IsLagging_calls_alone partition w :
  alone (IsLagging_calls partition) w = IsLagging redisRateLimit kafka partition w.
Proof. unfold IsLagging_calls, IsLagging, fetchLag_calls, fetchLag. alone_run. Qed.

Lemma writeOutboxPending_calls_alone betID marketID payload w :
  alone (writeOutboxPending_calls betID marketID payload) w = writeOutboxPending uuid betID marketID payload w.
Proof.
  apply alone_bind; intros; [apply alone_call|]. unfold cmapErr. rewrite alone_cmap, alone_call.
  unfold insertPending, mapErr, gbind, now. by destruct (zoom _ _ _) as [? []].
Qed.

Lemma reserveAndQueue_calls_alone req odds w :
  alone (reserveAndQueue_calls req odds) w = reserveAndQueue uuid req odds w.
Proof.
  unfold reserveAndQueue_calls, reserveAndQueue. alone_run. apply writeOutboxPending_calls_alone.
Qed.

(** The sequence of calls is the method: run without interruption,
    [PlaceBet_calls] is [PlaceBet] and [publishBatch_calls] is [publishBatch], on
    every world and under every schedule of faults. *)
Theorem calls_are_the_methods w :
  (∀ req, alone (PlaceBet_calls req) w = PlaceBet uuid cfg req w) ∧
  (∀ locked, alone (publishBatch_calls locked) w = publishBatch outbox_table kafka locked w).
Proof.
  split.
  - intros req. unfold PlaceBet_calls, PlaceBet, marketAndLimits_calls, marketAndLimits, ccheck, check,
      lagCheck_calls, lagCheck. alone_run; auto using IsLagging_calls_alone, reserveAndQueue_calls_alone.
  - intros locked. unfold publishBatch_calls, publishBatch, publish_calls, publish. alone_run.
Qed.
End Sequences.

(** ** What the threads share *)

Section Sharing.
Context {F Ro Rm Rr K W : Type} `{FloatOps F}.
Context `{RedisClient (bytes F) Ro} `{RedisClient string Rm} `{RedisClient string Rr}.
Context `{OffsetApi K} `{SyncProducer F K}.
Context `{WalletServiceServer W} `{!WalletView W} `{!WalletContract W}.
Abbreviation State := (BetAcceptance F Ro Rm Rr K W).
Context (uuid : nat → string) `{!Inj (=) (=) uuid}.
Implicit Types (w : world State) (o : gset nat).

Abbreviation rows w := (ba_outbox (db w)).
Abbreviation ledger w := (ba_wallet (db w)).
Abbreviation sent w := (produced (ba_kafka (db w))).
Abbreviation idem w := (λ t key, redis_at (ba_redisRateLimit (db w)) t ("idem:" +:+ key)).

(** A bet with its reservation and its row. *)
Definition has_bet w (b : string) : Prop := ∃ t res id row,
  reservation (ledger w) t = Some res ∧ res_bet res = b ∧
  rows w !! id = Some row ∧ BetID row = b ∧ backs res (Payload row).

Record bets_inv w : Prop := {
  bi_ids : ids_fresh uuid w;
  bi_rows id row : rows w !! id = Some row → publishable (ob_Status row) = true → backed (ledger w) (Payload row);
  bi_sent id row : rows w !! id = Some row → ob_Status row = OutboxStatusPublished → row_message (id, row) ∈ sent w;
  bi_log m : m ∈ sent w → ∃ id row,
    rows w !! id = Some row ∧ publishable (ob_Status row) = true ∧ m = row_message (id, row);
  bi_idem t key b : idem w t key = Some b → has_bet w b
}.

(** What the owner of the identifiers [o] can count on: the books only grow, and
    nobody else touches what carries its identifiers, but for a relay that
    publishes a row that is ready. *)
Record bets_rely o w w' : Prop := {
  br_fresh : (fresh w ≤ fresh w')%nat;
  br_reservation t res : reservation (ledger w) t = Some res → reservation (ledger w') t = Some res;
  br_sent m : m ∈ sent w → m ∈ sent w';
  br_rows id row : rows w !! id = Some row → ∃ row', rows w' !! id = Some row' ∧
    row_message (id, row') = row_message (id, row) ∧
    (publishable (ob_Status row) = true → publishable (ob_Status row') = true);
  br_known n : n ∈ o → known (ledger w') (uuid n) = known (ledger w) (uuid n);
  br_key n : n ∈ o → rows w !! uuid n = None → rows w' !! uuid n = None;
  br_bet n id row' : n ∈ o → rows w' !! id = Some row' → BetID row' = uuid n →
    ∃ row, rows w !! id = Some row ∧ BetID row = uuid n ∧
      (ob_Status row' = ob_Status row ∨ publishable (ob_Status row) = true);
  br_idem n t key : n ∈ o → idem w' t key = Some (uuid n) → idem w t key = Some (uuid n)
}.

Definition drawn o w : Prop := ∀ n, n ∈ o → (n < fresh w)%nat.

Lemma bets_rely_refl o w : bets_rely o w w.
Proof. split; eauto. Qed.

Lemma bets_rely_trans o w1 w2 w3 : bets_rely o w1 w2 → bets_rely o w2 w3 → bets_rely o w1 w3.
Proof.
  intros H12 H23. split; eauto using br_reservation, br_sent, br_key, br_idem.
  - etrans; by eapply br_fresh.
  - intros id row Hrow. destruct (br_rows _ _ _ H12 id row Hrow) as (row2&Hrow2&Hm2&Hp2).
    destruct (br_rows _ _ _ H23 id row2 Hrow2) as (row3&Hrow3&Hm3&Hp3).
    exists row3. split_and!; [done|congruence|auto].
  - intros n Hn. rewrite (br_known _ _ _ H23 n Hn). by apply (br_known _ _ _ H12).
  - intros n id row3 Hn Hrow3 Hb. destruct (br_bet _ _ _ H23 n id row3 Hn Hrow3 Hb) as (row2&Hrow2&Hb2&Hs2).
    destruct (br_bet _ _ _ H12 n id row2 Hn Hrow2 Hb2) as (row1&Hrow1&Hb1&Hs1).
    exists row1. split_and!; [done|done|]. destruct Hs1 as [Hs1|?]; [|by right]. rewrite <- Hs1. done.
Qed.

#[export] Instance bets_shares : Shares State (gset nat).
Proof.
  refine {| inv := bets_inv; rely := bets_rely; held := drawn; apart := disjoint; nothing := ∅ |}.
  - apply bets_rely_refl.
  - apply bets_rely_trans.
  - intros o w w' Hr Hh n Hn. specialize (Hh n Hn). pose proof (br_fresh _ _ _ Hr). lia.
  - by intros o o' ?.
  - by intros w n ?%not_elem_of_empty.
  - intros o. apply disjoint_empty_l.
Defined.

(** ** Quiet steps: nothing of the books changes *)

Record quiet w w' : Prop := {
  q_rows : rows w' = rows w;
  q_ledger : ledger w' = ledger w;
  q_sent : sent w' = sent w;
  q_fresh : (fresh w ≤ fresh w')%nat;
  q_idem t key b : idem w' t key = Some b → idem w t key = Some b
}.

Lemma has_bet_mono w w' b :
  (∀ t res, reservation (ledger w) t = Some res → reservation (ledger w') t = Some res) →
  (∀ id row, rows w !! id = Some row → ∃ row', rows w' !! id = Some row' ∧
     row_message (id, row') = row_message (id, row)) →
  has_bet w b → has_bet w' b.
Proof.
  intros Hres Hrows (t&res&id&row&Ht&Hb&Hrow&Hbet&Hbk).
  destruct (Hrows id row Hrow) as (row'&Hrow'&Hm). unfold row_message in Hm. cbn in Hm. injection Hm as Hm1 Hm2 Hm3 Hm4.
  exists t, res, id, row'. split_and!; [by apply Hres|done|done|congruence|by rewrite Hm3].
Qed.

Lemma rely_has_bet o w w' b : bets_rely o w w' → has_bet w b → has_bet w' b.
Proof.
  intros Hr. apply has_bet_mono; [by apply (br_reservation _ _ _ Hr)|].
  intros id row Hrow. destruct (br_rows _ _ _ Hr id row Hrow) as (row'&?&?&_). eauto.
Qed.

Lemma quiet_rely o w w' : quiet w w' → bets_rely o w w'.
Proof.
  intros [Hrows Hl Hs Hf Hi]. split; rewrite ?Hrows, ?Hl, ?Hs; eauto.
Qed.

Lemma quiet_inv w w' : quiet w w' → bets_inv w → bets_inv w'.
Proof.
  intros Hq [Hids Hrow Hsent Hlog Hidem]. pose proof (quiet_rely ∅ _ _ Hq) as Hr.
  destruct Hq as [Hrows Hl Hs Hf Hi]. split; rewrite ?Hrows, ?Hl, ?Hs; try done.
  - intros n Hn. rewrite Hrows, Hl. apply Hids. lia.
  - intros t key b Hb. eapply rely_has_bet; [exact Hr|eauto].
Qed.

Lemma quiet_refl w : quiet w w.
Proof. by split. Qed.

Lemma quiet_guarantees o w w' : quiet w w' → bets_inv w → drawn o w → guarantees o o w w'.
Proof.
  intros Hq Hi Hh. pose proof (quiet_rely o _ _ Hq) as Hr. split_and!.
  - by eapply quiet_inv.
  - by eapply rely_held.
  - intros o2 Ho _. split; [done|]. by apply quiet_rely.
Qed.

Lemma sound_quiet {E A} (Q : result E A → gset nat → world State → Prop) (m : Go State E A) o w :
  (∀ w1, bets_rely o w w1 → bets_inv w1 → drawn o w1 →
     wp m (λ w2 r, quiet w1 w2 ∧ ∀ w3, bets_rely o w1 w3 → bets_inv w3 → drawn o w3 → Q r o w3) w1) →
  sound Q (call m) o w.
Proof.
  intros Hm. apply sound_call. intros w1 Hr Hi Hh. eapply wp_mono; [|by apply Hm].
  intros w2 r [Hq HQ]. exists o. split; [by apply quiet_guarantees|].
  intros w3 Hr3 Hi3 Hh3. apply HQ; [|done|done]. eapply bets_rely_trans; [by apply quiet_rely|done].
Qed.

(** A new identifier joins the caller's share. *)
Lemma sound_newID {E} (Q : result E string → gset nat → world State → Prop) o w :
  (∀ w1, bets_rely o w w1 → bets_inv w1 → drawn o w1 → ∀ w3, fresh w1 ∉ o →
     bets_rely ({[fresh w1]} ∪ o) (World (db w1) (clock w1) (S (fresh w1)) (faults w1)) w3 →
     bets_inv w3 → drawn ({[fresh w1]} ∪ o) w3 → Q (Ok (uuid (fresh w1))) ({[fresh w1]} ∪ o) w3) →
  sound Q (call (newID uuid)) o w.
Proof.
  intros HQ. apply sound_call. intros w1 Hr Hi Hh. go_step.
  set (w2 := World _ _ _ _). assert (quiet w1 w2) as Hq by (split; cbn; try done; lia).
  assert (fresh w1 ∉ o) as Hn by (intros Hin; specialize (Hh _ Hin); lia).
  exists ({[fresh w1]} ∪ o). split; [|intros w3 Hr3 Hi3 Hh3; by apply (HQ w1)]. split_and!.
  - by eapply quiet_inv.
  - intros n [->%elem_of_singleton|Hin]%elem_of_union; cbn; [lia|]. specialize (Hh n Hin). lia.
  - intros o2 Ho Hh2. split; [|by apply quiet_rely].
    cbn in *. intros n [->%elem_of_singleton|Hin]%elem_of_union Hn2; [specialize (Hh2 _ Hn2); lia|by apply (Ho n)].
Qed.

(** ** Sequences that only look *)

Definition silent {E A} (p : Calls State E A) : Prop := ∀ o w, sound (λ _ o' _, o' = o) p o w.

Lemma silent_call {E A} (m : Go State E A) : (∀ w, wp m (λ w' _, quiet w w') w) → silent (call m).
Proof.
  intros Hm o w. apply sound_quiet. intros w1 _ _ _. eapply wp_mono; [|apply Hm]. by intros w2 r Hq.
Qed.

Lemma silent_return {E A} (r : result E A) : silent (Return r).
Proof. by intros o w w' _ _ _. Qed.

Lemma silent_bind {E A B} (p : Calls State E A) (k : A → Calls State E B) :
  silent p → (∀ a, silent (k a)) → silent (cbind p k).
Proof.
  intros Hp Hk o w. apply sound_bind. eapply sound_mono; [|apply Hp].
  intros [a|e] o' w' ->; [apply Hk|by intros w2 _ _ _].
Qed.

Lemma silent_cmap {E E' A A'} (f : result E A → result E' A') (p : Calls State E A) :
  silent p → silent (cmap f p).
Proof. intros Hp o w. apply sound_cmap. eapply sound_mono; [|apply Hp]. done. Qed.

Lemma quiet_Get k w : wp (zoom redisRateLimit (redis_Get k)) (λ w' _, quiet w w') w.
Proof.
  go_step. eapply wp_mono; [|apply redis_Get_law]. cbn. intros w1 r (_&Hf&Hat&_). split; cbn; try done; [lia|].
  intros t key b. apply Hat.
Qed.

Lemma quiet_Set_lag p v ttl w : wp (zoom redisRateLimit (redis_Set (lagKey p) v ttl)) (λ w' _, quiet w w') w.
Proof.
  go_step. eapply wp_mono; [|apply redis_Set_law]. cbn. intros w1 r (_&Hf&Hat). split; cbn; try done; [lia|].
  intros t key b Hb. by apply Hat in Hb as [(Hk&_)|[Hb _]].
Qed.

Ltac quiet_call := intros ?w; repeat go_step;
  (eapply wp_mono; [|first [apply redis_Get_law|apply limits_read_only|apply GetOffset_law
    |apply ListConsumerGroupOffsets_law]]); cbn; intros; destruct_and?;
  repeat (go_step; cbn); split; cbn in *; first [done|lia|congruence].

Ltac silent_step :=
  lazymatch goal with
  | |- silent (cbind _ _) => apply silent_bind; [|intros ?]
  | |- silent (cmap _ _) => apply silent_cmap
  | |- silent (ccatch _) => apply silent_cmap
  | |- silent (cmapErr _ _) => apply silent_cmap
  | |- silent (call _) => apply silent_call
  | |- silent (if ?b then _ else _) => destruct b
  | |- silent (match ?x with _ => _ end) => destruct x
  | |- silent _ => apply silent_return
  end.

Lemma marketAndLimits_silent cfg req : silent (marketAndLimits_calls cfg req).
Proof. unfold marketAndLimits_calls, ccheck. repeat (cbn beta iota zeta; silent_step); quiet_call. Qed.

Lemma lagCheck_silent cfg req : silent (lagCheck_calls cfg req).
Proof.
  unfold lagCheck_calls, IsLagging_calls, fetchLag_calls. repeat (cbn beta iota zeta; silent_step).
  all: try (apply quiet_Set_lag); try (intros w; unfold cachedLag; go_step; eapply wp_mono; [|apply quiet_Get];
    intros w1 [|] Hq; [by go_step|done]).
  all: quiet_call.
Qed.

(** ** What a request knows of its own identifiers *)

Definition unused n w : Prop :=
  known (ledger w) (uuid n) = false ∧ rows w !! uuid n = None ∧
  (∀ id row, rows w !! id = Some row → BetID row ≠ uuid n) ∧ ∀ t key, idem w t key ≠ Some (uuid n).

(** The row of bet [n], under the key [l], before it is ready. *)
Definition pending n l (payload : bytes F) w : Prop :=
  (∃ row, rows w !! uuid l = Some row ∧ BetID row = uuid n ∧ Payload row = payload) ∧
  (∀ id row, rows w !! id = Some row → BetID row = uuid n → ob_Status row = OutboxStatusPending ∧ Payload row = payload) ∧
  ∀ t key, idem w t key ≠ Some (uuid n).

(** The row of a bet that was accepted. *)
Definition queued req (odds : CachedOdds F) n o w : Prop := n ∈ o ∧ ∃ t0 txid id row,
  buildBetPlacedPayload (uuid n) req odds t0 = Some (Payload row) ∧
  rows w !! id = Some row ∧ BetID row = uuid n ∧ ob_Status row ≠ OutboxStatusCancelled ∧
  reservation (ledger w) txid =
    Some {| res_user := UserID req; res_stake := StakeMinor req; res_bet := uuid n |}.

Lemma new_unused n w : bets_inv w → (fresh w ≤ n)%nat → unused n w.
Proof.
  intros [Hids _ _ _ Hidem] Hn. destruct (Hids n Hn) as (Hk&Hr&Hb). split_and!; [done|done|done|].
  intros t key Hi. destruct (Hidem t key _ Hi) as (_&_&id&row&_&_&Hrow&Hbet&_). by apply (Hb id row).
Qed.

Lemma message_fields id (row row' : OutboxRow F) :
  row_message (id, row') = row_message (id, row) → BetID row' = BetID row ∧ Payload row' = Payload row.
Proof. unfold row_message. by intros [= _ _ -> ->]. Qed.

Lemma unused_stable o n w w' : n ∈ o → bets_rely o w w' → unused n w → unused n w'.
Proof.
  intros Hn Hr (Hk&Hkey&Hb&Hi). split_and!.
  - by rewrite (br_known _ _ _ Hr).
  - by apply (br_key _ _ _ Hr).
  - intros id row Hrow Hbet. destruct (br_bet _ _ _ Hr n id row Hn Hrow Hbet) as (row0&Hrow0&Hbet0&_).
    by apply (Hb id row0).
  - intros t key Hid. apply (Hi t key). by apply (br_idem _ _ _ Hr).
Qed.

Lemma pending_stable o n l payload w w' :
  n ∈ o → bets_rely o w w' → pending n l payload w → pending n l payload w'.
Proof.
  intros Hn Hr ((row&Hrow&Hbet&Hpay)&Hall&Hi). split_and!.
  - destruct (br_rows _ _ _ Hr _ _ Hrow) as (row'&Hrow'&[Hb Hp]%message_fields&_). exists row'.
    split_and!; congruence.
  - intros id row' Hrow' Hbet'. destruct (br_bet _ _ _ Hr n id row' Hn Hrow' Hbet') as (row0&Hrow0&Hbet0&Hst).
    destruct (Hall id row0 Hrow0 Hbet0) as [Hst0 Hpay0]. rewrite Hst0 in Hst. cbn in Hst. destruct Hst as [Hst|?]; [|done].
    destruct (br_rows _ _ _ Hr id row0 Hrow0) as (row1&Hrow1&[_ Hp]%message_fields&_). simplify_eq. split; congruence.
  - intros t key Hid. apply (Hi t key). by apply (br_idem _ _ _ Hr).
Qed.

Lemma queued_stable req odds n o w w' : bets_rely o w w' → queued req odds n o w → queued req odds n o w'.
Proof.
  intros Hr (Hn&t0&txid&id&row&Hpay&Hrow&Hbet&Hst&Hres). split; [done|].
  destruct (br_rows _ _ _ Hr id row Hrow) as (row'&Hrow'&[Hb Hp]%message_fields&Hpub).
  exists t0, txid, id, row'. split_and!; [by rewrite Hp|done|congruence| |by apply (br_reservation _ _ _ Hr)].
  destruct (br_bet _ _ _ Hr n id row' Hn Hrow' ltac:(congruence)) as (row0&Hrow0&_&[->|Hpub0]); simplify_eq; [done|].
  apply Hpub in Hpub0. intros E. by rewrite E in Hpub0.
Qed.

Lemma queued_has_bet req odds n o w :
  in_int64 (StakeMinor req) = true → queued req odds n o w → has_bet w (uuid n).
Proof.
  intros Hin (_&t0&txid&id&row&Hpay&Hrow&Hbet&_&Hres). exists txid. eexists. exists id, row.
  split_and!; [exact Hres|done|done|done|]. by eapply payload_backed.
Qed.

(** ** The steps that write *)

Lemma insert_guarantees o n l req odds t0 payload t w fs :
  bets_inv w → drawn o w → n ∈ o → l ∈ o → unused n w → unused l w →
  buildBetPlacedPayload (uuid n) req odds t0 = Some payload →
  let w2 := set_db (put outbox_table (<[uuid l := betRow req (uuid n) payload t OutboxStatusPending]> (rows w)) (db w))
    (set_faults fs w) in
  guarantees o o w w2 ∧ pending n l payload w2.
Proof.
  intros [Hids Hrows Hsent Hlog Hidem] Hh Hn Hl (_&_&Hbn&Hin) (_&Hkl&_&_) Hpay w2.
  assert (∀ id row, rows w2 !! id = Some row →
    id = uuid l ∧ row = betRow req (uuid n) payload t OutboxStatusPending ∨ rows w !! id = Some row) as Hcases.
  { intros id row. cbn. rewrite lookup_insert_Some. naive_solver. }
  assert (∀ id row, rows w !! id = Some row → rows w2 !! id = Some row) as Hkeep.
  { intros id row Hrow. cbn. rewrite lookup_insert_ne; [done|]. intros <-. congruence. }
  split; [split_and!|].
  - split.
    + intros m Hm. destruct (Hids m Hm) as (Hk&Hr&Hb). assert (m ≠ n ∧ m ≠ l) as [Hmn Hml].
      { specialize (Hh n Hn) as Hn'. specialize (Hh l Hl). cbn in Hm. lia. }
      split_and!; [done| |].
      * cbn. rewrite lookup_insert_ne; [done|]. by intros E%(inj uuid).
      * intros id row [[_ ->]|Hrow]%Hcases; [|by apply (Hb id)]. cbn. by intros E%(inj uuid).
    + intros id row [[_ ->]|Hrow]%Hcases; [done|]. by apply (Hrows id).
    + intros id row [[_ ->]|Hrow]%Hcases; [done|]. by apply Hsent.
    + intros m Hm. destruct (Hlog m Hm) as (id&row&Hrow&?&?). exists id, row. eauto.
    + intros t1 key b Hb. eapply has_bet_mono, Hidem; [done| |exact Hb]. eauto.
  - done.
  - intros o2 Ho Hh2. split; [done|].
    assert (∀ m, m ∈ o2 → m ≠ n ∧ m ≠ l) as Hne.
    { cbn in Ho. intros m Hm. split; intros ->; set_solver. }
    split; cbn; try done.
    + intros id row Hrow. exists row. eauto.
    + intros m Hm Hr. rewrite lookup_insert_ne; [done|]. intros E%(inj uuid). destruct (Hne m Hm). congruence.
    + intros m id row' Hm [[_ ->]|Hrow]%Hcases Hb; [|by eauto].
      cbn in Hb. apply (inj uuid) in Hb. destruct (Hne m Hm). congruence.
  - split_and!.
    + eexists. cbn. rewrite lookup_insert_eq. by split_and!.
    + intros id row [[_ ->]|Hrow]%Hcases Hb; [done|]. by apply Hbn in Hrow.
    + done.
Qed.

Lemma deduct_guarantees o m req w w2 :
  bets_inv w → drawn o w → m ∈ o → unused m w → ded_TransactionId req = uuid m →
  rows w2 = rows w → sent w2 = sent w → fresh w2 = fresh w → ba_redisRateLimit (db w2) = ba_redisRateLimit (db w) →
  deduct_effect req (ledger w) (ledger w2) → guarantees o o w w2.
Proof.
  intros [Hids Hrows Hsent Hlog Hidem] Hh Hm (Hk&_) Htx Er Es Ef Ei Heff.
  assert (∀ t res, reservation (ledger w) t = Some res → reservation (ledger w2) t = Some res) as Hres.
  { eapply deduct_keeps_reservations; [by rewrite Htx|done]. }
  assert (∀ k, k ≠ m → known (ledger w2) (uuid k) = known (ledger w) (uuid k)) as Hknown.
  { destruct Heff as (a&f&_&_&_&_&_&_&Hkn). intros k Hne. rewrite Hkn, Htx.
    rewrite bool_decide_eq_false_2; [done|]. by intros E%(inj uuid). }
  split_and!.
  - split; rewrite ?Er, ?Es, ?Ei.
    + intros k Hk'. rewrite Ef in Hk'. rewrite Er, Hknown by (specialize (Hh m Hm); cbn in Hh; lia). by apply Hids.
    + intros id row Hrow Hp. eapply backed_mono; [exact Hres|eauto].
    + done.
    + done.
    + intros t key b Hb. eapply has_bet_mono; [exact Hres| |eauto]. rewrite Er. eauto.
  - intros k Hk'. cbn. rewrite Ef. by apply Hh.
  - intros o2 Ho _. split; [done|]. split; rewrite ?Er, ?Es, ?Ei, ?Ef; eauto.
    intros k Hk'. apply Hknown. intros ->. cbn in Ho. by apply (Ho m).
Qed.

(** An UPDATE that only touches the row of bet [n], which is still pending. *)
Lemma update_guarantees o n l payload (f : OutboxRow F → OutboxRow F) w fs :
  bets_inv w → drawn o w → n ∈ o → pending n l payload w →
  (∀ row, BetID row ≠ uuid n → f row = row) →
  (∀ id row, row_message (id, f row) = row_message (id, row)) →
  (∀ row, BetID row = uuid n → ob_Status row = OutboxStatusPending → ob_Status (f row) ≠ OutboxStatusPublished ∧
     (publishable (ob_Status (f row)) = true → backed (ledger w) payload)) →
  guarantees o o w (set_db (put outbox_table (f <$> rows w) (db w)) (set_faults fs w)).
Proof.
  intros [Hids Hrows Hsent Hlog Hidem] Hh Hn ([row0 (Hrow0&Hbet0&Hpay0)]&Hall&Hi) Hother Hmsg Hstat.
  set (w2 := set_db _ _).
  assert (∀ id row', rows w2 !! id = Some row' → ∃ row, rows w !! id = Some row ∧ row' = f row) as Hback.
  { intros id row'. cbn. rewrite lookup_fmap. intros (row&?&?)%fmap_Some. eauto. }
  assert (∀ id row, rows w !! id = Some row → rows w2 !! id = Some (f row)) as Hforth.
  { intros id row Hrow. cbn. by rewrite lookup_fmap, Hrow. }
  assert (∀ id row, rows w !! id = Some row → publishable (ob_Status row) = true → f row = row) as Hkeep.
  { intros id row Hrow Hp. destruct (decide (BetID row = uuid n)) as [Hb|]; [|by apply Hother].
    destruct (Hall id row Hrow Hb) as [Hst _]. by rewrite Hst in Hp. }
  assert (∀ row, BetID (f row) = BetID row ∧ Payload (f row) = Payload row) as Hf.
  { intros row. apply (message_fields "" row (f row)), Hmsg. }
  split_and!.
  - split.
    + intros m Hm. destruct (Hids m Hm) as (Hk&Hr&Hb). split_and!; [done| |].
      * cbn. by rewrite lookup_fmap, Hr.
      * intros id row' (row&Hrow&->)%Hback. rewrite (proj1 (Hf row)). by apply (Hb id).
    + intros id row' (row&Hrow&->)%Hback Hp. rewrite (proj2 (Hf row)).
      destruct (decide (BetID row = uuid n)) as [Hb|Hb].
      * destruct (Hall id row Hrow Hb) as [Hst ->]. by apply (Hstat row).
      * rewrite (Hother row Hb) in Hp. by apply (Hrows id).
    + intros id row' (row&Hrow&->)%Hback Hp. rewrite Hmsg. destruct (decide (BetID row = uuid n)) as [Hb|Hb].
      * destruct (Hall id row Hrow Hb) as [Hst _]. by destruct (Hstat row Hb Hst).
      * rewrite (Hother row Hb) in Hp. by apply Hsent.
    + intros m Hm. destruct (Hlog m Hm) as (id&row&Hrow&Hp&->). exists id, row.
      split_and!; [|done|done]. by rewrite (Hforth _ _ Hrow), (Hkeep id).
    + intros t key b Hb. eapply has_bet_mono, Hidem; [done| |exact Hb].
      intros id row Hrow. eexists. split; [by apply Hforth|apply Hmsg].
  - done.
  - intros o2 Ho _. split; [done|]. split; try done.
    + intros id row Hrow. exists (f row). split_and!; [by apply Hforth|apply Hmsg|].
      intros Hp. by rewrite (Hkeep id).
    + intros m _ Hr. cbn. by rewrite lookup_fmap, Hr.
    + intros m id row' Hm (row&Hrow&->)%Hback. rewrite (proj1 (Hf row)). intros Hb. exists row.
      split_and!; [done|done|]. left. rewrite Hother; [done|]. rewrite Hb. intros E%(inj uuid). subst.
      cbn in Ho. by apply (Ho n).
Qed.

Lemma ready_row_message betID id (row : OutboxRow F) : row_message (id, ready_row betID row) = row_message (id, row).
Proof. unfold ready_row. by destruct (_ && _). Qed.
Lemma cancel_row_message betID id (row : OutboxRow F) : row_message (id, cancel_row betID row) = row_message (id, row).
Proof. unfold cancel_row. by destruct (_ =? _)%string. Qed.

(** The key is stored with the bet that was placed under it. *)
Lemma set_idem_guarantees o n key ttl w :
  bets_inv w → drawn o w → n ∈ o → has_bet w (uuid n) →
  wp (zoom redisRateLimit (redis_Set ("idem:" +:+ key) (uuid n) ttl)) (λ w2 _, guarantees o o w w2 ∧
    rows w2 = rows w ∧ ledger w2 = ledger w) w.
Proof.
  intros [Hids Hrows Hsent Hlog Hidem] Hh Hn Hbet. go_step. eapply wp_mono; [|apply redis_Set_law].
  cbn. intros w1 r (_&Hf&Hat). split; [|done]. set (w2 := set_db _ w1).
  assert (∀ t k b, idem w2 t k = Some b → b = uuid n ∨ idem w t k = Some b) as Hcases.
  { intros t k b Hb. apply Hat in Hb as [(_&->&_)|[? _]]; auto. }
  split_and!.
  - split; try done.
    + intros m Hm. apply Hids. cbn in Hm. lia.
    + intros t k b [->|Hb]%Hcases; [done|]. by apply (Hidem t k).
  - intros m Hm. cbn. rewrite Hf. by apply Hh.
  - intros o2 Ho _. split; [done|]. split; eauto; try done; [by rewrite <- Hf|].
    intros m t k Hm [E%(inj uuid)|Hb]%Hcases; [|done]. subst. exfalso. cbn in Ho. by apply (Ho n).
Qed.

(** ** A request *)

Definition mine req (odds : CachedOdds F) (r : result betErr string) o w : Prop :=
  ∀ b, r = Ok b → ∃ n, b = uuid n ∧ queued req odds n o w.

Lemma markReady_sound n l req odds t0 payload txid o w :
  in_int64 (StakeMinor req) = true →
  buildBetPlacedPayload (uuid n) req odds t0 = Some payload → n ∈ o → pending n l payload w →
  reservation (ledger w) txid =
    Some {| res_user := UserID req; res_stake := StakeMinor req; res_bet := uuid n |} →
  sound (λ _ o w, queued req odds n o w) (call (markOutboxReady (uuid n))) o w.
Proof.
  intros Hin Hpay Hn Hpend Hres. apply sound_call. intros w1 Hr Hi Hh.
  eapply pending_stable in Hpend; [|done|exact Hr]. apply (br_reservation _ _ _ Hr) in Hres.
  assert (∀ row, rows w1 !! uuid l = Some row → BetID row = uuid n → Payload row = payload →
    queued req odds n o w1) as Hq.
  { intros row Hrow Hb Hp. split; [done|]. exists t0, txid, (uuid l), row. rewrite Hp. split_and!; try done.
    destruct Hpend as (_&Hall&_). destruct (Hall _ _ Hrow Hb) as [-> _]. done. }
  pose proof Hpend as ((row&Hrow&Hb&Hp)&Hall&_). destruct (Hall _ _ Hrow Hb) as [Hst _].
  unfold markOutboxReady. do 3 go_step; cbn.
  - exists o. split; [by apply quiet_guarantees|]. intros w3 Hr3 _ _. eapply queued_stable; [exact Hr3|].
    by apply (Hq row).
  - eexists. split.
    + eapply (update_guarantees o n l payload (ready_row (uuid n))); try done.
      * intros row' Hne. by apply ready_row_other.
      * apply ready_row_message.
      * intros row' Hb' Hst'. unfold ready_row. rewrite Hb', String.eqb_refl, Hst'. cbn.
        split; [done|]. intros _. exists txid. eexists. split; [exact Hres|]. by eapply payload_backed.
    + intros w3 Hr3 _ _. eapply queued_stable; [exact Hr3|]. split; [done|].
      destruct (message_fields "" row _ (ready_row_message (uuid n) "" row)) as [Hb2 Hp2].
      exists t0, txid, (uuid l), (ready_row (uuid n) row). rewrite Hb2, Hp2, Hp. split_and!; try done.
      * cbn. by rewrite lookup_fmap, Hrow.
      * unfold ready_row. rewrite Hb, String.eqb_refl, Hst. done.
Qed.

Lemma cancel_sound n l payload o w :
  n ∈ o → pending n l payload w → sound (λ _ _ _, True) (call (cancelOutbox (uuid n))) o w.
Proof.
  intros Hn Hpend. apply sound_call. intros w1 Hr Hi Hh.
  eapply pending_stable in Hpend; [|done|exact Hr].
  unfold cancelOutbox. do 3 go_step; cbn; eexists; (split; [|done]).
  - by apply quiet_guarantees.
  - eapply (update_guarantees o n l payload (cancel_row (uuid n))); try done.
    + intros row' Hne. by apply cancel_row_other.
    + apply cancel_row_message.
    + intros row' Hb' Hst'. unfold cancel_row. rewrite Hb', String.eqb_refl. by cbn.
Qed.

Lemma insert_unused m n l (row : OutboxRow F) w fs :
  m ≠ n → m ≠ l → BetID row = uuid n → unused m w →
  unused m (set_db (put outbox_table (<[uuid l := row]> (rows w)) (db w)) (set_faults fs w)).
Proof.
  intros Hmn Hml Hb (Hk&Hr&Hbm&Hi). split_and!; [done| | |done]; cbn.
  - rewrite lookup_insert_ne; [done|]. by intros E%(inj uuid).
  - intros id row'. rewrite lookup_insert_Some. intros [[_ <-]|[_ Hrow]]; [|by eapply Hbm].
    rewrite Hb. by intros E%(inj uuid).
Qed.

Lemma writeOutboxPending_sound n m req odds t0 payload o w :
  n ∈ o → m ∈ o → m ≠ n → unused n w → unused m w →
  buildBetPlacedPayload (uuid n) req odds t0 = Some payload →
  sound (λ r o' w', r = Ok tt → o ⊆ o' ∧ unused m w' ∧ ∃ l, pending n l payload w')
    (writeOutboxPending_calls uuid (uuid n) (MarketID req) payload) o w.
Proof.
  intros Hn Hm Hmn Hun Hum Hpay. unfold writeOutboxPending_calls. apply sound_bind, sound_newID.
  intros w1 Hr Hi _ w3 Hfr Hr3 Hi3 Hh3. cbn beta iota. set (l := fresh w1) in *. set (o1 := {[l]} ∪ o) in *.
  assert (l ∈ o1 ∧ n ∈ o1 ∧ m ∈ o1) as (Hl&Hn1&Hm1) by (subst o1; set_solver).
  assert (∀ k, k ∈ o → unused k w → unused k w3) as Hk.
  { intros k Hk Hu. eapply (unused_stable o1); [subst o1; set_solver|exact Hr3|]. by eapply (unused_stable o k w w1). }
  assert (unused l w3) as Hul.
  { eapply (unused_stable o1); [done|exact Hr3|]. by apply (new_unused l w1). }
  apply sound_cmap, sound_call. intros w4 Hr4 Hi4 Hh4. unfold insertPending. do 4 go_step.
  { exists o1. split; [by apply quiet_guarantees|]. by intros. }
  assert (∀ k, k ∈ o → unused k w → unused k w4) as Hk4.
  { intros k Hko Hu. eapply (unused_stable o1); [subst o1; set_solver|exact Hr4|auto]. }
  eapply unused_stable in Hul; [|exact Hl|exact Hr4].
  unfold insertOutbox. cbn. pose proof Hul as (_&Hkl&_). rewrite Hkl.
  destruct (insert_guarantees o1 n l req odds t0 payload (clock w4) w4 fs) as [Hg Hp]; try done; [by apply Hk4|].
  exists o1. split; [exact Hg|]. intros w5 Hr5 _ _ _. split_and!; [subst o1; set_solver| |].
  - eapply (unused_stable o1); [done|exact Hr5|]. apply (insert_unused m n l); try done; [|by apply Hk4].
    intros ->. by apply Hfr.
  - exists l. by eapply pending_stable.
Qed.

Lemma deduct_sound (req : PlaceBetRequest F) n m l payload o w :
  m ∈ o → n ∈ o → unused m w → pending n l payload w →
  sound (λ r o' w', o' = o ∧ pending n l payload w' ∧ (is_Some (match r with Ok _ => Some tt | Err _ => None end) →
      reservation (ledger w') (uuid m) =
        Some {| res_user := UserID req; res_stake := StakeMinor req; res_bet := uuid n |}))
    (call (zoom wallet (wallet_DeductBalance (deductRequest req (uuid m) (uuid n))))) o w.
Proof.
  intros Hm Hn Hum Hpend. apply sound_call. intros w1 Hr Hi Hh.
  eapply unused_stable in Hum; [|exact Hm|exact Hr]. eapply pending_stable in Hpend; [|exact Hn|exact Hr].
  go_step. eapply wp_mono; [|apply deduct_contract]. cbn. intros w2 r (_&Hf&Heff).
  pose proof Hum as (Hk&_). rewrite Hk in Heff. exists o.
  set (w2' := set_db _ w2).
  assert (ledger w2' = ledger w1 → guarantees o o w1 w2') as Hsame.
  { intros E. apply quiet_guarantees; [|done|done]. split; cbn; try done; lia. }
  assert (deduct_effect (deductRequest req (uuid m) (uuid n)) (ledger w1) (ledger w2') → guarantees o o w1 w2') as Hded.
  { intros E. by apply (deduct_guarantees o m (deductRequest req (uuid m) (uuid n)) w1 w2'). }
  split.
  - destruct r; [by apply Hded|]. destruct Heff as [Heff|[_ Heff]]; [by apply Hsame|by apply Hded].
  - intros w3 Hr3 _ _. split_and!; [done|by eapply pending_stable|].
    destruct r as [resp|]; [|by intros [? ?]]. intros _. apply (br_reservation _ _ _ Hr3).
    by destruct Heff as (a&f&_&_&_&Hres&_).
Qed.

Lemma afterInsert_sound n m l req odds t0 payload o w :
  in_int64 (StakeMinor req) = true →
  buildBetPlacedPayload (uuid n) req odds t0 = Some payload →
  n ∈ o → m ∈ o → unused m w → pending n l payload w →
  sound (λ r o' w', ∀ b, r = Ok b → b = uuid n ∧ queued req odds n o' w')
    (deducted <- ccatch (call (zoom wallet (wallet_DeductBalance (deductRequest req (uuid m) (uuid n))))) ;;
     match deducted with
     | Err st =>
         ccatch (E':=betErr) (call (cancelOutbox (uuid n))) ;;;
         cthrow (if bool_decide (code st = FailedPrecondition) then ErrInsufficientFunds
                 else ErrOther "DeductBalance")
     | Ok _ =>
         ccatch (E':=betErr) (call (markOutboxReady (uuid n))) ;;;
         cret (uuid n)
     end) o w.
Proof.
  intros Hin Hpay Hn Hm Hum Hpend. apply sound_bind, sound_cmap.
  eapply sound_mono; [|by apply (deduct_sound req n m l payload)].
  intros [resp|st] o1 w1 (->&Hp&Hres); cbn beta iota; apply sound_bind, sound_cmap.
  - eapply sound_mono; [|by eapply (markReady_sound n l); eauto].
    intros r o2 w2 Hq w3 Hr _ _ b [= <-]. split; [done|]. by eapply queued_stable.
  - eapply sound_mono; [|by eapply cancel_sound]. by intros r o2 w2 _ w3 _ _ _ b.
Qed.

Lemma reserveAndQueue_sound req odds o w :
  in_int64 (StakeMinor req) = true →
  sound (λ r o' w', ∀ b, r = Ok b → ∃ n, b = uuid n ∧ queued req odds n o' w')
    (reserveAndQueue_calls uuid req odds) o w.
Proof.
  intros Hin. unfold reserveAndQueue_calls. apply sound_bind, sound_newID.
  intros w1 _ Hi1 _ w2 _ Hr2 _ _. cbn beta iota. set (n := fresh w1) in *.
  apply sound_bind, sound_newID. intros w3 Hr3 Hi3 _ w4 Hfr Hr4 _ _. cbn beta iota.
  set (m := fresh w3) in *. set (o2 := {[m]} ∪ _) in *.
  assert (n ∈ o2 ∧ m ∈ o2 ∧ m ≠ n) as (Hn&Hm&Hmn) by (subst o2; set_solver).
  assert (unused n w4) as Hun.
  { eapply (unused_stable o2); [done|exact Hr4|].
    eapply (unused_stable ({[n]} ∪ o) n w2 w3); [set_solver|done|].
    eapply (unused_stable ({[n]} ∪ o)); [set_solver|exact Hr2|]. by apply (new_unused n w1). }
  assert (unused m w4) as Hum.
  { eapply (unused_stable o2); [done|exact Hr4|]. by apply (new_unused m w3). }
  apply sound_bind, sound_quiet. intros w5 Hr5 Hi5 Hh5. go_step. split; [apply quiet_refl|].
  intros w6 Hr6 _ _. assert (bets_rely o2 w4 w6) as Hr46 by (by eapply bets_rely_trans).
  eapply unused_stable in Hun; [|done|exact Hr46]. eapply unused_stable in Hum; [|done|exact Hr46].
  destruct (buildBetPlacedPayload _ _ _ _) as [payload|] eqn:Hpay; [|by intros w7 _ _ _ b].
  apply sound_bind. eapply sound_mono; [|by apply (writeOutboxPending_sound n m req odds (clock w5))].
  intros [[]|e] o7 w7; [|by intros _ w8 _ _ _ b]. intros Hok. destruct (Hok eq_refl) as (Hsub&Hum7&l&Hp).
  eapply sound_mono; [|apply (afterInsert_sound n m l req odds (clock w5) payload); auto].
  intros r o8 w8 Hq b Hb. exists n. by apply Hq.
Qed.

(** ** The relay *)

(** A row that was ready when it was read. *)
Definition read_ready (r : string * OutboxRow F) w : Prop := ∃ row,
  rows w !! r.1 = Some row ∧ row_message (r.1, row) = row_message r ∧ publishable (ob_Status row) = true.

Lemma read_ready_stable r o w w' : bets_rely o w w' → read_ready r w → read_ready r w'.
Proof.
  intros Hr (row&Hrow&Hm&Hp). destruct (br_rows _ _ _ Hr _ _ Hrow) as (row'&Hrow'&Hm'&Hp').
  exists row'. split_and!; [done|congruence|auto].
Qed.

Lemma send_guarantees r o w : bets_inv w → drawn o w → read_ready r w →
  wp (zoom kafka (SendMessage (row_message r))) (λ w2 res, guarantees o o w w2 ∧
    read_ready r w2 ∧ (is_Some (match res with Ok _ => Some tt | Err _ => None end) → row_message r ∈ sent w2)) w.
Proof.
  intros [Hids Hrows Hsent Hlog Hidem] Hh Hread. go_step. eapply wp_mono; [|apply SendMessage_law].
  cbn. intros w1 res (_&Hf&Hp). set (w2 := set_db _ w1).
  assert (∀ m, m ∈ sent w → m ∈ sent w2) as Hmono.
  { intros m Hm. cbn. destruct res; [rewrite Hp|destruct Hp as [-> | ->]]; set_solver. }
  assert (∀ m, m ∈ sent w2 → m ∈ sent w ∨ m = row_message r) as Hnew.
  { intros m. cbn. destruct res; [rewrite Hp|destruct Hp as [-> | ->]]; set_solver. }
  split_and!; [split_and!; [split| |]|done|].
  - intros n Hn. apply Hids. cbn in Hn. lia.
  - done.
  - intros id row Hrow Hst. by apply Hmono, Hsent.
  - intros m [Hm| ->]%Hnew; [by apply Hlog|]. destruct Hread as (row&Hrow&Hm&Hpub). by exists r.1, row.
  - done.
  - intros n Hn. cbn. rewrite Hf. by apply Hh.
  - intros o2 Ho _. split; [done|]. split; eauto. cbn. lia.
  - destruct res; [|by intros [? ?]]. intros _. cbn. rewrite Hp. set_solver.
Qed.

Lemma markPublished_guarantees r o w : bets_inv w → drawn o w → read_ready r w → row_message r ∈ sent w →
  wp (markPublished outbox_table r.1) (λ w2 _, guarantees o o w w2) w.
Proof.
  intros Hinv Hh (row&Hrow&Hmsg&Hpub) Hin. pose proof Hinv as [Hids Hrows Hsent Hlog Hidem].
  unfold markPublished. do 5 go_step; cbn; [by apply quiet_guarantees|]. set (w2 := set_db _ _).
  assert (∀ id row', rows w2 !! id = Some row' → (id = r.1 ∧ row' = set_published (clock w) row) ∨ rows w !! id = Some row') as Hback.
  { intros id row'. cbn. rewrite lookup_alter. case_decide as E; [|auto]. subst. rewrite Hrow. cbn. intros [= <-]. auto. }
  assert (∀ id row0, rows w !! id = Some row0 → ∃ row', rows w2 !! id = Some row' ∧
    row_message (id, row') = row_message (id, row0) ∧ (publishable (ob_Status row0) = true → publishable (ob_Status row') = true)) as Hforth.
  { intros id row0 Hrow0. cbn. rewrite lookup_alter. case_decide as E; [|eauto]. subst. rewrite Hrow0. cbn. eauto. }
  split_and!; [split| |].
  - intros n Hn. destruct (Hids n Hn) as (?&Hk&Hb). split_and!; [done| |].
    + cbn. by apply lookup_alter_None.
    + intros id row' [[-> ->]|Hrow']%Hback; [by apply (Hb r.1 row)|by apply (Hb id)].
  - intros id row' [[-> ->]|Hrow']%Hback Hp; [by apply (Hrows r.1 row)|by apply (Hrows id)].
  - intros id row' [[-> ->]|Hrow']%Hback Hst; [|by apply Hsent]. change (row_message (r.1, row) ∈ sent w). by rewrite Hmsg.
  - intros m Hm. destruct (Hlog m Hm) as (id&row0&Hrow0&Hp0&->).
    destruct (Hforth id row0 Hrow0) as (row'&?&?&?). exists id, row'. auto.
  - intros t key b Hb. eapply has_bet_mono, Hidem; [done| |exact Hb].
    intros id row0 Hrow0. destruct (Hforth id row0 Hrow0) as (row'&?&?&?). eauto.
  - done.
  - intros o2 Ho _. split; [done|]. split; try done.
    + intros n Hn Hk. cbn. by apply lookup_alter_None.
    + intros n id row' Hn [[-> ->]|Hrow']%Hback Hb; [exists row|exists row']; cbn in *; auto.
Qed.

Lemma guarantees_public o o' w w' : guarantees o o' w w' → bets_rely ∅ w w'.
Proof. intros (_&_&Hoth). apply (Hoth ∅); [apply disjoint_empty_r|by intros n Hn]. Qed.

Definition all_read (rs : list (string * OutboxRow F)) w : Prop := ∀ r, r ∈ rs → read_ready r w.

Lemma all_read_stable rs o w w' : bets_rely o w w' → all_read rs w → all_read rs w'.
Proof. intros Hr HP r Hin. eapply read_ready_stable; [exact Hr|auto]. Qed.

Lemma publish_sound rs r o w :
  r ∈ rs → all_read rs w → sound (λ _ _ w', all_read rs w') (publish_calls r) o w.
Proof.
  intros Hin Hread. unfold publish_calls. apply sound_bind, sound_cmap, sound_call. intros w1 Hr Hi Hh.
  eapply all_read_stable in Hread; [|exact Hr].
  eapply wp_mono; [|apply send_guarantees; [done|done|by apply Hread]].
  intros w2 res (Hg&_&Hsent). exists o. split; [exact Hg|]. intros w3 Hr3 _ _.
  eapply all_read_stable in Hread; [|exact (guarantees_public _ _ _ _ Hg)]. eapply all_read_stable in Hread; [|exact Hr3].
  destruct res as [[]|e]; [|intros w4 Hr4 _ _; by eapply all_read_stable].
  apply sound_bind, sound_cmap, sound_call. intros w4 Hr4 Hi4 Hh4. eapply all_read_stable in Hread; [|exact Hr4].
  assert (bets_rely o w2 w4) as Hr24 by (by eapply bets_rely_trans).
  eapply wp_mono; [|apply markPublished_guarantees; [done|done|by apply Hread|]].
  - intros w5 r5 Hg5. exists o. split; [exact Hg5|]. intros w6 Hr6 _ _ w7 Hr7 _ _.
    eapply all_read_stable; [exact Hr7|]. eapply all_read_stable; [exact Hr6|].
    eapply all_read_stable; [exact (guarantees_public _ _ _ _ Hg5)|done].
  - apply (br_sent _ _ _ Hr24), Hsent. by eexists.
Qed.

Lemma relay_batch_sound locked o w : sound (λ _ _ _, True) (publishBatch_calls locked) o w.
Proof.
  unfold publishBatch_calls. apply sound_bind, sound_cmap, sound_quiet. intros w1 Hr Hi Hh.
  eapply wp_mono; [|apply fetchReady_wp; apply _]. intros w2 res (Hd&Hc&Hf&Hrows).
  split; [split; rewrite ?Hd; try done; lia|]. intros w3 Hr3 _ _.
  destruct res as [rs|e]; [|by intros w4 _ _ _]. specialize (Hrows rs eq_refl).
  eapply sound_mono; [|apply (sound_forM (λ _ w, all_read rs w))]; [done|..].
  - intros o' w4 w5 Hr5. by eapply all_read_stable.
  - intros r o' w4 Hin HP. apply sound_bind, sound_cmap.
    eapply sound_mono; [|by apply (publish_sound rs r)]. intros res o5 w5 HP5 w6 Hr6 _ _. by eapply all_read_stable.
  - intros r Hin. eapply read_ready_stable; [exact Hr3|]. subst rs.
    assert (r ∈ ready_all locked (view outbox_table (db w1))) as Hall.
    { eapply elem_of_sublist; [exact Hin|]. apply ready_rows_sublist. }
    apply elem_of_ready_all in Hall as (Hrow&Hst&_). exists r.2. split_and!; [done|by destruct r|by rewrite Hst].
Qed.

(** ** The pool *)

(** What a thread returns: the answer to a request, or the end of a batch. *)
Inductive BetAnswer : Type :=
| Answered (req : PlaceBetRequest F) (r : result betErr (PlaceBetResponse F))
| Relayed (r : result string unit).

Definition request_thread (cfg : Config F) (req : PlaceBetRequest F) : Calls State Empty_set BetAnswer :=
  cmap (λ r, Ok (Answered req r)) (PlaceBet_calls uuid cfg req).
Definition relay_thread (locked : string → bool) : Calls State Empty_set BetAnswer :=
  cmap (λ r, Ok (Relayed r)) (publishBatch_calls locked).

Inductive bet_thread (cfg : Config F) : Calls State Empty_set BetAnswer → Prop :=
| thread_request req : in_int64 (StakeMinor req) = true → bet_thread cfg (request_thread cfg req)
| thread_relay locked : bet_thread cfg (relay_thread locked).

(** What happens besides: credits, confirmations, deposits and withdrawals by
    other services, under transaction ids of their own, and changes of the caches,
    the broker's offsets, the clock and the faults to come. *)
Inductive bet_outside w w' : Prop :=
| outside_credit req r :
    (∀ n, cred_TransactionId req ≠ uuid n) → zoom wallet (wallet_CreditBalance req) w = (w', r) → bet_outside w w'
| outside_deposit req r :
    (∀ n, cash_TransactionId req ≠ uuid n) → zoom wallet (wallet_Deposit req) w = (w', r) → bet_outside w w'
| outside_withdraw req r :
    (∀ n, cash_TransactionId req ≠ uuid n) → zoom wallet (wallet_Withdraw req) w = (w', r) → bet_outside w w'
| outside_confirm req r : zoom wallet (wallet_ConfirmTransaction req) w = (w', r) → bet_outside w w'
| outside_quiet : quiet w w' → bet_outside w w'.

(** An accepted answer: a bet with its reservation and its row; unless it replays
    an idempotency key, the row is the one of this request, at the odds of the
    answer, and it is not cancelled. *)
Definition answer_ok (a : BetAnswer) w : Prop :=
  match a with
  | Answered req (Ok resp) => has_bet w (resp_BetID resp) ∧
      (resp_OddsDecimal resp = RequestedOddsDecimal req ∧ resp_OddsAmerican resp = RequestedOddsAmerican req ∨
       ∃ t0 odds txid id row,
         buildBetPlacedPayload (resp_BetID resp) req odds t0 = Some (Payload row) ∧
         resp_OddsDecimal resp = co_Decimal odds ∧ resp_OddsAmerican resp = co_American odds ∧
         rows w !! id = Some row ∧ BetID row = resp_BetID resp ∧ ob_Status row ≠ OutboxStatusCancelled ∧
         reservation (ledger w) txid =
           Some {| res_user := UserID req; res_stake := StakeMinor req; res_bet := resp_BetID resp |})
  | _ => True
  end.
Definition answered (r : result Empty_set BetAnswer) (o : gset nat) w : Prop := ∀ a, r = Ok a → answer_ok a w.

Lemma replay_sound req b t o w : has_bet w b →
  answer_ok (Answered req (Ok {| resp_BetID := b; resp_Status := "ACCEPTED";
    resp_OddsDecimal := RequestedOddsDecimal req; resp_OddsAmerican := RequestedOddsAmerican req;
    resp_Stake := StakeMinor req; resp_Currency := req_Currency req; PlacedAt := t |})) w.
Proof. intros Hb. split; [done|by left]. Qed.

Lemma queued_answer req odds n t o w : in_int64 (StakeMinor req) = true → queued req odds n o w →
  answer_ok (Answered req (Ok {| resp_BetID := uuid n; resp_Status := "ACCEPTED";
    resp_OddsDecimal := co_Decimal odds; resp_OddsAmerican := co_American odds;
    resp_Stake := StakeMinor req; resp_Currency := req_Currency req; PlacedAt := t |})) w.
Proof.
  intros Hin Hq. split; [by eapply queued_has_bet|]. right. destruct Hq as (_&t0&txid&id&row&?&?&?&?&?).
  by exists t0, odds, txid, id, row.
Qed.

Lemma request_sound cfg req w :
  in_int64 (StakeMinor req) = true → sound answered (request_thread cfg req) ∅ w.
Proof.
  intros Hin. unfold request_thread. apply sound_cmap. unfold PlaceBet_calls.
  apply sound_bind, sound_cmap, sound_call. intros w1 Hr1 Hi1 Hh1.
  assert (∀ r : result betErr (PlaceBetResponse F), (∀ resp, r ≠ Ok resp) → ∀ o w, answered (Ok (Answered req r)) o w) as Hfail.
  { intros [resp|] Hne o w2 a [= <-]; [by destruct (Hne resp)|done]. }
  assert (∀ b, wp (zoom redisRateLimit (redis_Get (idemKeyOf req))) (λ _ r, r = Ok b → has_bet w1 b) w1) as Hget.
  { intros b. go_step. eapply wp_mono; [|apply redis_Get_law]. cbn. intros w2 r (_&_&_&Hv) Hr.
    by eapply (bi_idem _ Hi1), Hv. }
  pose proof (quiet_Get (idemKeyOf req) w1) as Hq. unfold wp in Hget, Hq |- *.
  destruct (zoom _ _ w1) as [w2 [b|e]]; cbn [fst snd] in *.
  all: exists ∅; split; [by apply quiet_guarantees|]; intros w3 Hr3 Hi3 Hh3.
  - apply sound_bind, sound_quiet. intros w4 Hr4 _ _. go_step. split; [apply quiet_refl|].
    intros w5 Hr5 _ _ w6 Hr6 _ _ a [= <-]. apply (replay_sound req b (clock w4) ∅).
    do 3 (eapply rely_has_bet; [eassumption|]). eapply rely_has_bet; [eassumption|].
    eapply rely_has_bet; [by apply (quiet_rely ∅)|]. by apply (Hget b).
  - apply sound_bind. eapply sound_mono; [|apply marketAndLimits_silent].
    intros [odds|e1] o4 w4 ->; [|intros w5 _ _ _; by apply Hfail].
    apply sound_bind. eapply sound_mono; [|apply lagCheck_silent].
    intros [[]|e1] o5 w5 ->; [|intros w6 _ _ _; by apply Hfail].
    apply sound_bind. eapply sound_mono; [|by apply (reserveAndQueue_sound req odds)].
    intros [b|e1] o6 w6 Hb; [|intros w7 _ _ _; by apply Hfail]. destruct (Hb b eq_refl) as (n&->&Hqd).
    apply sound_bind, sound_cmap, sound_call. intros w7 Hr7 Hi7 Hh7. eapply queued_stable in Hqd; [|exact Hr7].
    eapply wp_mono; [|apply (set_idem_guarantees o6 n); [done|done|by apply Hqd|by eapply queued_has_bet]].
    intros w8 r8 (Hg8&Erows&Eledger). exists o6. split; [exact Hg8|]. intros w9 Hr9 _ _.
    assert (queued req odds n o6 w8) as Hqd8 by (unfold queued; by rewrite Erows, Eledger).
    apply sound_bind, sound_quiet. intros w10 Hr10 _ _. go_step. split; [apply quiet_refl|].
    intros w11 Hr11 _ _ w12 Hr12 _ _ a [= <-]. apply (queued_answer _ _ _ _ o6); [done|].
    by do 4 (eapply queued_stable; [eassumption|]).
Qed.

(** A call of another service that keeps the reservations. *)
Lemma wallet_outside w (d : W) c k fs :
  (∀ t res, reservation (ledger w) t = Some res → reservation d t = Some res) →
  (∀ n, known d (uuid n) = known (ledger w) (uuid n)) → k = fresh w → bets_inv w →
  let w' := World (put wallet d (db w)) c k fs in bets_inv w' ∧ ∀ o, bets_rely o w w'.
Proof.
  intros Hres Hk -> [Hids Hrows Hsent Hlog Hidem] w'. split; split; cbn; eauto; try done.
  - intros n Hn. destruct (Hids n Hn) as (Hkn&?&?). cbn. by rewrite Hk.
  - intros id row Hrow Hp. eapply backed_mono; [exact Hres|eauto].
  - intros t key b Hb. eapply has_bet_mono; [exact Hres|cbn; eauto|]. by eapply Hidem.
Qed.

Lemma cashier_outside w req (d : W) c k fs :
  (∀ n, cash_TransactionId req ≠ uuid n) → (d = ledger w ∨ cashier_effect req (ledger w) d) → k = fresh w → bets_inv w →
  let w' := World (put wallet d (db w)) c k fs in bets_inv w' ∧ ∀ o, drawn o w → bets_rely o w w'.
Proof.
  intros Hid Hd Hf Hi. destruct (wallet_outside w d c k fs) as [? ?]; [| |done|done|].
  - intros t res. destruct Hd as [->|(_&Hres&_)]; [done|]. by rewrite Hres.
  - intros n. destruct Hd as [->|(_&_&Hk)]; [done|]. rewrite Hk, bool_decide_eq_false_2; [done|].
    intros E. by apply (Hid n).
  - auto.
Qed.

Lemma once_cashier req effect (d d' : W) ok :
  (∀ d d', effect d d' → cashier_effect req d d') → once (cash_TransactionId req) effect d d' ok →
  d' = d ∨ cashier_effect req d d'.
Proof. unfold once. intros He Ho. destruct ok; [destruct (known _ _)|]; naive_solver. Qed.

Lemma bet_outside_respects w w' : bets_inv w → bet_outside w w' →
  bets_inv w' ∧ ∀ o, drawn o w → bets_rely o w w'.
Proof.
  intros Hi [req r Hid Hrun|req r Hid Hrun|req r Hid Hrun|req r Hrun|Hq].
  - revert w' r Hrun. apply wp_intro. go_step. eapply wp_mono; [|apply credit_contract]. cbn.
    intros w1 r (_&Hf&Heff). assert (db w1 = ledger w ∨ credit_effect req (ledger w) (db w1)) as [E|(_&_&Hres&Hk)]
      by (destruct r; auto); destruct w1 as [d c k fs]; cbn in *.
    + subst d. destruct (wallet_outside w (ledger w) c k fs) as [? ?]; auto.
    + destruct (wallet_outside w d c k fs) as [? ?]; auto. intros n. rewrite Hk.
      rewrite bool_decide_eq_false_2; [done|]. intros E. by apply (Hid n).
  - revert w' r Hrun. apply wp_intro. go_step. eapply wp_mono; [|apply deposit_contract]. cbn.
    intros w1 r (_&Hf&Hone). destruct w1 as [d c k fs]; cbn in *. apply (cashier_outside w req d c k fs); [done| |done|done].
    eapply once_cashier, Hone. by intros ?? [_ ?].
  - revert w' r Hrun. apply wp_intro. go_step. eapply wp_mono; [|apply withdraw_contract]. cbn.
    intros w1 r (_&Hf&Hone). destruct w1 as [d c k fs]; cbn in *. apply (cashier_outside w req d c k fs); [done| |done|done].
    eapply once_cashier, Hone. by intros ?? (?&?&_&_&_&?).
  - revert w' r Hrun. apply wp_intro. go_step. eapply wp_mono; [|apply confirm_contract]. cbn.
    intros w1 r (_&Hf&_&Hres&Hk). destruct w1 as [d c k fs]; cbn in *.
    destruct (wallet_outside w d c k fs) as [? ?]; auto. intros t res. by rewrite Hres.
  - split; [by eapply quiet_inv|]. intros o _. by apply quiet_rely.
Qed.

Lemma bet_thread_sound cfg p w : bet_thread cfg p → bets_inv w → sound answered p ∅ w.
Proof.
  intros [req Hin|locked] _; [by apply request_sound|]. apply sound_cmap.
  eapply sound_mono; [|apply relay_batch_sound]. by intros r o w1 _ a [= <-].
Qed.
End Sharing.

(** ** Properties *)

