(* ===== verification/BetInterleavingExamples.v ===== *)
(** * Interleavings on concrete inputs

    Requests and relays of [BetInterleaving] over the wallet of [Wallet.v],
    scheduled by hand: the witnesses of its theorems, and the three races that
    the code does not exclude. *)
From S2P Require Import BetInterleaving Wallet BetFlowExamples.
Local Open Scope Z_scope.

#[local] Existing Instance inert_platform.

Abbreviation BetThread := (Calls Bets Empty_set (BetAnswer (F:=binary64))).

Definition ex_request (key : string) (stake : Z) : BetThread :=
  request_thread ex_uuid DefaultConfig (ex_req key "knicks-nets" stake).
Definition ex_relay : BetThread := relay_thread (λ _, false).

(** Thread after thread, and call by call in turn. *)
Definition in_turn (threads calls : nat) : list nat := concat (replicate calls (seq 0 threads)).
Definition to_end (thread : nat) : list nat := replicate 20 thread.

(** The bets that the threads were answered, in their order. *)
Definition accepted_bets (threads : list BetThread) : list (option string) :=
  (λ p, match p with Return (Ok (Answered _ (Ok resp))) => Some (resp_BetID resp) | _ => None end) <$> threads.
Definition bet_rows (w : world Bets) : list (string * OutboxStatus) :=
  (λ r, (BetID r.2, ob_Status r.2)) <$> map_to_list (ba_outbox (db w)).

(** Two requests and a relay, call by call in turn; then another batch. *)
Definition ex_mixed := run_schedule (in_turn 3 20 ++ to_end 3)
  (ex_world [], [ex_request "k1" 20000; ex_request "k2" 10000; ex_relay; ex_relay]).

Lemma ex_threads_arrive : Forall (bet_thread ex_uuid DefaultConfig)
  [ex_request "k1" 20000; ex_request "k2" 10000; ex_relay; ex_relay].
Proof. repeat constructor. Qed.


(** One request sent twice under one idempotency key: the key is read before the
    first answer has stored it, so both place a bet and the stake is taken twice. *)
Lemma concurrent_replay_places_two_bets :
  let run := run_schedule (in_turn 2 20) (ex_world [], [ex_request "k1" 20000; ex_request "k1" 20000]) in
  accepted_bets run.2 = [Some (ex_uuid 0); Some (ex_uuid 1)] ∧
  account (ba_wallet (db run.1)) "ann" = Some (10000, 40000) ∧
  (bet_rows run.1).*2 = [OutboxStatusReadyToPublish; OutboxStatusReadyToPublish].
Proof. split_and!; vm_compute; reflexivity. Qed.

(** One after the other the second is a replay of the first. *)
Lemma sequential_replay_places_one_bet :
  let run := run_schedule (to_end 0 ++ to_end 1) (ex_world [], [ex_request "k1" 20000; ex_request "k1" 20000]) in
  accepted_bets run.2 = [Some (ex_uuid 0); Some (ex_uuid 0)] ∧
  account (ba_wallet (db run.1)) "ann" = Some (30000, 20000).
Proof. split_and!; vm_compute; reflexivity. Qed.

(** Ann may stake 300.00 a day. *)
Definition ex_limited : world Bets :=
  World (put wallet (set_user_limits {[ "ann" := {| max_single_stake_minor := 30000; daily_limit_minor := 30000;
      lim_currency := "USD"; kyc_status := "VERIFIED" |} ]} ex_wallet) ex_bets) 5000000 0 [].

(** Two bets of 200.00 at a time pass a daily limit of 300.00: both requests
    read what is staked so far before either has deducted. *)
Lemma concurrent_bets_exceed_the_daily_limit :
  let run := run_schedule (in_turn 2 20) (ex_limited, [ex_request "k1" 20000; ex_request "k2" 20000]) in
  let run' := run_schedule (to_end 0 ++ to_end 1) (ex_limited, [ex_request "k1" 20000; ex_request "k2" 20000]) in
  accepted_bets run.2 = [Some (ex_uuid 0); Some (ex_uuid 1)] ∧
  account (ba_wallet (db run.1)) "ann" = Some (10000, 40000) ∧
  accepted_bets run'.2 = [Some (ex_uuid 0); None] ∧
  account (ba_wallet (db run'.1)) "ann" = Some (30000, 20000).
Proof. split_and!; vm_compute; reflexivity. Qed.

(** Two relays send one row twice: SELECT ... FOR UPDATE SKIP LOCKED holds its
    locks for one statement only. *)
Lemma two_relays_send_twice :
  let run := run_schedule (to_end 0 ++ concat (replicate 20 [1; 2]%nat))
    (ex_world [], [ex_request "k1" 20000; ex_relay; ex_relay]) in
  length (produced (ba_kafka (db run.1))) = 2%nat ∧
  (bet_rows run.1) = [(ex_uuid 0, OutboxStatusPublished)].
Proof. split_and!; vm_compute; reflexivity. Qed.
