(* ===== verification/OddsManagement.v ===== *)
(** * Odds Management ([internal/oddsmanagement/service.go])

    The price computation (logit vig, liability adjustment, American and decimal
    formats), the event handlers and the consumer loop. The theorems: the
    mathematics of the vig over the real numbers, the order of the database
    write and the publication, and that the dispatch matches no topic the
    consumer subscribes to. *)
From stdpp Require Import sorting.
From Stdlib Require Import SpecFloat Reals Lra.
From S2P Require Export Catalog.
Local Open Scope Z_scope.
Local Open Scope go_scope.

(** ** Odds computation *)

Section Computation.
Context {F : Type} `{FloatOps F}.

Record SelectionInput : Type := { in_ID : string; in_FeedProbability : F }.

Record SelectionResult : Type := {
  res_ID : string;
  res_FeedProbability : F;
  ViggedProb : F;
  Decimal : F;      (** 0 if zeroed out *)
  American : Z      (** 0 if zeroed out *)
}.

Definition vigDelta : F := math_Log (lit 11 10).
Definition vigDeltaWide : F := math_Log (lit 115 100).

Definition logit (p : F) : F := math_Log (fdiv p (fsub (fnum 1) p)).
Definition sigmoid (x : F) : F := fdiv (fnum 1) (fadd (fnum 1) (math_Exp (fneg x))).
Definition clamp (v lo hi : F) : F := if flt v lo then lo else if fgt v hi then hi else v.

Definition DecimalToAmerican (decimal : F) : Z :=
  if fge decimal (fnum 2) then int_of_float (math_Round (fmul (fsub decimal (fnum 1)) (fnum 100)))
  else if fle decimal (fnum 1) then 0
  else int_of_float (math_Round (fdiv (fneg (fnum 100)) (fsub decimal (fnum 1)))).

(** [-american] wraps on the smallest integer. *)
Definition AmericanToDecimal (american : Z) : F :=
  if 0 <? american then fadd (fdiv (float_of_int american) (fnum 100)) (fnum 1)
  else if american <? 0 then fadd (fdiv (fnum 100) (float_of_int (wrap64 (- american)))) (fnum 1)
  else fnum 1.

(** The constants [eps] and [1-eps] are folded exactly by the compiler. *)
Definition eps : F := lit 1 1000000.
Definition one_minus_eps : F := lit 999999 1000000.

Definition oddsOf (delta fair : F) (sel : SelectionInput) : SelectionResult :=
  let q := sigmoid (fadd (logit fair) delta) in
  let dec := fdiv (fnum 1) q in
  let am := DecimalToAmerican dec in
  let zeroed := flt q (in_FeedProbability sel) in
  {| res_ID := in_ID sel;
     res_FeedProbability := in_FeedProbability sel;
     ViggedProb := q;
     Decimal := if zeroed then fnum 0 else dec;
     American := if zeroed then 0 else am |}.

Definition ComputeMarketOdds (sels : list SelectionInput) (delta : F) : list SelectionResult :=
  match sels with
  | [s0; s1] =>
      let fp0 := in_FeedProbability s0 in
      let fp1 := in_FeedProbability s1 in
      let total := fadd fp0 fp1 in
      if fle total (fnum 0) then [] else
      let p0 := clamp (fdiv fp0 total) eps one_minus_eps in
      let p1 := clamp (fdiv fp1 total) eps one_minus_eps in
      [oddsOf delta p0 s0; oddsOf delta p1 s1]
  | _ => []
  end.

Definition americanFloat (decimal : F) : F :=
  if fge decimal (fnum 2) then fmul (fsub decimal (fnum 1)) (fnum 100)
  else if fle decimal (fnum 1) then fnum 0
  else fdiv (fneg (fnum 100)) (fsub decimal (fnum 1)).

Definition centSpread (qFav qDog : F) : F :=
  let aFav := americanFloat (fdiv (fnum 1) qFav) in
  let aDog := americanFloat (fdiv (fnum 1) qDog) in
  if flt aFav (fnum 0) && fge aDog (fnum 0) then fsub (fneg aFav) aDog
  else if flt aFav (fnum 0) && flt aDog (fnum 0)
  then fsub (fadd (fneg aFav) (fneg aDog)) (fnum 200)
  else fnum 0.

(** The spread of the market when both probabilities are shifted by [mid]. *)
Definition spreadAt (p0 p1 mid : F) : F :=
  let q0 := sigmoid (fadd (logit p0) mid) in
  let q1 := sigmoid (fadd (logit p1) mid) in
  if fgt q1 q0 then centSpread q1 q0 else centSpread q0 q1.

(** One hundred turns of the binary search. *)
Fixpoint bisect (n : nat) (p0 p1 lo hi : F) : F * F :=
  match n with
  | O => (lo, hi)
  | S n =>
      let mid := fdiv (fadd lo hi) (fnum 2) in
      if flt (spreadAt p0 p1 mid) (fnum 20) then bisect n p0 p1 mid hi else bisect n p0 p1 lo mid
  end.
Definition find20CentDelta (p0 p1 : F) : F :=
  let '(lo, hi) := bisect 100 p0 p1 (fnum 0) (fnum 5) in fdiv (fadd lo hi) (fnum 2).

Definition adjustForLiability (decimal : F) (stakeMinor : Z) : F :=
  if (5000 <? stakeMinor) && fgt decimal (fnum 1)
  then fadd (fnum 1) (fmul (fsub decimal (fnum 1)) (lit 99 100))
  else decimal.
End Computation.
Arguments SelectionInput : clear implicits.
Arguments SelectionResult : clear implicits.

(** ** The service *)

Record OddsRow (F : Type) : Type := {
  od_market_id : string;
  od_selection_id : string;
  offered_decimal : F;
  offered_american : Z;
  source_offset : Z;
  od_updated_at : Z
}.
Arguments od_market_id {F} _.
Arguments od_selection_id {F} _.
Arguments offered_decimal {F} _.
Arguments offered_american {F} _.
Arguments source_offset {F} _.
Arguments od_updated_at {F} _.
Arguments Build_OddsRow {F}.

(** The payload of [odds.updated]. *)
Record OddsUpdatedEvent (F : Type) : Type := {
  oue_MarketID : string;
  oue_SelectionID : string;
  oue_Decimal : F;
  oue_American : Z;
  oue_SourceEventOffset : Z;
  oue_ComputedAt : string
}.
Arguments oue_MarketID {F} _.
Arguments oue_SelectionID {F} _.
Arguments oue_Decimal {F} _.
Arguments oue_American {F} _.
Arguments oue_SourceEventOffset {F} _.
Arguments oue_ComputedAt {F} _.
Arguments Build_OddsUpdatedEvent {F}.

Section OddsUpdated.
Context {F : Type} `{FloatOps F}.

Definition encodeOddsUpdated (e : OddsUpdatedEvent F) : json F := JObj [
  ("market_id", JStr (oue_MarketID e)); ("selection_id", JStr (oue_SelectionID e));
  ("decimal", JNum (oue_Decimal e)); ("american", JInt (oue_American e));
  ("src_offset", JInt (oue_SourceEventOffset e)); ("computed_at", JStr (oue_ComputedAt e))].

Definition decodeOddsUpdated (kvs : list (string * json F)) : option (OddsUpdatedEvent F) :=
  m ← jstring "market_id" kvs;
  s ← jstring "selection_id" kvs;
  d ← jfloat "decimal" kvs;
  a ← jint "american" kvs;
  o ← jint "src_offset" kvs;
  c ← jstring "computed_at" kvs;
  Some (Build_OddsUpdatedEvent m s d a o c).

Lemma decodeOddsUpdated_encode e :
  is_finite (oue_Decimal e) = true → in_int64 (oue_American e) = true →
  in_int64 (oue_SourceEventOffset e) = true →
  Unmarshal decodeOddsUpdated (Doc (encodeOddsUpdated e)) = Some e.
Proof.
  intros Hd Ha Ho. cbn [Unmarshal encodeOddsUpdated]. unfold decodeOddsUpdated.
  json_keys. unfold into_float64, into_int64. rewrite Hd. cbn [mbind option_bind]. json_keys.
  rewrite Ha. cbn [mbind option_bind]. json_keys. rewrite Ho. cbn [mbind option_bind]. json_keys.
  by destruct e.
Qed.
End OddsUpdated.

(** The odds database, the read-only view of the catalogue, the producer. *)
Record OddsService (F K : Type) : Type := {
  os_odds : list (OddsRow F);
  os_catalog : CatalogDB F;
  os_kafka : K
}.
Arguments os_odds {F K} _.
Arguments os_catalog {F K} _.
Arguments os_kafka {F K} _.
Arguments Build_OddsService {F K}.

Section Service.
Context {F K : Type} `{FloatOps F} `{Postgres F} `{SyncProducer F K}.
Abbreviation State := (OddsService F K).

Definition odds_table : lens State (list (OddsRow F)) :=
  Lens os_odds (λ x s, Build_OddsService x (os_catalog s) (os_kafka s)).
Definition odds_kafka : lens State K :=
  Lens os_kafka (λ x s, Build_OddsService (os_odds s) (os_catalog s) x).

(** The row of the SELECT for one selection: the joins drop a selection whose
    market, event, competition or sport is missing. *)
Definition priced_selection (d : CatalogDB F) (marketID : string) (kv : string * SelectionRow F)
  : option (SelectionInput F * (string * string)) :=
  let '(id, sel) := kv in
  if negb (sel_market_id sel =? marketID)%string || negb (sel_active sel) then None else
  p ← sel_feed_probability sel;
  mkt ← markets d !! sel_market_id sel;
  ev ← events d !! mk_event_id mkt;
  comp ← competitions d !! evt_competition_id ev;
  _ ← sports d !! comp_sport_id comp;
  Some ({| in_ID := id; in_FeedProbability := p |}, (comp_sport_id comp, evt_status ev)).

(** [ORDER BY selection_id]. *)
Definition by_id (x y : SelectionInput F * (string * string)) : Prop :=
  String.leb (in_ID x.1) (in_ID y.1) = true.
#[export] Instance by_id_dec x y : Decision (by_id x y).
Proof. unfold by_id. apply _. Defined.
Definition selections_of (marketID : string) (d : CatalogDB F)
  : list (SelectionInput F * (string * string)) :=
  merge_sort by_id (omap (priced_selection d marketID) (map_to_list (selections d))).

(** [INSERT INTO odds]: [offered_decimal] is NUMERIC(10,4), [offered_american] INT. *)
Definition insertOdds (row : OddsRow F) (t : list (OddsRow F)) : option (list (OddsRow F)) :=
  dec ← numeric 10 4 (offered_decimal row);
  if in_int32 (offered_american row)
  then Some (t ++ [Build_OddsRow (od_market_id row) (od_selection_id row) dec (offered_american row)
                     (source_offset row) (od_updated_at row)])
  else None.

Definition writeOddsAndPublish (marketID selectionID : string) (decimal : F) (american sourceOffset : Z)
  : Go State string unit :=
  t <- now ;;
  zoom odds_table (exec (insertOdds (Build_OddsRow marketID selectionID decimal american sourceOffset t)))
    or_throw "write odds to db" ;;;
  match Marshal (encodeOddsUpdated
    (Build_OddsUpdatedEvent marketID selectionID decimal american sourceOffset (FormatRFC3339Nano t))) with
  | None => throw "marshal odds.updated"
  | Some data =>
      mapErr (λ e, "publish odds.updated: " +:+ e) (zoom odds_kafka (SendMessage
        {| Topic := "odds-updated"; Key := marketID; Value := data; Headers := [] |}))
  end.

Definition decodeFeedEvent (kvs : list (string * json F)) : option (string * string) :=
  t ← jstring "event_type" kvs; m ← jstring "market_id" kvs; Some (t, m).

(** The vig schedule. *)
Definition deltaFor (sportID eventStatus : string) : F :=
  if (sportID =? "politics")%string || ((sportID =? "basketball")%string && (eventStatus =? "LIVE")%string)
  then vigDeltaWide else vigDelta.

Definition handleNormalisedFeed (msg : ConsumerMessage F) : Go State string unit :=
  match Unmarshal decodeFeedEvent (Value (cm msg)) with
  | None => throw "unmarshal feed event"
  | Some (eventType, marketID) =>
      if negb (eventType =? "price.update")%string then ret tt else
      rows <- queryRow (λ s, Some (selections_of marketID (os_catalog s))) or_throw "fetch selections" ;;
      match rows with
      | [(s0, _); (s1, (sportID, eventStatus))] =>
          if feq (in_FeedProbability s0) (fnum 0) || feq (in_FeedProbability s1) (fnum 0) then ret tt else
          forM_ (ComputeMarketOdds [s0; s1] (deltaFor sportID eventStatus)) (λ r,
            if feq (Decimal r) (fnum 0) then ret tt
            else writeOddsAndPublish marketID (res_ID r) (Decimal r) (American r) (Offset msg))
      | _ => ret tt
      end
  end.

Definition decodeBetPlaced (kvs : list (string * json F)) : option (string * string * Z) :=
  m ← jstring "market_id" kvs; s ← jstring "selection_id" kvs; st ← jint "stake_minor" kvs;
  Some (m, s, st).

(** [ORDER BY updated_at DESC LIMIT 1]; among rows of the same instant the last
    inserted. *)
Fixpoint latest_odds (marketID selectionID : string) (t : list (OddsRow F)) : option (OddsRow F) :=
  match t with
  | [] => None
  | r :: t =>
      match latest_odds marketID selectionID t with
      | Some r' => if (od_market_id r =? marketID)%string && (od_selection_id r =? selectionID)%string
                      && (od_updated_at r' <? od_updated_at r) then Some r else Some r'
      | None => if (od_market_id r =? marketID)%string && (od_selection_id r =? selectionID)%string
                then Some r else None
      end
  end.

Definition handleBetPlaced (msg : ConsumerMessage F) : Go State string unit :=
  match Unmarshal decodeBetPlaced (Value (cm msg)) with
  | None => throw "unmarshal bet.placed"
  | Some (marketID, selectionID, stakeMinor) =>
      row <- catch (zoom odds_table (queryRow (latest_odds marketID selectionID))) ;;
      match row with
      | Err _ => ret tt
      | Ok r =>
          let currentDecimal := offered_decimal r in
          let newDecimal := adjustForLiability currentDecimal stakeMinor in
          if feq newDecimal currentDecimal then ret tt
          else writeOddsAndPublish marketID selectionID newDecimal (DecimalToAmerican newDecimal) (Offset msg)
      end
  end.

Definition handleEvent (msg : ConsumerMessage F) : Go State string unit :=
  if (Topic (cm msg) =? "market-data.normalised")%string then handleNormalisedFeed msg
  else if (Topic (cm msg) =? "bet.placed")%string then handleBetPlaced msg
  else ret tt.

(** The topics [RunConsumer] subscribes to. *)
Definition odds_topics : list string := ["market-data-normalised"; "bet-placed"].

Definition oddsConsumeClaim (msgs : list (ConsumerMessage F)) : Go State string (list Z) :=
  ConsumeClaim handleEvent msgs.
End Service.

(** ** The computation over the real numbers *)

Section Exact.
Local Open Scope R_scope.

Lemma sigmoid_logit p d :
  0 < p < 1 → sigmoid (logit p + d) = p * exp d / (p * exp d + (1 - p)).
Proof.
  intros Hp. unfold sigmoid, logit; cbn. unfold fnum; cbn.
  assert (0 < p / (1 - p)) as Hodds by (apply Rdiv_lt_0_compat; lra).
  rewrite Ropp_plus_distr, exp_plus, !exp_Ropp, exp_ln by done.
  pose proof (exp_pos d). field. repeat split; try lra. nra.
Qed.

Lemma sigmoid_range x : 0 < sigmoid x < 1.
Proof.
  unfold sigmoid; cbn. unfold fnum; cbn. pose proof (exp_pos (- x)). split.
  - apply Rdiv_lt_0_compat; lra.
  - apply Rmult_lt_reg_r with (1 + exp (- x)); [lra|].
    unfold Rdiv. rewrite Rmult_assoc, Rinv_l by lra. lra.
Qed.

Lemma vig_raises p d : 0 < p < 1 → 0 < d → p < sigmoid (logit p + d).
Proof.
  intros Hp Hd. rewrite sigmoid_logit by done.
  assert (1 < exp d) as He by (rewrite <- exp_0; by apply exp_increasing).
  assert (0 < p * exp d + (1 - p)) as Hpos by nra.
  apply Rmult_lt_reg_r with (p * exp d + (1 - p)); [done|].
  replace (p * exp d / (p * exp d + (1 - p)) * (p * exp d + (1 - p))) with (p * exp d) by (field; lra).
  assert (0 < p * (1 - p) * (exp d - 1)) by (repeat apply Rmult_lt_0_compat; lra). lra.
Qed.

Lemma clamp_range v lo hi : lo <= hi → lo <= clamp v lo hi <= hi.
Proof.
  intros Hl. unfold clamp, fgt; cbn. unfold Rltb. repeat destruct (Rlt_dec _ _); lra.
Qed.

Lemma eps_range : 0 < (eps : R) /\ (eps : R) < (one_minus_eps : R) /\ (one_minus_eps : R) < 1.
Proof. unfold eps, one_minus_eps, lit; cbn. lra. Qed.

(** The fair probability of each side of a market with feed probabilities [x], [y]. *)
Definition fair (x y : R) : R := clamp (x / (x + y)) eps one_minus_eps.

Lemma fair_range x y : 0 < fair x y < 1.
Proof.
  pose proof eps_range. unfold fair. pose proof (clamp_range (x / (x + y)) eps one_minus_eps). lra.
Qed.

Lemma fair_sum x y : 0 < x + y → 0 <= x → 0 <= y → fair x y + fair y x = 1.
Proof.
  intros Hs Hx Hy. pose proof eps_range as He.
  assert (y / (y + x) = 1 - x / (x + y)) as Hyx by (field; lra).
  unfold fair. rewrite Hyx. unfold clamp, fgt, eps, one_minus_eps, lit; cbn. unfold Rltb.
  repeat destruct (Rlt_dec _ _); lra.
Qed.

Lemma ComputeMarketOdds_pair (s0 s1 : SelectionInput R) d :
  0 < in_FeedProbability s0 + in_FeedProbability s1 →
  ComputeMarketOdds [s0; s1] d =
    [oddsOf d (fair (in_FeedProbability s0) (in_FeedProbability s1)) s0;
     oddsOf d (fair (in_FeedProbability s1) (in_FeedProbability s0)) s1].
Proof.
  intros Hs. unfold ComputeMarketOdds. cbn. unfold fnum; cbn.
  destruct (Rleb _ 0) eqn:Hle; [apply Rleb_true in Hle; lra|].
  unfold fair. by rewrite (Rplus_comm (in_FeedProbability s1)).
Qed.

Lemma oddsOf_exact d p (s : SelectionInput R) :
  ViggedProb (oddsOf d p s) = sigmoid (logit p + d) ∧
  Decimal (oddsOf d p s) = (if Rltb (sigmoid (logit p + d)) (in_FeedProbability s) then 0
                            else 1 / sigmoid (logit p + d)) ∧
  American (oddsOf d p s) = (if Rltb (sigmoid (logit p + d)) (in_FeedProbability s) then 0%Z
                             else DecimalToAmerican (1 / sigmoid (logit p + d))).
Proof. done. Qed.

(** Rounding to the nearest integer what is an integer. *)
Lemma round_int x z : x = IZR z → R_trunc (R_round x) = z.
Proof. intros ->. rewrite R_round_IZR. apply R_trunc_IZR. Qed.
End Exact.

Section ExactProperties.
Local Open Scope R_scope.

(** The result [r] of the selection [s] whose fair probability is [p]: the
    implied probability, and the prices derived from it. *)
Definition priced_at (delta p : R) (s : SelectionInput R) (r : SelectionResult R) : Prop :=
  res_ID r = in_ID s ∧ res_FeedProbability r = in_FeedProbability s ∧
  ViggedProb r / (1 - ViggedProb r) = exp delta * (p / (1 - p)) ∧
  p < ViggedProb r < 1 ∧
  (ViggedProb r < in_FeedProbability s ∧ Decimal r = 0 ∧ American r = 0%Z ∨
   in_FeedProbability s <= ViggedProb r ∧ Decimal r = 1 / ViggedProb r ∧
     American r = DecimalToAmerican (Decimal r)) ∧
  0 <= Decimal r ∧ Decimal r * p < 1 ∧ Decimal r * in_FeedProbability s <= 1.

Lemma oddsOf_priced delta p (s : SelectionInput R) :
  0 < p < 1 → 0 < delta → priced_at delta p s (oddsOf delta p s).
Proof.
  intros Hp Hd. pose proof (vig_raises _ _ Hp Hd) as Hv.
  pose proof (sigmoid_range (logit p + delta)) as Hq. pose proof (sigmoid_logit p delta Hp) as Hl.
  destruct (oddsOf_exact delta p s) as (Ev&Ed&Ea).
  unfold priced_at. rewrite Ev, Ed, Ea. set (q := sigmoid (logit p + delta)) in *.
  assert (0 < 1 / q) as Hi by (apply Rdiv_lt_0_compat; lra).
  assert (1 / q * q = 1) as Hone by (field; lra).
  assert (q / (1 - q) = exp delta * (p / (1 - p))) as Hodds.
  { pose proof (exp_pos delta). assert (0 < p * exp delta) by nra.
    rewrite Hl. field. repeat split; nra. }
  clearbody q. clear Ev Ed Ea Hl.
  unfold Rltb. destruct (Rlt_dec q (in_FeedProbability s)).
  - repeat (apply conj); try done; try lra. by left.
  - repeat (apply conj); try done; try lra; [right; repeat (apply conj); [lra|done|done]|nra|nra].
Qed.

(** C29. The vig over exact numbers, for two selections with non-negative feed
    probabilities, not both zero, and a positive shift [delta]. Each side keeps
    its identity and its feed probability; its implied probability [q] is the
    fair one [p] with its odds multiplied by [exp delta], so it lies strictly
    between [p] and 1, and the two implied probabilities sum to more than 1.
    The decimal price is [1 / q], and the American price its conversion, unless
    [q] is below the feed's probability: then both are 0. So an offered price
    pays less than the fair one, and at most the inverse of the feed's
    probability: a bet on it has no positive expected value by either. *)
Theorem ComputeMarketOdds_exact (s0 s1 : SelectionInput R) (delta : R) :
  0 <= in_FeedProbability s0 → 0 <= in_FeedProbability s1 →
  0 < in_FeedProbability s0 + in_FeedProbability s1 → 0 < delta →
  ∃ r0 r1, ComputeMarketOdds [s0; s1] delta = [r0; r1] ∧
    priced_at delta (fair (in_FeedProbability s0) (in_FeedProbability s1)) s0 r0 ∧
    priced_at delta (fair (in_FeedProbability s1) (in_FeedProbability s0)) s1 r1 ∧
    1 < ViggedProb r0 + ViggedProb r1.
Proof.
  intros H0 H1 Hsum Hd. rewrite ComputeMarketOdds_pair by done.
  set (x := in_FeedProbability s0) in *. set (y := in_FeedProbability s1) in *.
  pose proof (oddsOf_priced delta _ s0 (fair_range x y) Hd) as P0.
  pose proof (oddsOf_priced delta _ s1 (fair_range y x) Hd) as P1.
  eexists _, _. split; [done|]. split; [done|]. split; [done|].
  destruct P0 as (_ & _ & _ & P0 & _), P1 as (_ & _ & _ & P1 & _).
  pose proof (fair_sum x y Hsum H0 H1). lra.
Qed.

Lemma even_fair x : 0 < x → fair x x = / 2.
Proof.
  intros Hx. pose proof eps_range. unfold fair. replace (x / (x + x)) with (/ 2) by (field; lra).
  unfold clamp, fgt, eps, one_minus_eps, lit; cbn. unfold Rltb. repeat destruct (Rlt_dec _ _); lra.
Qed.

Lemma even_vig a : 0 < a → sigmoid (logit (/ 2) + ln a) = a / (a + 1).
Proof. intros Ha. rewrite sigmoid_logit by lra. rewrite exp_ln by done. field. lra. Qed.

Lemma american_below_evens d z : 1 < d < 2 → -100 / (d - 1) = IZR z → DecimalToAmerican d = z.
Proof.
  intros Hd Hz. unfold DecimalToAmerican, fge, fnum; cbn.
  destruct (Rleb 2 d) eqn:E; [apply Rleb_true in E; lra|].
  destruct (Rleb d 1) eqn:E'; [apply Rleb_true in E'; lra|]. by apply round_int.
Qed.

Lemma american_from_evens d z : 2 <= d → (d - 1) * 100 = IZR z → DecimalToAmerican d = z.
Proof.
  intros Hd Hz. unfold DecimalToAmerican, fge, fnum; cbn.
  destruct (Rleb 2 d) eqn:E; [by apply round_int|apply Rleb_false in E; lra].
Qed.

(** The line offered on an even selection when the odds ratio is multiplied by [a]. *)
Lemma even_line a z (s : SelectionInput R) :
  1 < a → in_FeedProbability s <= / 2 → IZR z = - 100 * a →
  Decimal (oddsOf (ln a) (/ 2) s) = (a + 1) / a ∧ American (oddsOf (ln a) (/ 2) s) = z.
Proof.
  intros Ha Hs Hz. unfold oddsOf; cbn [Decimal American].
  change (fadd (logit (/ 2)) (ln a)) with (logit (/ 2) + ln a). rewrite even_vig by lra.
  assert (/ 2 < a / (a + 1)) as Hq.
  { apply Rmult_lt_reg_r with (a + 1); [lra|]. replace (a / (a + 1) * (a + 1)) with a by (field; lra). lra. }
  assert (0 < 1 / a < 1) as Hinv.
  { split; [apply Rdiv_lt_0_compat; lra|]. apply Rmult_lt_reg_r with a; [lra|].
    replace (1 / a * a) with 1 by (field; lra). lra. }
  change (flt (a / (a + 1)) (in_FeedProbability s)) with (Rltb (a / (a + 1)) (in_FeedProbability s)).
  destruct (Rltb _ _) eqn:E; [apply Rltb_true in E; lra|].
  change (fdiv (fnum 1) (a / (a + 1))) with (1 / (a / (a + 1))).
  replace (1 / (a / (a + 1))) with (1 + 1 / a) by (field; lra). split; [field; lra|].
  apply american_below_evens; [lra|]. rewrite Hz. field. lra.
Qed.

(** Even money: with equal feed probabilities not above one half, the normal
    schedule offers 21/11, American -110, on both sides and the wide schedule
    43/23, American -115, as the comments derive. *)
Theorem even_money_lines (s0 s1 : SelectionInput R) :
  in_FeedProbability s0 = in_FeedProbability s1 → 0 < in_FeedProbability s0 <= / 2 →
  map Decimal (ComputeMarketOdds [s0; s1] vigDelta) = [21 / 11; 21 / 11] ∧
  map American (ComputeMarketOdds [s0; s1] vigDelta) = [(-110)%Z; (-110)%Z] ∧
  map Decimal (ComputeMarketOdds [s0; s1] vigDeltaWide) = [43 / 23; 43 / 23] ∧
  map American (ComputeMarketOdds [s0; s1] vigDeltaWide) = [(-115)%Z; (-115)%Z].
Proof.
  intros Heq Hp. rewrite !ComputeMarketOdds_pair by lra. rewrite <- Heq, even_fair by lra.
  change (vigDelta : R) with (ln (11 / 10)). change (vigDeltaWide : R) with (ln (115 / 100)).
  cbn [map].
  destruct (even_line (11 / 10) (-110) s0) as [-> ->]; [lra..|].
  destruct (even_line (11 / 10) (-110) s1) as [-> ->]; [lra..|].
  destruct (even_line (115 / 100) (-115) s0) as [-> ->]; [lra..|].
  destruct (even_line (115 / 100) (-115) s1) as [-> ->]; [lra..|].
  replace ((11 / 10 + 1) / (11 / 10)) with (21 / 11) by lra.
  replace ((115 / 100 + 1) / (115 / 100)) with (43 / 23) by lra. by split_and!.
Qed.

(** American prices survive the conversion to decimal and back, exactly, for
    the prices that exist: +100 and longer, and shorter than -100. The other
    way to write even money, -100, comes back as +100. *)
Theorem American_roundtrip (a : Z) :
  (100 <= a ∨ int64_min < a < -100)%Z →
  DecimalToAmerican (AmericanToDecimal a : R) = a ∧
  DecimalToAmerican (AmericanToDecimal (-100) : R) = 100%Z.
Proof.
  intros Ha. split.
  - unfold AmericanToDecimal. destruct Ha as [Ha|[Hmin Ha]].
    + pose proof (IZR_le _ _ Ha) as Hr. destruct (Z.ltb_spec 0 a); [|lia].
      apply american_from_evens; unfold fnum; cbn; lra.
    + pose proof (IZR_lt _ _ Ha) as Hr. destruct (Z.ltb_spec 0 a); [lia|].
      destruct (Z.ltb_spec a 0); [|lia].
      rewrite wrap64_small by (unfold int64_min, int64_max in *; lia).
      assert (0 < 100 / - IZR a < 1) as Hd.
      { split; [apply Rdiv_lt_0_compat; lra|]. apply Rmult_lt_reg_r with (- IZR a); [lra|].
        replace (100 / - IZR a * - IZR a) with 100 by (field; lra). lra. }
      apply american_below_evens; unfold fnum; cbn; rewrite opp_IZR; [lra|field]; lra.
  - change (AmericanToDecimal (-100) : R) with (100 / 100 + 1).
    apply american_from_evens; lra.
Qed.

(** The liability adjustment only ever shortens a price and keeps it above
    evens of stake: the result is between 1 and the old price, exactly 99% of
    the old profit for a stake above 5000, the old price otherwise. *)
Theorem adjustForLiability_exact (decimal : R) (stake : Z) :
  1 < decimal →
  1 < adjustForLiability decimal stake <= decimal ∧
  adjustForLiability decimal stake - 1 =
    (if (5000 <? stake)%Z then 99 / 100 * (decimal - 1) else decimal - 1).
Proof.
  intros Hd. unfold adjustForLiability, fgt, lit, fnum; cbn.
  destruct (5000 <? stake)%Z; cbn; [|lra].
  destruct (Rltb 1 decimal) eqn:E; [|apply Rltb_false in E; lra]. lra.
Qed.
(** The binary search keeps its bracket: its lower end is below the target
    spread, its upper end is not, and every turn halves it. *)
Lemma bisect_bracket n p0 p1 (lo hi : R) :
  let b := bisect n p0 p1 lo hi in
  b.2 - b.1 = (hi - lo) / 2 ^ n ∧
  (b.1 = lo ∨ spreadAt p0 p1 b.1 < 20) ∧ (b.2 = hi ∨ 20 <= spreadAt p0 p1 b.2).
Proof.
  revert lo hi. induction n as [|n IH]; intros lo hi b; subst b.
  - cbn. split; [field|tauto].
  - cbn [bisect]. change (fdiv (fadd lo hi) (fnum 2)) with ((lo + hi) / 2).
    set (mid := (lo + hi) / 2). assert (2 ^ n <> 0) as Hn by (apply pow_nonzero; lra).
    change (flt (spreadAt p0 p1 mid) (fnum 20)) with (Rltb (spreadAt p0 p1 mid) 20).
    destruct (Rltb _ 20) eqn:E; [apply Rltb_true in E|apply Rltb_false in E].
    + destruct (IH mid hi) as (Hw&Hlo&Hhi). split.
      * rewrite Hw. unfold mid. cbn [pow]. field. done.
      * split; [|done]. destruct Hlo as [->|]; by right.
    + destruct (IH lo mid) as (Hw&Hlo&Hhi). split.
      * rewrite Hw. unfold mid. cbn [pow]. field. done.
      * split; [done|]. destruct Hhi as [->|]; by right.
Qed.
End ExactProperties.

(** ** The service *)

Section ServiceProperties.
Context {F K : Type} `{FloatOps F} `{Postgres F} `{SyncProducer F K}.
Implicit Types (w : world (OddsService F K)) (r : SelectionResult F).

(** The row and the message of one offered price. *)
Definition quote_row (marketID : string) (off t : Z) r : option (OddsRow F) :=
  dec ← numeric 10 4 (Decimal r);
  if in_int32 (American r) then Some (Build_OddsRow marketID (res_ID r) dec (American r) off t) else None.
Definition quote_message (marketID : string) (off t : Z) r : ProducerMessage F :=
  {| Topic := "odds-updated"; Key := marketID;
     Value := Doc (encodeOddsUpdated (Build_OddsUpdatedEvent marketID (res_ID r) (Decimal r) (American r) off
                                        (FormatRFC3339Nano t)));
     Headers := [] |}.

(** What a feed event makes the service offer, given the catalogue. *)
Definition quotes (d : CatalogDB F) (v : bytes F) : string * list (SelectionResult F) :=
  match Unmarshal decodeFeedEvent v with
  | Some (eventType, marketID) =>
      if negb (eventType =? "price.update")%string then (marketID, []) else
      match selections_of marketID d with
      | [(s0, _); (s1, (sportID, eventStatus))] =>
          if feq (in_FeedProbability s0) (fnum 0) || feq (in_FeedProbability s1) (fnum 0) then (marketID, [])
          else (marketID, filter (λ r, feq (Decimal r) (fnum 0) = false)
                            (ComputeMarketOdds [s0; s1] (deltaFor sportID eventStatus)))
      | _ => (marketID, [])
      end
  | None => (""%string, [])
  end.

(** The state change of writing and publishing a list of prices until one fails:
    every message has its row, at most one row has no message. *)
Definition offered (marketID : string) (off : Z) w w' (offers : list (SelectionResult F)) (ok : bool) : Prop :=
  os_catalog (db w') = os_catalog (db w) ∧ clock w' = clock w ∧
  ∃ written sent rows,
    sent `prefix_of` written ∧ written `prefix_of` offers ∧ (length written ≤ S (length sent))%nat ∧
    mapM (quote_row marketID off (clock w)) written = Some rows ∧
    os_odds (db w') = os_odds (db w) ++ rows ∧
    produced (os_kafka (db w')) =
      produced (os_kafka (db w)) ++ map (quote_message marketID off (clock w)) sent ∧
    (ok = true → sent = offers).

Lemma offered_none marketID off w w' offers ok :
  os_catalog (db w') = os_catalog (db w) → os_odds (db w') = os_odds (db w) →
  os_kafka (db w') = os_kafka (db w) → clock w' = clock w →
  (ok = true → offers = []) → offered marketID off w w' offers ok.
Proof.
  intros Hc Ho Hk Ht Hok. split_and!; [done..|]. exists [], [], []. rewrite Ho, Hk. cbn. rewrite !app_nil_r.
  split_and!; try done; [apply prefix_nil|lia|]. intros He. by rewrite Hok.
Qed.

Lemma insertOdds_quote marketID off t r rows :
  insertOdds (Build_OddsRow marketID (res_ID r) (Decimal r) (American r) off t) rows =
    (λ row, rows ++ [row]) <$> quote_row marketID off t r.
Proof.
  unfold insertOdds, quote_row. cbn. destruct (numeric 10 4 (Decimal r)); cbn; [|done].
  by destruct (in_int32 (American r)).
Qed.

Lemma writeOddsAndPublish_wp marketID off r w :
  wp (writeOddsAndPublish marketID (res_ID r) (Decimal r) (American r) off)
    (λ w' res, offered marketID off w w' [r] (is_ok res)) w.
Proof.
  unfold writeOddsAndPublish. do 6 go_step.
  { by apply offered_none. }
  cbn [view odds_table db set_db set_faults]. rewrite insertOdds_quote.
  destruct (quote_row marketID off (clock w) r) as [row|] eqn:Hrow; cbn; [|by apply offered_none].
  assert (mapM (quote_row marketID off (clock w)) [r] = Some [row]) as Hrows by (cbn; by rewrite Hrow).
  unfold Marshal. destruct (marshalable _) eqn:Hm; cbn.
  2: { go_step. split_and!; [done..|]. exists [r], [], [row]. cbn. rewrite app_nil_r.
       split_and!; try done; apply prefix_nil. }
  go_step. go_step. eapply wp_mono; [|apply SendMessage_law].
  cbn. fold (quote_message marketID off (clock w) r). intros w1 res (Hc&_&Hp).
  assert (offered marketID off w (set_db (Build_OddsService (os_odds (db w) ++ [row]) (os_catalog (db w)) (db w1)) w1)
    [r] (is_ok res)); [|by destruct res].
  split_and!; [done..|].
  assert (∀ ok, produced (db w1) = produced (os_kafka (db w)) ++ [quote_message marketID off (clock w) r] →
    ∃ written sent rows,
    sent `prefix_of` written ∧ written `prefix_of` [r] ∧ (length written ≤ S (length sent))%nat ∧
    mapM (quote_row marketID off (clock w)) written = Some rows ∧
    os_odds (db w) ++ [row] = os_odds (db w) ++ rows ∧
    produced (db w1) = produced (os_kafka (db w)) ++ map (quote_message marketID off (clock w)) sent ∧
    (ok = true → sent = [r])) as Hsent.
  { intros ok Hp'. exists [r], [r], [row]. split_and!; try done. cbn. lia. }
  destruct res as [[]|e]; [by apply Hsent|]. destruct Hp as [Hp|Hp]; [|by apply Hsent].
  exists [r], [], [row]. cbn. rewrite app_nil_r. split_and!; try done; apply prefix_nil.
Qed.

Lemma offered_app marketID off w w1 w2 r rs ok :
  offered marketID off w w1 [r] true → offered marketID off w1 w2 rs ok → offered marketID off w w2 (r :: rs) ok.
Proof.
  intros (Hcat&Hc&wr&sn&rows&Hsn&Hwr&Hle&Hrows&Ho&Hp&Hok) (Hcat'&Hc'&wr'&sn'&rows'&Hsn'&Hwr'&Hle'&Hrows'&Ho'&Hp'&Hok').
  rewrite (Hok eq_refl) in *. clear Hok.
  assert (wr = [r]) as -> by (apply (anti_symm prefix); done).
  split_and!; [congruence..|]. exists (r :: wr'), (r :: sn'), (rows ++ rows').
  rewrite Hc in *. cbn in *. destruct (quote_row marketID off (clock w) r) as [row|]; cbn in *; [|done].
  injection Hrows as <-. rewrite Hrows'. cbn. rewrite Ho', Ho, Hp', Hp, <- !app_assoc. cbn.
  split_and!; try done; [by apply prefix_cons..|lia|]. intros He. by rewrite Hok'.
Qed.

Lemma offered_none_app marketID off w w1 w2 r rs ok :
  offered marketID off w w1 [r] false → ok = false → offered marketID off w1 w2 [] false →
  offered marketID off w w1 (r :: rs) ok.
Proof.
  intros (Hcat&Hc&wr&sn&rows&Hsn&Hwr&Hle&Hrows&Ho&Hp&_) -> _. split_and!; [done..|].
  exists wr, sn, rows. split_and!; try done. etrans; [done|]. apply prefix_cons, prefix_nil.
Qed.

Lemma offer_loop marketID off rs w :
  wp (forM_ rs (λ r, if feq (Decimal r) (fnum 0) then ret tt
        else writeOddsAndPublish marketID (res_ID r) (Decimal r) (American r) off))
    (λ w' res, offered marketID off w w' (filter (λ r, feq (Decimal r) (fnum 0) = false) rs) (is_ok res)) w.
Proof.
  revert w. induction rs as [|r rs IH]; intros w; cbn [forM_]; [go_step; by apply offered_none|].
  go_step. destruct (feq (Decimal r) (fnum 0)) eqn:Hz.
  - go_step. rewrite filter_cons_False by (by rewrite Hz). apply IH.
  - rewrite filter_cons_True by done. eapply wp_mono; [|apply writeOddsAndPublish_wp].
    intros w1 [[]|e] Ho; cbn in Ho.
    + eapply wp_mono; [|apply IH]. intros w2 res. by apply offered_app.
    + eapply (offered_none_app _ _ _ _ w1); [done..|by apply offered_none].
Qed.

Lemma handleNormalisedFeed_wp (msg : ConsumerMessage F) w :
  wp (handleNormalisedFeed msg) (λ w' res,
    let '(marketID, offers) := quotes (os_catalog (db w)) (Value (cm msg)) in
    offered marketID (Offset msg) w w' offers (is_ok res)) w.
Proof.
  unfold handleNormalisedFeed, quotes.
  destruct (Unmarshal decodeFeedEvent (Value (cm msg))) as [[eventType marketID]|]; [|go_step; by apply offered_none].
  destruct (negb _); [go_step; by apply offered_none|]. do 3 go_step.
  { destruct (selections_of marketID (os_catalog (db w))) as [|[s0 ?] [|[s1 []] []]]; try by apply offered_none.
    destruct (_ || _); by apply offered_none. }
  destruct (selections_of marketID (os_catalog (db w))) as [|[s0 ?] [|[s1 [sport st]] []]];
    try (go_step; by apply offered_none).
  destruct (_ || _); [go_step; by apply offered_none|]. exact (offer_loop marketID (Offset msg) _ (set_faults fs w)).
Qed.

(** C28. A feed event, under any faults: the catalogue is only read; the prices are
    written in order, each as one row at NUMERIC(10,4), and each is published
    after its row is written, with the same event offset; only non-zero prices
    of a market with exactly two priced selections are offered; when something
    fails, at most the last row written has no message; when nothing fails,
    every price is both stored and published. *)
Theorem handleNormalisedFeed_spec (msg : ConsumerMessage F) w w' res marketID offers :
  quotes (os_catalog (db w)) (Value (cm msg)) = (marketID, offers) →
  handleNormalisedFeed msg w = (w', res) →
  os_catalog (db w') = os_catalog (db w) ∧
  ∃ written sent rows,
    sent `prefix_of` written ∧ written `prefix_of` offers ∧ (length written ≤ S (length sent))%nat ∧
    mapM (quote_row marketID (Offset msg) (clock w)) written = Some rows ∧
    os_odds (db w') = os_odds (db w) ++ rows ∧
    produced (os_kafka (db w')) =
      produced (os_kafka (db w)) ++ map (quote_message marketID (Offset msg) (clock w)) sent ∧
    (res = Ok tt → sent = offers).
Proof.
  intros Hq Hm. pose proof (handleNormalisedFeed_wp msg w) as Hwp. unfold wp in Hwp. rewrite Hm, Hq in Hwp.
  destruct Hwp as (Hc&_&written&sent&rows&?&?&?&?&?&?&Hok).
  split; [done|]. exists written, sent, rows. split_and!; try done. intros ->. by apply Hok.
Qed.

Lemma handleEvent_ignores (msg : ConsumerMessage F) w :
  Topic (cm msg) ∈ odds_topics → handleEvent msg w = (w, Ok tt).
Proof.
  unfold handleEvent, odds_topics. rewrite !elem_of_cons, elem_of_nil. by intros [->|[->|[]]].
Qed.

(** The dispatch compares topic names that the consumer does not subscribe to:
    whatever the subscribed topics deliver, no event is handled, nothing is
    stored or published, and every offset is committed. *)
Theorem odds_consumer_ignores_its_topics (msgs : list (ConsumerMessage F)) w :
  Forall (λ m, Topic (cm m) ∈ odds_topics) msgs →
  oddsConsumeClaim msgs w = (w, Ok (map Offset msgs)).
Proof.
  unfold oddsConsumeClaim. induction 1 as [|m msgs Hm _ IH]; [done|].
  cbn. unfold gbind, catch. by rewrite handleEvent_ignores, IH.
Qed.
End ServiceProperties.

(** ** Witnesses *)

Section ExactWitnesses.
Local Open Scope R_scope.
Definition ex_input (id : string) (p : R) : SelectionInput R := {| in_ID := id; in_FeedProbability := p |}.

Lemma ComputeMarketOdds_exact_witness :
  ∃ r0 r1, ComputeMarketOdds [ex_input "yes" (3 / 5); ex_input "no" (2 / 5)] 1 = [r0; r1] ∧
    1 < ViggedProb r0 + ViggedProb r1.
Proof.
  destruct (ComputeMarketOdds_exact (ex_input "yes" (3 / 5)) (ex_input "no" (2 / 5)) 1)
    as (r0&r1&Hr&_&_&Hsum); [cbn; lra..|].
  exists r0, r1. exact (conj Hr Hsum).
Defined.

Lemma even_money_lines_witness :
  map American (ComputeMarketOdds [ex_input "yes" (/ 2); ex_input "no" (/ 2)] vigDelta) = [(-110)%Z; (-110)%Z].
Proof. apply (even_money_lines (ex_input "yes" (/ 2)) (ex_input "no" (/ 2))); [done|cbn; lra]. Defined.

Lemma American_roundtrip_witness : DecimalToAmerican (AmericanToDecimal (-150) : R) = (-150)%Z.
Proof. apply (American_roundtrip (-150)). right. unfold int64_min. lia. Defined.

Lemma adjustForLiability_exact_witness : adjustForLiability 2 6000 - 1 = 99 / 100 * (2 - 1).
Proof. apply (adjustForLiability_exact 2 6000). lra. Defined.
End ExactWitnesses.

Section Witnesses.
(** A platform that knows the two values an even market needs. *)
#[local] Instance even_platform : Platform := {|
  platform_Log x := if SFeqb x (b64_of_int 1) then b64_of_int 0 else SFdiv prec64 emax64 (b64_of_int 953) (b64_of_int 10000);
  platform_Exp _ := SFdiv prec64 emax64 (b64_of_int 10) (b64_of_int 11);
  platform_int _ := int64_min |}.
#[local] Instance ex_numeric : Postgres binary64 := {| numeric _ _ x := Some x; timestamptz := ParseRFC3339Nano |}.

Definition ex_half : binary64 := lit 1 2.
Definition ex_prices : CatalogDB binary64 := Build_CatalogDB
  {["basketball" := "Basketball"]}
  {["nba" := {| comp_sport_id := "basketball"; comp_name := "NBA"; comp_country := "" |}]}
  {["e1" := {| evt_competition_id := "nba"; evt_name := ""; evt_starts_at := 0; evt_status := "SCHEDULED";
               evt_home_score := 0; evt_away_score := 0; evt_game_period := ""; evt_game_clock := "";
               evt_updated_at := 0 |}]}
  {["m1" := Build_MarketRow "e1" "" "OPEN" 0 None 0 None (b64_of_int 0) true]}
  (<["m1-0" := Build_SelectionRow "m1" "yes" true (b64_of_int 0) (Some ex_half)]>
   {["m1-1" := Build_SelectionRow "m1" "no" true (b64_of_int 0) (Some ex_half)]}).
Definition ex_price_update (topic : string) : ConsumerMessage binary64 :=
  {| cm := {| Topic := topic; Key := "m1";
              Value := Doc (JObj [("event_type", JStr "price.update"); ("market_id", JStr "m1")]);
              Headers := [] |}; Offset := 7 |}.
Definition ex_odds_world (fs : list bool) : world (OddsService binary64 (list (ProducerMessage binary64))) :=
  World (Build_OddsService [] ex_prices []) 0 0 fs.
Definition ex_feed_msg := ex_price_update "market-data-normalised".
(** The INSERT of the second price fails. *)
Definition ex_feed_world := ex_odds_world [false; false; false; false; true].
Definition ex_feed_run := handleNormalisedFeed ex_feed_msg ex_feed_world.
Definition ex_quotes := quotes (os_catalog (db ex_feed_world)) (Value (cm ex_feed_msg)).

Lemma handleNormalisedFeed_spec_witness :
  map od_selection_id (os_odds (db ex_feed_run.1)) = ["m1-0"] ∧
  map offered_american (os_odds (db ex_feed_run.1)) = [-110] ∧
  length (os_kafka (db ex_feed_run.1)) = 1%nat ∧
  os_catalog (db ex_feed_run.1) = os_catalog (db ex_feed_world).
Proof.
  do 3 (split; [vm_compute; reflexivity|]).
  assert (quotes (os_catalog (db ex_feed_world)) (Value (cm ex_feed_msg)) = (ex_quotes.1, ex_quotes.2)) as Hq.
  { unfold ex_quotes. apply surjective_pairing. }
  assert (handleNormalisedFeed ex_feed_msg ex_feed_world = (ex_feed_run.1, ex_feed_run.2)) as Hr.
  { unfold ex_feed_run. apply surjective_pairing. }
  exact (proj1 (handleNormalisedFeed_spec ex_feed_msg ex_feed_world ex_feed_run.1 ex_feed_run.2
    ex_quotes.1 ex_quotes.2 Hq Hr)).
Defined.

Lemma odds_consumer_ignores_its_topics_witness :
  oddsConsumeClaim [ex_price_update "market-data-normalised"] (ex_odds_world []) = (ex_odds_world [], Ok [7]).
Proof.
  apply (odds_consumer_ignores_its_topics [ex_price_update "market-data-normalised"] (ex_odds_world [])).
  repeat constructor.
Defined.
End Witnesses.
