(* ===== verification/OddsCache.v ===== *)
(** * The odds cache ([internal/odds/cache_updater.go])

    The consumer of [odds-updated] that writes the Redis cache Bet Acceptance
    reads. The theorems connect the two sides: what bet placement decodes from
    the cache is a price that was published for that market and selection, and
    once an offset is committed no older price is left under its key. *)
From Stdlib Require Import Ascii.
From S2P Require Export OddsManagement BetFlow.
Local Open Scope Z_scope.
Local Open Scope go_scope.

Section CacheUpdater.
Context {F R : Type} `{FloatOps F} `{RedisClient (bytes F) R}.

Definition TopicOddsUpdated : string := "odds-updated".
Definition OddsCacheTTL : Z := 48 * 3600 * second_us.

Record CachedOddsEntry : Type := {
  coe_Decimal : F;
  coe_American : Z;
  coe_SourceEventOffset : Z;
  coe_UpdatedAt : string
}.

Definition encodeCachedOddsEntry (e : CachedOddsEntry) : json F := JObj [
  ("decimal", JNum (coe_Decimal e)); ("american", JInt (coe_American e));
  ("src_offset", JInt (coe_SourceEventOffset e)); ("updated_at", JStr (coe_UpdatedAt e))].

(** [fmt.Sprintf("odds:%s:%s", market, selection)]. *)
Definition cacheKey (e : OddsUpdatedEvent F) : string :=
  "odds:" +:+ oue_MarketID e +:+ ":" +:+ oue_SelectionID e.

Definition cacheEntry (e : OddsUpdatedEvent F) (t : Z) : CachedOddsEntry :=
  {| coe_Decimal := oue_Decimal e; coe_American := oue_American e;
     coe_SourceEventOffset := oue_SourceEventOffset e; coe_UpdatedAt := FormatRFC3339Nano t |}.

Definition handleMessage (msg : ConsumerMessage F) : Go R string unit :=
  match Unmarshal decodeOddsUpdated (Value (cm msg)) with
  | None => throw "unmarshal OddsUpdatedEvent"
  | Some event =>
      if (oue_MarketID event =? "")%string || (oue_SelectionID event =? "")%string
      then throw "missing market_id or selection_id in event" else
      t <- now ;;
      match Marshal (encodeCachedOddsEntry (cacheEntry event t)) with
      | None => throw "marshal cache entry"
      | Some data => redis_Set (cacheKey event) data OddsCacheTTL or_throw "redis SET"
      end
  end.

Definition cacheConsumeClaim (msgs : list (ConsumerMessage F)) : Go R string (list Z) :=
  ConsumeClaim handleMessage msgs.
End CacheUpdater.
Arguments CachedOddsEntry : clear implicits.

(** ** What a reader of the cache sees *)

Section Reading.
Context {F : Type} `{FloatOps F}.

(** The event of a message the updater accepts. *)
Definition odds_event (msg : ConsumerMessage F) : option (OddsUpdatedEvent F) :=
  e ← Unmarshal decodeOddsUpdated (Value (cm msg));
  if (oue_MarketID e =? "")%string || (oue_SelectionID e =? "")%string then None else Some e.

Lemma jint_range name kvs z : jint (F:=F) name kvs = Some z → in_int64 z = true.
Proof.
  unfold jint. assert (in_int64 0 = true) as H0 by done. revert H0. generalize 0 as a.
  induction kvs as [|[k j] kvs IH]; intros a Ha; cbn [jfield]; [by intros [= <-]|].
  destruct (_ =? _)%string; [|by apply IH].
  destruct (into_int64 a j) as [b|] eqn:Hb; cbn [mbind option_bind]; [|done].
  apply IH. unfold into_int64 in Hb. destruct j; try done; repeat case_match; simplify_eq; done.
Qed.

Lemma odds_event_ints msg e :
  odds_event msg = Some e → in_int64 (oue_American e) = true ∧ in_int64 (oue_SourceEventOffset e) = true.
Proof.
  unfold odds_event. intros He. apply bind_Some in He as (e'&He&Hid).
  destruct (_ || _); [done|]. injection Hid as ->.
  assert (∀ kvs, decodeOddsUpdated kvs = Some e →
    in_int64 (oue_American e) = true ∧ in_int64 (oue_SourceEventOffset e) = true) as Hd.
  { intros kvs Hk. unfold decodeOddsUpdated in Hk.
    apply bind_Some in Hk as (m&_&Hk). apply bind_Some in Hk as (s&_&Hk). apply bind_Some in Hk as (d&_&Hk).
    apply bind_Some in Hk as (a&Ha&Hk). apply bind_Some in Hk as (o&Ho&Hk). apply bind_Some in Hk as (c&_&Hk).
    injection Hk as <-. cbn. eauto using jint_range. }
  unfold Unmarshal in He. repeat case_match; try done; by eapply Hd.
Qed.

(** The price of an event, as bet placement sees it. *)
Definition event_odds (e : OddsUpdatedEvent F) : CachedOdds F :=
  {| co_Decimal := oue_Decimal e; co_American := oue_American e; co_SourceEventOffset := oue_SourceEventOffset e |}.

Lemma decodeCachedOdds_entry e t data :
  in_int64 (oue_American e) = true → in_int64 (oue_SourceEventOffset e) = true →
  Marshal (encodeCachedOddsEntry (cacheEntry e t)) = Some data →
  Unmarshal decodeCachedOdds data = Some (event_odds e).
Proof.
  intros Ha Ho Hm. unfold Marshal in Hm. destruct (marshalable _) eqn:Hf; [|done]. injection Hm as <-.
  cbn in Hf. rewrite andb_true_r in Hf. cbn [Unmarshal encodeCachedOddsEntry]. unfold decodeCachedOdds.
  json_keys. unfold into_float64, into_int64. cbn [cacheEntry coe_Decimal]. rewrite Hf.
  cbn [mbind option_bind]. json_keys. cbn [cacheEntry coe_American]. rewrite Ha. cbn [mbind option_bind]. json_keys.
  cbn [cacheEntry coe_SourceEventOffset]. rewrite Ho. cbn [mbind option_bind]. by json_keys.
Qed.
End Reading.

Section Properties.
Context {F R : Type} `{FloatOps F} `{RedisClient (bytes F) R}.
Implicit Types (w : world R) (msg : ConsumerMessage F).

(** The entry under a key, read and decoded at time [t], is the price of the
    event of [msg]. *)
Definition shows (v : bytes F) msg (k : string) : Prop :=
  ∃ e, odds_event msg = Some e ∧ cacheKey e = k ∧ Unmarshal decodeCachedOdds v = Some (event_odds e).

Lemma handleMessage_wp msg w :
  wp (handleMessage msg) (λ w' r, clock w' = clock w ∧
    ∀ t k v, redis_at (db w') t k = Some v →
      shows v msg k ∧ t < clock w + OddsCacheTTL ∨
      redis_at (db w) t k = Some v ∧ (r = Ok tt → ∀ e, odds_event msg = Some e → cacheKey e ≠ k)) w.
Proof.
  unfold handleMessage.
  destruct (Unmarshal decodeOddsUpdated (Value (cm msg))) as [e|] eqn:He; [|go_step; split; [done|]; by right].
  destruct (_ || _) eqn:Hid; [go_step; split; [done|]; by right|].
  assert (odds_event msg = Some e) as Hev by (unfold odds_event; rewrite He; cbn; by rewrite Hid).
  pose proof (odds_event_ints msg e Hev) as [Ha Ho].
  go_step. go_step. destruct (Marshal _) as [data|] eqn:Hm; [|go_step; split; [done|]; by right].
  go_step. eapply wp_mono; [|apply redis_Set_law]. intros w1 r (Hc&_&Hat).
  assert (clock w1 = clock w ∧ ∀ t k v, redis_at (db w1) t k = Some v →
    shows v msg k ∧ t < clock w + OddsCacheTTL ∨
    redis_at (db w) t k = Some v ∧ (r = Ok tt → ∀ e, odds_event msg = Some e → cacheKey e ≠ k)) as Hgoal.
  { split; [done|]. intros t k v Hv. destruct (Hat t k v Hv) as [(->&->&Ht)|[Hold Hk]].
    - left. split; [|done]. exists e. split_and!; [done..|]. by eapply decodeCachedOdds_entry.
    - right. split; [done|]. intros -> e' He'. rewrite Hev in He'. injection He' as <-. intros <-. by apply Hk. }
  destruct Hgoal as [? Hgoal]. destruct r as [[]|]; (split; [done|]); intros t k v Hv;
    destruct (Hgoal t k v Hv) as [?|[? Hr]]; [by left|right; by eauto|by left|by right].
Qed.

(** No message of [msgs] whose offset was committed writes the key [k]. *)
Definition none_committed (msgs : list (ConsumerMessage F)) (marked : list Z) (k : string) : Prop :=
  ∀ msg e, msg ∈ msgs → Offset msg ∈ marked → odds_event msg = Some e → cacheKey e ≠ k.

(** Where an entry found after a run can come from. *)
Definition cache_origin (msgs : list (ConsumerMessage F)) (marked : list Z) w (t : Z) (k : string) (v : bytes F) : Prop :=
  redis_at (db w) t k = Some v ∧ none_committed msgs marked k ∨
  ∃ before msg after, msgs = before ++ msg :: after ∧ shows v msg k ∧ t < clock w + OddsCacheTTL ∧
    none_committed after marked k.

Lemma none_committed_cons msg rest marked k b :
  Offset msg ∉ map Offset rest → marked `sublist_of` map Offset rest →
  none_committed rest marked k → (b = true → ∀ e, odds_event msg = Some e → cacheKey e ≠ k) →
  none_committed (msg :: rest) (if b then Offset msg :: marked else marked) k.
Proof.
  intros Hnew Hsub Hrest Hmsg m e Hm Hin He. apply elem_of_cons in Hm as [->|Hm].
  - destruct b; [by eapply Hmsg|]. contradict Hnew. by eapply elem_of_sublist.
  - apply (Hrest m e Hm); [|done]. destruct b; [|done].
    apply elem_of_cons in Hin as [Heq|]; [|done]. contradict Hnew. rewrite <- Heq.
    apply list_elem_of_In, in_map. by apply list_elem_of_In.
Qed.

Lemma none_committed_tail msg rest after marked k b :
  Offset msg ∉ map Offset rest → (∀ m, m ∈ after → m ∈ rest) →
  none_committed after marked k → none_committed after (if b : bool then Offset msg :: marked else marked) k.
Proof.
  intros Hnew Hsub Hrest m e Hm Hin He. apply (Hrest m e Hm); [|done]. destruct b; [|done].
  apply elem_of_cons in Hin as [Heq|]; [|done]. contradict Hnew. rewrite <- Heq.
  apply list_elem_of_In, in_map, list_elem_of_In. by apply Hsub.
Qed.

Lemma cacheConsumeClaim_wp (msgs : list (ConsumerMessage F)) w :
  NoDup (map Offset msgs) →
  wp (cacheConsumeClaim msgs) (λ w' res, ∃ marked, res = Ok marked ∧ marked `sublist_of` map Offset msgs ∧
    ∀ t k v, redis_at (db w') t k = Some v → cache_origin msgs marked w t k v) w.
Proof.
  unfold cacheConsumeClaim. revert w. induction msgs as [|msg rest IH]; intros w Hnd; cbn [ConsumeClaim].
  { go_step. exists []. split_and!; [done..|]. intros t k v Hv. left. split; [done|].
    intros m e Hm. by apply not_elem_of_nil in Hm. }
  apply NoDup_cons in Hnd as [Hnew Hnd]. go_step. go_step.
  eapply wp_mono; [|apply handleMessage_wp]. intros w1 r (Hc1&H1). go_step.
  eapply wp_mono; [|by apply IH]. intros w2 res (marked&->&Hsub&H2). go_step.
  set (ok := match r with Ok _ => true | Err _ => false end).
  assert (match r with Ok _ => Offset msg :: marked | Err _ => marked end =
    if ok then Offset msg :: marked else marked) as -> by (by destruct r).
  assert (ok = true → r = Ok tt) as Hok by (destruct r as [[]|]; [done|discriminate]).
  exists (if ok then Offset msg :: marked else marked). split; [done|].
  split; [destruct ok; [by apply sublist_skip|by apply sublist_cons]|].
  intros t k v Hv. apply H2 in Hv as [[Hv Hno]|(before&m&after&->&Hsh&Ht&Hno)].
  - apply H1 in Hv as [[Hsh Ht]|[Hv Hne]]; [right|left].
    + exists [], msg, rest. split_and!; [done..|]. by eapply none_committed_tail.
    + split; [done|]. apply none_committed_cons; [done..|]. auto.
  - right. exists (msg :: before), m, after. rewrite <- Hc1. split_and!; [done..|].
    eapply none_committed_tail; [done| |done]. intros m' Hm'. rewrite elem_of_app, elem_of_cons. tauto.
Qed.

(** C20. Whatever the broker delivers and whatever fails, an entry of the cache
    decodes, for Bet Acceptance, to exactly the decimal price, the American
    price and the feed offset of a delivered event of that market and
    selection, expires within two days, and is not older than what was
    committed: no later event for its key has its offset committed. An entry
    from before the run is still there only when no event for its key was
    committed. *)
Theorem cache_follows_committed_offsets (msgs : list (ConsumerMessage F)) w w' marked :
  NoDup (map Offset msgs) →
  cacheConsumeClaim msgs w = (w', Ok marked) →
  ∀ t k v, redis_at (db w') t k = Some v → cache_origin msgs marked w t k v.
Proof.
  intros Hnd Hm. from_wp (cacheConsumeClaim_wp msgs w Hnd) at Hm as H'.
  destruct H' as (?&[= <-]&_&?). done.
Qed.

(** Two events share a cache key only when they are about the same selection,
    provided market identifiers contain no colon. *)
Lemma append_colon_inj m1 s1 m2 s2 :
  (∀ i, String.get i m1 ≠ Some ":"%char) → (∀ i, String.get i m2 ≠ Some ":"%char) →
  m1 +:+ ":" +:+ s1 = m2 +:+ ":" +:+ s2 → m1 = m2 ∧ s1 = s2.
Proof.
  revert m2. induction m1 as [|c m1 IH]; intros [|c2 m2] H1 H2 Heq; cbn in Heq.
  - by injection Heq.
  - injection Heq as <- _. by destruct (H2 0%nat).
  - injection Heq as -> _. by destruct (H1 0%nat).
  - injection Heq as -> Heq. destruct (IH m2) as [-> ->]; [|intros i; apply (H2 (S i))|done|done].
    intros i. apply (H1 (S i)).
Qed.
End Properties.

(** ** Witness *)

Section Witness.
#[local] Existing Instance inert_platform.

Definition ex_odds_updated (off : Z) (american : Z) : ConsumerMessage binary64 :=
  {| cm := {| Topic := TopicOddsUpdated; Key := "m1"; Headers := [];
       Value := Doc (encodeOddsUpdated (Build_OddsUpdatedEvent "m1" "s1" (lit 3 2) american off "")) |};
     Offset := off |}.
Definition ex_cache_msgs := [ex_odds_updated 0 (-200); ex_odds_updated 1 (-210)].
(** The write of the second price is refused. *)
Definition ex_cache_world : world (RedisMap (bytes binary64)) := World ∅ 0 0 [false; false; true].
Definition ex_cache_run := cacheConsumeClaim ex_cache_msgs ex_cache_world.

Lemma cache_follows_committed_offsets_witness :
  ∃ v, redis_at (db ex_cache_run.1) 5 "odds:m1:s1" = Some v ∧
    co_American <$> Unmarshal decodeCachedOdds v = Some (-200) ∧
    cache_origin ex_cache_msgs [0] ex_cache_world 5 "odds:m1:s1" v.
Proof.
  assert (ex_cache_run = (ex_cache_run.1, Ok [0])) as Hrun by (vm_compute; reflexivity).
  eexists. split; [vm_compute; reflexivity|]. split; [vm_compute; reflexivity|].
  eapply (cache_follows_committed_offsets ex_cache_msgs ex_cache_world); [|exact Hrun|vm_compute; reflexivity].
  apply (bool_decide_unpack _). vm_compute. exact I.
Defined.
End Witness.
