(* ===== verification/Settlement.v ===== *)
(** * Settlement ([internal/settlement/consumer.go])

    The consumer of market results: it reads the pending bets of the market,
    records one settlement per bet, credits the wallet and announces the bet as
    settled. The theorems are proved against the wallet's contract; the last
    ones run it on the wallet's implementation. *)
From Stdlib Require Import Reals Lra.
From S2P Require Export Wallet Messaging GoTime.
Local Open Scope Z_scope.
Local Open Scope go_scope.

(** ** Tables *)

Record PendingBet (F : Type) : Type := {
  pb_UserID : string;
  pb_MarketID : string;
  pb_SelectionID : string;
  pb_StakeMinor : Z;
  pb_OddsDecimal : F;
  pb_Currency : string;
  pb_status : string
}.
Arguments pb_UserID {F} _.
Arguments pb_MarketID {F} _.
Arguments pb_SelectionID {F} _.
Arguments pb_StakeMinor {F} _.
Arguments pb_OddsDecimal {F} _.
Arguments pb_Currency {F} _.
Arguments pb_status {F} _.
Arguments Build_PendingBet {F}.

Record SettlementRow : Type := {
  settlement_id : string;
  outcome : string;
  payout_minor : Z;
  settled_at : Z;
  sr_created_at : Z
}.

(** The database (both tables by [bet_id]), the wallet client and the producer. *)
Record Settlement (F W K : Type) : Type := {
  pending_bets : gmap string (PendingBet F);
  settlements : gmap string SettlementRow;
  sc_wallet : W;
  sc_producer : K
}.
Arguments pending_bets {F W K} _.
Arguments settlements {F W K} _.
Arguments sc_wallet {F W K} _.
Arguments sc_producer {F W K} _.
Arguments Build_Settlement {F W K}.

Section Settlement.
Context {F W K : Type} `{FloatOps F} `{WalletServiceServer W} `{SyncProducer F K}.
Abbreviation State := (Settlement F W K).

(** [uuid.New().String()]. *)
Variable uuid : nat → string.

Definition set_settlements (x : gmap string SettlementRow) (s : State) : State :=
  Build_Settlement (pending_bets s) x (sc_wallet s) (sc_producer s).
Definition settlement_wallet : lens State W := Lens sc_wallet (λ x s,
  Build_Settlement (pending_bets s) (settlements s) x (sc_producer s)).
Definition settlement_producer : lens State K := Lens sc_producer (λ x s,
  Build_Settlement (pending_bets s) (settlements s) (sc_wallet s) x).

(** [INSERT INTO settlements ... ON CONFLICT (bet_id) DO NOTHING]: another row
    with the same primary key, or an amount out of BIGINT, is an error. *)
Definition insertSettlement (betID : string) (row : SettlementRow) (s : State) : option State :=
  match settlements s !! betID with
  | Some _ => Some s
  | None =>
      if in_int64 (payout_minor row) &&
         bool_decide (map_Forall (λ _ r, settlement_id r ≠ settlement_id row) (settlements s))
      then Some (set_settlements (<[betID := row]> (settlements s)) s) else None
  end.

(** ** The handler *)

Record ResultEvent : Type := {
  re_EventType : string;
  re_MarketID : string;
  re_SelectionID : string;
  re_ResultedAt : string
}.

Definition decodeResultEvent (kvs : list (string * json F)) : option ResultEvent :=
  t ← jstring "event_type" kvs;
  m ← jstring "market_id" kvs;
  s ← jstring "winning_selection_id" kvs;
  r ← jstring "resulted_at" kvs;
  Some {| re_EventType := t; re_MarketID := m; re_SelectionID := s; re_ResultedAt := r |}.

(** The winnings of a bet, stake included; the conversion truncates. *)
Definition payoutOf (isWin : bool) (stakeMinor : Z) (oddsDecimal : F) : Z :=
  if isWin && fgt oddsDecimal (fnum 0) then int_of_float (fmul (float_of_int stakeMinor) oddsDecimal) else 0.

Definition settledMessage (betID userID outcome : string) (payoutMinor settledAt : Z) : ProducerMessage F :=
  {| Topic := "bet-settled"; Key := userID;
     Value := Doc (JObj [
       ("bet_id", JStr betID);
       ("event_type", JStr "bet.settled");
       ("outcome", JStr outcome);
       ("payout_minor", JInt payoutMinor);
       ("settled_at", JStr (FormatRFC3339Nano settledAt))]);
     Headers := [] |}.

Definition settleBet (betID userID : string) (isWin : bool) (stakeMinor : Z) (oddsDecimal : F)
    (currency : string) (settledAt : Z) : Go State string unit :=
  let payoutMinor := payoutOf isWin stakeMinor oddsDecimal in
  let outcome := if isWin then "WIN" else "LOSS" in
  settlementID <- newID uuid ;;
  t <- now ;;
  exec (insertSettlement betID
    {| settlement_id := settlementID; outcome := outcome; payout_minor := payoutMinor;
       settled_at := settledAt; sr_created_at := t |}) or_throw "insert settlement" ;;;
  let creditAmount := if isWin then payoutMinor else 0 in
  transactionID <- newID uuid ;;
  zoom settlement_wallet (wallet_CreditBalance
    {| cred_TransactionId := transactionID; cred_UserId := userID;
       cred_Amount := Some {| AmountMinor := creditAmount; Currency := currency |};
       cred_Reason := CREDIT_REASON_WIN; cred_OriginatingBetId := betID |}) or_throw "CreditBalance" ;;;
  zoom settlement_producer (SendMessage (settledMessage betID userID outcome payoutMinor settledAt)).

(** [WHERE market_id = $1 AND status = 'PLACED']; rows come in the table's order. *)
Definition is_placed (marketID : string) (r : string * PendingBet F) : bool :=
  (pb_MarketID r.2 =? marketID)%string && (pb_status r.2 =? "PLACED")%string.
Definition placed_bets (marketID : string) (s : State) : list (string * PendingBet F) :=
  filter (λ r, is_placed marketID r = true) (map_to_list (pending_bets s)).

(** Go's zero [time.Time]: the first instant of the year 1. *)
Definition zero_time : Z := -62135596800 * second_us.

(** The instant of the result: the current time when the event's does not parse. *)
Definition resultsAt (event : ResultEvent) (t : Z) : Z :=
  let parsed := default zero_time (ParseRFC3339Nano (re_ResultedAt event)) in
  if parsed =? zero_time then t else parsed.

Definition handleResult (msg : ConsumerMessage F) : Go State string unit :=
  match Unmarshal decodeResultEvent (Value (cm msg)) with
  | None => throw "unmarshal result event"
  | Some event =>
      if negb (re_EventType event =? "market.resulted")%string then ret tt else
      bets <- queryRow (λ s, Some (placed_bets (re_MarketID event) s)) or_throw "query pending bets" ;;
      t <- now ;;
      forM_ bets (λ r,
        let bet := r.2 in
        let isWin := (pb_SelectionID bet =? re_SelectionID event)%string in
        catch (settleBet r.1 (pb_UserID bet) isWin (pb_StakeMinor bet) (pb_OddsDecimal bet)
                 (pb_Currency bet) (resultsAt event t)) ;;; ret tt)
  end.

Definition settlementConsumeClaim (msgs : list (ConsumerMessage F)) : Go State string (list Z) :=
  ConsumeClaim handleResult msgs.
End Settlement.

(** ** What a result does *)

Section Specification.
Context {F W K : Type} `{FloatOps F} `{WalletServiceServer W} `{!WalletView W} `{SyncProducer F K}.
Abbreviation State := (Settlement F W K).
Abbreviation Bets := (list (string * PendingBet F)).
Implicit Types (w : world State) (winner : string) (bets : Bets).

Definition wins winner (r : string * PendingBet F) : bool := (pb_SelectionID r.2 =? winner)%string.
Definition payout_of winner (r : string * PendingBet F) : Z :=
  payoutOf (wins winner r) (pb_StakeMinor r.2) (pb_OddsDecimal r.2).
(** What the bets of [u] among [bets] pay. *)
Definition winnings winner (u : string) bets : Z :=
  foldr (λ r acc, (if (pb_UserID r.2 =? u)%string then payout_of winner r else 0) + acc) 0 bets.

Definition announcement winner (t : Z) (r : string * PendingBet F) : ProducerMessage F :=
  settledMessage r.1 (pb_UserID r.2) (if wins winner r then "WIN" else "LOSS") (payout_of winner r) t.

(** The settlement row and the credit of a bet. *)
Definition row_of winner (t : Z) (sid : string) (now : Z) (r : string * PendingBet F) : SettlementRow :=
  {| settlement_id := sid; outcome := if wins winner r then "WIN" else "LOSS";
     payout_minor := payout_of winner r; settled_at := t; sr_created_at := now |}.
Definition credit_of winner (txID : string) (r : string * PendingBet F) : CreditBalanceRequest :=
  {| cred_TransactionId := txID; cred_UserId := pb_UserID r.2;
     cred_Amount := Some {| AmountMinor := payout_of winner r; Currency := pb_Currency r.2 |};
     cred_Reason := CREDIT_REASON_WIN; cred_OriginatingBetId := r.1 |}.

(** A settlement row as the handler writes it for one bet. *)
Definition settles winner (t now : Z) (r : string * PendingBet F) (row : SettlementRow) : Prop :=
  outcome row = (if wins winner r then "WIN" else "LOSS") ∧ payout_minor row = payout_of winner r ∧
  settled_at row = t ∧ sr_created_at row = now.

(** The bets [bets] were worked on: [recorded] reached the settlements table,
    [credited] the wallet, [announced] the topic, in that order for each. *)
Definition worked_on winner (t : Z) bets w w' (recorded credited announced : Bets) : Prop :=
  announced `sublist_of` credited ∧ credited `sublist_of` recorded ∧ recorded `sublist_of` bets ∧
  clock w' = clock w ∧ pending_bets (db w') = pending_bets (db w) ∧
  (∀ k row, settlements (db w) !! k = Some row → settlements (db w') !! k = Some row) ∧
  (∀ k row, settlements (db w') !! k = Some row → settlements (db w) !! k = Some row ∨
     ∃ bet, (k, bet) ∈ recorded ∧ settles winner t (clock w) (k, bet) row) ∧
  (∀ k, k ∈ recorded.*1 → is_Some (settlements (db w') !! k)) ∧
  (∀ u, account (sc_wallet (db w')) u =
     (λ p, (p.1 + winnings winner u credited, p.2 - winnings winner u credited))
       <$> account (sc_wallet (db w)) u) ∧
  produced (sc_producer (db w')) = produced (sc_producer (db w)) ++ map (announcement winner t) announced.

Lemma winnings_app winner u bets bets' :
  winnings winner u (bets ++ bets') = winnings winner u bets + winnings winner u bets'.
Proof. unfold winnings. induction bets as [|r bets IH]; cbn; [done|]. cbn in IH. rewrite IH. lia. Qed.

Lemma map_account_0 (o : option (Z * Z)) : (λ p, (p.1 + 0, p.2 - 0)) <$> o = o.
Proof. destruct o as [[a b]|]; cbn; [|done]. do 2 f_equal; lia. Qed.

Lemma worked_on_none winner t bets w w' :
  clock w' = clock w → db w' = db w → worked_on winner t bets w w' [] [] [].
Proof.
  intros Hc Hd. unfold worked_on. rewrite Hd, Hc. cbn. rewrite app_nil_r. split_and!; try done.
  - apply sublist_nil_l.
  - auto.
  - intros k Hk. by apply not_elem_of_nil in Hk.
  - intros u. by rewrite map_account_0.
Qed.

Lemma worked_on_app winner t bets bets' w w1 w2 rec cre ann rec' cre' ann' :
  worked_on winner t bets w w1 rec cre ann → worked_on winner t bets' w1 w2 rec' cre' ann' →
  worked_on winner t (bets ++ bets') w w2 (rec ++ rec') (cre ++ cre') (ann ++ ann').
Proof.
  intros (?&?&?&Hc&Hp&Hk&Hn&Hr&Ha&Hl) (?&?&?&Hc'&Hp'&Hk'&Hn'&Hr'&Ha'&Hl').
  split_and!; [by apply sublist_app..|congruence|congruence|eauto| | | |].
  - intros k row Hrow. apply Hn' in Hrow as [Hrow|(bet&Hin&Hs)].
    + apply Hn in Hrow as [?|(bet&Hin&Hs)]; [by left|]. right. exists bet. rewrite elem_of_app. auto.
    + right. exists bet. rewrite elem_of_app, <- Hc. auto.
  - intros k. rewrite fmap_app, elem_of_app. intros [Hin|Hin]; [|by apply Hr'].
    destruct (Hr k Hin) as [row Hrow]. exists row. by apply Hk'.
  - intros u. rewrite Ha', Ha, winnings_app. destruct (account (sc_wallet (db w)) u) as [[a f]|]; cbn; [|done].
    do 2 f_equal; lia.
  - by rewrite Hl', Hl, map_app, app_assoc.
Qed.

Lemma insertSettlement_effect winner t r sid now (s s' : State) :
  insertSettlement r.1 (row_of winner t sid now r) s = Some s' →
  pending_bets s' = pending_bets s ∧ sc_wallet s' = sc_wallet s ∧ sc_producer s' = sc_producer s ∧
  (∀ k row, settlements s !! k = Some row → settlements s' !! k = Some row) ∧
  (∀ k row, settlements s' !! k = Some row →
     settlements s !! k = Some row ∨ k = r.1 ∧ settles winner t now r row) ∧
  is_Some (settlements s' !! r.1).
Proof.
  unfold insertSettlement. destruct (settlements s !! r.1) as [old|] eqn:Hold.
  - intros [= <-]. rewrite Hold. split_and!; eauto.
  - destruct (_ && _); [|done]. intros [= <-]. cbn. split_and!; try done.
    + intros k row Hk. rewrite lookup_insert_ne; [done|]. by intros <-; rewrite Hold in Hk.
    + intros k row. destruct (decide (r.1 = k)) as [<-|Hne].
      * rewrite lookup_insert_eq. intros [= <-]. right. by repeat split.
      * rewrite lookup_insert_ne by done. by left.
    + rewrite lookup_insert_eq. by eexists.
Qed.

(** The state change of one bet, by how far it got. *)
Lemma worked_on_one winner t r w w' (s1 : State) (credited announced : bool) :
  (announced = true → credited = true) →
  clock w' = clock w → pending_bets (db w') = pending_bets s1 → settlements (db w') = settlements s1 →
  pending_bets s1 = pending_bets (db w) →
  (∀ k row, settlements (db w) !! k = Some row → settlements s1 !! k = Some row) →
  (∀ k row, settlements s1 !! k = Some row →
     settlements (db w) !! k = Some row ∨ k = r.1 ∧ settles winner t (clock w) r row) →
  is_Some (settlements s1 !! r.1) →
  (∀ u, account (sc_wallet (db w')) u =
     (λ p, (p.1 + winnings winner u (if credited then [r] else []),
            p.2 - winnings winner u (if credited then [r] else []))) <$> account (sc_wallet (db w)) u) →
  produced (sc_producer (db w')) =
    produced (sc_producer (db w)) ++ map (announcement winner t) (if announced then [r] else []) →
  worked_on winner t [r] w w' [r] (if credited then [r] else []) (if announced then [r] else []).
Proof.
  intros Hac Hc Hp Hs Hp1 Hold Hnew Hrec Hacc Hlog.
  split_and!; try done; rewrite ?Hs.
  - destruct announced, credited; try done; [by specialize (Hac eq_refl)|apply sublist_nil_l].
  - destruct credited; [done|apply sublist_nil_l].
  - congruence.
  - done.
  - intros k row Hk. apply Hnew in Hk as [?|[-> ?]]; [by left|]. right. exists r.2.
    rewrite <- surjective_pairing, list_elem_of_singleton. auto.
  - intros k. cbn. rewrite list_elem_of_singleton. by intros ->.
Qed.

Context `{!WalletContract W}.
Variable uuid : nat → string.

(** How the bets are worked through, one after the other, with what is needed for
    a bet to get no further: a failed INSERT, an error of the wallet, an error of
    the broker - and the last two may come after the effect. *)
Inductive bets_worked winner (t : Z) : Bets → world State → world State → Bets → Bets → Bets → Prop :=
| work_nil w : bets_worked winner t [] w w [] [] []
| work_unrecorded r bets w w' recorded credited announced :
    hd false (faults w) = true ∨ insertSettlement r.1 (row_of winner t (uuid (fresh w)) (clock w) r) (db w) = None →
    bets_worked winner t bets (World (db w) (clock w) (S (fresh w)) (tail (faults w))) w' recorded credited announced →
    bets_worked winner t (r :: bets) w w' recorded credited announced
| work_uncredited r bets w s wc e (took : bool) w' recorded credited announced :
    hd false (faults w) = false →
    insertSettlement r.1 (row_of winner t (uuid (fresh w)) (clock w) r) (db w) = Some s →
    wallet_CreditBalance (credit_of winner (uuid (S (fresh w))) r)
      (World (sc_wallet s) (clock w) (S (S (fresh w))) (tail (faults w))) = (wc, Err e) →
    (if took then credit_effect (credit_of winner (uuid (S (fresh w))) r) (sc_wallet s) (db wc) else db wc = sc_wallet s) →
    bets_worked winner t bets (World (put settlement_wallet (db wc) s) (clock wc) (fresh wc) (faults wc)) w' recorded credited announced →
    bets_worked winner t (r :: bets) w w' (r :: recorded) (if took then r :: credited else credited) announced
| work_credited r bets w s wc resp wk sent (out : bool) w' recorded credited announced :
    hd false (faults w) = false →
    insertSettlement r.1 (row_of winner t (uuid (fresh w)) (clock w) r) (db w) = Some s →
    wallet_CreditBalance (credit_of winner (uuid (S (fresh w))) r)
      (World (sc_wallet s) (clock w) (S (S (fresh w))) (tail (faults w))) = (wc, Ok resp) →
    SendMessage (announcement winner t r) (World (sc_producer s) (clock wc) (fresh wc) (faults wc)) = (wk, sent) →
    (is_ok sent = true → out = true) →
    produced (db wk) = produced (sc_producer s) ++ (if out then [announcement winner t r] else []) →
    bets_worked winner t bets (World (put settlement_producer (db wk) (put settlement_wallet (db wc) s))
      (clock wk) (fresh wk) (faults wk)) w' recorded credited announced →
    bets_worked winner t (r :: bets) w w' (r :: recorded) (r :: credited) (if out then r :: announced else announced).

Lemma credit_winnings winner r txID (d d' : W) u :
  credit_effect (credit_of winner txID r) d d' →
  account d' u = (λ p, (p.1 + winnings winner u [r], p.2 - winnings winner u [r])) <$> account d u.
Proof.
  intros (Hself&Hother&_). cbn in Hself, Hother. unfold winnings. cbn. rewrite Z.add_0_r.
  destruct (String.eqb_spec (pb_UserID r.2) u) as [<-|Hne]; [done|].
  rewrite Hother by done. by rewrite map_account_0.
Qed.

(** The books of a whole result. *)
Lemma bets_worked_on winner t bets w w' recorded credited announced :
  bets_worked winner t bets w w' recorded credited announced →
  worked_on winner t bets w w' recorded credited announced.
Proof.
  induction 1 as [w|r bets w w' rec cre ann Hno _ IH|r bets w s wc e took w' rec cre ann _ Hins Hcall Htook _ IH
    |r bets w s wc resp wk sent out w' rec cre ann _ Hins Hcall Hsend _ Hlog _ IH].
  - by apply worked_on_none.
  - apply (worked_on_app _ _ [r] bets w (World (db w) (clock w) (S (fresh w)) (tail (faults w))) w' [] [] []); [|done].
    by apply worked_on_none.
  - apply (insertSettlement_effect winner) in Hins as (Hp&Hw&Hk&Hold&Hnew&Hrec).
    from_wp (credit_contract (credit_of winner (uuid (S (fresh w))) r)
      (World (sc_wallet s) (clock w) (S (S (fresh w))) (tail (faults w)))) at Hcall as Heff. destruct Heff as (Hc&_&_).
    replace (if took then r :: cre else cre) with ((if took then [r] else []) ++ cre) by by destruct took.
    refine (worked_on_app _ _ [r] bets w _ w' [r] _ [] _ _ _ _ IH).
    apply (worked_on_one winner t r w _ s took false); cbn; try done; try congruence; rewrite ?app_nil_r; [|congruence].
    intros u. destruct took; [rewrite <- Hw; by eapply credit_winnings|by rewrite Htook, Hw, map_account_0].
  - apply (insertSettlement_effect winner) in Hins as (Hp&Hw&Hk&Hold&Hnew&Hrec).
    from_wp (credit_contract (credit_of winner (uuid (S (fresh w))) r)
      (World (sc_wallet s) (clock w) (S (S (fresh w))) (tail (faults w)))) at Hcall as Heff. destruct Heff as (Hc&_&Heff).
    from_wp (SendMessage_law (announcement winner t r) (World (sc_producer s) (clock wc) (fresh wc) (faults wc)))
      at Hsend as Hlaw. destruct Hlaw as (Hc2&_&_).
    replace (if out then r :: ann else ann) with ((if out then [r] else []) ++ ann) by by destruct out.
    refine (worked_on_app _ _ [r] bets w _ w' [r] [r] _ _ _ _ _ IH).
    apply (worked_on_one winner t r w _ s true out); cbn in *; try done; try congruence.
    + intros u. rewrite <- Hw. by eapply credit_winnings.
    + rewrite Hlog, Hk. by destruct out.
Qed.

Lemma settleBet_wp winner t r w :
  wp (settleBet uuid r.1 (pb_UserID r.2) (wins winner r) (pb_StakeMinor r.2) (pb_OddsDecimal r.2)
        (pb_Currency r.2) t)
    (λ w1 _, ∀ bets w' recorded credited announced, bets_worked winner t bets w1 w' recorded credited announced →
       ∃ recorded' credited' announced', bets_worked winner t (r :: bets) w w' recorded' credited' announced') w.
Proof.
  destruct w as [s0 c n fs]. unfold settleBet. fold (payout_of winner r).
  assert ((if wins winner r then payout_of winner r else 0) = payout_of winner r) as ->
    by (unfold payout_of, payoutOf; by destruct (wins winner r)).
  assert (∀ fs', fs' = tail fs → hd false fs = true ∨ insertSettlement r.1 (row_of winner t (uuid n) c r) s0 = None →
    ∀ bets w' rec cre ann, bets_worked winner t bets (World s0 c (S n) fs') w' rec cre ann →
    ∃ rec' cre' ann', bets_worked winner t (r :: bets) (World s0 c n fs) w' rec' cre' ann') as Hno.
  { intros fs' -> Hcause bets w' rec cre ann Hb. exists rec, cre, ann. by apply work_unrecorded. }
  do 6 go_step. fold (row_of winner t (uuid n) c r).
  unfold wp at 1. rewrite exec_run. cbn [faults db clock fresh].
  destruct (hd false fs) eqn:Hhd; [exact (Hno (tail fs) eq_refl (or_introl eq_refl))|].
  destruct (insertSettlement _ _ s0) as [s|] eqn:Hins; [|exact (Hno (tail fs) eq_refl (or_intror eq_refl))].
  cbn [fst snd]. cbn beta iota. do 5 go_step. fold (credit_of winner (uuid (S n)) r). apply wp_run. intros wc res Hcall.
  change (wallet_CreditBalance (credit_of winner (uuid (S n)) r) (World (sc_wallet s) c (S (S n)) (tail fs)) = (wc, res)) in Hcall.
  pose proof Hcall as Hrun.
  from_wp (credit_contract (credit_of winner (uuid (S n)) r) (World (sc_wallet s) c (S (S n)) (tail fs))) at Hrun as Heff.
  destruct Heff as (_&_&Heff). destruct res as [resp|e]; cbn beta iota.
  - go_step. fold (announcement winner t r). apply wp_run. intros wk sent Hsend.
    change (SendMessage (announcement winner t r) (World (sc_producer s) (clock wc) (fresh wc) (faults wc)) = (wk, sent)) in Hsend.
    pose proof Hsend as Hrun'.
    from_wp (SendMessage_law (announcement winner t r) (World (sc_producer s) (clock wc) (fresh wc) (faults wc)))
      at Hrun' as Hlaw. destruct Hlaw as (_&_&Hlog). intros bets w' rec cre ann Hb.
    assert (∃ out : bool, (is_ok sent = true → out = true) ∧
      produced (db wk) = produced (sc_producer s) ++ (if out then [announcement winner t r] else [])) as (out&Hout&Hp).
    { destruct sent as [[]|e]; [by exists true|]. destruct Hlog as [->|Hlog]; [exists false; by rewrite app_nil_r|by exists true]. }
    do 3 eexists. eapply work_credited; eauto.
  - intros bets w' rec cre ann Hb. destruct Heff as [Heff|Heff].
    + exists (r :: rec), cre, ann. by eapply (work_uncredited winner t r bets _ s wc e false).
    + exists (r :: rec), (r :: cre), ann. by eapply (work_uncredited winner t r bets _ s wc e true).
Qed.

Lemma settle_loop winner t bets w :
  wp (forM_ bets (λ r, catch (settleBet uuid r.1 (pb_UserID r.2) (wins winner r) (pb_StakeMinor r.2)
        (pb_OddsDecimal r.2) (pb_Currency r.2) t) ;;; ret tt))
    (λ w' res, res = Ok (E:=string) tt ∧ ∃ rec cre ann, bets_worked winner t bets w w' rec cre ann) w.
Proof.
  revert w. induction bets as [|r bets IH]; intros w; cbn [forM_].
  { go_step. split; [done|]. exists [], [], []. apply work_nil. }
  do 3 go_step. eapply wp_mono; [|apply settleBet_wp].
  cbn beta. intros w1 res1 Hone. go_step. eapply wp_mono; [|apply IH].
  intros w2 res (->&rec&cre&ann&Hb). split; [done|]. by eapply Hone.
Qed.

(** The world once the bets have been read. *)
Definition after_query w : world State := set_faults (tail (faults w)) w.

Lemma handleResult_works msg event w :
  Unmarshal decodeResultEvent (Value (cm msg)) = Some event → re_EventType event = "market.resulted" →
  wp (handleResult uuid msg) (λ w' res, match res with
    | Err _ => db w' = db w ∧ hd false (faults w) = true
    | Ok _ => ∃ rec cre ann,
        bets_worked (re_SelectionID event) (resultsAt event (clock w)) (placed_bets (re_MarketID event) (db w))
          (after_query w) w' rec cre ann
    end) w.
Proof.
  intros Hdec Hty. unfold handleResult. rewrite Hdec, Hty. cbn. do 2 go_step.
  unfold wp at 1. rewrite queryRow_run. destruct (hd false (faults w)) eqn:Hhd; [done|].
  cbn [fst snd]. cbn beta iota. do 2 go_step. eapply wp_mono;
    [|exact (settle_loop (re_SelectionID event) _ (placed_bets (re_MarketID event) (db w)) (after_query w))].
  intros w1 res [-> ?]. done.
Qed.

Lemma worked_on_query winner t bets w w' rec cre ann :
  worked_on winner t bets (after_query w) w' rec cre ann → worked_on winner t bets w w' rec cre ann.
Proof. done. Qed.

Lemma handleResult_works_on msg event w :
  Unmarshal decodeResultEvent (Value (cm msg)) = Some event → re_EventType event = "market.resulted" →
  wp (handleResult uuid msg) (λ w' res, match res with
    | Err _ => db w' = db w
    | Ok _ => ∃ t rec cre ann,
        worked_on (re_SelectionID event) t (placed_bets (re_MarketID event) (db w)) w w' rec cre ann
    end) w.
Proof.
  intros Hdec Hty. eapply wp_mono; [|by apply handleResult_works]. intros w' [[]|e]; [|by intros [? _]].
  intros (rec&cre&ann&Hb%bets_worked_on). by exists (resultsAt event (clock w)), rec, cre, ann.
Qed.

(** Losing bets pay nothing. *)
Lemma winnings_of_losers winner u bets :
  (∀ r, r ∈ bets → pb_UserID r.2 = u → wins winner r = false) → winnings winner u bets = 0.
Proof.
  induction bets as [|r bets IH]; intros Hlose; [done|]. cbn [winnings foldr]. unfold winnings in IH.
  rewrite IH by (intros r' Hr'; apply Hlose; by right).
  destruct (String.eqb_spec (pb_UserID r.2) u) as [Hu|]; [|done].
  unfold payout_of, payoutOf. by rewrite (Hlose r) by (done || apply list_elem_of_here).
Qed.

(** A result under which all bets of [u] lose leaves the account of [u] alone. *)
Lemma losers_keep_their_account msg event u w :
  Unmarshal decodeResultEvent (Value (cm msg)) = Some event → re_EventType event = "market.resulted" →
  (∀ k bet, pending_bets (db w) !! k = Some bet → pb_MarketID bet = re_MarketID event → pb_UserID bet = u →
     pb_SelectionID bet ≠ re_SelectionID event) →
  wp (handleResult uuid msg) (λ w' _, account (sc_wallet (db w')) u = account (sc_wallet (db w)) u) w.
Proof.
  intros Hdec Hty Hlose. eapply wp_mono; [|by apply handleResult_works_on].
  intros w' [[]|e]; [|by intros ->]. intros (t&rec&cre&ann&_&Hcre&Hrec&_&_&_&_&_&Hacc&_).
  rewrite Hacc, winnings_of_losers, map_account_0; [done|]. intros r Hr Hu.
  assert (r ∈ placed_bets (re_MarketID event) (db w)) as Hin
    by (by eapply elem_of_sublist; [|etrans]).
  unfold placed_bets, is_placed in Hin. rewrite list_elem_of_filter in Hin. destruct r as [k bet].
  rewrite elem_of_map_to_list, andb_true_iff, !String.eqb_eq in Hin. destruct Hin as [[Hm _] Hk].
  apply String.eqb_neq. by eapply Hlose.
Qed.
End Specification.

(** ** Properties *)

Section Properties.
Context {F W K : Type} `{FloatOps F} `{WalletServiceServer W} `{!WalletView W} `{!WalletContract W}
  `{SyncProducer F K}.
Variable uuid : nat → string.

End Properties.

(** The payout over exact numbers: a winning bet with a non-negative stake and
    positive odds pays the largest whole amount that does not exceed stake
    times odds, a losing one pays nothing. *)
Theorem payoutOf_exact (stake : Z) (odds : R) :
  0 <= stake → (0 < odds)%R →
  payoutOf false stake odds = 0 ∧
  (IZR (payoutOf true stake odds) <= IZR stake * odds < IZR (payoutOf true stake odds) + 1)%R.
Proof.
  intros Hs Ho. split; [done|]. unfold payoutOf, fgt, fnum; cbn.
  destruct (Rltb 0 odds) eqn:E; [|apply Rltb_false in E; lra].
  apply IZR_le in Hs. rewrite R_trunc_nonneg by nra. apply Int_part_bounds.
Qed.

(** In [float64] the truncation can lose a cent: 1.00 at 1.15 pays 1.14. *)
Lemma payout_loses_a_cent `{Platform} : payoutOf true 100 (lit 115 100 : binary64) = 114.
Proof. vm_compute. reflexivity. Qed.

(** ** On the wallet's implementation *)

Section OnWallet.
Context {F K : Type} `{FloatOps F} `{SyncProducer F K}.
Variable uuid : nat → string.

(** [settleBet] with the wallet behind its gRPC client. *)
Definition settle (winner : string) (t : Z) (r : string * PendingBet F) : Go (Settlement F WalletDB K) string unit :=
  settleBet (H0:=wallet_client) uuid r.1 (pb_UserID r.2) (wins winner r) (pb_StakeMinor r.2) (pb_OddsDecimal r.2)
    (pb_Currency r.2) t.

Lemma CreditBalance_too_big req (w : world WalletDB) b :
  balances (db w) !! cred_UserId req = Some b →
  bets_in_flight_minor b < GetAmountMinor (cred_Amount req) →
  wp (over_grpc CreditBalance req) (λ w' res, db w' = db w ∧ ∃ e, res = Err e) w.
Proof.
  intros Hb Hlt. unfold over_grpc, rpc. go_step. go_step; [|by eauto]. go_step. go_step.
  eapply wp_mono; [|apply CreditBalance_wp]. intros w1 r (_&_&Hr). go_step.
  assert (∃ e, r = Err e ∧ db w1 = db w) as (e&->&Hd).
  { destruct r as [resp|e]; [|by eauto]. destruct Hr as [(b0&Hb0&Hok&_)|(Hn&_)]; cbn in *; [|congruence].
    apply balance_ok_acct in Hok. assert (b0 = b) by congruence. subst. unfold acct_ok in Hok. cbn in Hok. lia. }
  go_step; cbn; eauto. go_step. eauto.
Qed.

(** A payout above the user's bets in flight is never paid: whatever else goes
    right, the wallet refuses the credit, the balance stays as it was and the
    bet is not announced as settled. The winnings of a user's only open bet
    are such a payout whenever the odds give a profit. *)
Theorem win_above_bets_in_flight_is_not_paid winner t r (w w' : world (Settlement F WalletDB K)) res b :
  balances (sc_wallet (db w)) !! pb_UserID r.2 = Some b →
  bets_in_flight_minor b < payout_of winner r →
  wins winner r = true →
  settle winner t r w = (w', res) →
  (∃ e, res = Err e) ∧ sc_wallet (db w') = sc_wallet (db w) ∧ sc_producer (db w') = sc_producer (db w).
Proof.
  intros Hb Hlt Hwin Hm. revert w' res Hm. apply wp_intro. unfold settle, settleBet. fold (payout_of winner r).
  do 6 go_step. go_step; [by eauto|]. cbn [db set_faults].
  destruct (insertSettlement _ _ _) as [s1|] eqn:Hins; cbn beta iota; [|by eauto].
  assert (sc_wallet s1 = sc_wallet (db w) ∧ sc_producer s1 = sc_producer (db w)) as [Hw Hk].
  { unfold insertSettlement in Hins. repeat case_match; by simplify_eq. }
  do 5 go_step. cbn. rewrite Hwin. eapply wp_mono; [|apply (CreditBalance_too_big _ _ b); cbn; by rewrite ?Hw].
  intros w1 r1 [Hd [e ->]]. cbn in *. rewrite Hd, Hw, Hk. eauto.
Qed.

Lemma CreditBalance_up req d t n b :
  cred_TransactionId req ≠ ""%string → cred_UserId req ≠ ""%string →
  ledger_entries d !! cred_TransactionId req = None →
  balances d !! cred_UserId req = Some b →
  in_int64 (GetAmountMinor (cred_Amount req)) = true →
  balance_ok (release (GetAmountMinor (cred_Amount req)) t b) = true →
  ∃ d' resp, over_grpc CreditBalance req (World d t n []) = (World d' t n [], Ok resp) ∧
    balances d' = <[cred_UserId req := release (GetAmountMinor (cred_Amount req)) t b]> (balances d).
Proof.
  intros Ht%String.eqb_neq Hu%String.eqb_neq He Hb Hn Hok.
  unfold over_grpc, rpc, CreditBalance. rewrite Ht, Hu. cbn.
  unfold creditTx, tx, gbind, mapErr, exec, now, catch, queryRow, updateBalance, flaky, set_db; cbn.
  rewrite Hb, Hok. cbn. unfold insertLedgerOnce, insertLedger; cbn. rewrite He, lookup_insert_eq, Hn. cbn.
  unfold ret. cbn. by eexists _, _.
Qed.

(** Settlement is not idempotent: a bet that already has its settlement row is
    paid again when its result is delivered again, under a new transaction id,
    as long as the user's bets in flight cover the amount; the row stays as it
    was. Nothing else happens: no fault is needed. *)
Theorem settleBet_pays_again winner t r (w : world (Settlement F WalletDB K)) b row :
  let n := payout_of winner r in
  faults w = [] → wins winner r = true → pb_UserID r.2 ≠ ""%string → uuid (S (fresh w)) ≠ ""%string →
  settlements (db w) !! r.1 = Some row →
  balances (sc_wallet (db w)) !! pb_UserID r.2 = Some b →
  ledger_entries (sc_wallet (db w)) !! uuid (S (fresh w)) = None →
  0 <= n <= bets_in_flight_minor b → balance_ok b = true → available_minor b + n <= int64_max →
  let w' := (settle winner t r w).1 in
  settlements (db w') = settlements (db w) ∧
  balances (sc_wallet (db w')) !! pb_UserID r.2 =
    Some (release n (clock w) b).
Proof.
  intros n Hw Hwin Hu Hid Hrow Hb He Hn Hok Hmax. destruct w as [d c f fs]. cbn in *. subst fs.
  apply balance_ok_acct in Hok. unfold acct_ok in Hok. cbn in Hok.
  set (req := {| cred_TransactionId := uuid (S f); cred_UserId := pb_UserID r.2;
       cred_Amount := Some {| AmountMinor := n; Currency := pb_Currency r.2 |};
       cred_Reason := CREDIT_REASON_WIN; cred_OriginatingBetId := r.1 |}).
  destruct (CreditBalance_up req (sc_wallet d) c (S (S f)) b) as (d'&resp&Hcall&Hd'); [done..| | |].
  { cbn. apply in_int64_spec. unfold int64_min. unfold int64_max in *. lia. }
  { unfold balance_ok, int64_max in *. cbn. rewrite !andb_true_iff, !Z.leb_le. lia. }
  unfold settle, settleBet. fold (payout_of winner r). fold n. rewrite Hwin.
  unfold gbind, newID, now, mapErr, exec, flaky, insertSettlement. cbn. rewrite Hrow. cbn.
  fold req. revert Hcall. generalize (over_grpc CreditBalance) as call. intros call Hcall.
  unfold zoom, set_db. cbn. rewrite Hcall. cbn.
  pose proof (SendMessage_law (settledMessage r.1 (pb_UserID r.2) "WIN" n t)
    (World (sc_producer d) c (S (S f)) [])) as Hlaw. unfold wp in Hlaw.
  destruct (SendMessage _ _) as [w2 res2]. cbn. split; [done|]. by rewrite Hd', lookup_insert_eq.
Qed.
End OnWallet.

(** ** Witnesses *)

Lemma payoutOf_exact_witness : (IZR (payoutOf true 3 (5 / 2)%R) <= 3 * (5 / 2) < IZR (payoutOf true 3 (5 / 2)%R) + 1)%R.
Proof. apply (payoutOf_exact 3 (5 / 2)); [lia|lra]. Defined.

Section Witnesses.
#[local] Existing Instance inert_platform.
Abbreviation Log := (list (ProducerMessage binary64)).

Definition settle_uuid (n : nat) : string := "u" +:+ pretty n.
Definition ex_bet (sel : string) (stake : Z) : PendingBet binary64 :=
  Build_PendingBet "ann" "m1" sel stake (lit 2 1) "USD" "PLACED".
(** Ann has 700 available and 300 in flight: a bet of 200 on yes and one of 100 on no. *)
Definition ex_settlement (rows : gmap string SettlementRow) : Settlement binary64 WalletDB Log :=
  Build_Settlement (<["bet1" := ex_bet "yes" 200]> {["bet2" := ex_bet "no" 100]}) rows ex_d2 [].
Definition ex_settlement_world rows : world (Settlement binary64 WalletDB Log) := World (ex_settlement rows) 0 0 [].

Definition ex_result_event (winner : string) : ResultEvent :=
  {| re_EventType := "market.resulted"; re_MarketID := "m1"; re_SelectionID := winner;
     re_ResultedAt := "2026-03-01T12:30:45Z" |}.
Definition ex_result (winner : string) : ConsumerMessage binary64 :=
  {| cm := {| Topic := "market-data-normalised"; Key := "m1"; Headers := [];
       Value := Doc (JObj [("event_type", JStr "market.resulted"); ("market_id", JStr "m1");
         ("winning_selection_id", JStr winner); ("resulted_at", JStr "2026-03-01T12:30:45Z")]) |}; Offset := 3 |}.
Definition ex_result_run (winner : string) :=
  handleResult (H0:=wallet_client) settle_uuid (ex_result winner) (ex_settlement_world ∅).
Definition ann_balance (s : Settlement binary64 WalletDB Log) : option (Z * Z) := account (sc_wallet s) "ann".


Definition ex_bet1 : string * PendingBet binary64 := ("bet1", ex_bet "yes" 200).
Definition ex_unpaid_run := settle settle_uuid "yes" 0 ex_bet1 (ex_settlement_world ∅).

Lemma win_above_bets_in_flight_is_not_paid_witness :
  payout_of "yes" ex_bet1 = 400 ∧
  payout_minor <$> settlements (db ex_unpaid_run.1) !! "bet1" = Some 400 ∧
  sc_wallet (db ex_unpaid_run.1) = ex_d2.
Proof.
  do 2 (split; [vm_compute; reflexivity|]).
  destruct (win_above_bets_in_flight_is_not_paid settle_uuid "yes" 0 ex_bet1 (ex_settlement_world ∅)
    ex_unpaid_run.1 ex_unpaid_run.2 (Build_Balance 700 300 "USD" 5000000)) as (_&Hw&_).
  - vm_compute; reflexivity.
  - vm_compute; reflexivity.
  - vm_compute; reflexivity.
  - apply surjective_pairing.
  - exact Hw.
Defined.

Definition ex_bet2 : string * PendingBet binary64 := ("bet2", ex_bet "no" 100).
Definition ex_paid : gmap string SettlementRow :=
  {["bet2" := {| settlement_id := "s1"; outcome := "WIN"; payout_minor := 200; settled_at := 0; sr_created_at := 0 |}]}.

Lemma settleBet_pays_again_witness :
  let w' := (settle settle_uuid "no" 0 ex_bet2 (ex_settlement_world ex_paid)).1 in
  payout_of "no" ex_bet2 = 200 ∧ settlements (db w') = settlements (db (ex_settlement_world ex_paid)) ∧
  balances (sc_wallet (db w')) !! "ann" =
    Some (release (payout_of "no" ex_bet2) 0 (Build_Balance 700 300 "USD" 5000000)).
Proof.
  split; [vm_compute; reflexivity|].
  apply (settleBet_pays_again settle_uuid "no" 0 ex_bet2 (ex_settlement_world ex_paid)
    (Build_Balance 700 300 "USD" 5000000)
    {| settlement_id := "s1"; outcome := "WIN"; payout_minor := 200; settled_at := 0; sr_created_at := 0 |}).
  all: try (vm_compute; reflexivity).
  all: try (vm_compute; discriminate).
  split; vm_compute; discriminate.
Defined.
End Witnesses.
