(* ===== verification/BetHistory.v ===== *)
(** * Bet History ([internal/bethistory/consumer.go])

    The read model of placed and settled bets: the handlers of the three bet
    events and the consumer loop. The theorems: a bet accepted by Bet
    Acceptance is recorded field by field, the events as they are produced
    confirm nothing at the wallet, and the dispatch matches no topic the
    consumer subscribes to. *)
From S2P Require Export Settlement BetFlow Catalog.
Local Open Scope Z_scope.
Local Open Scope go_scope.

(** ** Table *)

Record BetRow (F : Type) : Type := {
  bh_user_id : string;
  bh_market_id : string;
  bh_market_name : string;
  bh_selection_id : string;
  bh_selection_name : string;
  bh_odds_decimal : F;
  bh_odds_american : Z;
  bh_stake_minor : Z;
  bh_currency : string;
  bh_status : string;
  bh_settled_at : option Z;
  bh_payout_minor : option Z
}.
Arguments bh_user_id {F} _.
Arguments bh_market_id {F} _.
Arguments bh_market_name {F} _.
Arguments bh_selection_id {F} _.
Arguments bh_selection_name {F} _.
Arguments bh_odds_decimal {F} _.
Arguments bh_odds_american {F} _.
Arguments bh_stake_minor {F} _.
Arguments bh_currency {F} _.
Arguments bh_status {F} _.
Arguments bh_settled_at {F} _.
Arguments bh_payout_minor {F} _.
Arguments Build_BetRow {F}.

(** The table by its primary key [(bet_id, placed_at)], and the wallet client. *)
Record BetHistory (F W : Type) : Type := {
  bets : gmap (string * Z) (BetRow F);
  bh_wallet : W
}.
Arguments bets {F W} _.
Arguments bh_wallet {F W} _.
Arguments Build_BetHistory {F W}.

(** The partitions: March to May 2026, in UTC. *)
Definition partition_start : Z := 1772323200 * second_us.
Definition partition_end : Z := 1780272000 * second_us.
Definition in_partition (t : Z) : bool := (partition_start <=? t) && (t <? partition_end).

Section BetHistory.
Context {F W : Type} `{FloatOps F} `{Postgres F} `{WalletServiceServer W}.
Abbreviation State := (BetHistory F W).

Definition set_bets (x : gmap (string * Z) (BetRow F)) (s : State) : State := Build_BetHistory x (bh_wallet s).
Definition history_wallet : lens State W := Lens bh_wallet (λ x s, Build_BetHistory (bets s) x).

(** [INSERT INTO bets ... ON CONFLICT (bet_id, placed_at) DO NOTHING]. *)
Definition insertBet (betID : string) (placedAt : Z) (row : BetRow F) (s : State) : option State :=
  odds ← numeric 10 4 (bh_odds_decimal row);
  if in_int32 (bh_odds_american row) && in_int64 (bh_stake_minor row) && in_partition placedAt then
    match bets s !! (betID, placedAt) with
    | Some _ => Some s
    | None => Some (set_bets (<[(betID, placedAt) :=
        Build_BetRow (bh_user_id row) (bh_market_id row) (bh_market_name row) (bh_selection_id row)
          (bh_selection_name row) odds (bh_odds_american row) (bh_stake_minor row) (bh_currency row)
          (bh_status row) (bh_settled_at row) (bh_payout_minor row)]> (bets s)) s)
    end
  else None.

(** ** Handlers *)

Record BetPlacedEvent : Type := {
  bp_BetID : string;
  bp_UserID : string;
  bp_MarketID : string;
  bp_MarketName : string;
  bp_SelectionID : string;
  bp_SelectionName : string;
  bp_OddsDecimal : F;
  bp_OddsAmerican : Z;
  bp_StakeMinor : Z;
  bp_Currency : string;
  bp_PlacedAt : string
}.

Definition decodeBetPlacedEvent (kvs : list (string * json F)) : option BetPlacedEvent :=
  b ← jstring "bet_id" kvs;
  u ← jstring "user_id" kvs;
  m ← jstring "market_id" kvs;
  mn ← jstring "market_name" kvs;
  s ← jstring "selection_id" kvs;
  sn ← jstring "selection_name" kvs;
  d ← jfloat "odds_decimal" kvs;
  a ← jint "odds_american" kvs;
  st ← jint "stake_minor" kvs;
  c ← jstring "currency" kvs;
  p ← jstring "placed_at" kvs;
  Some {| bp_BetID := b; bp_UserID := u; bp_MarketID := m; bp_MarketName := mn; bp_SelectionID := s;
          bp_SelectionName := sn; bp_OddsDecimal := d; bp_OddsAmerican := a; bp_StakeMinor := st;
          bp_Currency := c; bp_PlacedAt := p |}.

(** The first header [transaction_id], or the empty string. *)
Fixpoint transactionIDOf (headers : list (string * string)) : string :=
  match headers with
  | [] => ""
  | (k, v) :: rest => if (k =? "transaction_id")%string then v else transactionIDOf rest
  end.

Definition placedRow (e : BetPlacedEvent) : BetRow F :=
  Build_BetRow (bp_UserID e) (bp_MarketID e) (bp_MarketName e) (bp_SelectionID e) (bp_SelectionName e)
    (bp_OddsDecimal e) (bp_OddsAmerican e) (bp_StakeMinor e) (bp_Currency e) "PLACED" None None.

Definition handleBetPlaced (msg : ConsumerMessage F) : Go State string unit :=
  match Unmarshal decodeBetPlacedEvent (Value (cm msg)) with
  | None => throw "unmarshal bet.placed"
  | Some event =>
      t <- now ;;
      let placedAt := default t (ParseRFC3339Nano (bp_PlacedAt event)) in
      let transactionID := transactionIDOf (Headers (cm msg)) in
      exec (insertBet (bp_BetID event) placedAt (placedRow event)) or_throw "insert bet record" ;;;
      if negb (transactionID =? "")%string
      then zoom history_wallet (wallet_ConfirmTransaction {| conf_TransactionId := transactionID |})
             or_throw "ConfirmTransaction" ;;;
           ret tt
      else ret tt
  end.

(** [UPDATE bets SET ... WHERE bet_id = $n]: every partition is searched. *)
Definition updateBets (betID : string) (f : BetRow F → BetRow F) (s : State) : option State :=
  Some (set_bets (map_imap (λ k row, Some (if (k.1 =? betID)%string then f row else row)) (bets s)) s).

Definition settle_row (status : string) (t : Z) (payout : option Z) (row : BetRow F) : BetRow F :=
  Build_BetRow (bh_user_id row) (bh_market_id row) (bh_market_name row) (bh_selection_id row)
    (bh_selection_name row) (bh_odds_decimal row) (bh_odds_american row) (bh_stake_minor row) (bh_currency row)
    status (Some t) payout.

Definition decodeBetSettled (kvs : list (string * json F)) : option (string * string * Z * string) :=
  b ← jstring "bet_id" kvs;
  o ← jstring "outcome" kvs;
  p ← jint "payout_minor" kvs;
  s ← jstring "settled_at" kvs;
  Some (b, o, p, s).

Definition handleBetSettled (msg : ConsumerMessage F) : Go State string unit :=
  match Unmarshal decodeBetSettled (Value (cm msg)) with
  | None => throw "unmarshal bet.settled"
  | Some (betID, outcome, payoutMinor, settledAtS) =>
      let newStatus := if (outcome =? "WIN")%string then "SETTLED_WIN" else "SETTLED_LOSS" in
      let settledAt := default zero_time (ParseRFC3339Nano settledAtS) in
      exec (updateBets betID (settle_row newStatus settledAt (Some payoutMinor))) or_throw "update bets"
  end.

Definition decodeBetVoided (kvs : list (string * json F)) : option (string * string) :=
  b ← jstring "bet_id" kvs; v ← jstring "voided_at" kvs; Some (b, v).

Definition handleBetVoided (msg : ConsumerMessage F) : Go State string unit :=
  match Unmarshal decodeBetVoided (Value (cm msg)) with
  | None => throw "unmarshal bet.voided"
  | Some (betID, voidedAtS) =>
      let voidedAt := default zero_time (ParseRFC3339Nano voidedAtS) in
      exec (updateBets betID (λ row, settle_row "VOID" voidedAt (bh_payout_minor row) row)) or_throw "update bets"
  end.

Definition handleBetEvent (msg : ConsumerMessage F) : Go State string unit :=
  if (Topic (cm msg) =? "bet.placed")%string then handleBetPlaced msg
  else if (Topic (cm msg) =? "bet.settled")%string then handleBetSettled msg
  else if (Topic (cm msg) =? "bet.voided")%string then handleBetVoided msg
  else ret tt.

(** The topics [Run] subscribes to. *)
Definition history_topics : list string := ["bet-placed"; "bet-settled"; "bet-voided"].

Definition historyConsumeClaim (msgs : list (ConsumerMessage F)) : Go State string (list Z) :=
  ConsumeClaim handleBetEvent msgs.
End BetHistory.
Arguments BetPlacedEvent : clear implicits.

(** ** Properties *)

Section Properties.
Context {F W : Type} `{FloatOps F} `{Postgres F} `{WalletServiceServer W}.
Implicit Types w : world (BetHistory F W).

Lemma handleBetEvent_ignores (msg : ConsumerMessage F) w :
  Topic (cm msg) ∈ history_topics → handleBetEvent msg w = (w, Ok tt).
Proof.
  unfold handleBetEvent, history_topics. rewrite !elem_of_cons, elem_of_nil. by intros [->|[->|[->|[]]]].
Qed.

(** The dispatch compares topic names that the consumer does not subscribe to:
    whatever the subscribed topics deliver, no bet is recorded, settled or
    voided, and every offset is committed. *)
Theorem history_consumer_ignores_its_topics (msgs : list (ConsumerMessage F)) w :
  Forall (λ m, Topic (cm m) ∈ history_topics) msgs →
  historyConsumeClaim msgs w = (w, Ok (map Offset msgs)).
Proof.
  unfold historyConsumeClaim. induction 1 as [|m msgs Hm _ IH]; [done|].
  cbn. unfold gbind, catch. by rewrite handleBetEvent_ignores, IH.
Qed.

(** The event the history reads from an accepted bet's payload. *)
Definition accepted_event (betID : string) (req : PlaceBetRequest F) (odds : CachedOdds F) (t : Z) : BetPlacedEvent F :=
  {| bp_BetID := betID; bp_UserID := UserID req; bp_MarketID := MarketID req; bp_MarketName := MarketName req;
     bp_SelectionID := SelectionID req; bp_SelectionName := SelectionName req; bp_OddsDecimal := co_Decimal odds;
     bp_OddsAmerican := co_American odds; bp_StakeMinor := StakeMinor req; bp_Currency := req_Currency req;
     bp_PlacedAt := FormatRFC3339Nano t |}.

Lemma decode_bet_placed betID req odds t payload :
  buildBetPlacedPayload betID req odds t = Some payload →
  in_int64 (co_American odds) = true → in_int64 (StakeMinor req) = true →
  Unmarshal decodeBetPlacedEvent payload = Some (accepted_event betID req odds t).
Proof.
  intros Hp Ha Hs. unfold buildBetPlacedPayload, Marshal in Hp.
  destruct (marshalable _) eqn:Hf; [|done]. injection Hp as <-.
  cbn in Hf. rewrite andb_true_r in Hf. cbn [Unmarshal]. unfold decodeBetPlacedEvent.
  json_keys. unfold into_float64, into_int64. rewrite Hf. cbn [mbind option_bind]. json_keys.
  rewrite Ha. cbn [mbind option_bind]. json_keys. rewrite Hs. cbn [mbind option_bind]. by json_keys.
Qed.

Lemma int32_int64 z : in_int32 z = true → in_int64 z = true.
Proof. unfold in_int32, in_int64, int64_min, int64_max. rewrite !andb_true_iff, !Z.leb_le, Z.ltb_lt. lia. Qed.

(** The handler on the relay's message for a bet. *)
Lemma handleBetPlaced_relayed k (row : OutboxRow F) off betID req odds t dec w w' res :
  buildBetPlacedPayload betID req odds t = Some (Payload row) →
  in_int64 (StakeMinor req) = true → in_int32 (co_American odds) = true → in_partition t = true →
  numeric 10 4 (co_Decimal odds) = Some dec →
  handleBetPlaced {| cm := row_message (k, row); Offset := off |} w = (w', res) →
  bh_wallet (db w') = bh_wallet (db w) ∧ (faults w = [] → res = Ok tt) ∧
  bets (db w') =
    match res, bets (db w) !! (betID, t) with
    | Ok _, None => <[(betID, t) := Build_BetRow (UserID req) (MarketID req) (MarketName req) (SelectionID req)
        (SelectionName req) dec (co_American odds) (StakeMinor req) (req_Currency req) "PLACED" None None]>
        (bets (db w))
    | _, _ => bets (db w)
    end.
Proof.
  intros Hp Hs Ha Hpart Hdec Hm.
  assert (ParseRFC3339Nano (FormatRFC3339Nano t) = Some t) as Ht.
  { apply RFC3339Nano_parse_format. unfold in_partition, partition_start, partition_end, day_s, second_us in *.
    rewrite andb_true_iff, Z.leb_le, Z.ltb_lt in Hpart. lia. }
  pose proof (decode_bet_placed _ _ _ _ _ Hp (int32_int64 _ Ha) Hs) as Hd.
  assert (insertBet betID t (placedRow (accepted_event betID req odds t)) (db w) = Some
    (set_bets (match bets (db w) !! (betID, t) with None => <[(betID, t) := Build_BetRow (UserID req) (MarketID req)
        (MarketName req) (SelectionID req) (SelectionName req) dec (co_American odds) (StakeMinor req)
        (req_Currency req) "PLACED" None None]> (bets (db w)) | Some _ => bets (db w) end) (db w))) as Hins.
  { unfold insertBet. cbn. rewrite Hdec. cbn. rewrite Ha, Hs, Hpart. cbn.
    destruct (bets (db w) !! (betID, t)); [|done]. by destruct (db w). }
  revert Hm. unfold handleBetPlaced. cbn [cm row_message Value Headers snd]. rewrite Hd.
  unfold gbind, now, mapErr, exec, ret. cbn [accepted_event bp_PlacedAt bp_BetID]. rewrite Ht. change (default (clock w) (Some t)) with t.
  fold (accepted_event betID req odds t). unfold flaky.
  change (transactionIDOf _) with ""%string.
  destruct (faults w) as [|[] fs]; cbn; rewrite ?Hins; cbn; intros [= <- <-]; cbn;
    by destruct (bets (db w) !! (betID, t)).
Qed.

(** The way of an accepted bet into the history: when the relay's message for
    its outbox row arrives, the row that is stored has the request's user,
    market, selection, stake and currency, the accepted odds, and the instant
    of the bet, in its partition; a second delivery changes nothing; a failure
    changes nothing and leaves the offset uncommitted. And the message never
    confirms the wallet transaction: the relay sends no [transaction_id]
    header, so the wallet is not called. *)
Theorem relayed_bet_is_recorded k (row : OutboxRow F) off betID req odds t dec w w' res :
  buildBetPlacedPayload betID req odds t = Some (Payload row) →
  in_int64 (StakeMinor req) = true → in_int32 (co_American odds) = true → in_partition t = true →
  numeric 10 4 (co_Decimal odds) = Some dec →
  handleBetPlaced {| cm := row_message (k, row); Offset := off |} w = (w', res) →
  bh_wallet (db w') = bh_wallet (db w) ∧ (faults w = [] → res = Ok tt) ∧
  bets (db w') =
    match res, bets (db w) !! (betID, t) with
    | Ok _, None => <[(betID, t) := Build_BetRow (UserID req) (MarketID req) (MarketName req) (SelectionID req)
        (SelectionName req) dec (co_American odds) (StakeMinor req) (req_Currency req) "PLACED" None None]>
        (bets (db w))
    | _, _ => bets (db w)
    end.
Proof. apply handleBetPlaced_relayed. Qed.
End Properties.

(** ** Witnesses *)

Section Witnesses.
#[local] Existing Instance inert_platform.
#[local] Instance history_postgres : Postgres binary64 := {| numeric _ _ x := Some x; timestamptz := ParseRFC3339Nano |}.

Definition ex_history : BetHistory binary64 WalletDB := Build_BetHistory ∅ empty_db.
Definition ex_history_world : world (BetHistory binary64 WalletDB) := World ex_history 0 0 [].
Definition ex_placed_at : Z := 1772368245120000.
Definition ex_request : PlaceBetRequest binary64 :=
  {| IdempotencyKey := "k"; UserID := "ann"; MarketID := "m1"; MarketName := "Winner"; SelectionID := "s1";
     SelectionName := "Home"; RequestedOddsDecimal := lit 3 2; RequestedOddsAmerican := -200; StakeMinor := 300;
     req_Currency := "USD" |}.
Definition ex_cached : CachedOdds binary64 :=
  {| co_Decimal := lit 3 2; co_American := -200; co_SourceEventOffset := 7 |}.
Definition ex_payload : bytes binary64 :=
  default (Doc JNull) (buildBetPlacedPayload "bet1" ex_request ex_cached ex_placed_at).
Definition ex_relayed : OutboxRow binary64 :=
  {| BetID := "bet1"; ob_Topic := "bet-placed"; PartitionKey := "m1"; Payload := ex_payload;
     ob_Status := OutboxStatusReadyToPublish; CreatedAt := 0; PublishedAt := None |}.
Definition ex_history_run (w : world (BetHistory binary64 WalletDB)) :=
  handleBetPlaced {| cm := row_message ("o1", ex_relayed); Offset := 0 |} w.
Definition ex_recorded_row : BetRow binary64 :=
  Build_BetRow "ann" "m1" "Winner" "s1" "Home" (lit 3 2) (-200) 300 "USD" "PLACED" None None.

Lemma relayed_bet_is_recorded_witness :
  bets (db (ex_history_run ex_history_world).1) !! ("bet1", ex_placed_at) = Some ex_recorded_row ∧
  bh_wallet (db (ex_history_run ex_history_world).1) = bh_wallet (db ex_history_world).
Proof.
  split; [vm_compute; reflexivity|].
  assert (buildBetPlacedPayload "bet1" ex_request ex_cached ex_placed_at = Some (Payload ex_relayed)) as Hp
    by (vm_compute; reflexivity).
  assert (ex_history_run ex_history_world =
    ((ex_history_run ex_history_world).1, (ex_history_run ex_history_world).2)) as Hr
    by (apply surjective_pairing).
  exact (proj1 (relayed_bet_is_recorded "o1" ex_relayed 0 "bet1" ex_request ex_cached ex_placed_at (lit 3 2)
    ex_history_world _ _ Hp eq_refl eq_refl eq_refl eq_refl Hr)).
Defined.

Lemma history_consumer_ignores_its_topics_witness :
  historyConsumeClaim [{| cm := row_message ("o1", ex_relayed); Offset := 5 |}] ex_history_world =
    (ex_history_world, Ok [5]).
Proof.
  apply (history_consumer_ignores_its_topics [{| cm := row_message ("o1", ex_relayed); Offset := 5 |}]).
  repeat constructor.
Defined.
End Witnesses.
