(* ===== verification/CatalogService.v ===== *)
(** * The catalogue's service and its status cache
    ([internal/catalog/service.go], [status_cache.go])

    The gRPC methods over the catalogue's tables, the transitions of a market's
    lifecycle with their write-through to Redis, and the warmer that copies the
    statuses of open and suspended markets every three seconds. The theorems:
    what Bet Acceptance reads from the status cache is a status the market had
    in the database less than five seconds before; a transition of a market
    that does not exist is cached all the same; and what each method answers. *)
From stdpp Require Import sorting.
From S2P Require Export Catalog WalletApi.
Local Open Scope Z_scope.
Local Open Scope go_scope.

(** ** Batches of Redis commands

    A pipeline of SETs with one expiry: commands run in order, any prefix of
    them may have run when the connection fails. *)
Class RedisPipeline (V R : Type) `{RedisClient V R} : Type := {
  redis_Pipeline : list (string * V) → Z → Go R rediserr unit;
  redis_Pipeline_law cmds ttl (w : world R) :
    wp (redis_Pipeline cmds ttl) (λ w' r,
      clock w' = clock w ∧ fresh w' = fresh w ∧
      (∀ t k v, redis_at (db w') t k = Some v →
         ((k, v) ∈ cmds ∧ t < clock w + ttl) ∨
         redis_at (db w) t k = Some v ∧ (r = Ok tt → k ∉ cmds.*1))) w
}.

(** ** Messages of the catalogue's API *)

Inductive MarketStatus : Type :=
| MARKET_STATUS_UNSPECIFIED | MARKET_STATUS_OPEN | MARKET_STATUS_SUSPENDED
| MARKET_STATUS_CLOSED | MARKET_STATUS_SETTLED.

Record Market : Type := {
  m_MarketId : string;
  m_EventId : string;
  m_Name : string;
  m_Status : MarketStatus;
  m_OpensAt : Z;
  m_ClosesAt : Z
}.

Record Selection : Type := {
  s_MarketId : string;
  s_SelectionId : string;
  s_Name : string;
  s_Active : bool
}.

Definition marketStatusFromString (s : string) : MarketStatus :=
  if (s =? "OPEN")%string then MARKET_STATUS_OPEN
  else if (s =? "SUSPENDED")%string then MARKET_STATUS_SUSPENDED
  else if (s =? "CLOSED")%string then MARKET_STATUS_CLOSED
  else if (s =? "SETTLED")%string then MARKET_STATUS_SETTLED
  else MARKET_STATUS_UNSPECIFIED.

(** ** The service *)

(** The catalogue's database and the market-status Redis instance. *)
Record CatalogService (F R : Type) : Type := { cs_db : CatalogDB F; cs_redis : R }.
Arguments cs_db {F R} _.
Arguments cs_redis {F R} _.
Arguments Build_CatalogService {F R}.

Section Service.
Context {F R : Type} `{FloatOps F} `{RedisPipeline string R}.
Abbreviation State := (CatalogService F R).

Definition service_db : lens State (CatalogDB F) := Lens cs_db (λ x s, Build_CatalogService x (cs_redis s)).
Definition service_redis : lens State R := Lens cs_redis (λ x s, Build_CatalogService (cs_db s) x).

(** [rows.Scan] of a market: a NULL [closes_at] does not fit a [time.Time]. *)
Definition scanMarket (r : string * MarketRow F) : option Market :=
  closes ← mk_closes_at r.2;
  Some {| m_MarketId := r.1; m_EventId := mk_event_id r.2; m_Name := mk_name r.2;
          m_Status := marketStatusFromString (mk_status r.2); m_OpensAt := mk_opens_at r.2; m_ClosesAt := closes |}.

Definition GetMarket (marketId : string) : Go State status Market :=
  if (marketId =? "")%string then throw (Status InvalidArgument "market_id required") else
  queryRow (λ s, row ← markets (cs_db s) !! marketId; scanMarket (marketId, row))
    or_throw (Status NotFound "market not found").

Definition GetSelection (selectionId : string) : Go State status Selection :=
  if (selectionId =? "")%string then throw (Status InvalidArgument "selection_id required") else
  queryRow (λ s, row ← selections (cs_db s) !! selectionId;
      Some {| s_MarketId := sel_market_id row; s_SelectionId := selectionId; s_Name := sel_name row;
              s_Active := sel_active row |})
    or_throw (Status NotFound "selection not found").

(** [WHERE event_id = $1 ORDER BY name LIMIT $2]; a negative limit is an error. *)
Definition by_name (x y : string * MarketRow F) : Prop := String.leb (mk_name x.2) (mk_name y.2) = true.
#[export] Instance by_name_dec x y : Decision (by_name x y).
Proof. unfold by_name. apply _. Defined.
Definition markets_of (eventId : string) (limit : Z) (d : CatalogDB F) : option (list (string * MarketRow F)) :=
  if limit <? 0 then None else
  Some (take (Z.to_nat limit)
    (merge_sort by_name (filter (λ r, (mk_event_id r.2 =? eventId)%string = true) (map_to_list (markets d))))).

Definition ListMarkets (eventId : string) (pageSize : Z) : Go State status (list Market) :=
  rows <- queryRow (λ s, markets_of eventId pageSize (cs_db s)) or_throw (Status Internal "query markets") ;;
  match mapM scanMarket rows with
  | None => throw (Status Internal "scan market")
  | Some ms => ret ms
  end.

(** ** The lifecycle *)

Definition marketStatusTTL : Z := 5 * second_us.
Definition statusKey (marketID : string) : string := "market:status:" +:+ marketID.

(** [UPDATE markets SET status = $1, updated_at = NOW() WHERE market_id = $2]. *)
Definition with_status (newStatus : string) (t : Z) (row : MarketRow F) : MarketRow F :=
  Build_MarketRow (mk_event_id row) (mk_name row) newStatus (mk_opens_at row) (mk_closes_at row) t
    (mk_type row) (mk_target_value row) (mk_is_main row).
Definition updateStatus (marketID newStatus : string) (t : Z) (d : CatalogDB F) : option (CatalogDB F) :=
  match markets d !! marketID with
  | None => Some d
  | Some row => if market_status_ok newStatus
                then Some (set_markets (<[marketID := with_status newStatus t row]> (markets d)) d) else None
  end.

Definition setMarketStatus (marketID newStatus : string) : Go State string unit :=
  t <- now ;;
  zoom service_db (exec (updateStatus marketID newStatus t)) or_throw "update market status" ;;;
  zoom service_redis (redis_Set (statusKey marketID) newStatus marketStatusTTL) or_throw "redis".

Definition SuspendMarket (marketID : string) : Go State string unit := setMarketStatus marketID "SUSPENDED".
Definition OpenMarket (marketID : string) : Go State string unit := setMarketStatus marketID "OPEN".
Definition CloseMarket (marketID : string) : Go State string unit := setMarketStatus marketID "CLOSED".

(** ** The warmer *)

Definition statusCacheTTL : Z := 5 * second_us.

(** [WHERE status IN ('OPEN', 'SUSPENDED')]. *)
Definition warm_rows (d : CatalogDB F) : list (string * string) :=
  (λ r, (statusKey r.1, mk_status r.2)) <$>
    filter (λ r, mk_status r.2 ∈ ["OPEN"; "SUSPENDED"]) (map_to_list (markets d)).

(** Errors are logged; the SETs go out in one pipeline. *)
Definition warm : Go State string unit :=
  rows <- catch (queryRow (λ s, Some (warm_rows (cs_db s)))) ;;
  match rows with
  | Err _ => ret tt
  | Ok [] => ret tt
  | Ok cmds => catch (zoom service_redis (redis_Pipeline cmds statusCacheTTL)) ;;; ret tt
  end.
End Service.

(** ** The system: transitions, warmer, feed and time *)

Section System.
Context {F R : Type} `{FloatOps F} `{Postgres F} `{RedisPipeline string R}.
Abbreviation State := (CatalogService F R).
Implicit Types w : world State.

Definition statuses (d : CatalogDB F) : gmap string string := mk_status <$> markets d.

(** One operation under some schedule of faults. A transition is one of the
    three methods, on a market that exists. *)
Inductive service_run w w' : Prop :=
| run_warm : w' = (warm w).1 → service_run w w'
| run_status m s :
    is_Some (markets (cs_db (db w)) !! m) → s ∈ ["OPEN"; "SUSPENDED"; "CLOSED"] →
    w' = (setMarketStatus m s w).1 → service_run w w'
| run_upsert e : w' = (zoom service_db (handleCatalogUpsert e) w).1 → service_run w w'
| run_faults fs : w' = set_faults fs w → service_run w w'
| run_wait t : clock w ≤ t → w' = World (db w) t (fresh w) (faults w) → service_run w w'.

(** The same, with the statuses the database had at each step. *)
Abbreviation History := (list (Z * gmap string string)).
Inductive catalog_step : world State * History → world State * History → Prop :=
| catalog_step_run w w' h :
    service_run w w' → catalog_step (w, h) (w', (clock w', statuses (cs_db (db w'))) :: h).

(** Every visible entry is a status of the database, less than five seconds old. *)
Definition cache_fresh (c : world State * History) : Prop := ∀ t m s,
  redis_at (cs_redis (db c.1)) t (statusKey m) = Some s →
  ∃ t0 snap, (t0, snap) ∈ c.2 ∧ snap !! m = Some s ∧ t0 ≤ clock c.1 ∧ t < t0 + statusCacheTTL.

(** A state that starts with an empty cache. *)
Definition catalog_start (c : world State * History) : Prop :=
  (∀ t k, redis_at (cs_redis (db c.1)) t k = None) ∧ c.2 = [(clock c.1, statuses (cs_db (db c.1)))].

Lemma statusKey_inj m m' : statusKey m = statusKey m' → m = m'.
Proof.
  unfold statusKey. intros E. injection E as E.
  exact E.
Qed.

(** What one operation may add to the cache: a status the database had when the
    operation began or has when it ends. *)
Definition writes_statuses w w' : Prop :=
  clock w ≤ clock w' ∧
  ∀ t k s, redis_at (cs_redis (db w')) t k = Some s →
    redis_at (cs_redis (db w)) t k = Some s ∨
    ∃ m, k = statusKey m ∧ t < clock w + statusCacheTTL ∧
      (statuses (cs_db (db w)) !! m = Some s ∨
       clock w' = clock w ∧ statuses (cs_db (db w')) !! m = Some s).

Lemma writes_nothing w w' :
  clock w' = clock w → cs_redis (db w') = cs_redis (db w) → writes_statuses w w'.
Proof. intros Hc Hr. split; [lia|]. rewrite Hr. auto. Qed.

Lemma warm_rows_statuses (d : CatalogDB F) k s :
  (k, s) ∈ warm_rows d → ∃ m, k = statusKey m ∧ statuses d !! m = Some s ∧ s ∈ ["OPEN"; "SUSPENDED"].
Proof.
  unfold warm_rows, statuses. intros Hin. apply list_elem_of_fmap in Hin as ([m row]&[= -> ->]&Hin).
  apply list_elem_of_filter in Hin as [Hst Hin]. apply elem_of_map_to_list in Hin.
  exists m. by rewrite lookup_fmap, Hin.
Qed.

Lemma warm_wp w : wp warm (λ w' _, writes_statuses w w' ∧ cs_db (db w') = cs_db (db w)) w.
Proof.
  unfold warm. do 3 go_step; cbn beta iota; [go_step; by split; [apply writes_nothing|]|].
  destruct (warm_rows (cs_db (db w))) as [|c cmds] eqn:Hc; [go_step; by split; [apply writes_nothing|]|].
  do 3 go_step. eapply wp_mono; [|apply redis_Pipeline_law].
  intros w1 r (Hclk&_&Hat). go_step. cbn in *. split; [|done]. split; [cbn; lia|]. cbn. intros t k s Hs.
  apply Hat in Hs as [[Hin Ht]|[Hs _]]; [right|by left].
  rewrite <- Hc in Hin. apply warm_rows_statuses in Hin as (m&->&Hm&_). exists m. auto.
Qed.

Lemma setMarketStatus_wp m s w :
  wp (setMarketStatus m s) (λ w' r,
    clock w' = clock w ∧
    ((cs_db (db w') = cs_db (db w) ∧ cs_redis (db w') = cs_redis (db w) ∧ r ≠ Ok tt) ∨
     updateStatus m s (clock w) (cs_db (db w)) = Some (cs_db (db w')) ∧
     ∀ t k v, redis_at (cs_redis (db w')) t k = Some v →
       (k = statusKey m ∧ v = s ∧ t < clock w + marketStatusTTL) ∨
       redis_at (cs_redis (db w)) t k = Some v ∧ (r = Ok tt → k ≠ statusKey m))) w.
Proof.
  unfold setMarketStatus. do 6 go_step; cbn; [by split; [|left]|].
  destruct (updateStatus m s (clock w) (cs_db (db w))) as [d|] eqn:Hu; cbn; [|by split; [|left]].
  do 2 go_step. eapply wp_mono; [|apply redis_Set_law]. cbn. intros w1 r (Hclk&_&Hat).
  assert (∀ r' : result string unit, (r' = Ok tt → r = Ok tt) →
    ∀ t k v, redis_at (db w1) t k = Some v →
      (k = statusKey m ∧ v = s ∧ t < clock w + marketStatusTTL) ∨
      redis_at (cs_redis (db w)) t k = Some v ∧ (r' = Ok tt → k ≠ statusKey m)) as Hcache.
  { intros r' Hr t k v Hv. apply Hat in Hv as [(->&->&Ht)|[Hv Hk]]; [by left|]. right. split; [done|].
    intros Hok ->. by apply Hk; [|apply Hr]. }
  destruct r as [[]|e]; cbn; (split; [done|]); right; (split; [done|]); by apply Hcache.
Qed.

Lemma updateStatus_statuses m s t (d d' : CatalogDB F) :
  is_Some (markets d !! m) → updateStatus m s t d = Some d' → statuses d' !! m = Some s.
Proof.
  intros [row Hrow]. unfold updateStatus. rewrite Hrow. destruct (market_status_ok s); [|done].
  intros [= <-]. unfold statuses. cbn. by rewrite lookup_fmap, lookup_insert_eq.
Qed.

Lemma handleCatalogUpsert_clock e (u : world (CatalogDB F)) :
  wp (handleCatalogUpsert e) (λ u' _, clock u' = clock u) u.
Proof. unfold handleCatalogUpsert, when. go_run; done. Qed.

Lemma service_run_writes w w' : service_run w w' → writes_statuses w w'.
Proof.
  intros [->|m s Hm Hs ->|e ->|fs ->|t Ht ->].
  - by apply (warm_wp w).
  - pose proof (setMarketStatus_wp m s w) as Hwp. unfold wp in Hwp.
    destruct (setMarketStatus m s w) as [w' r]. cbn in *. destruct Hwp as [Hc [(Hd&Hr&_)|[Hu Hat]]].
    + by apply writes_nothing.
    + split; [lia|]. intros t k v Hv. apply Hat in Hv as [(->&->&Ht)|[? _]]; [right|by left].
      exists m. split_and!; [done|done|]. right. split; [done|]. by eapply updateStatus_statuses.
  - unfold zoom. destruct (handleCatalogUpsert e _) as [w1 r] eqn:Hrun. cbn.
    from_wp (handleCatalogUpsert_clock e (set_db (view service_db (db w)) w)) at Hrun as Hclk. cbn in Hclk.
    split; cbn; [lia|auto].
  - split; cbn; [lia|auto].
  - split; cbn; [done|auto].
Qed.

Lemma cache_fresh_step c c' :
  (clock c.1, statuses (cs_db (db c.1))) ∈ c.2 → cache_fresh c → catalog_step c c' →
  (clock c'.1, statuses (cs_db (db c'.1))) ∈ c'.2 ∧ cache_fresh c'.
Proof.
  intros Hnow Hfresh Hst. revert Hnow Hfresh. destruct Hst as [w w' h Hrun]. cbn [fst snd].
  intros Hnow Hfresh. split; [by left|].
  apply service_run_writes in Hrun as [Hclk Hw]. intros t m s Hs. cbn in *.
  apply Hw in Hs as [Hs|(m'&Hm%statusKey_inj&Ht&[Hold|[Heq Hnew]])].
  - destruct (Hfresh t m s Hs) as (t0&snap&Hin&Hsnap&Hle&Hlt). cbn [fst snd] in *.
    exists t0, snap. split_and!; [by right|done|lia|done].
  - subst m'. exists (clock w), (statuses (cs_db (db w))). split_and!; [by right|done|lia|done].
  - subst m'. exists (clock w'), (statuses (cs_db (db w'))). split_and!; [by left|done|lia|by rewrite Heq].
Qed.

Lemma cache_fresh_rtc c c' :
  (clock c.1, statuses (cs_db (db c.1))) ∈ c.2 → cache_fresh c → rtc catalog_step c c' → cache_fresh c'.
Proof.
  intros Hnow Hfresh Hsteps. induction Hsteps as [|c c1 c2 Hstep _ IH]; [done|].
  destruct (cache_fresh_step c c1 Hnow Hfresh Hstep). by apply IH.
Qed.

Lemma start_fresh c :
  catalog_start c → (clock c.1, statuses (cs_db (db c.1))) ∈ c.2 ∧ cache_fresh c.
Proof.
  destruct c as [w h]. intros [Hempty Hh]. cbn in *. subst h. split; [by left|].
  intros t m s Hs. cbn in Hs. by rewrite Hempty in Hs.
Qed.

(** The status cache is never more than five seconds behind: from an empty
    cache, through any run of transitions, warm-ups, feed updates, waiting and
    faults, a status that is read from the cache under a market's key at some
    instant is a status this market had in the database at a recorded instant
    less than five seconds before. *)
Theorem status_cache_is_fresh c w h t m s :
  catalog_start c → rtc catalog_step c (w, h) →
  redis_at (cs_redis (db w)) t (statusKey m) = Some s →
  ∃ t0 snap, (t0, snap) ∈ h ∧ snap !! m = Some s ∧ t0 ≤ clock w ∧ t < t0 + statusCacheTTL.
Proof.
  intros Hstart Hsteps Hs. destruct (start_fresh c Hstart) as [Hnow Hfresh].
  by apply (cache_fresh_rtc c (w, h) Hnow Hfresh Hsteps).
Qed.

(** A transition of a market, under any faults: when it succeeds the database
    has the new status, nothing else of the catalogue changed, and no other
    status is left in the cache; when it fails the database may still have
    changed. A market that does not exist is not an error: nothing is updated
    and the status is written to the cache all the same. *)
Theorem setMarketStatus_spec m s w w' r :
  s ∈ ["OPEN"; "SUSPENDED"; "CLOSED"] →
  setMarketStatus m s w = (w', r) →
  (∀ k row, markets (cs_db (db w)) !! k = Some row →
     k ≠ m ∧ markets (cs_db (db w')) !! k = Some row ∨
     k = m ∧ (markets (cs_db (db w')) !! k = Some (with_status s (clock w) row) ∨
              markets (cs_db (db w')) !! k = Some row ∧ r ≠ Ok tt)) ∧
  (markets (cs_db (db w)) !! m = None → cs_db (db w') = cs_db (db w)) ∧
  (r = Ok tt → ∀ t v, redis_at (cs_redis (db w')) t (statusKey m) = Some v → v = s).
Proof.
  intros Hs Hm. pose proof (setMarketStatus_wp m s w) as Hwp. unfold wp in Hwp. rewrite Hm in Hwp.
  cbn in Hwp. destruct Hwp as [_ [(Hd&Hr&Hok)|[Hu Hat]]].
  - rewrite Hd. split_and!; [|done|done]. intros k row Hrow. destruct (decide (k = m)); [right|left]; auto.
  - assert (market_status_ok s = true) as Hsok.
    { unfold market_status_ok. apply bool_decide_eq_true. rewrite !elem_of_cons, elem_of_nil in *. tauto. }
    unfold updateStatus in Hu. split_and!.
    + intros k row Hrow. destruct (decide (k = m)) as [->|Hk]; [right; split; [done|]; left|left; split; [done|]].
      * rewrite Hrow, Hsok in Hu. injection Hu as <-. cbn. by rewrite lookup_insert_eq.
      * destruct (markets (cs_db (db w)) !! m); [|by injection Hu as <-].
        rewrite Hsok in Hu. injection Hu as <-. cbn. by rewrite lookup_insert_ne.
    + intros Hnone. rewrite Hnone in Hu. by injection Hu.
    + intros Hr t v Hv. apply Hat in Hv as [(_&->&_)|[_ Hk]]; [done|]. by specialize (Hk Hr).
Qed.
End System.

(** ** The queries *)

Section Queries.
Context {F R : Type} `{FloatOps F} `{RedisPipeline string R}.
Implicit Types w : world (CatalogService F R).

#[local] Instance by_name_total : base.Total (by_name (F:=F)).
Proof. intros x y. unfold by_name. destruct (String.leb_total (mk_name x.2) (mk_name y.2)); auto. Qed.

Definition event_markets (eventId : string) (d : CatalogDB F) : list (string * MarketRow F) :=
  merge_sort by_name (filter (λ r, (mk_event_id r.2 =? eventId)%string = true) (map_to_list (markets d))).

Lemma elem_of_event_markets eventId (d : CatalogDB F) k row :
  (k, row) ∈ event_markets eventId d ↔ markets d !! k = Some row ∧ mk_event_id row = eventId.
Proof.
  unfold event_markets. rewrite merge_sort_Permutation, list_elem_of_filter, elem_of_map_to_list, String.eqb_eq.
  cbn. tauto.
Qed.

Lemma event_markets_NoDup eventId (d : CatalogDB F) : NoDup (event_markets eventId d).*1.
Proof.
  unfold event_markets. rewrite merge_sort_Permutation.
  eapply sublist_keys; [apply sublist_filter|apply NoDup_fst_map_to_list].
Qed.

Lemma Sorted_take {A} (P : A → A → Prop) n l : Sorted P l → Sorted P (take n l).
Proof.
  intros Hl. revert n. induction Hl as [|x l Hl IH Hx]; intros [|n]; cbn; try constructor; [apply IH|].
  destruct n, Hx; cbn; by constructor.
Qed.

Lemma mapM_scan_ids (rows : list (string * MarketRow F)) ms : mapM scanMarket rows = Some ms → map m_MarketId ms = rows.*1.
Proof.
  intros Hm%mapM_Some. induction Hm as [|r m rows ms Hr _ IH]; [done|]. cbn. rewrite IH. f_equal.
  unfold scanMarket in Hr. apply bind_Some in Hr as (c&_&[= <-]). done.
Qed.

(** ListMarkets answers with the first markets of the event in the order of
    their names, each once, never more than the page size, and all of them
    when the page is not full; it reads and changes nothing. A page size of
    zero, which is what a request without one has, gets no market. *)
Theorem ListMarkets_spec eventId pageSize w w' ms :
  ListMarkets eventId pageSize w = (w', Ok ms) →
  db w' = db w ∧ 0 ≤ pageSize ∧ Z.of_nat (length ms) ≤ pageSize ∧
  NoDup (map m_MarketId ms) ∧
  (∃ rows, Sorted by_name rows ∧ mapM scanMarket rows = Some ms ∧
     ∀ k row, (k, row) ∈ rows → markets (cs_db (db w)) !! k = Some row ∧ mk_event_id row = eventId) ∧
  (Z.of_nat (length ms) < pageSize → ∀ k row,
     markets (cs_db (db w)) !! k = Some row → mk_event_id row = eventId → k ∈ map m_MarketId ms).
Proof.
  intros Hrun. revert w' ms Hrun. enough (wp (ListMarkets eventId pageSize) (λ w' r, ∀ ms, r = Ok ms →
    db w' = db w ∧ 0 ≤ pageSize ∧ mapM scanMarket
      (take (Z.to_nat pageSize) (event_markets eventId (cs_db (db w)))) = Some ms) w) as Hwp.
  { intros w' ms Hrun. unfold wp in Hwp. rewrite Hrun in Hwp. destruct (Hwp ms eq_refl) as (Hd&Hn&Hms).
    set (rows := take _ _) in Hms. pose proof (mapM_scan_ids rows ms Hms) as Hids.
    assert (length ms = length rows) as Hlen by (by rewrite <- (length_map m_MarketId), Hids, length_fmap).
    assert (rows `sublist_of` event_markets eventId (cs_db (db w))) as Hsub by apply sublist_take.
    split_and!; [done|done| | | |].
    - rewrite Hlen. unfold rows. rewrite length_take. lia.
    - rewrite Hids. eapply sublist_keys; [done|apply event_markets_NoDup].
    - exists rows. split_and!; [|done|].
      + apply Sorted_take, Sorted_merge_sort. apply _.
      + intros k row Hin. apply elem_of_event_markets. by eapply elem_of_sublist.
    - intros Hlt k row Hk He. rewrite Hids. apply list_elem_of_fmap. exists (k, row). split; [done|].
      unfold rows in *. rewrite Hlen, length_take in Hlt. rewrite take_ge by lia. by apply elem_of_event_markets. }
  unfold ListMarkets. do 3 go_step; [done|]. unfold markets_of. destruct (Z.ltb_spec pageSize 0); [done|].
  cbn beta iota. fold (event_markets eventId (cs_db (db w))).
  destruct (mapM scanMarket _) as [ms|] eqn:Hms; go_step; [|done]. intros ms' [= <-]. done.
Qed.
End Queries.

(** ** The reference pipeline and the witnesses *)

Definition set_all {V} (expires : Z) (cmds : list (string * V)) (r : RedisMap V) : RedisMap V :=
  foldl (λ r c, <[c.1 := (c.2, expires)]> r) r cmds.

Lemma set_all_lookup {V} expires (cmds : list (string * V)) (r : RedisMap V) k v e :
  set_all expires cmds r !! k = Some (v, e) →
  (k, v) ∈ cmds ∧ e = expires ∨ r !! k = Some (v, e) ∧ k ∉ cmds.*1.
Proof.
  revert r. induction cmds as [|[k' v'] cmds IH]; intros r; cbn.
  { intros Hk. right. split; [done|apply not_elem_of_nil]. }
  intros [[? ?]|[Hk Hn]]%IH; [left; split; [by right|done]|].
  destruct (decide (k' = k)) as [->|Hne].
  - rewrite lookup_insert_eq in Hk. injection Hk as -> ->. left. split; [by left|done].
  - rewrite lookup_insert_ne in Hk by done. right. split; [done|]. rewrite elem_of_cons. naive_solver.
Qed.

#[export] Instance redis_map_pipeline V : RedisPipeline V (RedisMap V).
Proof.
  refine {| redis_Pipeline cmds ttl :=
    flaky RedisConn ;;; t <- now ;; puts (set_all (t + ttl) cmds) ;;; flaky RedisConn |}.
  intros cmds ttl w. go_run; cbn; (split_and!; [done|done|]); intros t k v Hv; unfold redis_live in *.
  all: try (right; split; [done|by intros]).
  all: destruct (set_all _ _ _ !! k) as [[v' e]|] eqn:Hk; [|done].
  all: destruct (Z.ltb_spec t e); [|done]; injection Hv as ->.
  all: apply set_all_lookup in Hk as [[Hin ->]|[Hk Hn]]; [left; by split|right].
  all: rewrite Hk; destruct (Z.ltb_spec t e); [|lia]; by split.
Defined.

Section Witnesses.
#[local] Existing Instance inert_platform.
#[local] Instance service_postgres : Postgres binary64 :=
  {| numeric _ _ x := Some x; timestamptz := ParseRFC3339Nano |}.
Abbreviation ServiceState := (CatalogService binary64 (RedisMap string)).

Definition ex_market (name : string) (status : string) : MarketRow binary64 :=
  Build_MarketRow "e1" name status 0 (Some 100) 0 (Some "ML"%string) (b64_of_int 0) true.
Definition ex_service : ServiceState := Build_CatalogService
  (Build_CatalogDB ∅ ∅ ∅ (<["m1" := ex_market "B" "OPEN"]> {["m2" := ex_market "A" "OPEN"]}) ∅) ∅.
Definition ex_service_world (fs : list bool) : world ServiceState := World ex_service 0 0 fs.

Definition ex_suspended := (setMarketStatus "m1" "SUSPENDED" (ex_service_world [])).1.
Definition ex_service_history : list (Z * gmap string string) :=
  [(0, statuses (cs_db (db ex_suspended))); (0, statuses (cs_db ex_service))].

Lemma ex_service_start :
  catalog_start (ex_service_world [], [(0, statuses (cs_db ex_service))]).
Proof. split; [intros t k; reflexivity|reflexivity]. Qed.

Lemma ex_service_run : service_run (ex_service_world []) ex_suspended.
Proof.
  apply (run_status _ _ "m1" "SUSPENDED"); [|right; left|reflexivity].
  exists (ex_market "B" "OPEN"). vm_compute. reflexivity.
Qed.

Lemma status_cache_is_fresh_witness :
  ∃ t0 snap, (t0, snap) ∈ ex_service_history ∧ snap !! "m1" = Some "SUSPENDED"%string ∧ t0 ≤ 0 ∧ 1 < t0 + statusCacheTTL.
Proof.
  apply (status_cache_is_fresh (ex_service_world [], [(0, statuses (cs_db ex_service))])
    ex_suspended ex_service_history 1 "m1" "SUSPENDED").
  - apply ex_service_start.
  - apply rtc_once. exact (catalog_step_run _ _ _ ex_service_run).
  - vm_compute. reflexivity.
Defined.

(** A market nobody has heard of is opened, in the cache only. *)
Definition ex_ghost := setMarketStatus "ghost" "OPEN" (ex_service_world []).

Lemma setMarketStatus_spec_witness :
  redis_at (cs_redis (db ex_ghost.1)) 1 (statusKey "ghost") = Some "OPEN"%string ∧
  cs_db (db ex_ghost.1) = cs_db ex_service.
Proof.
  split; [vm_compute; reflexivity|].
  apply (setMarketStatus_spec "ghost" "OPEN" (ex_service_world []) ex_ghost.1 ex_ghost.2).
  - left.
  - apply surjective_pairing.
  - vm_compute. reflexivity.
Defined.

Definition ex_list := ListMarkets "e1" 2 (ex_service_world []).
Definition ex_listed : list Market := match ex_list.2 with Ok ms => ms | Err _ => [] end.

Lemma ListMarkets_spec_witness :
  map m_Name ex_listed = ["A"; "B"]%string ∧ NoDup (map m_MarketId ex_listed).
Proof.
  split; [vm_compute; reflexivity|].
  assert (ex_list = (ex_list.1, Ok ex_listed)) as Hrun by (vm_compute; reflexivity).
  destruct (ListMarkets_spec "e1" 2 (ex_service_world []) ex_list.1 ex_listed Hrun) as (_&_&_&Hnd&_).
  exact Hnd.
Defined.
End Witnesses.
