(* ===== verification/StatusInterleaving.v ===== *)
(** * The status cache under interleaving

    A transition of a market is an UPDATE and a SET, a warm-up a SELECT and a
    pipeline of SETs; time passes between the two, and others run. The bound of
    [CatalogService] then grows by the time a method takes between its calls:
    a status that is read from the cache was in the database less than the time to
    live plus that time before. In particular a warm-up that read a market
    before it was suspended opens it again in the cache. *)
From stdpp Require Import relations.
From S2P Require Export CatalogService Interleaving.
Local Open Scope Z_scope.
Local Open Scope calls_scope.

(** ** Traces

    Each call of a method leaves a record: when the method made its call before,
    the time, and what is to be remembered of the state. *)
Section Traces.
Context {D H : Type} (look : D → H).

Record Stamped : Type := Stamp { at_previous : option Z; at_now : Z; at_look : H }.
Abbreviation Traced := (D * list Stamped)%type.

Definition plain (w : world Traced) : world D := set_db (db w).1 w.
Definition stamp_call (last : option Z) (w : world Traced) (w1 : world D) : world Traced :=
  set_db (db w1, {| at_previous := last; at_now := clock w1; at_look := look (db w1) |} :: (db w).2) w1.

Fixpoint traced {E A} (last : option Z) (p : Calls D E A) : Calls Traced E A :=
  match p with
  | Return r => Return r
  | Then m k => Then (λ w, let '(w1, b) := m (plain w) in (stamp_call last w w1, (clock w1, b)))
      (λ b, traced (Some b.1) (k b.2))
  end.

(** Tracing changes nothing. *)
Lemma traced_alone {E A} last (p : Calls D E A) w :
  let run := alone (traced last p) w in
  (plain run.1, run.2) = alone p (plain w).
Proof.
  revert last w. induction p as [r|B m k IH]; intros last w; cbn; [done|].
  destruct (m (plain w)) as [w1 b]. cbn. specialize (IH b (Some (clock w1)) (stamp_call last w w1)). cbn in IH.
  rewrite IH. f_equal. by destruct w1.
Qed.
End Traces.
Arguments Stamped : clear implicits.
Arguments Stamp {H} at_previous at_now at_look.
Arguments at_previous {H} s.
Arguments at_now {H} s.
Arguments at_look {H} s.

(** ** The methods as calls *)

Section Sequences.
Context {F R : Type} `{FloatOps F} `{RedisPipeline string R}.
Abbreviation State := (CatalogService F R).

Definition updateMarketStatus (marketID newStatus : string) : Go State dberr unit :=
  gbind now (λ t, zoom service_db (exec (updateStatus marketID newStatus t))).
Definition setMarketStatus_calls (marketID newStatus : string) : Calls State string unit :=
  call (updateMarketStatus marketID newStatus) or_throw "update market status" ;;;
  call (zoom service_redis (redis_Set (statusKey marketID) newStatus marketStatusTTL)) or_throw "redis".

Definition warm_calls : Calls State string unit :=
  rows <- ccatch (call (queryRow (λ s, Some (warm_rows (cs_db s))))) ;;
  match rows with
  | Err _ => cret tt
  | Ok [] => cret tt
  | Ok cmds => ccatch (E':=string) (call (zoom service_redis (redis_Pipeline cmds statusCacheTTL))) ;;; cret tt
  end.

Lemma status_calls_alone w :
  (∀ m s, alone (setMarketStatus_calls m s) w = setMarketStatus m s w) ∧ alone warm_calls w = warm w.
Proof.
  split.
  - intros m s. unfold setMarketStatus_calls, updateMarketStatus, setMarketStatus, cmapErr, call. cbn.
    unfold gbind, mapErr, now. destruct (zoom service_db _ _) as [w1 [|]]; cbn; [|done].
    by destruct (zoom service_redis _ _) as [w2 [|]].
  - unfold warm_calls, warm. repeat (cbn beta iota zeta; alone_step).
Qed.
End Sequences.

(** ** What the calls share *)

Section Sharing.
Context {F R : Type} `{FloatOps F} `{RedisPipeline string R}.
Abbreviation State := (CatalogService F R).
Abbreviation Snapshot := (gmap string string).
Abbreviation Traced := (State * list (Stamped Snapshot))%type.
(** The markets there were at the start, and the entries of the cache then. *)
Context (listed : gset string) (initial : Z → string → option string).
Implicit Types (w : world Traced).

Abbreviation now_statuses w := (statuses (cs_db (db w).1)).
Abbreviation trace w := ((db w).2).
Abbreviation cache w := (λ t m, redis_at (cs_redis (db w).1) t (statusKey m)).

(** An entry was written at some [t1], with a status that the database had when the
    method made its call before, at [t0]. *)
Definition written w t m s : Prop := ∃ t0 t1 snap snap' prev,
  Stamp prev t0 snap ∈ trace w ∧ snap !! m = Some s ∧
  Stamp (Some t0) t1 snap' ∈ trace w ∧ t0 ≤ clock w ∧ t < t1 + statusCacheTTL.

Record status_inv w : Prop := {
  si_cache t m s : m ∈ listed → cache w t m = Some s → initial t m = Some s ∨ written w t m s;
  si_listed m : m ∈ listed → is_Some (now_statuses w !! m)
}.

Record status_rely w w' : Prop := {
  sr_clock : clock w ≤ clock w';
  sr_trace r : r ∈ trace w → r ∈ trace w'
}.

#[export] Instance status_shares : Shares Traced unit.
Proof.
  refine {| inv := status_inv; rely _ := status_rely; held _ _ := True; apart _ _ := True; nothing := () |}; try done.
  intros _ w1 w2 w3 [Hc Ht] [Hc' Ht']. split; [lia|auto].
Defined.

Lemma written_mono w w' t m s : status_rely w w' → written w t m s → written w' t m s.
Proof.
  intros [Hc Ht] (t0&t1&snap&snap'&prev&?&?&?&?&?). exists t0, t1, snap, snap', prev. split_and!; auto. lia.
Qed.

Definition look (d : State) : Snapshot := statuses (cs_db d).

(** A call of a method, from the world [w] of its start to [u]. *)
Lemma stamp_guarantees last w (u : world State) :
  status_inv w → clock u = clock w →
  (∀ m, m ∈ listed → is_Some (look (db u) !! m)) →
  (∀ t m s, m ∈ listed → redis_at (cs_redis (db u)) t (statusKey m) = Some s →
     cache w t m = Some s ∨ written (stamp_call look last w u) t m s) →
  guarantees () () w (stamp_call look last w u).
Proof.
  intros [Hcache Hl] Hc Hl1 Hw. set (w2 := stamp_call _ _ _ _) in *.
  assert (status_rely w w2) as Hr by (split; cbn; [lia|by right]).
  split; [|split; [done|]; intros o _ _; by split]. split; [|done].
  intros t m s Hm Hs. destruct (Hw t m s Hm Hs) as [Hs'|]; [|by right].
  destruct (Hcache t m s Hm Hs'); [by left|right]. by eapply written_mono.
Qed.

Lemma sound_traced {E A B} (Q : result E A → unit → world Traced → Prop) (m : world State → world State * B)
    (k : B → Calls State E A) last w :
  (∀ w1, status_rely w w1 → status_inv w1 → ∀ u b, m (plain w1) = (u, b) →
     guarantees () () w1 (stamp_call look last w1 u) ∧
     sound Q (traced look (Some (clock u)) (k b)) () (stamp_call look last w1 u)) →
  sound Q (traced look last (Then m k)) () w.
Proof.
  intros Hm w1 Hr Hi _. exists (). cbn. destruct (m (plain w1)) as [u b] eqn:Hrun. cbn. by apply Hm.
Qed.

Lemma sound_return {E A} (r : result E A) w : sound (λ _ (_ : unit) _, True) (Return r) () w.
Proof. by intros w1 _ _ _. Qed.

(** A method whose second call writes statuses that it saw at its first, at [t0]. *)
Lemma write_guarantees t0 snap prev w (u : world State) :
  status_inv w → Stamp prev t0 snap ∈ trace w → t0 ≤ clock w → clock u = clock w → cs_db (db u) = cs_db (db w).1 →
  (∀ t k v, redis_at (cs_redis (db u)) t k = Some v →
     (∃ m, k = statusKey m ∧ (m ∈ listed → snap !! m = Some v) ∧ t < clock w + statusCacheTTL) ∨
     redis_at (cs_redis (db w).1) t k = Some v) →
  guarantees () () w (stamp_call look (Some t0) w u).
Proof.
  intros Hi Hin Ht0 Hc Hd Hat. apply stamp_guarantees; [done|done| |].
  - intros m Hm. unfold look. rewrite Hd. by apply Hi.
  - intros t m s Hm Hs. destruct (Hat t _ s Hs) as [(m'&Heq%statusKey_inj&Hsnap&Ht)|?]; [right|by left]. subst m'.
    exists t0, (clock w), snap, (look (db u)), prev. split_and!; cbn; [by right|by apply Hsnap|rewrite Hc; by left|lia|done].
Qed.

Lemma set_sound m s last w :
  s ∈ ["OPEN"; "SUSPENDED"; "CLOSED"] →
  sound (λ _ _ _, True) (traced look last (setMarketStatus_calls m s)) () w.
Proof.
  intros Hs. unfold setMarketStatus_calls. apply sound_traced. intros w1 _ Hi1 u r Hrun.
  assert (clock u = clock w1 ∧ cs_redis (db u) = cs_redis (db w1).1 ∧ (∀ m, m ∈ listed → is_Some (look (db u) !! m)) ∧
    (m ∈ listed → r = Ok tt → look (db u) !! m = Some s)) as (Hc&Hr&Hl&Hok).
  { revert u r Hrun. apply wp_intro. unfold updateMarketStatus. do 4 go_step; cbn.
    - by split_and!; try apply Hi1.
    - destruct (updateStatus _ _ _ _) as [d|] eqn:Hu; cbn; [|by split_and!; try apply Hi1].
      split_and!; [done|done| |].
      + intros m' Hm'. pose proof (si_listed _ Hi1 m' Hm') as Hsome.
        unfold updateStatus in Hu. case_match; [|by simplify_eq]. case_match; [|done].
        simplify_eq. unfold look, statuses. cbn. rewrite fmap_insert, lookup_insert_is_Some'. by right.
      + intros Hm _. eapply updateStatus_statuses, Hu. pose proof (si_listed _ Hi1 m Hm) as Hsome. unfold statuses in Hsome.
        rewrite lookup_fmap in Hsome. by apply fmap_is_Some in Hsome. }
  split.
  { apply stamp_guarantees; [done|done|done|]. rewrite Hr. intros t' m' s' _. by left. }
  destruct r as [[]|e]; [|apply sound_return]. cbn [cbind cmap call]. apply sound_traced.
  intros w2 [Hc2 Ht2] Hi2 u2 r2 Hrun2. split; [|apply sound_return]. rewrite Hc.
  revert u2 r2 Hrun2. apply wp_intro. go_step. eapply wp_mono; [|apply redis_Set_law]. cbn.
  intros w3 r3 (Hc3&_&Hat). apply (write_guarantees (clock w1) (look (db u)) last); try done.
  - apply Ht2. cbn. rewrite Hc. by left.
  - cbn in Hc2. lia.
  - intros t k v Hv. apply Hat in Hv as [(->&->&Ht)|[Hv _]]; [left|by right].
    exists m. split_and!; [done|intros Hm; by apply Hok|done].
Qed.

Lemma warm_sound last w : sound (λ _ _ _, True) (traced look last warm_calls) () w.
Proof.
  unfold warm_calls. apply sound_traced. intros w1 _ Hi1 u r Hrun.
  assert (clock u = clock w1 ∧ db u = (db w1).1 ∧ (∀ cmds, r = Ok cmds → cmds = warm_rows (cs_db (db w1).1)))
    as (Hc&Hd&Hok).
  { revert u r Hrun. apply wp_intro. go_step; cbn; (split_and!; [done|done|by intros ? [=]]). }
  split.
  { apply stamp_guarantees; [done|done| |]; rewrite Hd; [apply Hi1|intros t' m' s' _; by left]. }
  destruct r as [cmds|e]; cbn [cbind cmap call ccatch]; [|apply sound_return]. specialize (Hok cmds eq_refl).
  destruct cmds as [|c cmds]; [apply sound_return|]. apply sound_traced.
  intros w2 [Hc2 Ht2] Hi2 u2 r2 Hrun2. split; [|apply sound_return]. rewrite Hc.
  revert u2 r2 Hrun2. apply wp_intro. go_step. eapply wp_mono; [|apply redis_Pipeline_law]. cbn.
  intros w3 r3 (Hc3&_&Hat). apply (write_guarantees (clock w1) (look (db u)) last); try done.
  - apply Ht2. cbn. rewrite Hc. by left.
  - cbn in Hc2. lia.
  - intros t k v Hv. apply Hat in Hv as [[Hin Ht]|[Hv _]]; [left|by right]. rewrite Hok in Hin.
    apply warm_rows_statuses in Hin as (m&->&Hm&_). exists m. split_and!; [done|by rewrite Hd|done].
Qed.

(** ** The pool *)

Inductive status_thread : Calls Traced string unit → Prop :=
| thread_transition m s : s ∈ ["OPEN"; "SUSPENDED"; "CLOSED"] →
    status_thread (traced look None (setMarketStatus_calls m s))
| thread_warm : status_thread (traced look None warm_calls).

(** Besides, the feed and others change the tables, keeping the markets; time
    passes, entries of the cache are evicted. *)
Definition status_outside w w' : Prop :=
  clock w ≤ clock w' ∧ trace w' = trace w ∧
  (∀ m, is_Some (now_statuses w !! m) → is_Some (now_statuses w' !! m)) ∧
  ∀ t k s, redis_at (cs_redis (db w').1) t k = Some s → redis_at (cs_redis (db w).1) t k = Some s.

Lemma status_outside_respects w w' : status_inv w → status_outside w w' →
  status_inv w' ∧ ∀ o : unit, True → status_rely w w'.
Proof.
  intros Hi (Hc&Ht&Hm&Hat). assert (status_rely w w') as Hr by (split; [done|by rewrite Ht]). split; [|done].
  split.
  - intros t m s Hml Hs. destruct (si_cache _ Hi t m s Hml) as [?|Hw]; [by apply Hat|by left|right].
    by eapply written_mono.
  - intros m Hl. by apply Hm, Hi.
Qed.

Lemma status_thread_sound p w : status_thread p → status_inv w → sound (λ _ _ _, True) p () w.
Proof. intros [m s Hs|] _; [by apply set_sound|apply warm_sound]. Qed.
End Sharing.

Section Lag.
Context {F R : Type} `{FloatOps F} `{RedisPipeline string R}.
Abbreviation Traced := (CatalogService F R * list (Stamped (gmap string string)))%type.
Implicit Types (w : world Traced).

(** C21. The status cache is behind by its time to live and the duration of one
    method, however transitions - of any market - warm-ups, the feed and time
    interleave: when no method lets more than [d] pass between two of its calls, a
    status of a market that was in the database at the start, read from the
    cache at [t], is one that the cache had from before, or one that the market had in
    the database at a call recorded at [t0], less than five seconds and [d] before. *)
Theorem status_cache_lags_by_a_call w0 w threads d t m s :
  is_Some (statuses (cs_db (db w0).1) !! m) → (db w0).2 = [] →
  rtc (pool_step status_thread status_outside) (w0, []) (w, threads) →
  (∀ t0 t1 snap, Stamp (Some t0) t1 snap ∈ (db w).2 → t1 ≤ t0 + d) →
  redis_at (cs_redis (db w).1) t (statusKey m) = Some s →
  redis_at (cs_redis (db w0).1) t (statusKey m) = Some s ∨
  ∃ prev t0 snap, Stamp prev t0 snap ∈ (db w).2 ∧ snap !! m = Some s ∧ t0 ≤ clock w ∧ t < t0 + statusCacheTTL + d.
Proof.
  intros Hm Htrace Hsteps Hd Hs. set (listed := dom (statuses (cs_db (db w0).1))).
  set (initial := λ t m, redis_at (cs_redis (db w0).1) t (statusKey m)).
  assert (status_inv listed initial w0) as Hi by (split; [intros t' m' s'; by left|intros m'; apply elem_of_dom]).
  destruct (pool_invariant (H:=status_shares listed initial) _ _ _ (status_thread_sound listed initial)
    (status_outside_respects listed initial) w0 (w, threads) Hi Hsteps) as [[Hw _] _].
  destruct (Hw t m s ltac:(by apply elem_of_dom) Hs) as [?|(t0&t1&snap&snap'&prev&Hin&Hsnap&Hin'&Hle&Ht)]; [by left|right].
  exists prev, t0, snap. split_and!; [done|done|done|]. specialize (Hd t0 t1 snap' Hin'). lia.
Qed.
End Lag.

(** ** A suspended market that is opened again *)

Section Examples.
#[local] Existing Instance inert_platform.
#[local] Instance status_postgres : Postgres binary64 :=
  {| numeric _ _ x := Some x; timestamptz := ParseRFC3339Nano |}.
Abbreviation TracedState := (CatalogService binary64 (RedisMap string) * list (Stamped (gmap string string)))%type.
Abbreviation StatusPool := (world TracedState * list (Calls TracedState string unit))%type.

Definition later (s : Z) (c : StatusPool) : StatusPool :=
  (World (db c.1) (clock c.1 + s * second_us) (fresh c.1) (faults c.1), c.2).

(** The warmer reads that the market is open; a second later the market is
    suspended, in the database and in the cache; after another second the
    warmer writes what it has read. *)
Definition ex_start : world TracedState := World (ex_service, []) 0 0 [].
Definition ex_threads : list (Calls TracedState string unit) :=
  [traced look None warm_calls; traced look None (setMarketStatus_calls "m1" "SUSPENDED")].
Definition ex_read_at_zero : StatusPool := run_schedule [0%nat] (ex_start, ex_threads).
Definition ex_suspended_at_one : StatusPool := run_schedule [1; 1]%nat (later 1 ex_read_at_zero).
Definition ex_warmed_at_two : StatusPool := run_schedule [0%nat] (later 1 ex_suspended_at_one).

Abbreviation status_steps := (rtc (pool_step (status_thread (F:=binary64) (R:=RedisMap string)) status_outside)).

Definition on_time {H} (d : Z) (tr : list (Stamped H)) : bool :=
  forallb (λ r, match at_previous r with Some t0 => at_now r <=? t0 + d | None => true end) tr.

Lemma on_time_spec {H} d (tr : list (Stamped H)) :
  on_time d tr = true → ∀ t0 t1 snap, Stamp (Some t0) t1 snap ∈ tr → t1 ≤ t0 + d.
Proof.
  unfold on_time. rewrite forallb_forall. intros Hall t0 t1 snap Hin%list_elem_of_In.
  specialize (Hall _ Hin). cbn in Hall. by apply Z.leb_le.
Qed.

Lemma later_step c s : 0 ≤ s → status_steps c (later s c).
Proof.
  destruct c as [w ps]. intros Hs. apply rtc_once. apply pool_outside. unfold status_outside. cbn.
  split; [unfold second_us; lia|]. split; [reflexivity|]. split; [intros m Hm; exact Hm|intros t k v Hv; exact Hv].
Qed.

Lemma ex_arrival : status_steps (ex_start, []) (ex_start, ex_threads).
Proof.
  apply arrivals_steps. constructor; [apply thread_warm|]. constructor; [|constructor].
  apply thread_transition. right; left.
Qed.

Lemma ex_first_second : status_steps (ex_start, []) (later 1 ex_read_at_zero).
Proof.
  refine (rtc_trans _ _ _ ex_arrival (rtc_trans _ _ _ (run_schedule_steps _ _ [0%nat] _) _)).
  apply later_step. discriminate.
Qed.

Lemma ex_status_steps : status_steps (ex_start, []) ex_warmed_at_two.
Proof.
  refine (rtc_trans _ _ _ ex_first_second (rtc_trans _ _ _ (run_schedule_steps _ _ [1; 1]%nat _) _)).
  refine (rtc_trans _ _ _ _ (run_schedule_steps _ _ [0%nat] _)). apply later_step. discriminate.
Qed.

(** SuspendMarket has returned without an error, and a second later bet placement
    reads that the market is open. *)
Lemma suspended_market_is_open_again :
  ex_suspended_at_one.2 !! 1%nat = Some (Return (Ok tt)) ∧
  redis_at (cs_redis (db ex_suspended_at_one.1).1) (clock ex_suspended_at_one.1) (statusKey "m1") = Some "SUSPENDED"%string ∧
  statuses (cs_db (db ex_warmed_at_two.1).1) !! "m1" = Some "SUSPENDED"%string ∧
  redis_at (cs_redis (db ex_warmed_at_two.1).1) (6 * second_us) (statusKey "m1") = Some "OPEN"%string.
Proof. split_and!; vm_compute; reflexivity. Qed.

Lemma status_cache_lags_by_a_call_witness :
  redis_at (cs_redis (db ex_warmed_at_two.1).1) (6 * second_us) (statusKey "m1") = Some "OPEN"%string ∧
  ∃ prev t0 snap, Stamp prev t0 snap ∈ (db ex_warmed_at_two.1).2 ∧ snap !! "m1" = Some "OPEN"%string ∧
    t0 ≤ clock ex_warmed_at_two.1 ∧ 6 * second_us < t0 + statusCacheTTL + 2 * second_us.
Proof.
  split; [vm_compute; reflexivity|].
  destruct (status_cache_lags_by_a_call ex_start ex_warmed_at_two.1 ex_warmed_at_two.2 (2 * second_us)
    (6 * second_us) "m1" "OPEN") as [Hold|Hnew].
  - eexists. vm_compute. reflexivity.
  - reflexivity.
  - rewrite <- surjective_pairing. exact ex_status_steps.
  - apply on_time_spec. vm_compute. reflexivity.
  - vm_compute. reflexivity.
  - discriminate Hold.
  - exact Hnew.
Defined.
End Examples.
