(* ===== verification/Broadcaster.v ===== *)
(** * The WebSocket hub ([internal/catalog/broadcaster.go], [odds_consumer.go])

    The hub as a concurrent system: the map of registered clients under its
    lock, one buffered channel per client, and the goroutines that run
    [Broadcast], [writePump] and [RemoveClient], interleaved at every point
    where the code holds no lock. The theorems: buffers never exceed 64, no
    channel is closed twice, a broadcast never blocks; and the one thing that
    does go wrong, a send to a client removed after the snapshot. *)
From S2P Require Export Catalog.
Local Open Scope Z_scope.
Local Open Scope go_scope.

(** ** The consumer of odds updates *)

Section OddsConsumer.
Context {F B : Type} `{FloatOps F} `{BroadcasterApi F B}.

Definition decodeOddsUpdate (kvs : list (string * json F)) : option (string * string * F * Z) :=
  m ← jstring "market_id" kvs;
  s ← jstring "selection_id" kvs;
  d ← jfloat "decimal" kvs;
  a ← jint "american" kvs;
  Some (m, s, d, a).

Definition oddsUpdateMsg (marketID selectionID : string) (decimal : F) (american : Z) : json F := JObj [
  ("type", JStr "odds_update"); ("market_id", JStr marketID);
  ("selections", JArr [JObj [("selection_id", JStr selectionID); ("odds_decimal", JNum decimal);
                             ("odds_american", JInt american)]])].

(** One turn of the loop; every message is marked, whatever happened to it. *)
Definition handleOddsUpdate (msg : ConsumerMessage F) : Go B string unit :=
  match Unmarshal decodeOddsUpdate (Value (cm msg)) with
  | None => ret tt
  | Some (m, s, d, a) =>
      n <- gets ClientCount ;;
      if n =? 0 then ret tt else
      match Marshal (oddsUpdateMsg m s d a) with
      | None => ret tt
      | Some data => puts (Broadcast data)
      end
  end.

Definition oddsWSConsumeClaim (msgs : list (ConsumerMessage F)) : Go B string (list Z) :=
  ConsumeClaim handleOddsUpdate msgs.
End OddsConsumer.

(** ** The hub *)

Section Hub.
Context {M : Type}.

Definition clientSendBuf : nat := 64.

(** A connection is identified by its pointer, a channel by its own. *)
Abbreviation Conn := nat.
Abbreviation ChanId := nat.

Record Chan : Type := { buffer : list M; is_closed : bool }.

(** Where a goroutine is. *)
Inductive Thread : Type :=
| TBroadcast (msg : M) (rest : list (Conn * ChanId))   (** the loop of Broadcast, after its snapshot *)
| TPump (conn : Conn) (ch : ChanId)                    (** writePump, before its next receive *)
| TRemove (conn : Conn)                                (** RemoveClient, before the lock *)
| TClose (ch : ChanId).                                (** RemoveClient, after the lock, before close *)

Record Hub : Type := {
  clients : gmap Conn ChanId;
  chans : gmap ChanId Chan;
  threads : list Thread;
  panicked : bool
}.

Definition push_msg (m : M) (c : Chan) : Chan := {| buffer := buffer c ++ [m]; is_closed := is_closed c |}.
Definition close_chan (c : Chan) : Chan := {| buffer := buffer c; is_closed := true |}.

(** What a step does to a connection: it is registered, a broadcast begins, a
    message is queued for it or written to it, its removal is asked for. *)
Inductive HubEvent : Type :=
| EvAdd (conn : Conn) (ch : ChanId)
| EvBroadcast (msg : M)
| EvQueue (conn : Conn) (msg : M)
| EvWrite (conn : Conn) (msg : M)
| EvDisconnect (conn : Conn)
| EvSilent.

(** The thread in the middle of [threads] moves. *)
Inductive hub_step (h : Hub) : HubEvent → Hub → Prop :=
(** A new connection: [AddClient] registers it and starts its [writePump]. *)
| hub_add conn ch :
    clients h !! conn = None → chans h !! ch = None →
    hub_step h (EvAdd conn ch) {| clients := <[conn := ch]> (clients h);
                  chans := <[ch := {| buffer := []; is_closed := false |}]> (chans h);
                  threads := TPump conn ch :: threads h; panicked := panicked h |}
(** [Broadcast] copies the clients under the lock, in the map's order. *)
| hub_broadcast msg snapshot :
    snapshot ≡ₚ map_to_list (clients h) →
    hub_step h (EvBroadcast msg) {| clients := clients h; chans := chans h; threads := TBroadcast msg snapshot :: threads h;
                  panicked := panicked h |}
| hub_broadcast_done msg ts1 ts2 :
    threads h = ts1 ++ TBroadcast msg [] :: ts2 →
    hub_step h EvSilent {| clients := clients h; chans := chans h; threads := ts1 ++ ts2; panicked := panicked h |}
(** [select { case c.send <- msg: default: go b.RemoveClient(c.conn) }]. *)
| hub_send msg conn ch c rest ts1 ts2 :
    threads h = ts1 ++ TBroadcast msg ((conn, ch) :: rest) :: ts2 → chans h !! ch = Some c →
    is_closed c = false → (length (buffer c) < clientSendBuf)%nat →
    hub_step h (EvQueue conn msg) {| clients := clients h; chans := <[ch := push_msg msg c]> (chans h);
                  threads := ts1 ++ TBroadcast msg rest :: ts2; panicked := panicked h |}
| hub_slow msg conn ch c rest ts1 ts2 :
    threads h = ts1 ++ TBroadcast msg ((conn, ch) :: rest) :: ts2 → chans h !! ch = Some c →
    is_closed c = false → (clientSendBuf ≤ length (buffer c))%nat →
    hub_step h EvSilent {| clients := clients h; chans := chans h;
                  threads := ts1 ++ TRemove conn :: TBroadcast msg rest :: ts2; panicked := panicked h |}
| hub_send_closed msg conn ch c rest ts1 ts2 :
    threads h = ts1 ++ TBroadcast msg ((conn, ch) :: rest) :: ts2 → chans h !! ch = Some c →
    is_closed c = true →
    hub_step h EvSilent {| clients := clients h; chans := chans h; threads := threads h; panicked := true |}
(** [writePump] writes a message, fails to write it, or finds the channel closed
    and drained; it leaves through [RemoveClient]. *)
| hub_write conn ch c m ms ts1 ts2 :
    threads h = ts1 ++ TPump conn ch :: ts2 → chans h !! ch = Some c → buffer c = m :: ms →
    hub_step h (EvWrite conn m) {| clients := clients h; chans := <[ch := {| buffer := ms; is_closed := is_closed c |}]> (chans h);
                  threads := ts1 ++ TPump conn ch :: ts2; panicked := panicked h |}
| hub_write_fails conn ch c m ms ts1 ts2 :
    threads h = ts1 ++ TPump conn ch :: ts2 → chans h !! ch = Some c → buffer c = m :: ms →
    hub_step h EvSilent {| clients := clients h; chans := <[ch := {| buffer := ms; is_closed := is_closed c |}]> (chans h);
                  threads := ts1 ++ TRemove conn :: ts2; panicked := panicked h |}
| hub_drained conn ch c ts1 ts2 :
    threads h = ts1 ++ TPump conn ch :: ts2 → chans h !! ch = Some c → buffer c = [] → is_closed c = true →
    hub_step h EvSilent {| clients := clients h; chans := chans h; threads := ts1 ++ TRemove conn :: ts2;
                  panicked := panicked h |}
(** The read loop of the handler ends: it calls [RemoveClient]. *)
| hub_disconnect conn :
    hub_step h (EvDisconnect conn) {| clients := clients h; chans := chans h; threads := TRemove conn :: threads h;
                  panicked := panicked h |}
(** [RemoveClient], under the lock, then its [close]. *)
| hub_remove conn ch ts1 ts2 :
    threads h = ts1 ++ TRemove conn :: ts2 → clients h !! conn = Some ch →
    hub_step h EvSilent {| clients := delete conn (clients h); chans := chans h; threads := ts1 ++ TClose ch :: ts2;
                  panicked := panicked h |}
| hub_removed_before conn ts1 ts2 :
    threads h = ts1 ++ TRemove conn :: ts2 → clients h !! conn = None →
    hub_step h EvSilent {| clients := clients h; chans := chans h; threads := ts1 ++ ts2; panicked := panicked h |}
| hub_close ch c ts1 ts2 :
    threads h = ts1 ++ TClose ch :: ts2 → chans h !! ch = Some c → is_closed c = false →
    hub_step h EvSilent {| clients := clients h; chans := <[ch := close_chan c]> (chans h); threads := ts1 ++ ts2;
                  panicked := panicked h |}
| hub_close_closed ch c ts1 ts2 :
    threads h = ts1 ++ TClose ch :: ts2 → chans h !! ch = Some c → is_closed c = true →
    hub_step h EvSilent {| clients := clients h; chans := chans h; threads := threads h; panicked := true |}.

Definition NewBroadcaster : Hub := {| clients := ∅; chans := ∅; threads := []; panicked := false |}.

(** [ClientCount]. *)
Definition hub_ClientCount (h : Hub) : nat := size (clients h).

(** ** Invariant *)

(** The channels a thread may still use. *)
Definition uses (t : Thread) : list ChanId :=
  match t with
  | TBroadcast _ rest => rest.*2
  | TPump _ ch => [ch]
  | TRemove _ => []
  | TClose ch => [ch]
  end.
Definition closing (t : Thread) : list ChanId := match t with TClose ch => [ch] | _ => [] end.

Definition closings (ts : list Thread) : list ChanId := concat (map closing ts).

Record hub_ok (h : Hub) : Prop := {
  ok_buffers : ∀ ch c, chans h !! ch = Some c → (length (buffer c) ≤ clientSendBuf)%nat;
  ok_registered : ∀ conn ch, clients h !! conn = Some ch →
    (∃ c, chans h !! ch = Some c ∧ is_closed c = false) ∧ ch ∉ closings (threads h);
  ok_distinct : ∀ conn1 conn2 ch, clients h !! conn1 = Some ch → clients h !! conn2 = Some ch → conn1 = conn2;
  ok_closing : NoDup (closings (threads h));
  ok_closing_open : ∀ ch, ch ∈ closings (threads h) →
    ∃ c, chans h !! ch = Some c ∧ is_closed c = false;
  ok_used : ∀ t ch, t ∈ threads h → ch ∈ uses t → is_Some (chans h !! ch)
}.

(** A process that has panicked does nothing more. *)
Definition hub_exec (h h' : Hub) : Prop := panicked h = false ∧ ∃ e, hub_step h e h'.

Lemma closings_middle ts1 t ts2 : closings (ts1 ++ t :: ts2) ≡ₚ closing t ++ closings (ts1 ++ ts2).
Proof.
  unfold closings. rewrite !map_app, !concat_app. cbn. rewrite !app_assoc.
  by rewrite (Permutation_app_comm (concat (map closing ts1)) (closing t)).
Qed.

Lemma hub_ok_threads h ts b :
  hub_ok h → closings ts ≡ₚ closings (threads h) →
  (∀ t ch, t ∈ ts → ch ∈ uses t → is_Some (chans h !! ch)) →
  hub_ok {| clients := clients h; chans := chans h; threads := ts; panicked := b |}.
Proof.
  intros [Hb Hr Hd Hc Ho Hu] Hts Huse. split; cbn; [done| |done| | |done].
  - intros conn ch Hin. rewrite Hts. by eapply Hr.
  - by rewrite Hts.
  - intros ch. rewrite Hts. apply Ho.
Qed.

Lemma hub_ok_chan h ch c c' :
  hub_ok h → chans h !! ch = Some c → is_closed c' = is_closed c → (length (buffer c') ≤ clientSendBuf)%nat →
  hub_ok {| clients := clients h; chans := <[ch := c']> (chans h); threads := threads h; panicked := panicked h |}.
Proof.
  intros [Hb Hr Hd Hc Ho Hu] Hch Hcl Hlen.
  assert (∀ k, (∃ c0, chans h !! k = Some c0 ∧ is_closed c0 = false) →
    ∃ c0, <[ch := c']> (chans h) !! k = Some c0 ∧ is_closed c0 = false) as Hopen.
  { intros k (c0&Hk&Hc0). destruct (decide (ch = k)) as [<-|Hne].
    - exists c'. rewrite lookup_insert_eq. split; [done|]. congruence.
    - exists c0. by rewrite lookup_insert_ne. }
  split; cbn; [|..|done|done| |].
  - intros k c0. destruct (decide (ch = k)) as [<-|Hne]; [rewrite lookup_insert_eq; by intros [= <-]|].
    rewrite lookup_insert_ne by done. apply Hb.
  - intros conn k Hk. destruct (Hr conn k Hk) as [Hex Hn]. split; [by apply Hopen|done].
  - intros k Hk. by apply Hopen, Ho.
  - intros t k Ht Hk. apply lookup_insert_is_Some'. right. by eapply Hu.
Qed.

Lemma hub_ok_panic h : hub_ok h → hub_ok {| clients := clients h; chans := chans h; threads := threads h; panicked := true |}.
Proof. intros Hok. apply hub_ok_threads; [done|done|apply Hok]. Qed.

(** A middle thread replaced by threads that use no more channels. *)
Lemma uses_replace h ts1 t new ts2 :
  hub_ok h → threads h = ts1 ++ t :: ts2 → (∀ n ch, n ∈ new → ch ∈ uses n → ch ∈ uses t) →
  ∀ n ch, n ∈ ts1 ++ new ++ ts2 → ch ∈ uses n → is_Some (chans h !! ch).
Proof.
  intros Hok Hts Hnew n ch Hn Hch. pose proof (ok_used h Hok) as Hu. rewrite Hts in Hu.
  rewrite !elem_of_app in Hn. destruct Hn as [Hn|[Hn|Hn]].
  - apply (Hu n); [rewrite elem_of_app; auto|done].
  - apply (Hu t); [rewrite elem_of_app, elem_of_cons; auto|by eapply Hnew].
  - apply (Hu n); [rewrite elem_of_app, elem_of_cons; auto|done].
Qed.

Lemma hub_ok_replace h ts1 t new ts2 :
  hub_ok h → threads h = ts1 ++ t :: ts2 → closing t = [] → closings new = [] →
  (∀ n ch, n ∈ new → ch ∈ uses n → ch ∈ uses t) →
  hub_ok {| clients := clients h; chans := chans h; threads := ts1 ++ new ++ ts2; panicked := panicked h |}.
Proof.
  intros Hok Hts Ht Hnew Huse. apply hub_ok_threads; [done| |].
  - rewrite Hts, closings_middle, Ht. unfold closings in *. rewrite !map_app, !concat_app, Hnew. done.
  - by eapply uses_replace.
Qed.

Lemma hub_ok_add h conn ch :
  hub_ok h → chans h !! ch = None →
  hub_ok {| clients := <[conn := ch]> (clients h); chans := <[ch := {| buffer := []; is_closed := false |}]> (chans h);
            threads := TPump conn ch :: threads h; panicked := panicked h |}.
Proof.
  intros Hok Hch.
  destruct Hok as [Hb Hr Hd Hc Ho Hu].
  assert (ch ∉ closings (threads h)) as Hnew by (intros Hin; destruct (Ho ch Hin) as (?&?&_); congruence).
  split; cbn.
  + intros k c0 [[<- <-]|[Hne Hk]]%lookup_insert_Some; [cbn; unfold clientSendBuf; lia|by eapply Hb].
  + intros k k' [[<- <-]|[Hne Hk]]%lookup_insert_Some.
    * split; [|done]. eexists. by rewrite lookup_insert_eq.
    * destruct (Hr k k' Hk) as [(c0&Hc0&Hcl) Hn]. split; [|done]. exists c0.
      rewrite lookup_insert_ne by congruence. done.
  + intros k1 k2 k' Hk1 Hk2. apply lookup_insert_Some in Hk1 as [[<- Hk1]|[Hne1 Hk1]], Hk2 as [[<- Hk2]|[Hne2 Hk2]];
      [done| | |by eapply Hd]; exfalso; subst.
    * destruct (Hr _ _ Hk2) as [(?&?&_) _]. congruence.
    * destruct (Hr _ _ Hk1) as [(?&?&_) _]. congruence.
  + done.
  + intros k Hk. destruct (Ho k Hk) as (c0&Hc0&Hcl). exists c0. rewrite lookup_insert_ne by congruence. done.
  + intros t k Ht Hk. apply lookup_insert_is_Some'. apply elem_of_cons in Ht as [->|Ht]; [|right; by eapply Hu].
    cbn in Hk. apply list_elem_of_singleton in Hk. by left.
Qed.

Lemma hub_ok_remove h conn ch ts1 ts2 :
  hub_ok h → threads h = ts1 ++ TRemove conn :: ts2 → clients h !! conn = Some ch →
  hub_ok {| clients := delete conn (clients h); chans := chans h; threads := ts1 ++ TClose ch :: ts2;
            panicked := panicked h |}.
Proof.
  intros Hok Hts Hconn.
  destruct Hok as [Hb Hr Hd Hc Ho Hu]. destruct (Hr conn ch Hconn) as [Hopen Hn]. rewrite Hts in *.
  rewrite closings_middle in *. cbn in *.
  assert (closings (ts1 ++ TClose ch :: ts2) ≡ₚ ch :: closings (ts1 ++ ts2)) as Hcl by apply closings_middle.
  split; cbn; [done|..].
  + intros k k' [Hne Hk]%lookup_delete_Some. destruct (Hr k k' Hk) as [? Hk']. split; [done|].
    rewrite closings_middle in Hk'. rewrite Hcl, elem_of_cons. intros [->|?]; [|done]. apply Hne. by eapply Hd.
  + intros k1 k2 k' [_ ?]%lookup_delete_Some [_ ?]%lookup_delete_Some. by eapply Hd.
  + rewrite Hcl. by constructor.
  + intros k. rewrite Hcl, elem_of_cons. intros [->|Hk]; [done|]. apply Ho. by rewrite closings_middle.
  + intros t k Ht Hk. rewrite elem_of_app, elem_of_cons in Ht. destruct Ht as [Ht|[->|Ht]].
    * eapply Hu; [|done]. rewrite elem_of_app. by left.
    * cbn in Hk. apply list_elem_of_singleton in Hk as ->. destruct Hopen as (c0&Hc0&_). by eexists.
    * eapply Hu; [|done]. rewrite elem_of_app, elem_of_cons. auto.
Qed.

Lemma hub_ok_close h ch c ts1 ts2 :
  hub_ok h → threads h = ts1 ++ TClose ch :: ts2 → chans h !! ch = Some c → is_closed c = false →
  hub_ok {| clients := clients h; chans := <[ch := close_chan c]> (chans h); threads := ts1 ++ ts2;
            panicked := panicked h |}.
Proof.
  intros Hok Hts Hch Hcl.
  destruct Hok as [Hb Hr Hd Hc Ho Hu]. rewrite Hts in *. rewrite closings_middle in *. cbn in *.
  apply NoDup_cons in Hc as [Hn Hc]. split; cbn.
  + intros k c0 [[<- <-]|[Hne Hk]]%lookup_insert_Some; [exact (Hb ch c Hch)|by eapply Hb].
  + intros k k' Hk. destruct (Hr k k' Hk) as [(c0&Hc0&Hcl0) Hk']. rewrite closings_middle in Hk'. cbn in Hk'.
    apply not_elem_of_cons in Hk' as [Hne Hk']. split; [|done]. exists c0. by rewrite lookup_insert_ne.
  + done.
  + done.
  + intros k Hk. destruct (Ho k) as (c0&Hc0&Hcl0); [rewrite closings_middle; by right|].
    exists c0. rewrite lookup_insert_ne; [done|]. by intros <-.
  + intros t k Ht Hk. apply lookup_insert_is_Some'. right. eapply Hu; [|done].
    rewrite elem_of_app in *. rewrite elem_of_cons. tauto.
Qed.

Lemma hub_step_ok h e h' : hub_ok h → hub_step h e h' → hub_ok h'.
Proof.
  intros Hok Hstep. destruct Hstep as
    [conn ch Hconn Hch|msg snap Hsnap|msg ts1 ts2 Hts|msg conn ch c rest ts1 ts2 Hts Hch Hcl Hlen
    |msg conn ch c rest ts1 ts2 Hts Hch Hcl Hlen|msg conn ch c rest ts1 ts2 Hts Hch Hcl
    |conn ch c m ms ts1 ts2 Hts Hch Hbuf|conn ch c m ms ts1 ts2 Hts Hch Hbuf|conn ch c ts1 ts2 Hts Hch Hbuf Hcl
    |conn|conn ch ts1 ts2 Hts Hconn|conn ts1 ts2 Hts Hconn|ch c ts1 ts2 Hts Hch Hcl|ch c ts1 ts2 Hts Hch Hcl].
  - by apply hub_ok_add.
  - (* broadcast *) apply hub_ok_threads; [done|done|]. intros t k Ht Hk.
    apply elem_of_cons in Ht as [->|Ht]; [|by eapply (ok_used h Hok)]. cbn in Hk.
    rewrite Hsnap in Hk. apply list_elem_of_fmap in Hk as ([conn k']&->&Hin). apply elem_of_map_to_list in Hin.
    destruct (ok_registered h Hok conn k' Hin) as [(c0&Hc0&_) _]. by eexists.
  - apply (hub_ok_replace h ts1 _ [] ts2 Hok Hts); [done|done|by intros ? ? ?%elem_of_nil].
  - (* send *) apply (hub_ok_replace _ ts1 _ [TBroadcast msg rest] ts2
      (hub_ok_chan h ch c _ Hok Hch (eq_refl : is_closed (push_msg msg c) = _) ltac:(cbn; rewrite ?length_app; cbn; lia)) Hts); [done|done|].
    intros n k Hn. apply list_elem_of_singleton in Hn as ->. cbn. by right.
  - (* slow *) apply (hub_ok_replace _ ts1 _ [TRemove conn; TBroadcast msg rest] ts2 Hok Hts); [done|done|].
    intros n k Hn. rewrite !elem_of_cons, elem_of_nil in Hn. destruct Hn as [->|[->|[]]]; cbn; [by intros ?%elem_of_nil|by right].
  - by apply hub_ok_panic.
  - (* write *) apply (hub_ok_replace _ ts1 _ [TPump conn ch] ts2
      (hub_ok_chan h ch c {| buffer := ms; is_closed := is_closed c |} Hok Hch eq_refl
        ltac:(pose proof (ok_buffers h Hok ch c Hch) as Hl; rewrite Hbuf in Hl; cbn in *; lia)) Hts); [done|done|].
    intros n k Hn. by apply list_elem_of_singleton in Hn as ->.
  - apply (hub_ok_replace _ ts1 _ [TRemove conn] ts2
      (hub_ok_chan h ch c {| buffer := ms; is_closed := is_closed c |} Hok Hch eq_refl
        ltac:(pose proof (ok_buffers h Hok ch c Hch) as Hl; rewrite Hbuf in Hl; cbn in *; lia)) Hts); [done|done|].
    intros n k Hn. apply list_elem_of_singleton in Hn as ->. by intros ?%elem_of_nil.
  - apply (hub_ok_replace _ ts1 _ [TRemove conn] ts2 Hok Hts); [done|done|].
    intros n k Hn. apply list_elem_of_singleton in Hn as ->. by intros ?%elem_of_nil.
  - apply hub_ok_threads; [done|done|]. intros t k Ht Hk. apply elem_of_cons in Ht as [->|Ht];
      [by apply elem_of_nil in Hk|by eapply (ok_used h Hok)].
  - by eapply hub_ok_remove.
  - apply (hub_ok_replace h ts1 _ [] ts2 Hok Hts); [done|done|by intros ? ? ?%elem_of_nil].
  - by eapply hub_ok_close.
  - by apply hub_ok_panic.
Qed.

Lemma hub_start_ok : hub_ok NewBroadcaster.
Proof.
  split; cbn; try done.
  - apply NoDup_nil_2.
  - intros ch Hin. by apply not_elem_of_nil in Hin.
  - intros t ch Hin. by apply not_elem_of_nil in Hin.
Qed.

Lemma hub_reachable_ok h : rtc hub_exec NewBroadcaster h → hub_ok h.
Proof.
  enough (∀ h0, hub_ok h0 → rtc hub_exec h0 h → hub_ok h) as Hrun by (apply Hrun, hub_start_ok).
  intros h0 Hok Hr. induction Hr as [|h0 h1 h2 [_ [e Hstep]] _ IH]; [done|]. apply IH. by eapply hub_step_ok.
Qed.

(** C26. In every state the hub can reach, whatever the interleaving of its
    goroutines: no buffer holds more than 64 messages; the channel of a
    registered client is open; a channel about to be closed is open, so none is
    closed twice; the loop of a broadcast can always go on, it never waits for
    a client; and a panic can come only from a broadcast whose snapshot holds a
    client that has been removed and whose channel is closed since. *)
Theorem hub_safe h :
  rtc hub_exec NewBroadcaster h →
  (∀ ch c, chans h !! ch = Some c → (length (buffer c) ≤ 64)%nat) ∧
  (∀ conn ch, clients h !! conn = Some ch → ∃ c, chans h !! ch = Some c ∧ is_closed c = false) ∧
  (∀ ch, TClose ch ∈ threads h → ∃ c, chans h !! ch = Some c ∧ is_closed c = false) ∧
  (∀ msg rest ts1 ts2, threads h = ts1 ++ TBroadcast msg rest :: ts2 → ∃ e h', hub_step h e h' ∧
     match rest with
     | [] => threads h' = ts1 ++ ts2
     | _ :: rest' => panicked h' = true ∨ ∃ new, threads h' = ts1 ++ new ++ TBroadcast msg rest' :: ts2
     end) ∧
  (∀ h', hub_exec h h' → panicked h' = true →
     ∃ msg conn ch c rest, TBroadcast msg ((conn, ch) :: rest) ∈ threads h ∧ chans h !! ch = Some c ∧
       is_closed c = true ∧ ∀ conn', clients h !! conn' ≠ Some ch).
Proof.
  intros Hok%hub_reachable_ok. split_and!.
  - apply Hok.
  - intros conn ch Hin. by apply (ok_registered h Hok conn ch).
  - intros ch Hin. apply (ok_closing_open h Hok). unfold closings. apply list_elem_of_In, in_concat.
    exists [ch]. split; [apply in_map_iff; exists (TClose ch); by rewrite <- list_elem_of_In|by left].
  - intros msg rest ts1 ts2 Hts. destruct rest as [|[conn ch] rest].
    + eexists _, _. split; [by eapply hub_broadcast_done|done].
    + destruct (ok_used h Hok (TBroadcast msg ((conn, ch) :: rest)) ch) as [c Hch];
        [rewrite Hts, elem_of_app; right; by left|by left|].
      destruct (is_closed c) eqn:Hcl; [|destruct (decide (length (buffer c) < clientSendBuf)%nat)].
      * eexists _, _. split; [by eapply hub_send_closed|by left].
      * eexists _, _. split; [by eapply hub_send|]. right. by exists [].
      * eexists _, _. split; [eapply hub_slow; [done|done|done|lia]|]. right. by exists [TRemove conn].
  - intros h' [Hp [e Hstep]] Hpan. destruct Hstep; cbn in Hpan; try congruence.
    + exists msg, conn, ch, c, rest. split_and!; [|done|done|].
      * match goal with Hts : threads h = _ |- _ => rewrite Hts end. rewrite elem_of_app. right. by left.
      * intros conn' Hin. destruct (ok_registered h Hok conn' ch Hin) as [(c'&Hc'&Hcl') _]. congruence.
    + destruct (ok_closing_open h Hok ch) as (c'&Hc'&Hcl'); [|congruence].
      match goal with Hts : threads h = _ |- _ => rewrite Hts end. rewrite closings_middle. by left.
Qed.
End Hub.
Arguments Chan : clear implicits.
Arguments Thread : clear implicits.
Arguments HubEvent : clear implicits.
Arguments Hub : clear implicits.

(** A broadcast can bring the process down: a client is added, a broadcast
    takes its snapshot, the client disconnects and is removed, and the
    broadcast sends on the closed channel. *)
Theorem broadcast_can_panic : ∃ h : Hub string, rtc hub_exec NewBroadcaster h ∧ panicked h = true.
Proof.
  eexists. split.
  - eapply rtc_l; [split; [done|eexists; apply (hub_add _ 0%nat 0%nat); reflexivity]|].
    eapply rtc_l; [split; [done|eexists; apply (hub_broadcast _ "hello" [(0%nat, 0%nat)]); vm_compute; reflexivity]|].
    eapply rtc_l; [split; [done|eexists; apply (hub_disconnect _ 0%nat)]|].
    eapply rtc_l; [split; [done|eexists; apply (hub_remove _ 0%nat 0%nat []
      [TBroadcast "hello" [(0%nat, 0%nat)]; TPump 0%nat 0%nat]); vm_compute; reflexivity]|].
    eapply rtc_l; [split; [done|eexists; apply (hub_close _ 0%nat {| buffer := []; is_closed := false |} []
      [TBroadcast "hello" [(0%nat, 0%nat)]; TPump 0%nat 0%nat]); vm_compute; reflexivity]|].
    eapply rtc_l; [split; [done|eexists; apply (hub_send_closed _ "hello" 0%nat 0%nat {| buffer := []; is_closed := true |} []
      [] [TPump 0%nat 0%nat]); vm_compute; reflexivity]|].
    apply rtc_refl.
  - reflexivity.
Qed.

(** One client with a message on its way: a reachable state of the hub. *)
Definition ex_hub_state : Hub string := {|
  clients := {[0%nat := 0%nat]}; chans := {[0%nat := {| buffer := []; is_closed := false |}]};
  threads := [TBroadcast "hello" [(0%nat, 0%nat)]; TPump 0%nat 0%nat]; panicked := false |}.

Lemma ex_hub_reachable : rtc hub_exec NewBroadcaster ex_hub_state.
Proof.
  eapply rtc_l; [split; [done|eexists; apply (hub_add _ 0%nat 0%nat); reflexivity]|].
  eapply rtc_l; [split; [done|eexists; apply (hub_broadcast _ "hello" [(0%nat, 0%nat)]); vm_compute; reflexivity]|].
  apply rtc_refl.
Qed.

Lemma hub_safe_witness :
  ∃ c, chans ex_hub_state !! 0%nat = Some c ∧ is_closed c = false.
Proof.
  destruct (hub_safe ex_hub_state ex_hub_reachable) as (_&Hreg&_).
  apply (Hreg 0%nat 0%nat). reflexivity.
Defined.
