(* ===== verification/GoText.v ===== *)
(** * More of Go's [strings] and [strconv]

    The text functions the feeds use, with the lemmas that compose them:
    [SplitN(s, sep, 2)] and [Index] as [cut], [LastIndex] as [cut_last],
    [TrimPrefix], [TrimSuffix], [TrimLeft], [TrimSpace] (its ASCII part), and
    [Atoi] with its error ignored. *)
From S2P Require Export GoTime.
From Stdlib Require Import Ascii.
Local Open Scope Z_scope.

(** What is before and after the first [sep]. *)
Fixpoint cut (sep : ascii) (s : string) : option (string * string) :=
  match s with
  | EmptyString => None
  | String c s => if Ascii.eqb c sep then Some (EmptyString, s)
                  else '(a, b) ← cut sep s; Some (String c a, b)
  end.

(** What is before and after the last [sep]. *)
Fixpoint cut_last (sep : ascii) (s : string) : option (string * string) :=
  match s with
  | EmptyString => None
  | String c s => match cut_last sep s with
                  | Some (a, b) => Some (String c a, b)
                  | None => if Ascii.eqb c sep then Some (EmptyString, s) else None
                  end
  end.

Fixpoint str_strip_prefix (p s : string) : option string :=
  match p, s with
  | EmptyString, _ => Some s
  | String a p, String b s => if Ascii.eqb a b then str_strip_prefix p s else None
  | String _ _, EmptyString => None
  end.
Definition HasPrefix (s p : string) : bool := bool_decide (is_Some (str_strip_prefix p s)).
Definition TrimPrefix (s p : string) : string := default s (str_strip_prefix p s).

Fixpoint str_strip_suffix (p s : string) : option string :=
  if (s =? p)%string then Some EmptyString else
  match s with
  | EmptyString => None
  | String c s => String c <$> str_strip_suffix p s
  end.
Definition TrimSuffix (s p : string) : string := default s (str_strip_suffix p s).

Fixpoint TrimLeft (cutset : ascii) (s : string) : string :=
  match s with
  | String c s' => if Ascii.eqb c cutset then TrimLeft cutset s' else s
  | EmptyString => EmptyString
  end.

Definition asciiSpace (c : ascii) : bool :=
  let n := N_of_ascii c in ((9 <=? n) && (n <=? 13) || (n =? 32))%N.
Fixpoint trim_space_left (s : string) : string :=
  match s with
  | String c s' => if asciiSpace c then trim_space_left s' else s
  | EmptyString => EmptyString
  end.
Fixpoint trim_space_right (s : string) : string :=
  match s with
  | String c s' => match trim_space_right s' with
                   | EmptyString => if asciiSpace c then EmptyString else String c EmptyString
                   | t => String c t
                   end
  | EmptyString => EmptyString
  end.
Definition TrimSpace (s : string) : string := trim_space_right (trim_space_left s).

(** [n, _ := strconv.Atoi(s)]: 0 when [s] is not a number, the nearest [int]
    when it does not fit. *)
Definition parse_signed (s : string) : option Z :=
  match s with
  | String "-"%char s => Z.opp <$> parse_unsigned s
  | String "+"%char s => parse_unsigned s
  | _ => parse_unsigned s
  end.
Definition Atoi_value (s : string) : Z :=
  match parse_signed s with
  | None => 0
  | Some z => Z.max int64_min (Z.min int64_max z)
  end.

(** ** Lemmas *)

Lemma append_assoc (a b c : string) : (a +:+ b) +:+ c = a +:+ b +:+ c.
Proof. induction a as [|x a IH]; [done|]. by rewrite !append_cons, IH. Qed.

Lemma cut_app sep a b : cut sep a = None → cut sep (a +:+ String sep b) = Some (a, b).
Proof.
  induction a as [|c a IH]; intros Ha.
  - rewrite append_nil. cbn. by rewrite Ascii.eqb_refl.
  - rewrite append_cons. cbn in *. destruct (Ascii.eqb c sep); [done|].
    destruct (cut sep a) as [[]|]; [done|]. by rewrite IH.
Qed.

Lemma strip_prefix_app p s : str_strip_prefix p (p +:+ s) = Some s.
Proof.
  induction p as [|c p IH]; [done|]. rewrite append_cons. cbn. by rewrite Ascii.eqb_refl.
Qed.
Lemma TrimPrefix_app p s : TrimPrefix (p +:+ s) p = s.
Proof. unfold TrimPrefix. by rewrite strip_prefix_app. Qed.

Lemma strip_suffix_app a p : str_strip_suffix p (a +:+ p) = Some a.
Proof.
  induction a as [|c a IH].
  - rewrite append_nil. destruct p as [|c p]; [done|]. cbn. by rewrite Ascii.eqb_refl, String.eqb_refl.
  - rewrite append_cons. cbn [str_strip_suffix].
    destruct (String.eqb_spec (String c (a +:+ p)) p) as [E|_]; [|by rewrite IH].
    apply (f_equal String.length) in E. cbn in E. rewrite string_app_length in E. lia.
Qed.
Lemma TrimSuffix_app a p : TrimSuffix (a +:+ p) p = a.
Proof. unfold TrimSuffix. by rewrite strip_suffix_app. Qed.

(** Strings of digits. *)
Lemma digits_cut c s : digits s → digit_value c = None → cut c s = None.
Proof.
  intros Hs Hc. induction s as [|d s IH]; [done|]. apply digits_cons in Hs as [Hd Hs]. cbn.
  destruct (Ascii.eqb_spec d c) as [->|_]; [by rewrite Hc in Hd; destruct Hd|]. by rewrite IH.
Qed.

Lemma digit_not_space c : is_Some (digit_value c) → asciiSpace c = false.
Proof.
  unfold digit_value, asciiSpace. intros [v Hv]. destruct (_ && _) eqn:Hd in Hv; [|done].
  apply andb_true_iff in Hd as [H1%Z.leb_le H2%Z.leb_le].
  apply orb_false_iff. split; [apply andb_false_iff; right; apply N.leb_gt; lia|apply N.eqb_neq; lia].
Qed.

Lemma digits_TrimSpace s : digits s → TrimSpace s = s.
Proof.
  intros Hs. unfold TrimSpace.
  assert (trim_space_left s = s) as ->.
  { destruct s as [|c s]; [done|]. apply digits_cons in Hs as [Hc _]. cbn.
    by rewrite (digit_not_space c Hc). }
  induction s as [|c s IH]; [done|]. apply digits_cons in Hs as [Hc Hs]. cbn. rewrite IH by done.
  rewrite (digit_not_space c Hc). by destruct s.
Qed.

Lemma digits_pretty n : 0 <= n → digits (pretty n).
Proof. intros Hn. exists n. by apply parse_digits_pretty. Qed.

Lemma Atoi_value_ParseInt s z : ParseInt s = Some z → Atoi_value s = z.
Proof.
  unfold ParseInt, Atoi_value. fold (parse_signed s). destruct (parse_signed s) as [z'|]; [|done].
  destruct (in_int64 z') eqn:Hz; [|done]. intros [= <-]. apply in_int64_spec in Hz. lia.
Qed.
Lemma Atoi_value_pretty z : int64_min ≤ z ≤ int64_max → Atoi_value (pretty z) = z.
Proof. intros Hz. by apply Atoi_value_ParseInt, ParseInt_pretty. Qed.

Lemma Atoi_value_range s : in_int64 (Atoi_value s) = true.
Proof.
  apply in_int64_spec. unfold Atoi_value, int64_min, int64_max. destruct (parse_signed s); lia.
Qed.
