(* ===== verification/JsonCodec.v ===== *)
(** * Codecs of Go structs

    What [encoding/json] does for a struct that is both written and read: an
    encoder, a decoder that starts from the value the field had, and the laws:
    reading gives back what was written, whatever was there before, and what was
    read from anywhere can be written.
    Instances for the scalar types and slices; a struct's instance is proved by
    [codec_struct] from those of its fields. *)
From S2P Require Export Json.

Class JsonCodec (F A : Type) `{FloatOps F} : Type := {
  zero_value : A;
  to_json : A → json F;
  from_json : decoder (F:=F) A;
  representable : A → Prop;
  codec_law old a : representable a → from_json old (to_json a) = Some a;
  codec_marshalable a : representable a → marshalable (to_json a) = true;
  zero_representable : representable zero_value;
  codec_reads old j a : representable old → from_json old j = Some a → representable a
}.

(** A type whose values are never written as [null]. *)
Class NeverNull (F A : Type) `{JsonCodec F A} : Prop := never_null a : to_json a ≠ JNull.

Class FiniteZero (F : Type) `{FloatOps F} : Prop := finite_zero : is_finite (fnum 0) = true.
#[export] Instance binary64_finite_zero `{Platform} : FiniteZero binary64.
Proof. by vm_compute. Qed.
#[export] Instance real_finite_zero : FiniteZero Rdefinitions.R.
Proof. done. Qed.

Section Instances.
Context {F : Type} `{FloatOps F}.

#[export] Instance string_codec : JsonCodec F string.
Proof.
  refine {| zero_value := ""; to_json := JStr; from_json := into_string; representable _ := True |};
    done.
Defined.

#[export] Instance bool_codec : JsonCodec F bool.
Proof.
  refine {| zero_value := false; to_json := JBool; from_json := into_bool; representable _ := True |};
    done.
Defined.

(** Go's [int]. *)
#[export] Instance int_codec : JsonCodec F Z.
Proof.
  refine {| zero_value := 0%Z; to_json := JInt; from_json := into_int64;
            representable z := in_int64 z = true |}; [|done..|].
  - intros old z Hz. cbn. by rewrite Hz.
  - intros old j a Ho. unfold into_int64. destruct j; try done; repeat case_match; naive_solver.
Defined.

#[export] Instance slice_codec {A} `{JsonCodec F A} : JsonCodec F (list A).
Proof.
  refine {| zero_value := []; to_json l := JArr (to_json <$> l);
            from_json := into_slice zero_value from_json; representable := Forall representable |}.
  - intros old l Hl. cbn. induction Hl as [|a l Ha _ IH]; [done|].
    cbn. rewrite codec_law by done. cbn. by rewrite IH.
  - intros l Hl. cbn. induction Hl as [|a l Ha _ IH]; [done|]. cbn. by rewrite codec_marshalable.
  - done.
  - intros old j a _. destruct j; cbn; try done; [by intros [= <-]|].
    intros Hm. apply mapM_Some_1 in Hm. induction Hm as [|x y l k Hx _ IH]; [done|].
    constructor; [|done]. apply (codec_reads zero_value x y); [apply zero_representable|done].
Defined.

(** A finite [float64]. *)
#[export] Instance float_codec `{!FiniteZero F} : JsonCodec F F.
Proof.
  refine {| zero_value := fnum 0; to_json := JNum; from_json := into_float64;
            representable x := is_finite x = true |}; [|done|apply finite_zero|].
  - intros old x Hx. cbn. by rewrite Hx.
  - intros old j x Ho. unfold into_float64. destruct j; try done; repeat case_match; naive_solver.
Defined.

(** A pointer: nil is written as [null]. *)
#[export] Instance pointer_codec {A} `{JsonCodec F A} `{!NeverNull F A} : JsonCodec F (option A).
Proof.
  refine {| zero_value := None; to_json o := from_option to_json JNull o;
            from_json := into_pointer zero_value from_json;
            representable o := from_option representable True o |}.
  - intros old [a|] Ha; [|done]. cbn. unfold into_pointer. pose proof (never_null a) as Hn.
    destruct (to_json a) eqn:Hj; try done; rewrite <- Hj; by rewrite codec_law.
  - intros [a|]; [apply codec_marshalable|done].
  - done.
  - intros old j [a|] Ho; [|done]. unfold into_pointer.
    assert (representable (default zero_value old)) as Hd.
    { destruct old; [done|apply zero_representable]. }
    destruct j; try done; intros (y&Hy&[= <-])%fmap_Some; by apply (codec_reads _ _ _ Hd Hy).
Defined.
#[export] Instance string_never_null : NeverNull F string.
Proof. done. Qed.
#[export] Instance float_never_null `{!FiniteZero F} : NeverNull F F.
Proof. done. Qed.

(** A struct: [null] keeps the old value, an object is read field by field. *)
Definition into_record {A} (build : A → list (string * json F) → option A) : decoder (F:=F) A := λ old j,
  match j with
  | JNull => Some old
  | JObj kvs => build old kvs
  | _ => None
  end.

(** The field [name], from the value it had. *)
Definition field {A} `{JsonCodec F A} (old : A) (name : string) (kvs : list (string * json F)) : option A :=
  jfield from_json old name kvs.

Lemma field_hit {A} `{JsonCodec F A} (old a : A) name kvs :
  representable a → field old name ((name, to_json a) :: kvs) = field a name kvs.
Proof. intros Ha. unfold field. rewrite jfield_hit by apply String.eqb_refl. by rewrite codec_law. Qed.

Lemma field_miss {A} `{JsonCodec F A} (old : A) name k j kvs :
  (ToLower k =? ToLower name)%string = false → field old name ((k, j) :: kvs) = field old name kvs.
Proof. intros Hk. unfold field. by rewrite jfield_miss. Qed.

Lemma field_nil {A} `{JsonCodec F A} (old : A) name : field old name [] = Some old.
Proof. done. Qed.

(** What a decoder keeps, reading a field keeps. *)
Lemma jfield_keeps {A} (P : A → Prop) (dec : decoder (F:=F) A) old a name kvs :
  (∀ old j a, P old → dec old j = Some a → P a) → P old → jfield dec old name kvs = Some a → P a.
Proof.
  intros Hdec. revert old. induction kvs as [|[k j] kvs IH]; intros old Ho.
  - cbn. by intros [= <-].
  - cbn [jfield]. destruct (_ =? _)%string; [|by apply IH].
    intros (b&Hb&Hf)%bind_Some. apply (IH b); [by apply (Hdec old j)|done].
Qed.

Lemma field_reads {A} `{JsonCodec F A} (old a : A) name kvs :
  field old name kvs = Some a → representable old → representable a.
Proof. intros Hf Ho. exact (jfield_keeps _ _ _ _ _ _ codec_reads Ho Hf). Qed.

(** [json.Marshal] and [json.Unmarshal] of a value with a codec. *)
Definition MarshalValue {A} `{JsonCodec F A} (a : A) : option (bytes F) := Marshal (to_json a).
Definition UnmarshalValue {A} `{JsonCodec F A} (b : bytes F) : option A :=
  match b with
  | Doc j => from_json zero_value j
  | Garbage _ => None
  end.

Lemma MarshalValue_some {A} `{JsonCodec F A} (a : A) :
  representable a → MarshalValue a = Some (Doc (to_json a)).
Proof. intros Ha. unfold MarshalValue, Marshal. by rewrite codec_marshalable. Qed.

Lemma Unmarshal_Marshal {A} `{JsonCodec F A} (a : A) :
  representable a → UnmarshalValue (Doc (to_json a)) = Some a.
Proof. apply codec_law. Qed.

Lemma UnmarshalValue_reads {A} `{JsonCodec F A} (b : bytes F) (a : A) :
  UnmarshalValue b = Some a → representable a.
Proof. destruct b; [|done]. cbn. apply codec_reads, zero_representable. Qed.
End Instances.

(** The two laws of a struct's codec, from those of its fields. *)
Ltac codec_fields :=
  repeat first
    [ rewrite field_nil; cbn [mbind option_bind]
    | rewrite field_miss by (vm_compute; reflexivity)
    | rewrite field_hit by solve [intuition auto | cbn; intuition auto] ].
Ltac read_fields :=
  repeat match goal with
  | Hj : mbind _ _ = Some _ |- _ => apply bind_Some in Hj as (?x & ?Hx & Hj)
  end;
  repeat match goal with
  | Hx : field _ _ _ = Some ?x |- _ => apply field_reads in Hx; [|solve [cbn in *; intuition auto]]
  end.
Ltac codec_struct :=
  first [ solve [intuition (auto using zero_representable)]
        | intros ? j ? ? Hj; destruct j; try discriminate Hj; cbn [into_record] in Hj;
          [injection Hj as <-; assumption
          |read_fields; injection Hj as <-; cbn in *; solve [intuition auto]]
        | intros ? [] ?; cbn [into_record] in *; codec_fields; reflexivity
        | intros [] ?; cbn [marshalable forallb snd] in *;
          rewrite ?codec_marshalable by solve [cbn in *; intuition auto]; reflexivity ].
