(* ===== verification/Scores.v ===== *)
(** * Scores ([internal/marketdata]'s score normalisers)

    The games of the providers' score feeds and how [nba_score_normaliser.go],
    [nhl_score_normaliser.go], [ncaab_score_normaliser.go] and
    [polymarket_score_normaliser.go] turn them into [game.state] events: the
    period's label, the clock, the scores. *)
From S2P Require Export GoText JsonCodec MarketEvent.
From Stdlib Require Import Ascii.
Local Open Scope Z_scope.

(** ** Games of the NBA scoreboard *)

Record NBATeam : Type := { TeamTricode : string; TeamName : string; nba_Score : Z }.
Record NBAGame : Type := {
  GameStatus : Z;            (** 1 scheduled, 2 live, 3 final *)
  GameStatusText : string;
  nba_Period : Z;
  nba_GameClock : string;    (** an ISO 8601 duration *)
  nba_HomeTeam : NBATeam;
  nba_AwayTeam : NBATeam
}.
Record NBAScoreRaw : Type := { nba_EventID : string; nba_Game : NBAGame }.

(** ** Games of ESPN's scoreboards *)

Record ESPNTeam : Type := { DisplayName : string; Location : string }.
Record ESPNCompetitor : Type := { HomeAway : string; Team : ESPNTeam; espn_Score : string }.
Record ESPNCompetition : Type := { Competitors : list ESPNCompetitor }.
Record ESPNStatusType : Type := { espn_State : string; Completed : bool }.
Record ESPNStatus : Type := { DisplayClock : string; espn_Period : Z; espn_Type : ESPNStatusType }.
Record ESPNGame : Type := { espn_Status : ESPNStatus; Competitions : list ESPNCompetition }.
(** [NHLScoreRaw] and [NCAABScoreRaw]. *)
Record ESPNScoreRaw : Type := { espn_EventID : string; espn_Game : ESPNGame }.

(** ** Results of Polymarket's sports socket *)

Record SportResult : Type := {
  GameID : Z;
  LeagueAbbreviation : string;
  Slug : string;
  sr_HomeTeam : string;
  sr_AwayTeam : string;
  sr_Status : string;
  sr_Score : string;         (** "home-away" *)
  sr_Period : string;
  Elapsed : string;
  Live : bool;
  Ended : bool
}.
Record PolymarketScoreRaw : Type := { pm_EventID : string; Result : SportResult }.

(** ** Their codecs *)

Section Codecs.
Context {F : Type} `{FloatOps F}.

#[export] Instance NBATeam_codec : JsonCodec F NBATeam.
Proof.
  refine {|
    zero_value := {| TeamTricode := ""; TeamName := ""; nba_Score := 0 |};
    to_json t := JObj [("teamTricode", to_json (TeamTricode t)); ("teamName", to_json (TeamName t));
                       ("score", to_json (nba_Score t))];
    from_json := into_record (λ old kvs,
      a ← field (TeamTricode old) "teamTricode" kvs;
      b ← field (TeamName old) "teamName" kvs;
      c ← field (nba_Score old) "score" kvs;
      Some (Build_NBATeam a b c));
    representable t := in_int64 (nba_Score t) = true |}; codec_struct.
Defined.

#[export] Instance NBAGame_codec : JsonCodec F NBAGame.
Proof.
  refine {|
    zero_value := {| GameStatus := 0; GameStatusText := ""; nba_Period := 0; nba_GameClock := "";
                     nba_HomeTeam := zero_value; nba_AwayTeam := zero_value |};
    to_json g := JObj [("gameStatus", to_json (GameStatus g)); ("gameStatusText", to_json (GameStatusText g));
                       ("period", to_json (nba_Period g)); ("gameClock", to_json (nba_GameClock g));
                       ("homeTeam", to_json (nba_HomeTeam g)); ("awayTeam", to_json (nba_AwayTeam g))];
    from_json := into_record (λ old kvs,
      a ← field (GameStatus old) "gameStatus" kvs;
      b ← field (GameStatusText old) "gameStatusText" kvs;
      c ← field (nba_Period old) "period" kvs;
      d ← field (nba_GameClock old) "gameClock" kvs;
      e ← field (nba_HomeTeam old) "homeTeam" kvs;
      f ← field (nba_AwayTeam old) "awayTeam" kvs;
      Some (Build_NBAGame a b c d e f));
    representable g := in_int64 (GameStatus g) = true ∧ in_int64 (nba_Period g) = true ∧
      representable (nba_HomeTeam g) ∧ representable (nba_AwayTeam g) |}; codec_struct.
Defined.

#[export] Instance NBAScoreRaw_codec : JsonCodec F NBAScoreRaw.
Proof.
  refine {|
    zero_value := {| nba_EventID := ""; nba_Game := zero_value |};
    to_json r := JObj [("event_id", to_json (nba_EventID r)); ("game", to_json (nba_Game r))];
    from_json := into_record (λ old kvs,
      a ← field (nba_EventID old) "event_id" kvs;
      b ← field (nba_Game old) "game" kvs;
      Some (Build_NBAScoreRaw a b));
    representable r := representable (nba_Game r) |}; codec_struct.
Defined.

#[export] Instance ESPNTeam_codec : JsonCodec F ESPNTeam.
Proof.
  refine {|
    zero_value := {| DisplayName := ""; Location := "" |};
    to_json t := JObj [("displayName", to_json (DisplayName t)); ("location", to_json (Location t))];
    from_json := into_record (λ old kvs,
      a ← field (DisplayName old) "displayName" kvs;
      b ← field (Location old) "location" kvs;
      Some (Build_ESPNTeam a b));
    representable _ := True |}; codec_struct.
Defined.

#[export] Instance ESPNCompetitor_codec : JsonCodec F ESPNCompetitor.
Proof.
  refine {|
    zero_value := {| HomeAway := ""; Team := zero_value; espn_Score := "" |};
    to_json c := JObj [("homeAway", to_json (HomeAway c)); ("team", to_json (Team c));
                       ("score", to_json (espn_Score c))];
    from_json := into_record (λ old kvs,
      a ← field (HomeAway old) "homeAway" kvs;
      b ← field (Team old) "team" kvs;
      c ← field (espn_Score old) "score" kvs;
      Some (Build_ESPNCompetitor a b c));
    representable _ := True |}; codec_struct.
Defined.

#[export] Instance ESPNCompetition_codec : JsonCodec F ESPNCompetition.
Proof.
  refine {|
    zero_value := {| Competitors := [] |};
    to_json c := JObj [("competitors", to_json (Competitors c))];
    from_json := into_record (λ old kvs,
      a ← field (Competitors old) "competitors" kvs;
      Some (Build_ESPNCompetition a));
    representable c := representable (Competitors c) |}; codec_struct.
Defined.

#[export] Instance ESPNStatusType_codec : JsonCodec F ESPNStatusType.
Proof.
  refine {|
    zero_value := {| espn_State := ""; Completed := false |};
    to_json c := JObj [("state", to_json (espn_State c)); ("completed", to_json (Completed c))];
    from_json := into_record (λ old kvs,
      a ← field (espn_State old) "state" kvs;
      b ← field (Completed old) "completed" kvs;
      Some (Build_ESPNStatusType a b));
    representable _ := True |}; codec_struct.
Defined.

#[export] Instance ESPNStatus_codec : JsonCodec F ESPNStatus.
Proof.
  refine {|
    zero_value := {| DisplayClock := ""; espn_Period := 0; espn_Type := zero_value |};
    to_json c := JObj [("displayClock", to_json (DisplayClock c)); ("period", to_json (espn_Period c));
                       ("type", to_json (espn_Type c))];
    from_json := into_record (λ old kvs,
      a ← field (DisplayClock old) "displayClock" kvs;
      b ← field (espn_Period old) "period" kvs;
      c ← field (espn_Type old) "type" kvs;
      Some (Build_ESPNStatus a b c));
    representable c := in_int64 (espn_Period c) = true |}; codec_struct.
Defined.

#[export] Instance ESPNGame_codec : JsonCodec F ESPNGame.
Proof.
  refine {|
    zero_value := {| espn_Status := zero_value; Competitions := [] |};
    to_json g := JObj [("status", to_json (espn_Status g)); ("competitions", to_json (Competitions g))];
    from_json := into_record (λ old kvs,
      a ← field (espn_Status old) "status" kvs;
      b ← field (Competitions old) "competitions" kvs;
      Some (Build_ESPNGame a b));
    representable g := representable (espn_Status g) ∧ representable (Competitions g) |}; codec_struct.
Defined.

#[export] Instance ESPNScoreRaw_codec : JsonCodec F ESPNScoreRaw.
Proof.
  refine {|
    zero_value := {| espn_EventID := ""; espn_Game := zero_value |};
    to_json r := JObj [("event_id", to_json (espn_EventID r)); ("game", to_json (espn_Game r))];
    from_json := into_record (λ old kvs,
      a ← field (espn_EventID old) "event_id" kvs;
      b ← field (espn_Game old) "game" kvs;
      Some (Build_ESPNScoreRaw a b));
    representable r := representable (espn_Game r) |}; codec_struct.
Defined.

#[export] Instance SportResult_codec : JsonCodec F SportResult.
Proof.
  refine {|
    zero_value := Build_SportResult 0 "" "" "" "" "" "" "" "" false false;
    to_json r := JObj [("gameId", to_json (GameID r)); ("leagueAbbreviation", to_json (LeagueAbbreviation r));
      ("slug", to_json (Slug r)); ("homeTeam", to_json (sr_HomeTeam r)); ("awayTeam", to_json (sr_AwayTeam r));
      ("status", to_json (sr_Status r)); ("score", to_json (sr_Score r)); ("period", to_json (sr_Period r));
      ("elapsed", to_json (Elapsed r)); ("live", to_json (Live r)); ("ended", to_json (Ended r))];
    from_json := into_record (λ old kvs,
      a ← field (GameID old) "gameId" kvs;
      b ← field (LeagueAbbreviation old) "leagueAbbreviation" kvs;
      c ← field (Slug old) "slug" kvs;
      d ← field (sr_HomeTeam old) "homeTeam" kvs;
      e ← field (sr_AwayTeam old) "awayTeam" kvs;
      f ← field (sr_Status old) "status" kvs;
      g ← field (sr_Score old) "score" kvs;
      h ← field (sr_Period old) "period" kvs;
      i ← field (Elapsed old) "elapsed" kvs;
      j ← field (Live old) "live" kvs;
      k ← field (Ended old) "ended" kvs;
      Some (Build_SportResult a b c d e f g h i j k));
    representable r := in_int64 (GameID r) = true |}; codec_struct.
Defined.

#[export] Instance PolymarketScoreRaw_codec : JsonCodec F PolymarketScoreRaw.
Proof.
  refine {|
    zero_value := {| pm_EventID := ""; Result := zero_value |};
    to_json r := JObj [("event_id", to_json (pm_EventID r)); ("result", to_json (Result r))];
    from_json := into_record (λ old kvs,
      a ← field (pm_EventID old) "event_id" kvs;
      b ← field (Result old) "result" kvs;
      Some (Build_PolymarketScoreRaw a b));
    representable r := representable (Result r) |}; codec_struct.
Defined.
End Codecs.

(** ** Labels *)

(** [formatPeriod]: Q1 .. Q4, OT1, .., FINAL, FINAL/OT1, .. *)
Definition formatPeriod (game : NBAGame) : string :=
  let Period := nba_Period game in
  if GameStatus game =? 3 then
    if 4 <? Period then "FINAL/OT" +:+ pretty (wrap64 (Period - 4)) else "FINAL"
  else if Period <=? 4 then "Q" +:+ pretty Period
  else "OT" +:+ pretty (wrap64 (Period - 4)).

(** [formatClock]: the duration "PT05M04.00S" as "5:04". *)
Definition formatClock (game : NBAGame) : string :=
  if GameStatus game =? 3 then "" else
  let clock := nba_GameClock game in
  if (clock =? "")%string || (clock =? "PT00M00.00S")%string then "" else
  let s := TrimSuffix (TrimPrefix clock "PT") "S" in
  match cut "M"%char s with
  | None => clock
  | Some (m, sec) =>
      let min := TrimLeft "0"%char m in
      let min := if (min =? "")%string then "0" else min in
      let sec := match cut "."%char sec with Some (whole, _) => whole | None => sec end in
      let sec := if (String.length sec =? 1)%nat then "0" +:+ sec else sec in
      let sec := if (sec =? "")%string then "00" else sec in
      min +:+ ":" +:+ sec
  end.

Definition formatNHLPeriod (game : ESPNGame) : string :=
  let period := espn_Period (espn_Status game) in
  if Completed (espn_Type (espn_Status game)) then
    match period with 4 => "FINAL/OT" | 5 => "FINAL/SO" | _ => "FINAL" end
  else match period with 1 => "P1" | 2 => "P2" | 3 => "P3" | 4 => "OT" | _ => "SO" end.

Definition formatNHLClock (game : ESPNGame) : string :=
  if Completed (espn_Type (espn_Status game)) then "" else DisplayClock (espn_Status game).

Definition formatNCAABPeriod (game : ESPNGame) : string :=
  let period := espn_Period (espn_Status game) in
  if Completed (espn_Type (espn_Status game)) then
    if 2 <? period then "FINAL/OT" +:+ pretty (wrap64 (period - 2)) else "FINAL"
  else match period with 1 => "1H" | 2 => "2H" | _ => "OT" +:+ pretty (wrap64 (period - 2)) end.

Definition formatNCAABClock (game : ESPNGame) : string :=
  if Completed (espn_Type (espn_Status game)) then "" else DisplayClock (espn_Status game).

(** [parseScore]: "3-16" as (3, 16). *)
Definition parseScore (s : string) : Z * Z :=
  match cut "-"%char s with
  | None => (0, 0)
  | Some (home, away) => (Atoi_value (TrimSpace home), Atoi_value (TrimSpace away))
  end.

(** The loop over the competitors: the last home one and the last other one. *)
Definition sides {A} (f : ESPNCompetitor → A) (zero : A) (cs : list ESPNCompetitor) : A * A :=
  foldl (λ '(home, away) c, if (HomeAway c =? "home")%string then (f c, away) else (home, f c)) (zero, zero) cs.

(** [game.Competitions[0].Competitors], when there are two of them. *)
Definition two_competitors (game : ESPNGame) : option (list ESPNCompetitor) :=
  match Competitions game with
  | [] => None
  | c :: _ => if (length (Competitors c) <? 2)%nat then None else Some (Competitors c)
  end.

(** ** Normalisers *)

Section Normalisers.
Context {F : Type} `{FloatOps F}.

Definition gameState (providerID eventID eventStatus : string) (home away : Z) (period clock : string) :
    NormalisedMarketEvent F :=
  Build_NormalisedMarketEvent "game.state" providerID "" eventID "" "" "" "" "" "" "" "" eventStatus "" "" ""
    (fnum 0) false "" "" false (fnum 0) (fnum 0) home away period clock (fnum 0) 0 "" "" "".

Definition nbaState (r : NBAScoreRaw) : NormalisedMarketEvent F :=
  gameState "nba-scores" (nba_EventID r) (if GameStatus (nba_Game r) =? 3 then "FINISHED" else "LIVE")
    (nba_Score (nba_HomeTeam (nba_Game r))) (nba_Score (nba_AwayTeam (nba_Game r)))
    (formatPeriod (nba_Game r)) (formatClock (nba_Game r)).

Definition espnState (providerID : string) (period clock : ESPNGame → string) (r : ESPNScoreRaw)
    (competitors : list ESPNCompetitor) : NormalisedMarketEvent F :=
  let '(home, away) := sides (λ c, Atoi_value (espn_Score c)) 0 competitors in
  gameState providerID (espn_EventID r)
    (if Completed (espn_Type (espn_Status (espn_Game r))) then "FINISHED" else "LIVE")
    home away (period (espn_Game r)) (clock (espn_Game r)).

Definition polymarketState (r : PolymarketScoreRaw) : NormalisedMarketEvent F :=
  let '(home, away) := parseScore (sr_Score (Result r)) in
  gameState "polymarket-scores" (pm_EventID r)
    (if Ended (Result r) then "FINISHED" else if negb (Live (Result r)) then "SCHEDULED" else "LIVE")
    home away (sr_Period (Result r)) (Elapsed (Result r)).
End Normalisers.

Inductive NBAScoreNormaliser : Type := nba_scores.
#[export] Instance nba_normalise {F} `{FloatOps F} : Normaliser F NBAScoreNormaliser := λ _ _ raw,
  match UnmarshalValue (A:=NBAScoreRaw) (Data raw) with
  | None => Err "nba score normaliser: unmarshal"
  | Some r => Ok [nbaState r]
  end.

Inductive NHLScoreNormaliser : Type := nhl_scores.
#[export] Instance nhl_normalise {F} `{FloatOps F} : Normaliser F NHLScoreNormaliser := λ _ _ raw,
  match UnmarshalValue (A:=ESPNScoreRaw) (Data raw) with
  | None => Err "nhl score normaliser: unmarshal"
  | Some r =>
      match two_competitors (espn_Game r) with
      | None => Err "nhl score normaliser: missing competitors"
      | Some cs => Ok [espnState "nhl-scores" formatNHLPeriod formatNHLClock r cs]
      end
  end.

Inductive NCAABScoreNormaliser : Type := ncaab_scores.
#[export] Instance ncaab_normalise {F} `{FloatOps F} : Normaliser F NCAABScoreNormaliser := λ _ _ raw,
  match UnmarshalValue (A:=ESPNScoreRaw) (Data raw) with
  | None => Err "ncaab score normaliser: unmarshal"
  | Some r =>
      match two_competitors (espn_Game r) with
      | None => Err "ncaab score normaliser: missing competitors"
      | Some cs => Ok [espnState "ncaab-scores" formatNCAABPeriod formatNCAABClock r cs]
      end
  end.

Inductive PolymarketScoreNormaliser : Type := polymarket_scores.
#[export] Instance polymarket_score_normalise {F} `{FloatOps F} : Normaliser F PolymarketScoreNormaliser :=
  λ _ _ raw,
  match UnmarshalValue (A:=PolymarketScoreRaw) (Data raw) with
  | None => Err "polymarket score normaliser: unmarshal"
  | Some r => Ok [polymarketState r]
  end.

(** ** Lemmas *)

(** A field of two digits without its leading zeros. *)
Lemma two_digits n :
  0 <= n < 100 →
  (if (TrimLeft "0"%char (pad 2 n) =? "")%string then "0" else TrimLeft "0"%char (pad 2 n)) = pretty n.
Proof.
  intros Hn.
  assert (forallb (λ k, ((if (TrimLeft "0"%char (pad 2 k) =? "")%string then "0"
    else TrimLeft "0"%char (pad 2 k)) =? pretty k)%string) (Z.of_nat <$> seq 0 100) = true) as Hall
    by (vm_compute; reflexivity).
  rewrite forallb_forall in Hall. apply String.eqb_eq, Hall, list_elem_of_In, list_elem_of_fmap.
  exists (Z.to_nat n). split; [lia|]. apply elem_of_seq. lia.
Qed.

Lemma pad2_digits n : 0 <= n < 100 → String.length (pad 2 n) = 2%nat ∧ digits (pad 2 n).
Proof.
  intros Hn. destruct (pad_digits 2 n) as [Hl Hd]; [lia|done|]. split; [done|by exists n].
Qed.

(** Text after one prefix. *)
Lemma append_inj (p a b : string) : p +:+ a = p +:+ b → a = b.
Proof. induction p as [|c p IH]; [done|]. rewrite !append_cons. intros [= E]. by apply IH. Qed.

(** ** Properties *)

(** The game clock of a live NBA game, in minutes, seconds and any
    fraction, is shown as minutes without leading zeros and two digits of
    seconds; only the exact zero clock is shown as nothing. *)
Theorem formatClock_spec game m s fraction :
  0 <= m < 100 → 0 <= s < 60 → GameStatus game ≠ 3 →
  nba_GameClock game = "PT" +:+ pad 2 m +:+ "M" +:+ pad 2 s +:+ "." +:+ fraction +:+ "S" →
  nba_GameClock game ≠ "PT00M00.00S" →
  formatClock game = pretty m +:+ ":" +:+ pad 2 s.
Proof.
  intros Hm Hs Hst Hc H0. unfold formatClock. rewrite (proj2 (Z.eqb_neq _ _) Hst).
  destruct (String.eqb_spec (nba_GameClock game) "PT00M00.00S") as [|_]; [done|].
  destruct (String.eqb_spec (nba_GameClock game) "") as [E|_]; [by rewrite Hc in E|]. cbn [orb].
  rewrite Hc, TrimPrefix_app, <- !append_assoc, TrimSuffix_app, !append_assoc.
  destruct (pad2_digits m Hm) as [_ Hdm]. destruct (pad2_digits s) as [Hls Hds]; [lia|].
  rewrite !append_single, cut_app by (by apply digits_cut). cbn zeta.
  rewrite cut_app by (by apply digits_cut).
  rewrite two_digits, Hls by done. cbn [Nat.eqb].
  by destruct (String.eqb_spec (pad 2 s) "") as [E|_]; [rewrite E in Hls|].
Qed.

(** A score printed as "home-away" is read back, for all scores that are not
    negative. *)
Theorem parseScore_roundtrip home away :
  0 <= home <= int64_max → 0 <= away <= int64_max →
  parseScore (pretty home +:+ "-" +:+ pretty away) = (home, away).
Proof.
  intros Hh Ha. assert (int64_min <= 0) as Hmin by (unfold int64_min; lia).
  unfold parseScore. rewrite append_single, cut_app by (apply digits_cut; [apply digits_pretty; lia|done]).
  rewrite !digits_TrimSpace by (apply digits_pretty; lia). by rewrite !Atoi_value_pretty by lia.
Qed.

(** The labels of two basketball games in progress are equal only when
    their periods are; so are those of finished NBA games that went to
    overtime. *)
Theorem basketball_labels_distinct (g g' : NBAGame) (e e' : ESPNGame) :
  1 <= nba_Period g <= int64_max → 1 <= nba_Period g' <= int64_max →
  1 <= espn_Period (espn_Status e) <= int64_max → 1 <= espn_Period (espn_Status e') <= int64_max →
  (GameStatus g ≠ 3 → GameStatus g' ≠ 3 → formatPeriod g = formatPeriod g' → nba_Period g = nba_Period g') ∧
  (GameStatus g = 3 → GameStatus g' = 3 → formatPeriod g = formatPeriod g' →
     Z.max 4 (nba_Period g) = Z.max 4 (nba_Period g')) ∧
  (Completed (espn_Type (espn_Status e)) = false → Completed (espn_Type (espn_Status e')) = false →
     formatNCAABPeriod e = formatNCAABPeriod e' → espn_Period (espn_Status e) = espn_Period (espn_Status e')).
Proof.
  intros Hg Hg' He He'. assert (int64_min <= -2) as Hmin by (unfold int64_min; lia). split_and!.
  - intros H3 H3'. unfold formatPeriod. rewrite !(proj2 (Z.eqb_neq _ _)) by done.
    destruct (Z.leb_spec (nba_Period g) 4), (Z.leb_spec (nba_Period g') 4); try done;
      rewrite ?wrap64_small by lia; intros E%append_inj%(inj pretty); lia.
  - intros H3 H3'. unfold formatPeriod. rewrite H3, H3'. cbn [Z.eqb Pos.eqb].
    destruct (Z.ltb_spec 4 (nba_Period g)), (Z.ltb_spec 4 (nba_Period g')); try done; [|lia].
    rewrite ?wrap64_small by lia. intros E%append_inj%(inj pretty). lia.
  - intros H3 H3'. unfold formatNCAABPeriod. rewrite H3, H3'.
    set (p := espn_Period (espn_Status e)) in *. set (p' := espn_Period (espn_Status e')) in *.
    assert (∀ q, 1 <= q <= int64_max → q = 1 ∨ q = 2 ∨ 2 < q ∧
      match q with 1 => "1H" | 2 => "2H" | _ => "OT" +:+ pretty (wrap64 (q - 2)) end = "OT" +:+ pretty (q - 2))
      as Hq.
    { intros q Hq. destruct (decide (q = 1)); [by left|]. destruct (decide (q = 2)); [by right; left|].
      right; right. split; [lia|]. rewrite wrap64_small by lia. by destruct q as [|[[]|[]|]|]. }
    destruct (Hq p He) as [->|[->|[Hp ->]]], (Hq p' He') as [->|[->|[Hp' ->]]]; try done.
    intros E%append_inj%(inj pretty). lia.
Qed.

(** A playoff game of hockey that goes past its first overtime is shown as
    a shoot-out, whichever period it is in. *)
Theorem hockey_labels_collide (g : ESPNGame) :
  Completed (espn_Type (espn_Status g)) = false → 5 <= espn_Period (espn_Status g) → formatNHLPeriod g = "SO".
Proof.
  intros Hc Hp. unfold formatNHLPeriod. rewrite Hc.
  destruct (espn_Period (espn_Status g)) as [|p|p]; [lia| |lia].
  destruct p as [[p|p|]|[p|[p|p|]|]|]; try done; lia.
Qed.

(** ** Concrete runs *)

Definition ex_nba_game (status period : Z) (clock : string) : NBAGame := {|
  GameStatus := status; GameStatusText := ""; nba_Period := period; nba_GameClock := clock;
  nba_HomeTeam := {| TeamTricode := "CLE"; TeamName := "Cavaliers"; nba_Score := 101 |};
  nba_AwayTeam := {| TeamTricode := "BOS"; TeamName := "Celtics"; nba_Score := 99 |} |}.
Definition ex_espn_game (state : string) (completed : bool) (period : Z) (homeScore awayScore : string) : ESPNGame := {|
  espn_Status := {| DisplayClock := "5:04"; espn_Period := period;
                    espn_Type := {| espn_State := state; Completed := completed |} |};
  Competitions := [{| Competitors := [
    {| HomeAway := "home"; Team := {| DisplayName := "Boston Bruins"; Location := "Boston" |}; espn_Score := homeScore |};
    {| HomeAway := "away"; Team := {| DisplayName := "Tampa Bay Lightning"; Location := "Tampa Bay" |};
       espn_Score := awayScore |}] |}] |}.

Lemma formatClock_spec_witness : formatClock (ex_nba_game 2 4 "PT05M04.00S") = "5:04".
Proof. apply (formatClock_spec (ex_nba_game 2 4 "PT05M04.00S") 5 4 "00"); try lia; done. Defined.

Lemma parseScore_roundtrip_witness : parseScore "3-16" = (3, 16).
Proof. apply (parseScore_roundtrip 3 16); unfold int64_max; lia. Defined.

Lemma basketball_labels_distinct_witness :
  formatPeriod (ex_nba_game 2 5 "") = "OT1" ∧ Z.max 4 5 = Z.max 4 5.
Proof.
  split; [vm_compute; reflexivity|].
  apply (basketball_labels_distinct (ex_nba_game 3 5 "") (ex_nba_game 3 5 "")
    (ex_espn_game "in" false 1 "" "") (ex_espn_game "in" false 2 "" "")); try done;
    unfold int64_max; cbn; lia.
Defined.

Lemma hockey_labels_collide_witness :
  formatNHLPeriod (ex_espn_game "in" false 5 "2" "2") = "SO" ∧
  formatNHLPeriod (ex_espn_game "in" false 6 "2" "2") = "SO".
Proof. split; apply hockey_labels_collide; [done|cbn; lia|done|cbn; lia]. Defined.
