(* ===== verification/GoFormat.v ===== *)
(** * Numbers, documents and times in text

    What the Polymarket normalisers use of [strconv.ParseFloat], [fmt]'s [%.1f],
    [encoding/json] on a document inside a string, [strings.ReplaceAll],
    [strings.SplitN] and [time.Parse]. The first three are operations of a class,
    so that the theorems hold for all their inputs; the instance for [binary64]
    rounds correctly, and reads decimal numbers and arrays of strings. *)
From S2P Require Export GoText JsonCodec.
From Stdlib Require Import Ascii SpecFloat.
Local Open Scope Z_scope.

Class GoFormat (F : Type) : Type := {
  ParseFloat : string → F;          (** the value, its error ignored *)
  Sprintf_1f : F → string;          (** [%.1f] *)
  JSONText : string → bytes F;      (** the text of a document *)
  MaxFloat64 : F
}.

(** ** Strings *)

(** [ReplaceAll] for an [old] that is not empty; [skip] counts the bytes of a
    replaced occurrence that are still to be passed over. *)
Fixpoint ReplaceAll_go (old new : string) (skip : nat) (s : string) : string :=
  match s with
  | EmptyString => EmptyString
  | String c s' =>
      match skip with
      | S skip => ReplaceAll_go old new skip s'
      | O => if HasPrefix s old then new +:+ ReplaceAll_go old new (String.length old - 1) s'
             else String c (ReplaceAll_go old new 0 s')
      end
  end.
Definition ReplaceAll (s old new : string) : string := ReplaceAll_go old new 0 s.

(** [SplitN(s, sep, 2)], when there are two parts. *)
Fixpoint cut_str (sep s : string) : option (string * string) :=
  match str_strip_prefix sep s with
  | Some rest => Some (EmptyString, rest)
  | None =>
      match s with
      | EmptyString => None
      | String c s => '(a, b) ← cut_str sep s; Some (String c a, b)
      end
  end.

(** ** Times

    Layouts of a date and a time of day to the second (a fraction is read even
    though no layout has one), by separator and zone. *)
Inductive zone_layout : Type :=
| ZoneHours          (** [-07] *)
| ZoneNumeric        (** [-07:00] *)
| ZoneLiteralZ       (** [Z] *)
| ZoneRFC3339.       (** [Z07:00] *)

Definition parse_numeric_zone (minutes : bool) (s : string) : option Z :=
  match s with
  | String c s =>
      if Ascii.eqb c "+"%char || Ascii.eqb c "-"%char then
        '(h, s) ← take_digits 2 0 s;
        '(m, s) ← (if minutes then s ← expect ":"%char s; take_digits 2 0 s else Some (0, s));
        if bool_decide (s = EmptyString) && (h <=? 24) && (m <=? 60)
        then Some ((if Ascii.eqb c "-"%char then -1 else 1) * (h * 3600 + m * 60)) else None
      else None
  | EmptyString => None
  end.

Definition parse_zone_layout (z : zone_layout) (s : string) : option Z :=
  match z with
  | ZoneHours => parse_numeric_zone false s
  | ZoneNumeric => parse_numeric_zone true s
  | ZoneLiteralZ => if (s =? "Z")%string then Some 0 else None
  | ZoneRFC3339 => parse_zone s
  end.

(** [time.Parse] with the separator [sep] and the zone [z], in microseconds. *)
Definition time_Parse (sep : ascii) (z : zone_layout) (s : string) : option Z :=
  '(y, s) ← take_digits 4 0 s;
  s ← expect "-"%char s;
  '(mo, s) ← take_digits 2 0 s;
  s ← expect "-"%char s;
  '(d, s) ← take_digits 2 0 s;
  s ← expect sep s;
  '(h, s) ← take_hour s;
  s ← expect ":"%char s;
  '(mi, s) ← take_digits 2 0 s;
  s ← expect ":"%char s;
  '(sec, s) ← take_digits 2 0 s;
  let '(us, s) := parse_fraction s in
  offset ← parse_zone_layout z s;
  if (1 <=? mo) && (mo <=? 12) && (1 <=? d) && (d <=? days_in y mo) &&
     (h <? 24) && (mi <? 60) && (sec <? 60)
  then Some ((days_from_civil (Civil y mo d) * day_s + h * 3600 + mi * 60 + sec - offset) * second_us + us)
  else None.

(** The first layout that fits. *)
Fixpoint first_layout (layouts : list (ascii * zone_layout)) (s : string) : option Z :=
  match layouts with
  | [] => None
  | (sep, z) :: layouts =>
      match time_Parse sep z s with Some t => Some t | None => first_layout layouts s end
  end.

(** ** binary64 *)

(** [m * 10^e], rounded once. *)
Definition b64_of_decimal (neg : bool) (m e : Z) : binary64 :=
  if m =? 0 then S754_zero neg else
  let z := if neg then -1 else 1 in
  if 0 <=? e then binary_normalize prec64 emax64 (z * (m * 10 ^ e)) 0 neg else
  let d := 10 ^ (- e) in
  let s := Z.max 0 (Z.log2 d - Z.log2 m + 66) in
  let '(q, r) := Z.div_eucl (Z.shiftl m s) d in
  binary_normalize prec64 emax64 (z * (2 * q + (if r =? 0 then 0 else 1))) (- s - 1) neg.

(** Digits, their value and their number. *)
Fixpoint take_number (acc count : Z) (s : string) : Z * Z * string :=
  match s with
  | String c s' => match digit_value c with
                   | Some d => take_number (acc * 10 + d) (count + 1) s'
                   | None => (acc, count, s)
                   end
  | EmptyString => (acc, count, s)
  end.

Definition parse_exponent (s : string) : option Z :=
  match s with
  | EmptyString => Some 0
  | String c s => if Ascii.eqb c "e"%char || Ascii.eqb c "E"%char then parse_signed s else None
  end.

Definition b64_ParseFloat (s : string) : binary64 :=
  let '(neg, s) := match s with
                   | String "-"%char s => (true, s)
                   | String "+"%char s => (false, s)
                   | _ => (false, s)
                   end in
  let '(m, n, s) := take_number 0 0 s in
  let '(m, n', s) := match s with
                     | String "."%char s => take_number m 0 s
                     | _ => (m, 0, s)
                     end in
  match parse_exponent s with
  | Some e => if n + n' =? 0 then S754_zero false else b64_of_decimal neg m (e - n')
  | None => S754_zero false
  end.

(** To the nearest tenth, ties to even. *)
Definition b64_Sprintf_1f (x : binary64) : string :=
  match x with
  | S754_zero s => (if s then "-" else "") +:+ "0.0"
  | S754_infinity s => if s then "-Inf" else "+Inf"
  | S754_nan => "NaN"
  | S754_finite s m e =>
      let '(q, r, d) := if 0 <=? e then (Zpos m * 2 ^ e * 10, 0, 1)
                        else let '(q, r) := Z.div_eucl (Zpos m * 10) (2 ^ (- e)) in (q, r, 2 ^ (- e)) in
      let n := if (d <? 2 * r) || (d =? 2 * r) && Z.odd q then q + 1 else q in
      (if s then "-" else "") +:+ pretty (n / 10) +:+ "." +:+ pretty (n `mod` 10)
  end.

(** An array of strings; anything else the instance does not read. *)
Fixpoint json_string_body (s : string) : option (string * string) :=
  match s with
  | EmptyString => None
  | String c s =>
      if Ascii.eqb c "034"%char then Some (EmptyString, s)
      else if Ascii.eqb c "\"%char then
        match s with
        | String c s => if Ascii.eqb c "034"%char || Ascii.eqb c "\"%char || Ascii.eqb c "/"%char
                        then '(a, b) ← json_string_body s; Some (String c a, b) else None
        | EmptyString => None
        end
      else '(a, b) ← json_string_body s; Some (String c a, b)
  end.

Fixpoint json_string_items (fuel : nat) (s : string) : option (list string) :=
  match fuel with
  | O => None
  | S fuel =>
      match trim_space_left s with
      | String c s =>
          if negb (Ascii.eqb c "034"%char) then None else
          '(x, s) ← json_string_body s;
          match trim_space_left s with
          | String c s =>
              if Ascii.eqb c ","%char then xs ← json_string_items fuel s; Some (x :: xs)
              else if Ascii.eqb c "]"%char && (trim_space_left s =? "")%string then Some [x] else None
          | EmptyString => None
          end
      | EmptyString => None
      end
  end.

Definition json_strings (s : string) : option (list string) :=
  match trim_space_left s with
  | String c s =>
      if negb (Ascii.eqb c "["%char) then None
      else if (TrimSpace s =? "]")%string then Some []
      else json_string_items (String.length s) s
  | EmptyString => None
  end.

#[export] Instance binary64_format : GoFormat binary64 := {|
  ParseFloat := b64_ParseFloat;
  Sprintf_1f := b64_Sprintf_1f;
  JSONText s := match json_strings s with Some l => Doc (JArr (JStr <$> l)) | None => Garbage s end;
  MaxFloat64 := S754_finite false 9007199254740991 971
|}.

Example ParseFloat_example :
  b64_Sprintf_1f (b64_ParseFloat "-6.25") = "-6.2" ∧ b64_ParseFloat "0.5" = S754_finite false 4503599627370496 (-53) ∧
  b64_ParseFloat "abc" = S754_zero false ∧ b64_Sprintf_1f (b64_ParseFloat "2.195e2") = "219.5".
Proof. vm_compute. done. Qed.
Example json_strings_example : json_strings "[\'a\']" = None ∧ json_strings " [ ] " = Some [].
Proof. vm_compute. done. Qed.
Example layouts_example :
  time_Parse " "%char ZoneHours "2026-03-01 12:30:45+01" = Some 1772364645000000 ∧
  time_Parse "T"%char ZoneLiteralZ "2026-03-01T12:30:45+01:00" = None ∧
  ReplaceAll "Nets vs. Pistons vs. X" " vs. " " @ " = "Nets @ Pistons @ X" ∧
  cut_str " vs. " "Nets vs. Pistons vs. X" = Some ("Nets", "Pistons vs. X").
Proof. vm_compute. done. Qed.
