(* ===== verification/GammaApi.v ===== *)
(** * Polymarket's Gamma API ([internal/polymarket/client.go])

    The events and markets the API serves, their codecs, the documents inside
    strings, and the pages of [FetchEvents]. The server's answers are inputs. *)
From S2P Require Export GoFormat.
Local Open Scope Z_scope.

Record GammaMarket (F : Type) : Type := {
  gm_ID : string;
  gm_ConditionID : string;
  Question : string;
  gm_Slug : string;
  GroupItemTitle : option string;
  SportsMarketType : string;
  Line : option F;
  Outcomes : string;          (** an array of strings, as text *)
  OutcomePrices : string;
  ClobTokenIDs : string;
  GameStartTime : string;
  EndDate : string;
  gm_Active : bool;
  gm_Closed : bool
}.
Arguments gm_ID {F} _.
Arguments gm_ConditionID {F} _.
Arguments Question {F} _.
Arguments gm_Slug {F} _.
Arguments GroupItemTitle {F} _.
Arguments SportsMarketType {F} _.
Arguments Line {F} _.
Arguments Outcomes {F} _.
Arguments OutcomePrices {F} _.
Arguments ClobTokenIDs {F} _.
Arguments GameStartTime {F} _.
Arguments EndDate {F} _.
Arguments gm_Active {F} _.
Arguments gm_Closed {F} _.
Arguments Build_GammaMarket {F}.

Record GammaEvent (F : Type) : Type := {
  ge_ID : string;
  ge_Slug : string;
  Title : string;
  ge_Active : bool;
  ge_Closed : bool;
  Markets : list (GammaMarket F)
}.
Arguments ge_ID {F} _.
Arguments ge_Slug {F} _.
Arguments Title {F} _.
Arguments ge_Active {F} _.
Arguments ge_Closed {F} _.
Arguments Markets {F} _.
Arguments Build_GammaEvent {F}.

Section Api.
Context {F : Type} `{FloatOps F} `{GoFormat F} `{!FiniteZero F}.

#[export] Instance GammaMarket_codec : JsonCodec F (GammaMarket F).
Proof.
  refine {|
    zero_value := Build_GammaMarket "" "" "" "" None "" None "" "" "" "" "" false false;
    to_json m := JObj [("id", to_json (gm_ID m)); ("conditionId", to_json (gm_ConditionID m));
      ("question", to_json (Question m)); ("slug", to_json (gm_Slug m));
      ("groupItemTitle", to_json (GroupItemTitle m)); ("sportsMarketType", to_json (SportsMarketType m));
      ("line", to_json (Line m)); ("outcomes", to_json (Outcomes m));
      ("outcomePrices", to_json (OutcomePrices m)); ("clobTokenIds", to_json (ClobTokenIDs m));
      ("gameStartTime", to_json (GameStartTime m)); ("endDate", to_json (EndDate m));
      ("active", to_json (gm_Active m)); ("closed", to_json (gm_Closed m))];
    from_json := into_record (λ old kvs,
      a ← field (gm_ID old) "id" kvs;
      b ← field (gm_ConditionID old) "conditionId" kvs;
      c ← field (Question old) "question" kvs;
      d ← field (gm_Slug old) "slug" kvs;
      e ← field (GroupItemTitle old) "groupItemTitle" kvs;
      f ← field (SportsMarketType old) "sportsMarketType" kvs;
      g ← field (Line old) "line" kvs;
      h ← field (Outcomes old) "outcomes" kvs;
      i ← field (OutcomePrices old) "outcomePrices" kvs;
      j ← field (ClobTokenIDs old) "clobTokenIds" kvs;
      k ← field (GameStartTime old) "gameStartTime" kvs;
      l ← field (EndDate old) "endDate" kvs;
      m ← field (gm_Active old) "active" kvs;
      n ← field (gm_Closed old) "closed" kvs;
      Some (Build_GammaMarket a b c d e f g h i j k l m n));
    representable m := representable (GroupItemTitle m) ∧ representable (Line m) |}; codec_struct.
Defined.

#[export] Instance GammaEvent_codec : JsonCodec F (GammaEvent F).
Proof.
  refine {|
    zero_value := Build_GammaEvent "" "" "" false false [];
    to_json e := JObj [("id", to_json (ge_ID e)); ("slug", to_json (ge_Slug e)); ("title", to_json (Title e));
      ("active", to_json (ge_Active e)); ("closed", to_json (ge_Closed e)); ("markets", to_json (Markets e))];
    from_json := into_record (λ old kvs,
      a ← field (ge_ID old) "id" kvs;
      b ← field (ge_Slug old) "slug" kvs;
      c ← field (Title old) "title" kvs;
      d ← field (ge_Active old) "active" kvs;
      e ← field (ge_Closed old) "closed" kvs;
      f ← field (Markets old) "markets" kvs;
      Some (Build_GammaEvent a b c d e f));
    representable e := representable (Markets e) |}; codec_struct.
Defined.

(** [json.Unmarshal([]byte(text), &out)] into a slice of strings. *)
Definition parse_strings (text : string) : option (list string) :=
  UnmarshalValue (JSONText text).
Definition ParseOutcomes (m : GammaMarket F) : option (list string) := parse_strings (Outcomes m).
Definition ParseClobTokenIDs (m : GammaMarket F) : option (list string) := parse_strings (ClobTokenIDs m).
Definition ParseOutcomePrices (m : GammaMarket F) : option (list string) := parse_strings (OutcomePrices m).

Definition Name (m : GammaMarket F) : string :=
  match GroupItemTitle m with
  | Some title => if (title =? "")%string then Question m else title
  | None => Question m
  end.

(** ** Pages *)

(** An HTTP exchange: it fails, or gives a status and a body. *)
Abbreviation response := (option (Z * bytes F)).

Definition page_limit : Z := 100.

Definition fetch_page (resp : response) : result string (list (GammaEvent F)) :=
  match resp with
  | None => Err "polymarket: http get"
  | Some (statusCode, body) =>
      if negb (statusCode =? 200) then Err "polymarket: unexpected status" else
      match UnmarshalValue body with
      | None => Err "polymarket: decode response"
      | Some page => Ok page
      end
  end.

(** The loop on the answers the server gives, one after the other: [None] while
    it still waits for the next one. *)
Fixpoint FetchEvents_loop (all : list (GammaEvent F)) (resps : list response) :
    option (result string (list (GammaEvent F))) :=
  match resps with
  | [] => None
  | resp :: resps =>
      match fetch_page resp with
      | Err e => Some (Err e)
      | Ok page =>
          let all := all ++ page in
          if Z.of_nat (length page) <? page_limit then Some (Ok all) else FetchEvents_loop all resps
      end
  end.
Definition FetchEvents (resps : list response) : option (result string (list (GammaEvent F))) :=
  FetchEvents_loop [] resps.

(** ** Lemmas *)

Definition full_page (resp : response) (page : list (GammaEvent F)) : Prop :=
  fetch_page resp = Ok page ∧ page_limit ≤ Z.of_nat (length page).

Lemma FetchEvents_full all resps pages rest :
  Forall2 full_page resps pages →
  FetchEvents_loop all (resps ++ rest) = FetchEvents_loop (all ++ concat pages) rest.
Proof.
  intros Hp. revert all. induction Hp as [|resp page resps pages [Hf Hl] _ IH]; intros all.
  - cbn. by rewrite app_nil_r.
  - cbn [app FetchEvents_loop concat]. rewrite Hf. cbn zeta.
    rewrite (proj2 (Z.ltb_ge _ _)) by done. by rewrite IH, app_assoc.
Qed.

Lemma fetch_page_representable resp page : fetch_page resp = Ok page → Forall representable page.
Proof.
  unfold fetch_page. destruct resp as [[c body]|]; [|done]. destruct (negb _); [done|].
  destruct (UnmarshalValue body) as [p|] eqn:Hu; [|done]. intros [= <-].
  by apply UnmarshalValue_reads in Hu.
Qed.

Lemma FetchEvents_representable all resps evs :
  Forall representable all → FetchEvents_loop all resps = Some (Ok evs) → Forall representable evs.
Proof.
  revert all. induction resps as [|resp resps IH]; intros all Ha; [done|]. cbn.
  destruct (fetch_page resp) as [page|e] eqn:Hf; [|done].
  apply fetch_page_representable in Hf. destruct (_ <? _).
  - intros [= <-]. by apply Forall_app.
  - apply IH. by apply Forall_app.
Qed.

(** C39. FetchEvents joins the pages: full pages and then a shorter one give all
    their events in order; an error on any page gives the error and nothing
    else; and as long as the server sends full pages it does not return. *)
Theorem FetchEvents_joins_pages resps pages resp rest :
  Forall2 full_page resps pages →
  FetchEvents resps = None ∧
  (∀ e, fetch_page resp = Err e → FetchEvents (resps ++ resp :: rest) = Some (Err e)) ∧
  (∀ page, fetch_page resp = Ok page → Z.of_nat (length page) < page_limit →
     FetchEvents (resps ++ resp :: rest) = Some (Ok (concat pages ++ page))).
Proof.
  intros Hp. unfold FetchEvents. split_and!.
  - rewrite <- (app_nil_r resps). by rewrite (FetchEvents_full [] resps pages []).
  - intros e He. rewrite (FetchEvents_full [] resps pages) by done. cbn. by rewrite He.
  - intros page He Hl. rewrite (FetchEvents_full [] resps pages) by done. cbn. rewrite He.
    by rewrite (proj2 (Z.ltb_lt _ _)).
Qed.
End Api.

(** ** A concrete run *)

#[local] Existing Instance inert_platform.

Definition ex_gamma_market (cond : string) (ty : string) (line : option binary64) (prices : string) : GammaMarket binary64 :=
  Build_GammaMarket "1" cond "Celtics vs. Cavaliers" "nba-bos-cle" None ty line "" prices "" "2026-03-02 00:00:00+00"
    "" true false.
Definition ex_gamma_event : GammaEvent binary64 :=
  Build_GammaEvent "e1" "nba-bos-cle" "Celtics vs. Cavaliers" true false [ex_gamma_market "c1" "moneyline" None ""].
Definition ex_full_page : list (GammaEvent binary64) := repeat ex_gamma_event 100.

Lemma FetchEvents_joins_pages_witness :
  FetchEvents [Some (200, Doc (to_json ex_full_page)); Some (200, Doc (to_json [ex_gamma_event]))] =
    Some (Ok (ex_full_page ++ [ex_gamma_event])).
Proof.
  apply (FetchEvents_joins_pages [Some (200, Doc (to_json ex_full_page))] [ex_full_page]
    (Some (200, Doc (to_json [ex_gamma_event]))) []).
  - apply Forall2_cons. split; [|apply Forall2_nil; done]. split; [vm_compute; reflexivity|vm_compute; discriminate].
  - vm_compute; reflexivity.
  - vm_compute; reflexivity.
Defined.
