(* ===== verification/PolymarketNormaliser.v ===== *)
(** * From Polymarket events to the catalogue
    ([internal/marketdata/polymarket_normaliser.go], [politics_normaliser.go])

    A game, or a political question, becomes one [catalog.upsert] per selection
    and then one [price.update] per market. The theorems: what is emitted
    satisfies the catalogue's constraints and is stored by its consumer, prices
    are asked for after both selections, one line per type is the main one; and
    the inputs that go wrong. *)
From S2P Require Export GammaApi Catalog.
From Stdlib Require Import Ascii Reals Lra.
Local Open Scope Z_scope.

Definition hour_us : Z := 3600 * second_us.
Definition lookAheadDays : Z := 14.

(** The table of supported market types. *)
Definition allowedTypes (ty : string) : option string :=
  if (ty =? "moneyline")%string then Some "ML"
  else if (ty =? "spreads")%string then Some "SPREAD"
  else if (ty =? "totals")%string then Some "TOTAL"
  else None.

Record PolymarketNormaliser : Type := {
  pn_sportID : string;
  pn_sportName : string;
  pn_competitionID : string;
  pn_competitionName : string
}.

Record PoliticsNormaliser : Type := {
  pol_sportID : string;
  pol_sportName : string;
  pol_competitionID : string;
  pol_competitionName : string;
  pol_country : string
}.

(** ** Times *)

Definition gameStartLayouts : list (ascii * zone_layout) :=
  [(" "%char, ZoneHours); (" "%char, ZoneNumeric); ("T"%char, ZoneLiteralZ); ("T"%char, ZoneNumeric)].
Definition endDateLayouts : list (ascii * zone_layout) :=
  [("T"%char, ZoneRFC3339); ("T"%char, ZoneLiteralZ); ("T"%char, ZoneNumeric)].

Definition parseEndDate (s : string) : option Z := first_layout endDateLayouts s.

(** [time.Time{}] and [time.Date(9999, 1, 1, ...)]. *)
Definition zero_time : Z := days_from_civil (Civil 1 1 1) * day_s * second_us.
Definition year_9999 : Z := days_from_civil (Civil 9999 1 1) * day_s * second_us.

Section Normaliser.
Context {F : Type} `{FloatOps F} `{GoFormat F} `{!FiniteZero F}.
Abbreviation Market := (GammaMarket F).

(** The first market's start time that is there and fits a layout. *)
Fixpoint gameStartTime (markets : list Market) : option Z :=
  match markets with
  | [] => None
  | m :: markets =>
      if (GameStartTime m =? "")%string then gameStartTime markets else
      match first_layout gameStartLayouts (GameStartTime m) with
      | Some t => Some t
      | None => gameStartTime markets
      end
  end.

(** ** Prices and lines *)

Definition clampProb (p : F) : F :=
  if fgt p (lit 98 100) || flt p (lit 2 100) then fnum 0 else p.

Definition math_Abs (x : F) : F := if fle x (fnum 0) then fsub (fnum 0) x else x.

Definition derefLine (line : option F) : F := default (fnum 0) line.
Definition absLine (line : option F) : F :=
  match line with None => fnum 0 | Some l => math_Abs l end.

Definition formatLineSign (v : F) : string :=
  if fge v (fnum 0) then "+" +:+ Sprintf_1f v else Sprintf_1f v.

Definition buildMarketName (gameTitle marketType : string) (line : option F) (fallback : string) : string :=
  if (marketType =? "SPREAD")%string then gameTitle +:+ " Spread " +:+ formatLineSign (derefLine line)
  else if (marketType =? "TOTAL")%string then gameTitle +:+ " Total " +:+ Sprintf_1f (absLine line)
  else fallback.

Record selRow : Type := { sel_row_name : string; sel_row_targetValue : F; sel_row_prob : F }.

(** The two teams of a title, or else the two outcomes. *)
Fixpoint split_title (seps : list string) (title : string) (outcomes : string * string) : string * string :=
  match seps with
  | [] => outcomes
  | sep :: seps => match cut_str sep title with
                   | Some parts => parts
                   | None => split_title seps title outcomes
                   end
  end.

Definition buildSelections (marketType gameTitle : string) (outcomes prices : string * string)
    (line : option F) : list selRow :=
  let p0 := clampProb (ParseFloat prices.1) in
  let p1 := clampProb (ParseFloat prices.2) in
  let row name target prob :=
    {| sel_row_name := name; sel_row_targetValue := target; sel_row_prob := prob |} in
  if (marketType =? "SPREAD")%string then
    let l := derefLine line in
    let '(t0, t1) := split_title [" vs. "; " vs "; " @ "; "@"] gameTitle outcomes in
    [row (t0 +:+ " " +:+ formatLineSign l) l p0;
     row (t1 +:+ " " +:+ formatLineSign (fneg l)) (fneg l) p1]
  else if (marketType =? "TOTAL")%string then
    let l := absLine line in
    [row ("Over " +:+ Sprintf_1f l) l p0; row ("Under " +:+ Sprintf_1f l) (fneg l) p1]
  else
    [row outcomes.1 (fnum 0) p0; row outcomes.2 (fnum 0) p1].

(** ** The main line of each type *)

Definition our_type (m : Market) : string := default "" (allowedTypes (SportsMarketType m)).

(** How far the favourite is from even money. *)
Definition line_dist (m : Market) : option F :=
  prices ← ParseOutcomePrices m;
  if (length prices <? 2)%nat then None else
  let maxProb := foldl (λ maxProb ps, let p := ParseFloat ps in if fgt p maxProb then p else maxProb)
                   (fnum 0) prices in
  Some (math_Abs (fsub maxProb (lit 1 2))).

Definition best_line (group : list Market) : string :=
  (foldl (λ '(bestID, bestDist) m,
     match line_dist m with
     | Some dist => if flt dist bestDist then (gm_ConditionID m, dist) else (bestID, bestDist)
     | None => (bestID, bestDist)
     end) (EmptyString, MaxFloat64) group).1.

(** The markets whose entry of the map is true. *)
Definition computeIsMain (markets : list Market) : gset string :=
  let by_type ty := filter (λ m, our_type m = ty) markets in
  let add ty (result : gset string) :=
    let bestID := best_line (by_type ty) in
    if (bestID =? "")%string then result else {[bestID]} ∪ result in
  add "TOTAL" (add "SPREAD" (list_to_set (gm_ConditionID <$> by_type "ML"))).

(** ** Events *)

Definition priceUpdate (m : Market) : NormalisedMarketEvent F :=
  marketNotice "price.update" "polymarket" (gm_ConditionID m).

(** One [catalog.upsert]; the game's fields are left at their zero values. *)
Definition catalogUpsert (sportID sportName competitionID competitionName country eventID eventName
    startsAt eventStatus marketID marketName marketType : string) (targetValue : F) (isMain : bool)
    (closesAt selID selName : string) (selTarget prob : F) : NormalisedMarketEvent F :=
  Build_NormalisedMarketEvent "catalog.upsert" "polymarket" sportID eventID marketID selID sportName
    competitionID competitionName country eventName startsAt eventStatus marketName marketType "OPEN"
    targetValue isMain closesAt selName true selTarget prob 0 0 "" "" (fnum 0) 0 "" "" "".

Definition selectionID (m : Market) (i : nat) : string := gm_ConditionID m +:+ "-" +:+ pretty (Z.of_nat i).

Definition allowed_market (m : Market) : bool :=
  bool_decide (is_Some (allowedTypes (SportsMarketType m))) && negb (gm_Closed m) && gm_Active m.

(** The upserts of one market: none when its outcomes or prices cannot be read. *)
Definition market_upserts (n : PolymarketNormaliser) (ev : GammaEvent F) (startsAt eventStatus : string)
    (mains : gset string) (m : Market) : list (NormalisedMarketEvent F) :=
  let ourType := our_type m in
  match ParseOutcomes m, ParseOutcomePrices m with
  | Some [o0; o1], Some [q0; q1] =>
      let sels := buildSelections ourType (Title ev) (o0, o1) (q0, q1) (Line m) in
      let targetValue := match sels with [] => fnum 0 | s :: _ => sel_row_targetValue s end in
      imap (λ i sel,
        catalogUpsert (pn_sportID n) (pn_sportName n) (pn_competitionID n) (pn_competitionName n) "US"
          (ge_ID ev) (ReplaceAll (Title ev) " vs. " " @ ") startsAt eventStatus (gm_ConditionID m)
          (buildMarketName (Title ev) ourType (Line m) (Name m)) ourType targetValue
          (bool_decide (gm_ConditionID m ∈ mains)) startsAt (selectionID m i) (sel_row_name sel)
          (sel_row_targetValue sel) (sel_row_prob sel)) sels
  | _, _ => []
  end.

Definition polymarket_events (n : PolymarketNormaliser) (now : Z) (ev : GammaEvent F) :
    result string (list (NormalisedMarketEvent F)) :=
  match gameStartTime (Markets ev) with
  | None => Err "polymarket normaliser: no game start time"
  | Some startTime =>
      let liveWindow := now - 6 * hour_us in
      let cutoff := now + lookAheadDays * 24 * hour_us in
      if (startTime <? liveWindow) || (cutoff <? startTime) then Ok [] else
      let eventStatus := if negb (now <? startTime) then "LIVE" else "SCHEDULED" in
      let startsAt := FormatRFC3339 startTime in
      let allowed := filter (λ m, allowed_market m = true) (Markets ev) in
      let mains := computeIsMain allowed in
      Ok (flat_map (market_upserts n ev startsAt eventStatus mains) allowed ++ (priceUpdate <$> allowed))
  end.

#[export] Instance polymarket_normalise : Normaliser F PolymarketNormaliser := λ n now raw,
  match UnmarshalValue (Data raw) with
  | None => Err "polymarket normaliser: unmarshal"
  | Some ev => polymarket_events n now ev
  end.

(** ** Political questions *)

Definition open_binary (m : Market) : bool :=
  negb (gm_Closed m || negb (gm_Active m) || negb (SportsMarketType m =? "")%string).

Definition findEarliestEnd (markets : list Market) : Z :=
  let '(earliest, found) :=
    foldl (λ '(earliest, found) m,
      match parseEndDate (EndDate m) with
      | Some t => if t <? earliest then (t, true) else (earliest, found)
      | None => (earliest, found)
      end) (year_9999, false) markets in
  if found : bool then earliest else zero_time.

Definition soonest_market (markets : list Market) : string :=
  (foldl (λ '(mainID, soonest) m,
     match parseEndDate (EndDate m) with
     | Some t => if t <? soonest then (gm_ConditionID m, t) else (mainID, soonest)
     | None => (mainID, soonest)
     end) (EmptyString, year_9999) markets).1.

Definition question_upserts (n : PoliticsNormaliser) (ev : GammaEvent F) (startsAt mainID : string)
    (m : Market) : list (NormalisedMarketEvent F) :=
  match ParseOutcomePrices m with
  | Some (q0 :: q1 :: _) =>
      let p0 := clampProb (ParseFloat q0) in
      let p1 := clampProb (ParseFloat q1) in
      let closesAt := match parseEndDate (EndDate m) with Some t => FormatRFC3339 t | None => "" end in
      imap (λ i selName,
        catalogUpsert (pol_sportID n) (pol_sportName n) (pol_competitionID n) (pol_competitionName n)
          (pol_country n) (ge_ID ev) (Title ev) startsAt "SCHEDULED" (gm_ConditionID m) (Question m)
          "BINARY" (fnum 0) (gm_ConditionID m =? mainID)%string closesAt (selectionID m i) selName
          (fnum 0) (if (i =? 1)%nat then p1 else p0)) ["Yes"; "No"]
  | _ => []
  end.

Definition politics_events (n : PoliticsNormaliser) (now : Z) (ev : GammaEvent F) :
    list (NormalisedMarketEvent F) :=
  let open := filter (λ m, open_binary m = true) (Markets ev) in
  if bool_decide (open = []) then [] else
  let earliestEnd := findEarliestEnd open in
  if earliestEnd =? zero_time then [] else
  if now + lookAheadDays * 24 * hour_us <? earliestEnd then [] else
  flat_map (question_upserts n ev (FormatRFC3339 earliestEnd) (soonest_market open)) open ++
    (priceUpdate <$> open).

#[export] Instance politics_normalise : Normaliser F PoliticsNormaliser := λ n now raw,
  match UnmarshalValue (Data raw) with
  | None => Err "politics normaliser: unmarshal"
  | Some ev => Ok (politics_events n now ev)
  end.
End Normaliser.

(** ** Lemmas *)

Lemma ours_ok ty ours : allowedTypes ty = Some ours → market_type_ok ours = true.
Proof. unfold allowedTypes. repeat case_match; try done; by intros [= <-]. Qed.

(** A time of the calendar printed to the second. *)
Definition calendar (t : Z) : Prop := -719528 * day_s * second_us <= t < 2932897 * day_s * second_us.

Lemma FormatRFC3339_parse t :
  calendar t → ParseRFC3339Nano (FormatRFC3339 t) = Some (t / second_us * second_us).
Proof.
  unfold calendar, FormatRFC3339. intros Ht. apply RFC3339Nano_parse_format.
  unfold day_s, second_us in *. Z.to_euclidean_division_equations. lia.
Qed.

Section Lemmas.
Context {F : Type} `{FloatOps F} `{GoFormat F} `{!FiniteZero F}.
Implicit Types (m : GammaMarket F) (ev : GammaEvent F) (e : NormalisedMarketEvent F).

(** A probability the feed offers: none, or between 2 and 98 percent. *)
Definition clamped (p : F) : Prop := p = fnum 0 ∨ fgt p (lit 98 100) = false ∧ flt p (lit 2 100) = false.
Lemma clampProb_clamped p : clamped (clampProb p).
Proof.
  unfold clampProb. destruct (fgt p _ || _) eqn:Hp; [by left|]. right. by apply orb_false_iff.
Qed.

Lemma buildSelections_two ty title os qs line :
  ∃ s0 s1, buildSelections ty title os qs line = [s0; s1] ∧
    sel_row_prob s0 = clampProb (ParseFloat qs.1) ∧ sel_row_prob s1 = clampProb (ParseFloat qs.2).
Proof.
  unfold buildSelections. destruct (ty =? "SPREAD")%string; [destruct (split_title _ _ _)|destruct (ty =? "TOTAL")%string];
    by eexists _, _.
Qed.

(** What is emitted for one market. *)
Record upsert_of (n : PolymarketNormaliser) ev (startsAt eventStatus : string) m (i : nat) e : Prop := {
  uo_type : EventType e = "catalog.upsert";
  uo_ids : EventID e = ge_ID ev ∧ ev_MarketID e = gm_ConditionID m ∧ ev_SelectionID e = selectionID m i ∧
    EventName e = ReplaceAll (Title ev) " vs. " " @ ";
  uo_sport : SportID e = pn_sportID n ∧ SportName e = pn_sportName n ∧
    CompetitionID e = pn_competitionID n ∧ CompetitionName e = pn_competitionName n;
  uo_status : EventStatus e = eventStatus ∧ MarketStatus e = "OPEN" ∧ MarketType e = our_type m;
  uo_times : StartsAt e = startsAt ∧ ClosesAt e = startsAt;
  uo_prob : clamped (FeedProbability e)
}.

Lemma market_upserts_two n ev startsAt status mains m o0 o1 q0 q1 :
  ParseOutcomes m = Some [o0; o1] → ParseOutcomePrices m = Some [q0; q1] →
  ∃ e0 e1, market_upserts n ev startsAt status mains m = [e0; e1] ∧
    upsert_of n ev startsAt status m 0 e0 ∧ upsert_of n ev startsAt status m 1 e1.
Proof.
  intros Ho Hq. unfold market_upserts. rewrite Ho, Hq.
  destruct (buildSelections_two (our_type m) (Title ev) (o0, o1) (q0, q1) (Line m)) as (s0&s1&->&Hp0&Hp1).
  eexists _, _. split; [done|]. split; split; try done; cbn; [rewrite Hp0|rewrite Hp1]; apply clampProb_clamped.
Qed.

Lemma market_upserts_elem n ev startsAt status mains m e :
  e ∈ market_upserts n ev startsAt status mains m → ∃ i, (i < 2)%nat ∧ upsert_of n ev startsAt status m i e.
Proof.
  intros He. unfold market_upserts in He.
  destruct (ParseOutcomes m) as [[|o0 [|o1 []]]|] eqn:Ho; try by apply not_elem_of_nil in He.
  destruct (ParseOutcomePrices m) as [[|q0 [|q1 []]]|] eqn:Hq; try by apply not_elem_of_nil in He.
  destruct (market_upserts_two n ev startsAt status mains m o0 o1 q0 q1 Ho Hq) as (e0&e1&Heq&H0'&H1').
  unfold market_upserts in Heq. rewrite Ho, Hq in Heq. rewrite Heq in He.
  apply elem_of_cons in He as [->|He]; [by exists 0%nat; split; [lia|]|].
  apply list_elem_of_singleton in He as ->. by exists 1%nat; split; [lia|].
Qed.

(** The two parts of what is emitted for a game. *)
Lemma polymarket_events_inv n now ev events :
  polymarket_events n now ev = Ok events → events ≠ [] →
  ∃ start,
    let status := if negb (now <? start) then "LIVE" else "SCHEDULED" in
    let allowed := filter (λ m, allowed_market m = true) (Markets ev) in
    gameStartTime (Markets ev) = Some start ∧ now - 6 * hour_us <= start <= now + lookAheadDays * 24 * hour_us ∧
    events = flat_map (market_upserts n ev (FormatRFC3339 start) status (computeIsMain allowed)) allowed ++
             (priceUpdate <$> allowed).
Proof.
  unfold polymarket_events. destruct (gameStartTime _) as [start|]; [|done].
  destruct (_ || _) eqn:Hw; [by intros [= <-]|]. intros [= <-] _. exists start.
  apply orb_false_iff in Hw as [?%Z.ltb_ge ?%Z.ltb_ge]. by split_and!.
Qed.

Lemma elem_of_flat_map {A B} (f : A → list B) xs y : y ∈ flat_map f xs ↔ ∃ x, x ∈ xs ∧ y ∈ f x.
Proof.
  rewrite list_elem_of_In, in_flat_map. split; intros (x&Hx&Hy); exists x; by rewrite !list_elem_of_In in *.
Qed.
(** Where an upsert comes from. *)
Lemma polymarket_upsert_inv (n : PolymarketNormaliser) now (raw : RawProviderEvent F) ev events e :
  UnmarshalValue (Data raw) = Some ev → Normalise n now raw = Ok events → e ∈ events →
  EventType e = "catalog.upsert" →
  ∃ start m i,
    gameStartTime (Markets ev) = Some start ∧ now - 6 * hour_us <= start <= now + lookAheadDays * 24 * hour_us ∧
    m ∈ Markets ev ∧ gm_Active m = true ∧ gm_Closed m = false ∧
    allowedTypes (SportsMarketType m) = Some (MarketType e) ∧ (i < 2)%nat ∧
    upsert_of n ev (FormatRFC3339 start) (if now <? start then "SCHEDULED" else "LIVE") m i e.
Proof.
  intros Hu Hn He Ht. unfold Normalise, polymarket_normalise in Hn. rewrite Hu in Hn.
  destruct (polymarket_events_inv n now ev events Hn) as (start&Hs&Hw&->); [by intros ->; apply not_elem_of_nil in He|].
  apply elem_of_app in He as [He|He].
  2:{ apply list_elem_of_fmap in He as (m&->&_). done. }
  apply elem_of_flat_map in He as (m&[Ha Hm]%list_elem_of_filter&He).
  apply market_upserts_elem in He as (i&Hi&Hof).
  unfold allowed_market in Ha. apply andb_true_iff in Ha as [[Hat%bool_decide_eq_true Hc%negb_true_iff]%andb_true_iff Hact].
  destruct Hat as [ours Hat]. exists start, m, i. split_and!; try done; try lia.
  - rewrite Hat. f_equal. destruct Hof as [_ _ _ (_&_&->) _ _]. unfold our_type. by rewrite Hat.
  - by destruct (now <? start).
Qed.
(** The two scans of a question's ends run in step. *)
Lemma soonest_scan (markets : list (GammaMarket F)) id0 t0 (found0 : bool) :
  let '(mainID, soonest) := foldl (λ '(mainID, soonest) m,
     match parseEndDate (EndDate m) with
     | Some t => if t <? soonest then (gm_ConditionID m, t) else (mainID, soonest)
     | None => (mainID, soonest)
     end) (id0, t0) markets in
  let '(earliest, found) := foldl (λ '(earliest, found) m,
      match parseEndDate (EndDate m) with
      | Some t => if t <? earliest then (t, true) else (earliest, found)
      | None => (earliest, found)
      end) (t0, found0) markets in
  earliest = soonest ∧ soonest <= t0 ∧
  (∀ m t, m ∈ markets → parseEndDate (EndDate m) = Some t → soonest <= t) ∧
  ((found = found0 ∧ mainID = id0 ∧ soonest = t0) ∨
   found = true ∧ ∃ m, m ∈ markets ∧ gm_ConditionID m = mainID ∧ parseEndDate (EndDate m) = Some soonest).
Proof.
  revert id0 t0 found0. induction markets as [|m markets IH]; intros id0 t0 found0; cbn [foldl].
  { split_and!; [done|lia| |by left]. by intros ? ? ?%not_elem_of_nil. }
  destruct (parseEndDate (EndDate m)) as [t|] eqn:Hm; [destruct (Z.ltb_spec t t0)|];
    [specialize (IH (gm_ConditionID m) t true)|specialize (IH id0 t0 found0)..];
    destruct (foldl _ _ markets) as [mainID soonest], (foldl _ _ markets) as [earliest found];
    destruct IH as (->&Hle&Hall&Hor); (split_and!; [done|lia| |]).
  1,3,5: intros m' t' [->|Hin]%elem_of_cons Ht'; [rewrite Hm in Ht'; (discriminate || injection Ht' as <-; lia)|eauto].
  all: destruct Hor as [(->&->&->)|(->&m'&?&?&?)];
    [|right; split; [done|]; exists m'; split_and!; [by apply list_elem_of_further|done..]].
  - right. split; [done|]. exists m. split_and!; [apply list_elem_of_here|done..].
  - by left.
  - by left.
Qed.

(** The soonest question of an event. *)
Lemma findEarliestEnd_soonest (markets : list (GammaMarket F)) :
  findEarliestEnd markets ≠ zero_time →
  ∃ main, main ∈ markets ∧ soonest_market markets = gm_ConditionID main ∧
    parseEndDate (EndDate main) = Some (findEarliestEnd markets) ∧
    ∀ m t, m ∈ markets → parseEndDate (EndDate m) = Some t → findEarliestEnd markets <= t.
Proof.
  unfold findEarliestEnd, soonest_market. pose proof (soonest_scan markets EmptyString year_9999 false) as Hs.
  destruct (foldl _ _ _) as [mainID soonest]. destruct (foldl _ _ _) as [earliest found].
  destruct Hs as (->&_&Hall&[(->&_&_)|(->&m&Hin&Hid&Hp)]); [done|]. intros _. exists m. by split_and!.
Qed.
End Lemmas.

Section Mains.
Context `{GoFormat R}.
Implicit Types (m : GammaMarket R).

(** The scan of one type's lines, from the best one so far. *)
Lemma best_line_scan group id0 (d0 : R) :
  let '(id, d) := foldl (λ '(bestID, bestDist) m,
     match line_dist m with
     | Some dist => if flt dist bestDist then (gm_ConditionID m, dist) else (bestID, bestDist)
     | None => (bestID, bestDist)
     end) (id0, d0) group in
  ((id, d) = (id0, d0) ∨ ∃ m, m ∈ group ∧ id = gm_ConditionID m ∧ line_dist m = Some d ∧ (d < d0)%R) ∧
  (d <= d0)%R ∧ ∀ m d', m ∈ group → line_dist m = Some d' → (d <= d')%R.
Proof.
  revert id0 d0. induction group as [|m group IH]; intros id0 d0; cbn [foldl].
  - split_and!; [by left|lra|]. by intros ? ? ?%not_elem_of_nil.
  - set (step := match line_dist m with Some _ => _ | None => _ end).
    assert ((step = (id0, d0) ∧ ∀ d', line_dist m = Some d' → (d0 <= d')%R) ∨
            ∃ dm, step = (gm_ConditionID m, dm) ∧ line_dist m = Some dm ∧ (dm < d0)%R) as Hstep.
    { unfold step. destruct (line_dist m) as [dm|]; [|by left].
      change (flt dm d0) with (Rltb dm d0). destruct (Rltb dm d0) eqn:Hd.
      - right. exists dm. split_and!; [done..|by apply Rltb_true].
      - left. split; [done|]. intros d' [= <-]. by apply Rltb_false. }
    destruct Hstep as [[-> Hm]|(dm&->&Hm&Hlt)].
    + specialize (IH id0 d0). destruct (foldl _ _ _) as [id d]. destruct IH as (Hor&Hle&Hall).
      split_and!; [|done|].
      * destruct Hor as [?|(m'&?&?&?&?)]; [by left|]. right. exists m'. split_and!; [by apply list_elem_of_further|done..].
      * intros m' d' [->|Hin]%elem_of_cons Hd'; [|by apply (Hall m')]. specialize (Hm d' Hd'). lra.
    + specialize (IH (gm_ConditionID m) dm). destruct (foldl _ _ _) as [id d]. destruct IH as (Hor&Hle&Hall).
      split_and!; [|lra|].
      * right. destruct Hor as [[= -> ->]|(m'&?&?&?&?)].
        -- exists m. split_and!; [apply list_elem_of_here|done..].
        -- exists m'. split_and!; [by apply list_elem_of_further|done|done|lra].
      * intros m' d' [->|Hin]%elem_of_cons Hd'; [|by apply (Hall m')]. rewrite Hm in Hd'.
        injection Hd' as <-. lra.
Qed.

(** The chosen line of a group: one of its lines, the closest to even money. *)
Lemma best_line_spec group id :
  best_line group = id → id ≠ EmptyString →
  ∃ m d, m ∈ group ∧ gm_ConditionID m = id ∧ line_dist m = Some d ∧
    ∀ m' d', m' ∈ group → line_dist m' = Some d' → (d <= d')%R.
Proof.
  unfold best_line. pose proof (best_line_scan group EmptyString MaxFloat64) as Hs.
  destruct (foldl _ _ _) as [id' d]. cbn [fst]. intros -> Hid.
  destruct Hs as ([[= -> ->]|(m&Hm&Hi&Hd&_)]&_&Hall); [done|]. exists m, d. by split_and!.
Qed.
End Mains.

Lemma NoDup_fmap_inj_in {A B} (f : A → B) (l : list A) x y :
  NoDup (f <$> l) → x ∈ l → y ∈ l → f x = f y → x = y.
Proof.
  intros Hn [i Hi]%list_elem_of_lookup [j Hj]%list_elem_of_lookup Hf.
  assert (i = j) as ->; [|congruence].
  apply (NoDup_lookup (f <$> l) i j (f x)); [done|by rewrite list_lookup_fmap, Hi|].
  by rewrite list_lookup_fmap, Hj, Hf.
Qed.

Lemma elem_of_mains {F} `{FloatOps F} `{GoFormat F} (markets : list (GammaMarket F)) x :
  let by_type ty := filter (λ m, our_type m = ty) markets in
  x ∈ computeIsMain markets ↔
    (∃ m, m ∈ by_type "ML" ∧ gm_ConditionID m = x) ∨
    x ≠ EmptyString ∧ (x = best_line (by_type "SPREAD") ∨ x = best_line (by_type "TOTAL")).
Proof.
  cbn zeta. unfold computeIsMain.
  assert (∀ id (s : gset string), x ∈ (if (id =? "")%string then s else {[id]} ∪ s) ↔ x ∈ s ∨ x ≠ EmptyString ∧ x = id)
    as Hadd. { intros id s. destruct (String.eqb_spec id ""); set_solver. }
  rewrite !Hadd, elem_of_list_to_set, list_elem_of_fmap. naive_solver.
Qed.

(** ** Properties *)

(** Over exact numbers, whatever the prices are read as: every moneyline
    market is a main one; of the spreads, and of the totals, at most one is, and
    it is one whose favourite is closest to even money. *)
Theorem computeIsMain_spec `{GoFormat R} (markets : list (GammaMarket R)) :
  NoDup (gm_ConditionID <$> markets) →
  (∀ m, m ∈ markets → our_type m = "ML" → gm_ConditionID m ∈ computeIsMain markets) ∧
  ∀ ty m, ty ∈ ["SPREAD"; "TOTAL"] → m ∈ markets → our_type m = ty → gm_ConditionID m ∈ computeIsMain markets →
    (∀ m', m' ∈ markets → our_type m' = ty → gm_ConditionID m' ∈ computeIsMain markets → m' = m) ∧
    ∃ d, line_dist m = Some d ∧
      ∀ m' d', m' ∈ markets → our_type m' = ty → line_dist m' = Some d' → (d <= d')%R.
Proof.
  intros Hn. split.
  { intros m Hm Hty. apply elem_of_mains. left. exists m. by rewrite list_elem_of_filter. }
  assert (∀ ty m, ty ∈ ["SPREAD"; "TOTAL"] → m ∈ markets → our_type m = ty → gm_ConditionID m ∈ computeIsMain markets →
    gm_ConditionID m = best_line (filter (λ m, our_type m = ty) markets) ∧
    ∃ d, line_dist m = Some d ∧
      ∀ m' d', m' ∈ markets → our_type m' = ty → line_dist m' = Some d' → (d <= d')%R) as Hbest.
  { intros ty m Hty Hm Hmt [(m'&[Ht Hm']%list_elem_of_filter&Hid)|[Hne Hb]]%elem_of_mains.
    - rewrite (NoDup_fmap_inj_in _ _ _ _ Hn Hm' Hm Hid) in Ht. rewrite Ht in Hmt. subst ty. set_solver.
    - assert (∃ ty', gm_ConditionID m = best_line (filter (λ m, our_type m = ty') markets)) as [ty' Hb']
        by (destruct Hb; eauto). clear Hb.
      destruct (best_line_spec _ _ (eq_sym Hb') Hne) as (m'&d&[Ht Hm']%list_elem_of_filter&Hid&Hd&Hall).
      rewrite (NoDup_fmap_inj_in _ _ _ _ Hn Hm' Hm Hid) in *. assert (ty' = ty) as -> by congruence.
      split; [done|]. exists d. split; [done|]. intros m1 d1 Hm1 Ht1. apply Hall. by rewrite list_elem_of_filter. }
  intros ty m Hty Hm Hmt Hmain. split; [|by apply Hbest].
  intros m' Hm' Hmt' Hmain'. apply (NoDup_fmap_inj_in _ _ _ _ Hn Hm' Hm).
  destruct (Hbest ty m) as [-> _]; [done..|]. by destruct (Hbest ty m') as [-> _].
Qed.

Section Properties.
Context {F : Type} `{FloatOps F} `{GoFormat F} `{!FiniteZero F}.
Implicit Types (m : GammaMarket F) (ev : GammaEvent F) (e : NormalisedMarketEvent F).

(** What is emitted for a game at all lies between six hours before and two
    weeks after now; every upsert is of an open market of a supported type of the
    game, under its own id and the id of one of its two selections; it has the
    statuses and types that the catalogue's constraints allow, LIVE exactly when
    the start has passed, a start that reads back to the second, and a
    probability that is none or between 2 and 98 percent. *)
Theorem polymarket_upserts_valid (n : PolymarketNormaliser) now (raw : RawProviderEvent F) ev events e :
  UnmarshalValue (Data raw) = Some ev → Normalise n now raw = Ok events → e ∈ events →
  EventType e = "catalog.upsert" →
  ∃ start m i,
    gameStartTime (Markets ev) = Some start ∧ now - 6 * hour_us <= start <= now + lookAheadDays * 24 * hour_us ∧
    m ∈ Markets ev ∧ gm_Active m = true ∧ gm_Closed m = false ∧
    allowedTypes (SportsMarketType m) = Some (MarketType e) ∧ (i < 2)%nat ∧
    EventID e = ge_ID ev ∧ ev_MarketID e = gm_ConditionID m ∧ ev_SelectionID e = selectionID m i ∧
    market_type_ok (MarketType e) = true ∧ market_status_ok (MarketStatus e) = true ∧
    event_status_ok (EventStatus e) = true ∧ (EventStatus e = "LIVE" ↔ start <= now) ∧
    (calendar start → ParseRFC3339Nano (StartsAt e) = Some (start / second_us * second_us) ∧
                      ClosesAt e = StartsAt e) ∧
    clamped (FeedProbability e).
Proof.
  intros Hu Hn He Ht.
  destruct (polymarket_upsert_inv n now raw ev events e) as (start&m&i&Hs&Hw&Hm&Ha&Hc&Hat&Hi&Hof); [done..|].
  destruct Hof as [_ (Hid&Hmid&Hsid&_) _ (Hst&Hms&Hmt) (Hsa&Hca) Hp]. exists start, m, i.
  rewrite Hms, Hst. split_and!; try done; try lia.
  - by apply ours_ok in Hat.
  - by destruct (now <? start).
  - destruct (Z.ltb_spec now start); split; [done|lia|done..].
  - intros Hcal. rewrite Hsa, Hca. split; [by apply FormatRFC3339_parse|done].
Qed.

(** The order of what is emitted: all upserts come before all price updates;
    the updates are those of the game's open markets of supported types, each
    once per market; and a market whose outcomes and prices can be read has both
    of its selections upserted. *)
Theorem polymarket_prices_follow_selections (n : PolymarketNormaliser) now (raw : RawProviderEvent F) ev events :
  UnmarshalValue (Data raw) = Some ev → Normalise n now raw = Ok events → events ≠ [] →
  ∃ upserts updates,
    events = upserts ++ updates ∧
    (∀ e, e ∈ upserts → EventType e = "catalog.upsert") ∧
    updates = priceUpdate <$> filter (λ m, allowed_market m = true) (Markets ev) ∧
    ∀ m o0 o1 q0 q1, m ∈ Markets ev → allowed_market m = true →
      ParseOutcomes m = Some [o0; o1] → ParseOutcomePrices m = Some [q0; q1] →
      ∃ e0 e1, e0 ∈ upserts ∧ e1 ∈ upserts ∧
        ev_MarketID e0 = gm_ConditionID m ∧ ev_SelectionID e0 = selectionID m 0 ∧
        FeedProbability e0 = clampProb (ParseFloat q0) ∧
        ev_MarketID e1 = gm_ConditionID m ∧ ev_SelectionID e1 = selectionID m 1 ∧
        FeedProbability e1 = clampProb (ParseFloat q1).
Proof.
  intros Hu Hn Hne. unfold Normalise, polymarket_normalise in Hn. rewrite Hu in Hn.
  destruct (polymarket_events_inv n now ev events Hn Hne) as (start&_&_&->).
  eexists _, _. split_and!; [done| |done|].
  - intros e (m&_&He)%elem_of_flat_map. apply market_upserts_elem in He as (i&_&He). apply He.
  - intros m o0 o1 q0 q1 Hm Ha Ho Hq.
    set (f := market_upserts n ev _ _ _).
    assert (∀ x, x ∈ f m → x ∈ flat_map f (filter (λ m, allowed_market m = true) (Markets ev))) as Hin.
    { intros x Hx. apply elem_of_flat_map. exists m. by rewrite list_elem_of_filter. }
    unfold f at 1, market_upserts in Hin. rewrite Ho, Hq in Hin. revert Hin.
    destruct (buildSelections_two (our_type m) (Title ev) (o0, o1) (q0, q1) (Line m)) as (s0&s1&->&Hp0&Hp1).
    cbn [fst snd] in Hp0, Hp1. rewrite <- Hp0, <- Hp1. cbn [imap]. intros Hin. eexists _, _. split_and!;
      [apply Hin, list_elem_of_here|apply Hin, list_elem_of_further, list_elem_of_here|done..].
Qed.
(** What is emitted for political questions: every upsert is of an open
    question with no sports type, as its Yes or its No; the event starts when the
    first of its open questions ends, at most two weeks from now, and that
    question is the main one. *)
Theorem politics_upserts_valid (n : PoliticsNormaliser) now (raw : RawProviderEvent F) ev events e :
  UnmarshalValue (Data raw) = Some ev → Normalise n now raw = Ok events → e ∈ events →
  EventType e = "catalog.upsert" →
  ∃ m main start,
    m ∈ Markets ev ∧ open_binary m = true ∧ main ∈ Markets ev ∧ open_binary main = true ∧
    EventID e = ge_ID ev ∧ ev_MarketID e = gm_ConditionID m ∧
    (ev_SelectionID e, ev_SelectionName e) ∈ [(selectionID m 0, "Yes"); (selectionID m 1, "No")] ∧
    MarketType e = "BINARY" ∧ MarketStatus e = "OPEN" ∧ EventStatus e = "SCHEDULED" ∧
    clamped (FeedProbability e) ∧
    parseEndDate (EndDate main) = Some start ∧ StartsAt e = FormatRFC3339 start ∧
    start <= now + lookAheadDays * 24 * hour_us ∧
    (∀ m' t, m' ∈ Markets ev → open_binary m' = true → parseEndDate (EndDate m') = Some t → start <= t) ∧
    (IsMain e = true ↔ gm_ConditionID m = gm_ConditionID main).
Proof.
  intros Hu Hn He Ht. unfold Normalise, politics_normalise in Hn. rewrite Hu in Hn. injection Hn as <-.
  unfold politics_events in He. case_bool_decide; [by apply not_elem_of_nil in He|].
  destruct (Z.eqb_spec (findEarliestEnd (filter (λ m, open_binary m = true) (Markets ev))) zero_time) as [|Hz];
    [by apply not_elem_of_nil in He|].
  destruct (Z.ltb_spec (now + lookAheadDays * 24 * hour_us)
    (findEarliestEnd (filter (λ m, open_binary m = true) (Markets ev)))); [by apply not_elem_of_nil in He|].
  destruct (findEarliestEnd_soonest _ Hz) as (main&[Hmo Hmm]%list_elem_of_filter&Hid&Hp&Hall).
  apply elem_of_app in He as [He|He]; [|by apply list_elem_of_fmap in He as (m&->&_)].
  apply elem_of_flat_map in He as (m&[Ho Hm]%list_elem_of_filter&He).
  exists m, main. eexists. unfold question_upserts in He. rewrite Hid in He.
  destruct (ParseOutcomePrices m) as [[|q0 [|q1 qs]]|]; try by apply not_elem_of_nil in He.
  cbn [imap] in He. apply elem_of_cons in He as [->|He%list_elem_of_singleton]; [|subst e].
  all: split_and!; try done; try apply clampProb_clamped;
    [set_solver|intros m' t Hm' Ho'; apply Hall; by apply list_elem_of_filter|apply String.eqb_eq..].
Qed.
End Properties.

(** ** With the catalogue's consumer *)

Section Stored.
Context {F : Type} `{FloatOps F} `{Postgres F}.
Implicit Types (e : NormalisedMarketEvent F) (d : CatalogDB F).

(** An upsert that names everything it refers to. *)
Definition named e : Prop :=
  both (SportID e) (SportName e) = true ∧ both (CompetitionID e) (CompetitionName e) = true ∧
  both (EventID e) (EventName e) = true ∧ both (ev_MarketID e) (ev_MarketName e) = true ∧
  both (ev_SelectionID e) (ev_SelectionName e) = true.

(** The values of its times and numbers in the columns. *)
Record columns : Type := Columns { c_starts : Z; c_closes : Z; c_target : F; c_sel_target : F; c_prob : F }.
Record fits e (c : columns) : Prop := {
  fits_starts : timestamptz (StartsAt e) = Some (c_starts c);
  fits_closes : timestamptz (ClosesAt e) = Some (c_closes c);
  fits_target : numeric 10 5 (TargetValue e) = Some (c_target c);
  fits_sel_target : numeric 10 5 (SelTargetValue e) = Some (c_sel_target c);
  fits_prob : numeric 6 5 (FeedProbability e) = Some (c_prob c);
  fits_prob_ok : probability_ok (c_prob c) = true
}.

(** The rows of an upsert handled at [t]; what [old], if there is one, keeps. *)
Definition event_row (t : Z) e (c : columns) (old : option EventRow) : EventRow :=
  let r := default (Build_EventRow (CompetitionID e) "" 0 "" 0 0 "" "" 0) old in
  {| evt_competition_id := evt_competition_id r; evt_name := EventName e; evt_starts_at := c_starts c;
     evt_status := EventStatus e; evt_home_score := evt_home_score r; evt_away_score := evt_away_score r;
     evt_game_period := evt_game_period r; evt_game_clock := evt_game_clock r; evt_updated_at := t |}.
Definition market_row (t : Z) e (c : columns) (old : option (MarketRow F)) : MarketRow F :=
  let r := default (Build_MarketRow (EventID e) "" (MarketStatus e) t (Some (c_closes c)) 0 None (fnum 0) false) old in
  {| mk_event_id := mk_event_id r; mk_name := ev_MarketName e; mk_status := mk_status r;
     mk_opens_at := mk_opens_at r; mk_closes_at := mk_closes_at r; mk_updated_at := t;
     mk_type := Some (MarketType e); mk_target_value := c_target c; mk_is_main := IsMain e |}.
Definition selection_row e (c : columns) (old : option (SelectionRow F)) : SelectionRow F :=
  let r := default (Build_SelectionRow (ev_MarketID e) "" (SelActive e) (fnum 0) None) old in
  {| sel_market_id := sel_market_id r; sel_name := ev_SelectionName e; sel_active := sel_active r;
     sel_target_value := c_sel_target c; sel_feed_probability := Some (c_prob c) |}.

(** The tables after the upsert: a sport and a competition that are there stay as
    they are, the other three rows take the values of the event. *)
Definition stored (t : Z) e (c : columns) d : CatalogDB F := {|
  sports := sports d ∪ {[SportID e := SportName e]};
  competitions := competitions d ∪ {[CompetitionID e :=
    {| comp_sport_id := SportID e; comp_name := CompetitionName e; comp_country := Country e |}]};
  events := <[EventID e := event_row t e c (events d !! EventID e)]> (events d);
  markets := <[ev_MarketID e := market_row t e c (markets d !! ev_MarketID e)]> (markets d);
  selections := <[ev_SelectionID e := selection_row e c (selections d !! ev_SelectionID e)]> (selections d) |}.

Lemma union_singleton_present {V} (m : gmap string V) k v x : m !! k = Some x → m ∪ {[k := v]} = m.
Proof.
  intros Hk. apply map_eq. intros k'. rewrite lookup_union. destruct (decide (k' = k)) as [->|Hne].
  - rewrite Hk. by destruct ({[k := v]} !! k).
  - rewrite lookup_singleton_ne by done. by destruct (m !! k').
Qed.
Lemma union_singleton_absent {V} (m : gmap string V) k v : m !! k = None → m ∪ {[k := v]} = <[k := v]> m.
Proof. intros Hk. by rewrite insert_union_singleton_r. Qed.

Lemma upsertSport_stores e d :
  upsertSport e d = Some (set_sports (sports d ∪ {[SportID e := SportName e]}) d).
Proof.
  unfold upsertSport. destruct (sports d !! SportID e) eqn:Hs; f_equal.
  - rewrite (union_singleton_present _ _ _ _ Hs). by destruct d.
  - by rewrite union_singleton_absent.
Qed.
Lemma upsertCompetition_stores e d :
  is_Some (sports d !! SportID e) →
  upsertCompetition e d = Some (set_competitions (competitions d ∪ {[CompetitionID e :=
    {| comp_sport_id := SportID e; comp_name := CompetitionName e; comp_country := Country e |}]}) d).
Proof.
  intros [s Hs]. unfold upsertCompetition. rewrite Hs. destruct (competitions d !! CompetitionID e) eqn:Hc; cbn; f_equal.
  - rewrite (union_singleton_present _ _ _ _ Hc). by destruct d.
  - by rewrite union_singleton_absent.
Qed.
Lemma upsertEvent_stores t e c d :
  fits e c → event_status_ok (EventStatus e) = true → is_Some (competitions d !! CompetitionID e) →
  upsertEvent t e d = Some (set_events (<[EventID e := event_row t e c (events d !! EventID e)]> (events d)) d).
Proof.
  intros [Hs _ _ _ _ _] Hst [x Hc]. unfold upsertEvent, event_row. rewrite Hs, Hst, Hc. cbn.
  by destruct (events d !! EventID e).
Qed.
Lemma upsertMarket_stores t e c d :
  fits e c → market_status_ok (MarketStatus e) = true → market_type_ok (MarketType e) = true →
  is_Some (events d !! EventID e) →
  upsertMarket t e d =
    Some (set_markets (<[ev_MarketID e := market_row t e c (markets d !! ev_MarketID e)]> (markets d)) d).
Proof.
  intros [_ Hc Ht _ _ _] Hms Hmt [ev Hev]. unfold upsertMarket, market_row. rewrite Hc, Ht, Hms, Hmt, Hev. cbn.
  by destruct (markets d !! ev_MarketID e).
Qed.
Lemma upsertSelection_stores e c d :
  fits e c → is_Some (markets d !! ev_MarketID e) →
  upsertSelection e d =
    Some (set_selections (<[ev_SelectionID e := selection_row e c (selections d !! ev_SelectionID e)]> (selections d)) d).
Proof.
  intros [_ _ _ Ht Hp Hok] [m Hm]. unfold upsertSelection, selection_row. rewrite Ht, Hp. cbn. rewrite Hok, Hm. cbn.
  by destruct (selections d !! ev_SelectionID e).
Qed.

Lemma union_singleton_is_Some {V} (m : gmap string V) k v : is_Some ((m ∪ {[k := v]}) !! k).
Proof.
  destruct (m !! k) as [x|] eqn:Hk; [rewrite (union_singleton_present _ _ _ _ Hk); by eexists|].
  rewrite union_singleton_absent, lookup_insert_eq by done. by eexists.
Qed.

(** An upsert whose values fit is stored, all of it. *)
Lemma handleCatalogUpsert_stores e c d t k :
  named e → fits e c → event_status_ok (EventStatus e) = true → market_status_ok (MarketStatus e) = true →
  market_type_ok (MarketType e) = true →
  handleCatalogUpsert e (World d t k []) = (World (stored t e c d) t k [], Ok tt).
Proof.
  intros (N1&N2&N3&N4&N5) Hf Hes Hms Hmt. rewrite handleCatalogUpsert_run. unfold upsertStatements, guarded.
  rewrite N1, N2, N3, N4, N5. cbn [run_statements]. rewrite upsertSport_stores.
  rewrite upsertCompetition_stores by apply union_singleton_is_Some.
  rewrite (upsertEvent_stores t e c) by (first [done|apply union_singleton_is_Some]).
  rewrite (upsertMarket_stores t e c) by (first [done|cbn; rewrite lookup_insert_eq; by eexists]).
  rewrite (upsertSelection_stores e c) by (first [done|cbn; rewrite lookup_insert_eq; by eexists]). done.
Qed.

(** A market whose closing time the database cannot read is not stored. *)
Lemma handleCatalogUpsert_no_market e d t k w' r :
  both (ev_MarketID e) (ev_MarketName e) = true → timestamptz (ClosesAt e) = None →
  handleCatalogUpsert e (World d t k []) = (w', r) →
  markets (db w') = markets d ∧ selections (db w') = selections d ∧ r ≠ Ok tt.
Proof.
  intros N4 Hc. rewrite handleCatalogUpsert_run. unfold upsertStatements. cbn [run_statements].
  assert (∀ d, guarded (both (ev_MarketID e) (ev_MarketName e)) (upsertMarket t e) d = None) as Hmk.
  { intros d0. unfold guarded, upsertMarket. by rewrite N4, Hc. }
  assert (∀ b f, (∀ d d', f d = Some d' → markets d' = markets d ∧ selections d' = selections d) →
    ∀ d d', guarded b f d = Some d' → markets d' = markets d ∧ selections d' = selections d) as Hg.
  { intros b f Hf d0 d' Hd. unfold guarded in Hd. destruct b; [by apply Hf|]. by injection Hd as <-. }
  assert (∀ d d', upsertSport e d = Some d' → markets d' = markets d ∧ selections d' = selections d) as S1.
  { intros d0 d'. unfold upsertSport. case_match; by intros [= <-]. }
  assert (∀ d d', upsertCompetition e d = Some d' → markets d' = markets d ∧ selections d' = selections d) as S2.
  { intros d0 d'. unfold upsertCompetition. case_match; [by intros [= <-]|].
    destruct (sports d0 !! SportID e); [|done]. by intros [= <-]. }
  assert (∀ d d', upsertEvent t e d = Some d' → markets d' = markets d ∧ selections d' = selections d) as S3.
  { intros d0 d'. unfold upsertEvent. destruct (timestamptz (StartsAt e)); [|done]. cbn. case_match; [done|].
    case_match; [by intros [= <-]|]. destruct (competitions d0 !! CompetitionID e); [|done]. by intros [= <-]. }
  destruct (guarded _ (upsertSport e) d) as [d1|] eqn:E1; [apply (Hg _ _ S1) in E1 as [<- <-]|by intros [= <- <-]].
  destruct (guarded _ (upsertCompetition e) d1) as [d2|] eqn:E2; [apply (Hg _ _ S2) in E2 as [<- <-]|by intros [= <- <-]].
  destruct (guarded _ (upsertEvent t e) d2) as [d3|] eqn:E3; [apply (Hg _ _ S3) in E3 as [<- <-]|by intros [= <- <-]].
  rewrite Hmk. by intros [= <- <-].
Qed.

(** C36. The catalogue takes what the normaliser of games emits. An upsert that
    names what it refers to, and whose times and numbers fit the columns (with
    the values [c], the probability as the column rounds it), is stored without
    an error whatever the tables hold, when the database does not fail: the
    sport and the competition are added if they are new, the event, the market
    and the selection take the names, times, status, type, targets and
    probability of the upsert, an event that was there keeps its score and its
    competition, a market its status, its event and its times, a selection its
    market and whether it is active; and nothing else in the catalogue changes. *)
Theorem polymarket_upsert_is_stored `{GoFormat F} `{!FiniteZero F} (n : PolymarketNormaliser) now
    (raw : RawProviderEvent F) (ev : GammaEvent F) events e c d t k :
  UnmarshalValue (Data raw) = Some ev → Normalise n now raw = Ok events → e ∈ events →
  EventType e = "catalog.upsert" → named e → fits e c →
  handleCatalogUpsert e (World d t k []) = (World (stored t e c d) t k [], Ok tt).
Proof.
  intros Hu Hn He Ht Hnm Hf.
  destruct (polymarket_upsert_inv n now raw ev events e) as (start&m&i&_&_&_&_&_&Hat&_&Hof); [done..|].
  destruct Hof as [_ _ _ (Hst&Hms&_) _ _]. apply handleCatalogUpsert_stores; try done.
  - rewrite Hst. by destruct (now <? start).
  - by rewrite Hms.
  - by apply ours_ok in Hat.
Qed.

(** A political question whose end date cannot be read is given the empty
    string as its closing time, which the database refuses: handling an upsert of
    it leaves the catalogue's markets and selections as they were and is an
    error. *)
Theorem question_without_end_is_refused `{GoFormat F} `{!FiniteZero F} (n : PoliticsNormaliser)
    (ev : GammaEvent F) startsAt mainID (m : GammaMarket F) e d t k w r :
  timestamptz "" = None → parseEndDate (EndDate m) = None →
  gm_ConditionID m ≠ "" → Question m ≠ "" →
  e ∈ question_upserts n ev startsAt mainID m →
  handleCatalogUpsert e (World d t k []) = (w, r) →
  ClosesAt e = "" ∧ markets (db w) = markets d ∧ selections (db w) = selections d ∧ r ≠ Ok tt.
Proof.
  intros Hts Hend Hid Hq He Hr. unfold question_upserts in He.
  destruct (ParseOutcomePrices m) as [[|q0 [|q1 qs]]|]; try by apply not_elem_of_nil in He.
  rewrite Hend in He. cbn [imap] in He.
  assert (ClosesAt e = "" ∧ ev_MarketID e = gm_ConditionID m ∧ ev_MarketName e = Question m) as (Hc&Hm&Hn).
  { apply elem_of_cons in He as [->|He]; [done|]. apply elem_of_cons in He as [->|He]; [done|].
    by apply not_elem_of_nil in He. }
  split; [done|]. apply (handleCatalogUpsert_no_market _ _ _ _ _ _) in Hr; [done| |by rewrite Hc].
  unfold both. rewrite Hm, Hn. apply andb_true_iff. split; by apply negb_true_iff, String.eqb_neq.
Qed.
End Stored.

(** The sign of a level spread, in machine arithmetic: the second team's line
    is the negated zero, which is not below zero, and is named "+-0.0". *)
Theorem level_spread_is_named_minus_zero `{Platform} title (outcomes prices : string * string)
    (line : option binary64) :
  line = None ∨ line = Some (fnum 0) →
  let '(t0, t1) := split_title [" vs. "; " vs "; " @ "; "@"] title outcomes in
  sel_row_name <$> buildSelections "SPREAD" title outcomes prices line = [t0 +:+ " +0.0"; t1 +:+ " +-0.0"].
Proof.
  intros Hl. assert (derefLine line = fnum 0) as Hd by (by destruct Hl as [->| ->]).
  unfold buildSelections. rewrite Hd. cbn [String.eqb Ascii.eqb Bool.eqb].
  destruct (split_title _ _ _) as [t0 t1].
  assert (formatLineSign (fnum 0 : binary64) = "+0.0" ∧ formatLineSign (fneg (fnum 0 : binary64)) = "+-0.0")
    as [Hp Hm] by done.
  cbn [fmap list_fmap sel_row_name]. by rewrite Hp, Hm.
Qed.

(** ** Concrete runs *)

Section Witnesses.
#[local] Existing Instance inert_platform.
#[local] Instance pm_postgres : Postgres binary64 :=
  {| numeric _ _ x := Some x; timestamptz := ParseRFC3339Nano |}.

Definition quoted (s : string) : string := String "034" (s +:+ String "034" EmptyString).
Definition text_of_two (a b : string) : string := "[" +:+ quoted a +:+ ", " +:+ quoted b +:+ "]".

Definition ex_pm_market (cond ty : string) (line : option binary64) (p0 p1 : string) : GammaMarket binary64 :=
  Build_GammaMarket "1" cond "Celtics vs. Nets" "s" None ty line (text_of_two "Celtics" "Nets")
    (text_of_two p0 p1) "" "2026-03-02 00:00:00+00" "2026-03-02T00:00:00Z" true false.
Definition ex_pm_event : GammaEvent binary64 :=
  Build_GammaEvent "e1" "nba-bos-bkn" "Celtics vs. Nets" true false
    [ex_pm_market "c1" "moneyline" None "0.6" "0.4"; ex_pm_market "c2" "spreads" (Some (fneg (lit 55 10))) "0.5" "0.5"].
Definition ex_question (cond endDate : string) : GammaMarket binary64 :=
  Build_GammaMarket "2" cond "Will it pass?" "s" None "" None "" (text_of_two "0.995" "0.005") "" "" endDate true false.
Definition ex_question_event : GammaEvent binary64 :=
  Build_GammaEvent "e2" "bill" "The bill" true false [ex_question "c5" ""; ex_question "c6" "2026-03-02T00:00:00Z"].

Definition ex_nba : PolymarketNormaliser :=
  {| pn_sportID := "basketball"; pn_sportName := "Basketball"; pn_competitionID := "nba"; pn_competitionName := "NBA" |}.
Definition ex_politics : PoliticsNormaliser :=
  {| pol_sportID := "politics"; pol_sportName := "Politics"; pol_competitionID := "us"; pol_competitionName := "US";
     pol_country := "US" |}.
(** 1 March 2026. *)
Definition ex_pm_now : Z := 1772323200000000.
Definition ex_pm_raw (ev : GammaEvent binary64) : RawProviderEvent binary64 :=
  Build_RawProviderEvent "polymarket" (Doc (to_json ev)) 0.
Definition ex_pm_emitted : list (NormalisedMarketEvent binary64) :=
  match Normalise ex_nba ex_pm_now (ex_pm_raw ex_pm_event) with Ok l => l | Err _ => [] end.
Definition ex_pm_upsert : NormalisedMarketEvent binary64 :=
  default (priceUpdate (ex_question "" "")) (ex_pm_emitted !! 3%nat).

(** Prices are not read at all here: every one is a half. *)
#[local] Instance halves : GoFormat R :=
  {| ParseFloat _ := (1 / 2)%R; Sprintf_1f _ := "0.5"; MaxFloat64 := 1000%R;
     JSONText s := match json_strings s with Some l => Doc (JArr (JStr <$> l)) | None => Garbage s end |}.
Definition ex_spread (cond : string) : GammaMarket R :=
  Build_GammaMarket "1" cond "Celtics vs. Nets" "s" None "spreads" None "" (text_of_two "0.5" "0.5") "" "" "" true false.
Definition ex_spreads : list (GammaMarket R) := [ex_spread "c1"; ex_spread "c2"].

Lemma ex_spreads_first : gm_ConditionID (ex_spread "c1") ∈ computeIsMain ex_spreads.
Proof.
  apply elem_of_mains. right. split; [done|]. left.
  change (filter (λ m, our_type m = "SPREAD") ex_spreads) with ex_spreads.
  assert (∀ c, line_dist (ex_spread c) = Some 0%R) as Hd.
  { intros c. unfold line_dist. change (ParseOutcomePrices (ex_spread c)) with (Some ["0.5"; "0.5"]).
    cbn [mbind option_bind length Nat.ltb Nat.leb foldl ParseFloat halves]. unfold fgt, math_Abs, lit, fnum. cbn.
    rewrite (proj2 (Rltb_true 0 (1 / 2))) by lra. rewrite (proj2 (Rltb_false (1 / 2) (1 / 2))) by lra.
    rewrite (proj2 (Rleb_true (1 / 2 - 1 / 2) 0)) by lra. f_equal. lra. }
  unfold best_line, ex_spreads. cbn [foldl]. rewrite !Hd. unfold flt, MaxFloat64, real_ops, halves.
  rewrite (proj2 (Rltb_true 0 1000)) by lra. cbn beta iota. rewrite Hd.
  by rewrite (proj2 (Rltb_false 0 0)) by lra.
Qed.

Lemma computeIsMain_spec_witness :
  gm_ConditionID (ex_spread "c1") ∈ computeIsMain ex_spreads ∧
  ∀ m', m' ∈ ex_spreads → gm_ConditionID m' ∈ computeIsMain ex_spreads → our_type m' = "SPREAD" →
    m' = ex_spread "c1".
Proof.
  split; [exact ex_spreads_first|]. intros m' Hin Hm Ht. assert (NoDup (gm_ConditionID <$> ex_spreads)) as Hn.
  { apply (bool_decide_unpack _). vm_compute. exact I. }
  apply (computeIsMain_spec ex_spreads Hn) with (ty := "SPREAD") (m := ex_spread "c1");
    [apply list_elem_of_here|apply list_elem_of_here|reflexivity|exact ex_spreads_first|exact Hin|exact Ht|exact Hm].
Defined.

Lemma ex_pm_normalised : Normalise ex_nba ex_pm_now (ex_pm_raw ex_pm_event) = Ok ex_pm_emitted.
Proof. vm_compute. reflexivity. Qed.
Lemma ex_pm_upsert_emitted : ex_pm_upsert ∈ ex_pm_emitted.
Proof. apply (list_elem_of_lookup_2 _ 3%nat). vm_compute. reflexivity. Qed.
Definition ex_pm_columns : columns := {|
  c_starts := default 0 (ParseRFC3339Nano (StartsAt ex_pm_upsert));
  c_closes := default 0 (ParseRFC3339Nano (ClosesAt ex_pm_upsert));
  c_target := TargetValue ex_pm_upsert; c_sel_target := SelTargetValue ex_pm_upsert; c_prob := lit 1 2 |}.
Lemma ex_pm_fits : fits ex_pm_upsert ex_pm_columns.
Proof. split; vm_compute; reflexivity. Qed.
Lemma ex_pm_decoded : UnmarshalValue (Data (ex_pm_raw ex_pm_event)) = Some ex_pm_event.
Proof. vm_compute. reflexivity. Qed.

Lemma polymarket_upserts_valid_witness :
  ev_SelectionName ex_pm_upsert = "Nets +5.5" ∧
  ∃ start m i, gameStartTime (Markets ex_pm_event) = Some start ∧ ex_pm_now - 6 * hour_us <= start ∧
    m ∈ Markets ex_pm_event ∧ (i < 2)%nat ∧ ev_SelectionID ex_pm_upsert = selectionID m i.
Proof.
  split; [vm_compute; reflexivity|].
  destruct (polymarket_upserts_valid ex_nba ex_pm_now (ex_pm_raw ex_pm_event) ex_pm_event ex_pm_emitted ex_pm_upsert)
    as (start&m&i&Hs&[Hw _]&Hm&_&_&_&Hi&_&_&Hsel&_);
    [exact ex_pm_decoded|exact ex_pm_normalised|exact ex_pm_upsert_emitted|vm_compute; reflexivity|].
  exists start, m, i. split_and!; assumption.
Defined.

Lemma polymarket_prices_follow_selections_witness :
  length ex_pm_emitted = 6%nat ∧ ∃ upserts updates, ex_pm_emitted = upserts ++ updates ∧
    updates = priceUpdate <$> Markets ex_pm_event.
Proof.
  split; [vm_compute; reflexivity|].
  destruct (polymarket_prices_follow_selections ex_nba ex_pm_now (ex_pm_raw ex_pm_event) ex_pm_event ex_pm_emitted)
    as (upserts&updates&He&_&Hu&_); [exact ex_pm_decoded|exact ex_pm_normalised|vm_compute; discriminate|].
  exists upserts, updates. split; [exact He|]. rewrite Hu. reflexivity.
Defined.

Lemma polymarket_upsert_is_stored_witness :
  handleCatalogUpsert ex_pm_upsert (World (Build_CatalogDB ∅ ∅ ∅ ∅ ∅) 0 0 []) =
    (World (stored 0 ex_pm_upsert ex_pm_columns (Build_CatalogDB ∅ ∅ ∅ ∅ ∅)) 0 0 [], Ok tt) ∧
  sel_feed_probability <$> selections (stored 0 ex_pm_upsert ex_pm_columns (Build_CatalogDB ∅ ∅ ∅ ∅ ∅)) !! "c2-1" =
    Some (Some (lit 1 2)).
Proof.
  split; [|vm_compute; reflexivity].
  apply (polymarket_upsert_is_stored ex_nba ex_pm_now (ex_pm_raw ex_pm_event) ex_pm_event ex_pm_emitted ex_pm_upsert
    ex_pm_columns);
    [exact ex_pm_decoded|exact ex_pm_normalised|exact ex_pm_upsert_emitted|vm_compute; reflexivity
    |unfold named; split_and!; vm_compute; reflexivity|exact ex_pm_fits].
Defined.

Definition ex_politics_emitted : list (NormalisedMarketEvent binary64) :=
  politics_events ex_politics ex_pm_now ex_question_event.
Definition ex_politics_upsert : NormalisedMarketEvent binary64 :=
  default (priceUpdate (ex_question "" "")) (ex_politics_emitted !! 0%nat).
Lemma ex_politics_normalised :
  Normalise ex_politics ex_pm_now (ex_pm_raw ex_question_event) = Ok ex_politics_emitted.
Proof. vm_compute. reflexivity. Qed.

Lemma politics_upserts_valid_witness :
  (ev_MarketID ex_politics_upsert, IsMain ex_politics_upsert) = ("c5", false) ∧
  ∃ (m main : GammaMarket binary64) start, m ∈ Markets ex_question_event ∧ parseEndDate (EndDate main) = Some start ∧
    (IsMain ex_politics_upsert = true ↔ gm_ConditionID m = gm_ConditionID main).
Proof.
  split; [vm_compute; reflexivity|].
  destruct (politics_upserts_valid ex_politics ex_pm_now (ex_pm_raw ex_question_event) ex_question_event
    ex_politics_emitted ex_politics_upsert) as (m&main&start&Hm&_&_&_&_&_&_&_&_&_&_&Hs&_&_&_&Hmain);
    [vm_compute; reflexivity|exact ex_politics_normalised|apply (list_elem_of_lookup_2 _ 0%nat); vm_compute; reflexivity
    |vm_compute; reflexivity|].
  exists m, main, start. split; [exact Hm|split; [exact Hs|exact Hmain]].
Defined.

Lemma question_without_end_is_refused_witness :
  ex_politics_upsert ∈ ex_politics_emitted ∧
  ∃ w r, handleCatalogUpsert ex_politics_upsert (World (Build_CatalogDB ∅ ∅ ∅ ∅ ∅) 0 0 []) = (w, r) ∧
    markets (db w) = ∅ ∧ r ≠ Ok tt.
Proof.
  split; [apply (list_elem_of_lookup_2 _ 0%nat); vm_compute; reflexivity|].
  destruct (handleCatalogUpsert ex_politics_upsert (World (Build_CatalogDB ∅ ∅ ∅ ∅ ∅) 0 0 [])) as [w r] eqn:Hr.
  exists w, r. split; [reflexivity|].
  destruct (question_without_end_is_refused ex_politics ex_question_event "2026-03-02T00:00:00Z" "c6"
    (ex_question "c5" "") ex_politics_upsert (Build_CatalogDB ∅ ∅ ∅ ∅ ∅) 0 0 w r) as (_&Hm&_&Hne);
    [vm_compute; reflexivity|vm_compute; reflexivity|vm_compute; discriminate|vm_compute; discriminate
    |apply (list_elem_of_lookup_2 _ 0%nat); vm_compute; reflexivity|exact Hr|].
  split; [exact Hm|exact Hne].
Defined.

Lemma level_spread_is_named_minus_zero_witness :
  sel_row_name <$> buildSelections (F := binary64) "SPREAD" "Celtics vs. Nets" ("", "") ("0.5", "0.5") None =
    ["Celtics +0.0"; "Nets +-0.0"].
Proof. apply (level_spread_is_named_minus_zero "Celtics vs. Nets" ("", "") ("0.5", "0.5") None). left. reflexivity. Defined.
End Witnesses.
