(* ===== verification/EventMatcher.v ===== *)
(** * The event matcher ([internal/marketdata/event_matcher.go])

    Score feeds name games by their teams, the catalog by event ids. The
    matcher keeps the names of the catalog's events and finds the event whose
    name holds both teams as whole words. Go iterates a map in an order it
    chooses at every loop, so [FindByTeams] takes that order as an argument and
    its properties hold for each one. [strings.ToLower] is modelled on ASCII
    letters (it leaves every other byte as it is). *)
From S2P Require Export Prelude Json GoStrings.
From Stdlib Require Import String Ascii.
Local Open Scope nat_scope.

(** ** Whole words *)

Definition isASCIILetter (b : ascii) : bool :=
  let n := N_of_ascii b in
  ((97 <=? n) && (n <=? 122) || (65 <=? n) && (n <=? 90))%N.

(** The byte [s[i]] is there and is a letter. *)
Definition letter_at (s : string) (i : nat) : bool :=
  match String.get i s with Some c => isASCIILetter c | None => false end.

(** The loop at [i]. [String.index i word s] is [strings.Index(s[i:], word)]
    counted from the start of [s]. [None]: the fuel ran out. *)
Fixpoint containsWholeWord_from (fuel i : nat) (s word : string) : option bool :=
  match fuel with
  | O => None
  | S fuel =>
      if i + String.length word <=? String.length s then
        match String.index i word s with
        | None => Some false
        | Some idx =>
            let end_ := idx + String.length word in
            let leftOK := (idx =? 0) || negb (letter_at s (idx - 1)) in
            let rightOK := (end_ =? String.length s) || negb (letter_at s end_) in
            if leftOK && rightOK then Some true
            else containsWholeWord_from fuel (idx + 1) s word
        end
      else Some false
  end.

(** The loop starts at 0 and moves right, so it makes at most [len(s) + 2]
    tests. *)
Definition containsWholeWord (s word : string) : option bool :=
  containsWholeWord_from (String.length s + 2) 0 s word.

(** ** The matcher *)

Record matchEntry : Type := { me_eventID : string; me_name : string }.

Abbreviation EventMatcher := (gmap string matchEntry).
Definition NewEventMatcher : EventMatcher := ∅.

Definition EventMatcher_Register (eventID name : string) (m : EventMatcher) : EventMatcher :=
  <[eventID := {| me_eventID := eventID; me_name := name |}]> m.

Definition matches (homeTeam awayTeam : string) (entry : matchEntry) : bool :=
  let name := ToLower (me_name entry) in
  default false (containsWholeWord name (ToLower homeTeam)) &&
  default false (containsWholeWord name (ToLower awayTeam)).

(** The loop over the map's entries, in the order the runtime picks. *)
Definition FindByTeams (order : EventMatcher → list (string * matchEntry)) (m : EventMatcher)
    (homeTeam awayTeam : string) : option string :=
  me_eventID <$> (snd <$> list_find (λ entry, matches homeTeam awayTeam entry = true) (order m).*2).

(** A runtime's iteration order: every entry, once. *)
Definition iterates (order : EventMatcher → list (string * matchEntry)) : Prop :=
  ∀ m, order m ≡ₚ map_to_list m.

(** ** Lemmas *)

(** [word] starts at [p] in [s], with no letter touching it. *)
Definition whole_word_at (s word : string) (p : nat) : Prop :=
  p + String.length word ≤ String.length s ∧
  String.substring p (String.length word) s = word ∧
  (p = 0 ∨ letter_at s (p - 1) = false) ∧
  (p + String.length word = String.length s ∨ letter_at s (p + String.length word) = false).

Lemma substring_length p n s : String.length (String.substring p n s) = n `min` (String.length s - p).
Proof.
  revert p n. induction s as [|c s IH]; intros [|p] [|n]; cbn [String.substring String.length]; rewrite ?IH; lia.
Qed.

Lemma index_found i word s idx :
  String.index i word s = Some idx →
  i ≤ idx ∧ idx + String.length word ≤ String.length s ∧
  String.substring idx (String.length word) s = word.
Proof.
  intros Hi. assert (i ≤ idx ∧ idx ≤ String.length s) as [Hle Hlen].
  { revert i idx Hi. induction s as [|c s IH]; intros i idx Hi.
    - destruct i; cbn in Hi; [|done]. destruct word; [|done]. injection Hi as <-. cbn. lia.
    - destruct i as [|i]; cbn [String.index] in Hi.
      + destruct (String.prefix word (String c s)) eqn:Hp.
        * injection Hi as <-. cbn. lia.
        * destruct (String.index 0 word s) as [k|] eqn:Hk; [|done]. injection Hi as <-.
          destruct (IH _ _ Hk). cbn. lia.
      + destruct (String.index i word s) as [k|] eqn:Hk; [|done]. injection Hi as <-.
        destruct (IH _ _ Hk). cbn. lia. }
  pose proof (index_correct1 _ _ _ _ Hi) as Hs.
  pose proof (substring_length idx (String.length word) s) as Hl. rewrite Hs in Hl. split_and!; lia || done.
Qed.

Lemma index_none i word s p :
  String.index i word s = None → i ≤ p → p + String.length word ≤ String.length s →
  String.substring p (String.length word) s ≠ word.
Proof.
  intros Hi Hp Hl. destruct (decide (word = EmptyString)) as [->|Hw].
  - apply index_correct4 in Hi. cbn in Hl. lia.
  - by apply (index_correct3 i p word s).
Qed.

Lemma boundary_spec s idx n :
  (((idx =? 0) || negb (letter_at s (idx - 1))) && ((n =? String.length s) || negb (letter_at s n))) = true ↔
  (idx = 0 ∨ letter_at s (idx - 1) = false) ∧ (n = String.length s ∨ letter_at s n = false).
Proof. by rewrite andb_true_iff, !orb_true_iff, !Nat.eqb_eq, !negb_true_iff. Qed.

Lemma containsWholeWord_from_spec fuel i s word :
  String.length s + 2 ≤ fuel + i → 0 < fuel →
  ∃ b, containsWholeWord_from fuel i s word = Some b ∧
       (b = true ↔ ∃ p, i ≤ p ∧ whole_word_at s word p).
Proof.
  revert i. induction fuel as [|fuel IH]; intros i Hf H0; [lia|]. cbn [containsWholeWord_from].
  destruct (Nat.leb_spec (i + String.length word) (String.length s)) as [Hl|Hl].
  - destruct (String.index i word s) as [idx|] eqn:Hi; cbn zeta.
    + apply index_found in Hi as Hfound. destruct Hfound as (Hge&Hin&Hsub).
      destruct (_ && _) eqn:Hb.
      * eexists; split; [done|]. split; [|done]. intros _. apply boundary_spec in Hb as [Hlb Hrb].
        exists idx. by split.
      * destruct (IH (idx + 1)) as (b&->&Hspec); [lia..|]. eexists; split; [done|].
        rewrite Hspec. split; intros (p&Hp&Hw); exists p; (split; [|done]).
        -- lia.
        -- assert (p ≠ idx) as Hne.
           { intros ->. destruct Hw as (_&_&Hlb&Hrb).
             by rewrite (proj2 (boundary_spec s idx _) (conj Hlb Hrb)) in Hb. }
           assert (¬ p < idx); [|lia]. intros Hlt. destruct Hw as (_&Hs&_).
           by apply (index_correct2 _ _ _ _ Hi p Hp Hlt).
    + eexists; split; [done|]. split; [done|]. intros (p&Hp&Hpl&Hs&_). by apply (index_none _ _ _ p) in Hi.
  - eexists; split; [done|]. split; [done|]. intros (p&Hp&Hpl&_). lia.
Qed.

Lemma containsWholeWord_spec s word :
  ∃ b, containsWholeWord s word = Some b ∧ (b = true ↔ ∃ p, whole_word_at s word p).
Proof.
  destruct (containsWholeWord_from_spec (String.length s + 2) 0 s word) as (b&Hb&Hs); [lia..|].
  exists b. split; [done|]. rewrite Hs. split; intros (p&Hp); exists p; [by destruct Hp|split; [lia|done]].
Qed.

Definition names_game (homeTeam awayTeam : string) (entry : matchEntry) : Prop :=
  (∃ p, whole_word_at (ToLower (me_name entry)) (ToLower homeTeam) p) ∧
  (∃ p, whole_word_at (ToLower (me_name entry)) (ToLower awayTeam) p).

Lemma matches_spec homeTeam awayTeam entry :
  matches homeTeam awayTeam entry = true ↔ names_game homeTeam awayTeam entry.
Proof.
  unfold matches, names_game.
  destruct (containsWholeWord_spec (ToLower (me_name entry)) (ToLower homeTeam)) as (b1&->&<-).
  destruct (containsWholeWord_spec (ToLower (me_name entry)) (ToLower awayTeam)) as (b2&->&<-).
  apply andb_true_iff.
Qed.

(** Each entry is stored under its own id. *)
Definition keyed (m : EventMatcher) : Prop := ∀ k e, m !! k = Some e → me_eventID e = k.

Lemma Register_keyed eventID name m : keyed m → keyed (EventMatcher_Register eventID name m).
Proof.
  intros Hm k e. unfold EventMatcher_Register. rewrite lookup_insert_Some. intros [[<- <-]|[_ He]]; [done | by apply Hm].
Qed.

Lemma NewEventMatcher_keyed : keyed NewEventMatcher.
Proof. intros k e He. unfold NewEventMatcher in He. by apply lookup_empty_Some in He. Qed.

Lemma elem_of_order order m k e : iterates order → (k, e) ∈ order m ↔ m !! k = Some e.
Proof. intros Ho. by rewrite (Ho m), elem_of_map_to_list. Qed.

(** What a search gives. *)
Lemma FindByTeams_cases order m homeTeam awayTeam :
  iterates order → keyed m →
  match FindByTeams order m homeTeam awayTeam with
  | Some id => ∃ entry, m !! id = Some entry ∧ names_game homeTeam awayTeam entry
  | None => ∀ id entry, m !! id = Some entry → ¬ names_game homeTeam awayTeam entry
  end.
Proof.
  intros Ho Hk. unfold FindByTeams.
  assert (∀ e, e ∈ (order m).*2 ↔ ∃ id, m !! id = Some e) as Hin.
  { intros e. rewrite list_elem_of_fmap. split.
    - intros ([k e']&->&Hke). exists k. by apply (elem_of_order order m).
    - intros [k Hke]. exists (k, e). split; [done|]. by apply (elem_of_order order m). }
  destruct (list_find _ _) as [[i e]|] eqn:Hf; cbn.
  - apply list_find_Some in Hf as (Hi&Hm&_). apply list_elem_of_lookup_2, Hin in Hi as [k He].
    exists e. rewrite (Hk _ _ He). split; [done|]. by apply matches_spec.
  - apply list_find_None in Hf. rewrite Forall_forall in Hf. intros id entry Hid Hn.
    apply (Hf entry); [apply Hin; by exists id|]. by apply matches_spec.
Qed.

(** ** Properties *)

(** Whatever order the map is read in, a found event is registered and its
    name holds both teams as whole words; nothing is found exactly when no
    registered event does; and the answer does not depend on the order when
    one event at most qualifies. *)
Theorem FindByTeams_spec order m homeTeam awayTeam :
  iterates order → keyed m →
  (∀ id, FindByTeams order m homeTeam awayTeam = Some id →
     ∃ entry, m !! id = Some entry ∧ names_game homeTeam awayTeam entry) ∧
  (FindByTeams order m homeTeam awayTeam = None ↔
     ∀ id entry, m !! id = Some entry → ¬ names_game homeTeam awayTeam entry) ∧
  (∀ id entry, m !! id = Some entry → names_game homeTeam awayTeam entry →
     (∀ id' entry', m !! id' = Some entry' → names_game homeTeam awayTeam entry' → id' = id) →
     FindByTeams order m homeTeam awayTeam = Some id).
Proof.
  intros Ho Hk. pose proof (FindByTeams_cases order m homeTeam awayTeam Ho Hk) as Hf.
  destruct (FindByTeams _ _ _ _) as [id|].
  - destruct Hf as (e&He&Hm). split_and!.
    + intros id' [= <-]. by exists e.
    + split; [done|]. intros Hno. by destruct (Hno id e).
    + intros id' entry Hid Hn Huniq. by rewrite (Huniq id e He Hm).
  - split_and!; [done|by split|]. intros id entry Hid Hn. by destruct (Hf id entry).
Qed.

(** ** Concrete runs *)

Definition ex_events : EventMatcher :=
  EventMatcher_Register "e1" "Celtics @ Cavaliers"
    (EventMatcher_Register "e2" "Kansas State @ Duke"
       (EventMatcher_Register "e3" "Kansas @ Duke" NewEventMatcher)).

Definition forward : EventMatcher → list (string * matchEntry) := map_to_list.
Definition backward : EventMatcher → list (string * matchEntry) := λ m, reverse (map_to_list m).

Lemma FindByTeams_spec_witness :
  FindByTeams backward ex_events "CAVALIERS" "celtics" = Some "e1"%string ∧
  (FindByTeams backward ex_events "CAVALIERS" "celtics" = None ↔
     ∀ id entry, ex_events !! id = Some entry → ¬ names_game "CAVALIERS" "celtics" entry).
Proof.
  split; [vm_compute; reflexivity|].
  refine (proj1 (proj2 (FindByTeams_spec backward ex_events "CAVALIERS" "celtics" _ _))).
  - intros m. apply reverse_Permutation.
  - repeat apply Register_keyed. apply NewEventMatcher_keyed.
Defined.

(** The code's comment says that "kansas" does not match "kansas state"; it
    does, because a space is not a letter. With both games in the catalog the
    score of Kansas - Duke goes to either one, as the map's order decides. *)
Theorem kansas_matches_kansas_state :
  containsWholeWord "kansas state @ duke" "kansas" = Some true ∧
  iterates forward ∧ iterates backward ∧
  {[ FindByTeams forward ex_events "Duke" "Kansas"; FindByTeams backward ex_events "Duke" "Kansas" ]} =
    ({[ Some "e2"; Some "e3" ]} : gset (option string)).
Proof.
  split_and!; [vm_compute; reflexivity| |..].
  - by intros m.
  - intros m. apply reverse_Permutation.
  - vm_compute; reflexivity.
Qed.
