(* ===== verification/PriceFeed.v ===== *)
(** * Live prices ([internal/marketdata/token_registry.go],
    [polymarket_price_feed.go], [polymarket_ws_price_normaliser.go])

    The polling feed registers the tokens it sees; the WebSocket feed keeps a
    subscription for each of them, follows the registry's change signal, and
    turns the price changes it reads into raw events. The registry's writers
    and the feed's loop interleave ([feed_step]); Go's map order is a parameter
    [order]. Contexts are never cancelled. *)
From stdpp Require Import relations.
From S2P Require Export Prelude Json GoStrings MarketEvent.
Local Open Scope Z_scope.

(** ** The token registry *)

Record TokenEntry : Type := {
  TokenID : string;
  ConditionID : string;
  SelIndex : Z;
  te_ProviderID : string
}.

(** [notify]: the channel of one slot holds a signal. *)
Record TokenRegistry : Type := { byToken : gmap string TokenEntry; notify : bool }.

Definition NewTokenRegistry : TokenRegistry := {| byToken := ∅; notify := false |}.

(** [Register] first stores the entries under the lock ... *)
Definition Register_entries (entries : list TokenEntry) (r : TokenRegistry) : TokenRegistry :=
  {| byToken := foldl (λ m e, <[TokenID e := e]> m) (byToken r) entries; notify := notify r |}.
(** ... then sends a signal without blocking: a full channel stays full. *)
Definition Register_signal (r : TokenRegistry) : TokenRegistry :=
  {| byToken := byToken r; notify := true |}.

Definition Lookup (r : TokenRegistry) (tokenID : string) : option TokenEntry := byToken r !! tokenID.
Definition AllTokenIDs (order : gset string → list string) (r : TokenRegistry) : list string :=
  order (dom (byToken r)).
Definition Len (r : TokenRegistry) : nat := size (byToken r).
(** Receiving from [Changed()]. *)
Definition Changed_recv (r : TokenRegistry) : TokenRegistry :=
  {| byToken := byToken r; notify := false |}.

(** ** Subscriptions *)

Record clobSubscribeMsg : Type := {
  AssetsIDs : list string;
  clob_Type : string;
  Operation : string
}.
#[export] Instance clobSubscribeMsg_eq_dec : EqDecision clobSubscribeMsg.
Proof. solve_decision. Defined.

Definition sendSubscribe (tokenIDs : list string) : clobSubscribeMsg :=
  {| AssetsIDs := tokenIDs; clob_Type := "market"; Operation := "" |}.

(** One turn of the loop that finds the new tokens. *)
Definition subscribe_new (acc : list string * gset string) (id : string) : list string * gset string :=
  if decide (id ∈ acc.2) then acc else (acc.1 ++ [id], {[id]} ∪ acc.2).

(** The messages written for a change of the registry and the tokens the loop
    believes subscribed afterwards. *)
Definition handleRegistryChange (order : gset string → list string) (r : TokenRegistry)
    (subscribed : gset string) : list clobSubscribeMsg * gset string :=
  let current := AllTokenIDs order r in
  let currentSet : gset string := list_to_set current in
  let '(toSub, subscribed1) := foldl subscribe_new ([], subscribed) current in
  let toUnsub := filter (λ id, id ∉ currentSet) (order subscribed1) in
  let subscribed2 := subscribed1 ∖ list_to_set toUnsub in
  ((if decide (toSub = []) then []
    else [{| AssetsIDs := toSub; clob_Type := ""; Operation := "subscribe" |}]) ++
   (if decide (toUnsub = []) then []
    else [{| AssetsIDs := toUnsub; clob_Type := ""; Operation := "unsubscribe" |}]),
   subscribed2).

(** The tokens a connection has asked for and not taken back. *)
Definition ask (s : gset string) (m : clobSubscribeMsg) : gset string :=
  if (Operation m =? "unsubscribe")%string then s ∖ list_to_set (AssetsIDs m)
  else s ∪ list_to_set (AssetsIDs m).
Definition asked (sent : list clobSubscribeMsg) : gset string := foldl ask ∅ sent.

(** ** Messages *)

Record clobWSEvent : Type := { clob_EventType : string; AssetID : string; clob_Price : string }.
Record wsPriceRaw : Type := {
  ws_ConditionID : string;
  ws_SelIndex : Z;
  ws_Price : string;
  ws_ProviderID : string
}.

Section Messages.
Context {F : Type} `{FloatOps F}.

Definition decodeClobEvent (kvs : list (string * json F)) : option clobWSEvent :=
  et ← jstring "event_type" kvs;
  aid ← jstring "asset_id" kvs;
  p ← jstring "price" kvs;
  Some {| clob_EventType := et; AssetID := aid; clob_Price := p |}.

Definition zeroClobEvent : clobWSEvent := {| clob_EventType := ""; AssetID := ""; clob_Price := "" |}.

(** A message that starts with [[] is a batch, any other one an event. *)
Definition clobEvents (msg : bytes F) : option (list clobWSEvent) :=
  match msg with
  | Doc (JArr l) => into_slice zeroClobEvent (into_struct decodeClobEvent) [] (JArr l)
  | _ => e ← Unmarshal decodeClobEvent msg; Some [e]
  end.

Definition encodePriceRaw (p : wsPriceRaw) : json F := JObj [
  ("condition_id", JStr (ws_ConditionID p)); ("sel_index", JInt (ws_SelIndex p));
  ("price", JStr (ws_Price p)); ("provider_id", JStr (ws_ProviderID p))].

Definition decodePriceRaw (kvs : list (string * json F)) : option wsPriceRaw :=
  c ← jstring "condition_id" kvs;
  i ← jint "sel_index" kvs;
  p ← jstring "price" kvs;
  q ← jstring "provider_id" kvs;
  Some {| ws_ConditionID := c; ws_SelIndex := i; ws_Price := p; ws_ProviderID := q |}.

(** The raw event of one event read at [t], if it is a price of a known token. *)
Definition priceRaw (r : TokenRegistry) (t : Z) (ev : clobWSEvent) : option (RawProviderEvent F) :=
  if negb (clob_EventType ev =? "price_change")%string then None
  else if (AssetID ev =? "")%string || (clob_Price ev =? "")%string then None
  else entry ← Lookup r (AssetID ev);
       data ← Marshal (encodePriceRaw {| ws_ConditionID := ConditionID entry;
         ws_SelIndex := SelIndex entry; ws_Price := clob_Price ev; ws_ProviderID := te_ProviderID entry |});
       Some {| raw_ProviderID := "polymarket-ws-price"; Data := data; ReceivedAt := t |}.

(** The channel of the feed: a send that finds it full drops the event. *)
Definition priceChanCap : nat := 128.
Definition send_or_drop (cap : nat) (ch : list (RawProviderEvent F)) (raw : RawProviderEvent F) :
    list (RawProviderEvent F) :=
  if (length ch <? cap)%nat then ch ++ [raw] else ch.

Definition is_text (text : string) (msg : bytes F) : bool :=
  match msg with Garbage s => (s =? text)%string | Doc _ => false end.

Definition price_handleMessage (r : TokenRegistry) (t : Z) (msg : bytes F)
    (ch : list (RawProviderEvent F)) : list (RawProviderEvent F) :=
  if is_text "PONG" msg then ch else
  match clobEvents msg with
  | None => ch
  | Some events =>
      foldl (λ ch ev, match priceRaw r t ev with
                      | Some raw => send_or_drop priceChanCap ch raw
                      | None => ch
                      end) ch events
  end.
End Messages.

Inductive PolymarketWSPriceNormaliser : Type := polymarket_ws_price.
#[export] Instance ws_price_normalise {F} `{FloatOps F} : Normaliser F PolymarketWSPriceNormaliser :=
  λ _ _ raw,
    match Unmarshal decodePriceRaw (Data raw) with
    | None => Err "polymarket ws price normaliser: unmarshal"
    | Some p => Ok [marketNotice "price.update" "polymarket" (ws_ConditionID p)]
    end.

(** ** The feed's loop *)

Definition maxBackoff : Z := 60.
Definition nextBackoff (backoff : Z) : Z :=
  if maxBackoff <? backoff * 2 then maxBackoff else backoff * 2.

Inductive phase : Type :=
| Waiting                              (** for the registry's first token *)
| Connecting
| Streaming (subscribed : gset string)
| Handling (subscribed : gset string)  (** a change signal was received *)
| Sleeping.                            (** the connection was lost *)

Record feed_state (F : Type) : Type := {
  registry : TokenRegistry;
  unsignalled : nat;                   (** calls of [Register] before their signal *)
  feed_phase : phase;
  backoff : Z;
  sent : list clobSubscribeMsg;        (** written on the current connection *)
  write_failed : bool;                 (** a write of this connection failed *)
  out : list (RawProviderEvent F)      (** the channel of raw events *)
}.
Arguments registry {F} _.
Arguments unsignalled {F} _.
Arguments feed_phase {F} _.
Arguments backoff {F} _.
Arguments sent {F} _.
Arguments write_failed {F} _.
Arguments out {F} _.
Arguments Build_feed_state {F}.

Section Loop.
Context {F : Type} `{FloatOps F}.

Definition feed_init : feed_state F := {|
  registry := NewTokenRegistry; unsignalled := 0; feed_phase := Waiting; backoff := 1;
  sent := []; write_failed := false; out := [] |}.

Inductive feed_step (order : gset string → list string) : feed_state F → feed_state F → Prop :=
| step_register entries r n ph b s f o :
    feed_step order
      (Build_feed_state r n ph b s f o)
      (Build_feed_state (Register_entries entries r) (S n) ph b s f o)
| step_signal r n ph b s f o :
    feed_step order
      (Build_feed_state r (S n) ph b s f o)
      (Build_feed_state (Register_signal r) n ph b s f o)
| step_wait r n b s f o :
    Len r = 0%nat → notify r = true →
    feed_step order
      (Build_feed_state r n Waiting b s f o)
      (Build_feed_state (Changed_recv r) n Waiting b s f o)
| step_ready r n b s f o :
    Len r ≠ 0%nat →
    feed_step order
      (Build_feed_state r n Waiting b s f o)
      (Build_feed_state r n Connecting b s f o)
| step_connect r n b s f o :
    feed_step order
      (Build_feed_state r n Connecting b s f o)
      (Build_feed_state r n (Streaming (list_to_set (AllTokenIDs order r))) b
         [sendSubscribe (AllTokenIDs order r)] false o)
| step_connect_fails r n b s f o :
    feed_step order
      (Build_feed_state r n Connecting b s f o)
      (Build_feed_state r n Sleeping b s f o)
| step_changed r n sub b s f o :
    notify r = true →
    feed_step order
      (Build_feed_state r n (Streaming sub) b s f o)
      (Build_feed_state (Changed_recv r) n (Handling sub) b s f o)
| step_handle r n sub b s f ms sub' written o :
    handleRegistryChange order r sub = (ms, sub') →
    (* each message is written or its write fails; a failure is logged *)
    sublist written ms →
    feed_step order
      (Build_feed_state r n (Handling sub) b s f o)
      (Build_feed_state r n (Streaming sub') b (s ++ written) (f || negb (bool_decide (written = ms))) o)
| step_lost r n sub b s f o :
    feed_step order
      (Build_feed_state r n (Streaming sub) b s f o)
      (Build_feed_state r n Sleeping b s f o)
| step_wake r n b s f o :
    feed_step order
      (Build_feed_state r n Sleeping b s f o)
      (Build_feed_state r n Connecting (nextBackoff b) s f o)
(** A message from the connection (the reader drops one that finds the loop
    busy), and the ingestion service taking an event. *)
| step_message r n sub b s f o t msg :
    feed_step order
      (Build_feed_state r n (Streaming sub) b s f o)
      (Build_feed_state r n (Streaming sub) b s f (price_handleMessage r t msg o))
| step_receive r n ph b s f raw o :
    feed_step order
      (Build_feed_state r n ph b s f (raw :: o))
      (Build_feed_state r n ph b s f o).

Definition feed_reachable (order : gset string → list string) (st : feed_state F) : Prop :=
  rtc (feed_step order) feed_init st.
End Loop.

(** A runtime's order of a set's elements. *)
Definition enumerates (order : gset string → list string) : Prop := ∀ s, order s ≡ₚ elements s.

(** ** Lemmas: messages *)

Section MessageLemmas.
Context {F : Type} `{FloatOps F}.

Lemma take_take_app {A} n (l k : list A) : take n (take n l ++ k) = take n (l ++ k).
Proof. rewrite !take_app, take_take, length_take, Nat.min_id. do 2 f_equal. lia. Qed.

Lemma send_or_drop_take cap (ch : list (RawProviderEvent F)) raw :
  (length ch ≤ cap)%nat → send_or_drop cap ch raw = take cap (ch ++ [raw]).
Proof.
  intros Hl. unfold send_or_drop. destruct (Nat.ltb_spec (length ch) cap).
  - rewrite take_ge; [done|]. rewrite length_app. cbn. lia.
  - rewrite take_app_le, take_ge by lia. done.
Qed.

(** What the loop leaves in the channel, oldest first. *)
Lemma send_all_take {A} cap (f : A → option (RawProviderEvent F)) xs ch :
  (length ch ≤ cap)%nat →
  foldl (λ ch x, match f x with Some raw => send_or_drop cap ch raw | None => ch end) ch xs =
    take cap (ch ++ omap f xs).
Proof.
  revert ch. induction xs as [|x xs IH]; intros ch Hl; cbn.
  - by rewrite app_nil_r, take_ge.
  - destruct (f x) as [raw|]; cbn; [|by apply IH].
    rewrite send_or_drop_take by done. rewrite IH by (rewrite length_take; lia).
    rewrite take_take_app, <- app_assoc. done.
Qed.

Lemma price_handleMessage_length (r : TokenRegistry) t (msg : bytes F) ch :
  (length ch ≤ priceChanCap)%nat → (length (price_handleMessage r t msg ch) ≤ priceChanCap)%nat.
Proof.
  intros Hl. unfold price_handleMessage. destruct (is_text _ msg); [done|].
  destruct (clobEvents msg) as [events|]; [|done]. rewrite send_all_take, length_take by done. lia.
Qed.

Lemma priceRaw_normalised (r : TokenRegistry) t ev (raw : RawProviderEvent F) n now :
  (∀ id e, byToken r !! id = Some e → in_int64 (SelIndex e) = true) →
  priceRaw r t ev = Some raw →
  ∃ entry, Lookup r (AssetID ev) = Some entry ∧ clob_EventType ev = "price_change"%string ∧
    Normalise (N:=PolymarketWSPriceNormaliser) n now raw =
      Ok [marketNotice "price.update" "polymarket" (ConditionID entry)].
Proof.
  intros Hr. unfold priceRaw.
  destruct (String.eqb_spec (clob_EventType ev) "price_change"); [|done]. cbn [negb].
  destruct (_ || _); [done|]. destruct (Lookup r (AssetID ev)) as [entry|] eqn:He; [|done].
  cbn [mbind option_bind]. unfold Marshal. cbn [marshalable encodePriceRaw forallb snd andb mbind option_bind].
  intros [= <-]. exists entry. split_and!; [done..|].
  unfold Normalise, ws_price_normalise, Unmarshal, decodePriceRaw. cbn [Data encodePriceRaw].
  json_keys. cbn [into_int64 mbind option_bind ws_SelIndex]. rewrite (Hr _ _ He).
  cbn [mbind option_bind]. json_keys. done.
Qed.
End MessageLemmas.

(** ** Lemmas: subscriptions *)

Section Subscriptions.
Context {F : Type} `{FloatOps F}.
Context (order : gset string → list string) (Horder : enumerates order).

Lemma order_set s : list_to_set (order s) = s.
Proof. apply set_eq. intros x. by rewrite elem_of_list_to_set, (Horder s), elem_of_elements. Qed.

Lemma toSub_spec ids (sub0 : gset string) toSub sub toSub' sub' :
  foldl subscribe_new (toSub, sub) ids = (toSub', sub') →
  sub = sub0 ∪ list_to_set toSub →
  sub' = sub0 ∪ list_to_set toSub' ∧ sub' = sub ∪ list_to_set ids.
Proof.
  revert toSub sub. induction ids as [|id ids IH]; intros toSub sub Hf Hs.
  - cbn in Hf. injection Hf as -> ->. split; [done|]. set_solver.
  - cbn [foldl] in Hf. unfold subscribe_new at 2 in Hf. cbn in Hf.
    destruct (decide (id ∈ sub)) as [Hin|Hin].
    + destruct (IH _ _ Hf Hs) as [-> ->]. split; [done|]. cbn. set_solver.
    + destruct (IH _ _ Hf) as [E1 E2]; [rewrite Hs, list_to_set_app_L; cbn; set_solver|].
      split; [done|]. rewrite E2. cbn. set_solver.
Qed.

(** After a change the loop believes in, and has asked for, the registry's tokens. *)
Lemma handleRegistryChange_spec r sub ms sub' :
  handleRegistryChange order r sub = (ms, sub') →
  sub' = dom (byToken r) ∧ foldl ask sub ms = dom (byToken r).
Proof.
  unfold handleRegistryChange, AllTokenIDs. rewrite order_set.
  destruct (foldl _ _ _) as [toSub sub1] eqn:Hf. intros [= <- <-].
  destruct (toSub_spec _ sub _ _ _ _ Hf) as [H1 H2]; [set_solver|]. rewrite order_set in H2.
  set (toUnsub := filter _ _). set (D := dom (byToken r)) in *.
  assert (list_to_set toUnsub = sub1 ∖ D) as Hun.
  { apply set_eq. intros x. unfold toUnsub.
    rewrite elem_of_list_to_set, list_elem_of_filter, (Horder sub1), elem_of_elements. set_solver. }
  assert (sub1 ∖ (sub1 ∖ D) = D) as HD.
  { apply set_eq. intros x. destruct (decide (x ∈ D)); set_solver. }
  rewrite Hun. split; [done|]. rewrite foldl_app.
  assert (foldl ask sub (if decide (toSub = []) then []
    else [{| AssetsIDs := toSub; clob_Type := ""; Operation := "subscribe" |}]) = sub1) as ->.
  { case_decide as Ht; cbn; [|unfold ask; cbn; by rewrite H1]. subst toSub. cbn in H1. set_solver. }
  case_decide as Ht; cbn; [|unfold ask; cbn; by rewrite Hun].
  rewrite Ht in Hun. cbn in Hun. rewrite <- HD, <- Hun. set_solver.
Qed.

(** What holds of every reachable state. *)
Definition feed_inv (st : feed_state F) : Prop :=
  1 ≤ backoff st ≤ maxBackoff ∧ (length (out st) ≤ priceChanCap)%nat ∧
  match feed_phase st with
  | Streaming sub =>
      (write_failed st = false → asked (sent st) = sub) ∧
      (unsignalled st = 0%nat → notify (registry st) = false → sub = dom (byToken (registry st)))
  | Handling sub => write_failed st = false → asked (sent st) = sub
  | _ => True
  end.

Lemma nextBackoff_range b : 1 ≤ b ≤ maxBackoff → b ≤ nextBackoff b ≤ maxBackoff.
Proof. unfold nextBackoff, maxBackoff. intros ?. case_match; lia. Qed.

Lemma feed_step_inv (st st' : feed_state F) : feed_step order st st' → feed_inv st → feed_inv st'.
Proof.
  unfold feed_inv.
  destruct 1 as [entries r n ph|r n ph| | | | | |r n sub b s f ms sub' written o Hc Hw| | | |r n ph];
    cbn; intros (Hb&Hl&Hi); (split_and!; try (done || lia || apply Hi)).
  - destruct ph; try done. split; [apply Hi|done].
  - destruct ph; try done. split; [apply Hi|done].
  - intros _. unfold asked, ask. cbn [foldl Operation sendSubscribe AssetsIDs]. set_solver.
  - unfold AllTokenIDs. by rewrite order_set.
  - apply handleRegistryChange_spec in Hc as [-> Hask]. intros [Hf Hm]%orb_false_elim.
    apply negb_false_iff, bool_decide_eq_true in Hm as ->.
    unfold asked in *. rewrite foldl_app. by rewrite Hi.
  - by apply handleRegistryChange_spec in Hc as [-> _].
  - pose proof (nextBackoff_range _ Hb). lia.
  - pose proof (nextBackoff_range _ Hb). lia.
  - by apply price_handleMessage_length.
Qed.
End Subscriptions.

Lemma feed_reachable_inv {F} `{FloatOps F} order (st : feed_state F) :
  enumerates order → feed_reachable order st → feed_inv st.
Proof.
  intros Ho Hr. unfold feed_reachable in Hr.
  assert (feed_inv (feed_init (F:=F))) as Hi by (unfold feed_inv, maxBackoff; cbn; split_and!; done || lia).
  induction Hr as [|x y z Hs _ IH]; [done|]. apply IH, (feed_step_inv order Ho x); done.
Qed.

Lemma feed_step_backoff {F} `{FloatOps F} order (st st' : feed_state F) :
  feed_step order st st' → 1 ≤ backoff st ≤ maxBackoff → backoff st ≤ backoff st' ≤ maxBackoff.
Proof. destruct 1; cbn; intros Hb; try lia. by apply nextBackoff_range. Qed.

(** ** Properties *)

(** C27. However the registrations, the losses of connections and the changes
    interleave: when the feed streams, no registration is half done, no change
    signal is waiting and no write of the connection failed, the tokens asked
    for on the connection are the registry's. *)
Theorem price_subscriptions_follow_registry {F} `{FloatOps F} order (st : feed_state F) subscribed :
  enumerates order → feed_reachable order st →
  feed_phase st = Streaming subscribed →
  unsignalled st = 0%nat → notify (registry st) = false → write_failed st = false →
  asked (sent st) = dom (byToken (registry st)) ∧ subscribed = dom (byToken (registry st)) ∧
  (length (out st) ≤ priceChanCap)%nat.
Proof.
  intros Ho Hr Hp Hu Hn Hw. apply feed_reachable_inv in Hr as (_&Hl&Hi); [|done].
  rewrite Hp in Hi. destruct Hi as [Ha Hs]. split_and!; [by rewrite Ha, Hs|by apply Hs|done].
Qed.

(** A message of price changes puts one raw event in the channel for each
    change of a known token, in order, until the channel is full; each one is
    normalised to a price update of the token's market. *)
Theorem price_handleMessage_spec {F} `{FloatOps F} (r : TokenRegistry) t (msg : bytes F) events ch :
  (∀ id e, byToken r !! id = Some e → in_int64 (SelIndex e) = true) →
  (length ch ≤ priceChanCap)%nat → is_text "PONG" msg = false → clobEvents msg = Some events →
  price_handleMessage r t msg ch = take priceChanCap (ch ++ omap (priceRaw r t) events) ∧
  ∀ ev raw, ev ∈ events → priceRaw r t ev = Some raw →
    ∃ entry, Lookup r (AssetID ev) = Some entry ∧ clob_EventType ev = "price_change"%string ∧
      Normalise polymarket_ws_price t raw =
        Ok [marketNotice "price.update" "polymarket" (ConditionID entry)].
Proof.
  intros Hr Hch Hp He. split; [|intros; by eapply priceRaw_normalised].
  unfold price_handleMessage. rewrite Hp, He. by apply send_all_take.
Qed.

(** The comment on a successful connection says that it resets the
    backoff; no step does: it doubles at each loss up to a minute and never
    goes down again. *)
Theorem backoff_never_recovers {F} `{FloatOps F} order (st st' : feed_state F) :
  enumerates order → feed_reachable order st → rtc (feed_step order) st st' →
  backoff st ≤ backoff st' ≤ maxBackoff.
Proof.
  intros Ho Hr Hs. apply feed_reachable_inv in Hr as (Hb&_); [|done].
  induction Hs as [|x y z Hs _ IH]; [lia|].
  destruct (feed_step_backoff _ _ _ Hs Hb). assert (1 ≤ backoff y ≤ maxBackoff) as Hy by lia.
  specialize (IH Hy). lia.
Qed.

(** ** Concrete runs *)

#[local] Existing Instance inert_platform.

Definition ex_token (id cond : string) (i : Z) : TokenEntry :=
  {| TokenID := id; ConditionID := cond; SelIndex := i; te_ProviderID := "polymarket-nba" |}.
Definition ex_registry : TokenRegistry :=
  Changed_recv (Register_signal (Register_entries [ex_token "t2" "c1" 1]
    (Register_signal (Register_entries [ex_token "t1" "c1" 0] NewTokenRegistry)))).
Definition by_elements : gset string → list string := elements.
Definition subscribe (ids : list string) : clobSubscribeMsg :=
  {| AssetsIDs := ids; clob_Type := ""; Operation := "subscribe" |}.
Definition ex_streaming : feed_state binary64 := {|
  registry := ex_registry; unsignalled := 0; feed_phase := Streaming {["t1"; "t2"]};
  backoff := 2; sent := [sendSubscribe ["t1"]; subscribe ["t2"]]; write_failed := false; out := [] |}.

(** The first connection fails, the second asks for one token, then another one
    is registered. *)
Lemma ex_streaming_reachable : feed_reachable by_elements ex_streaming.
Proof.
  unfold feed_reachable, feed_init.
  eapply rtc_l; [apply (step_register _ [ex_token "t1" "c1" 0])|].
  eapply rtc_l; [apply step_signal|].
  eapply rtc_l; [apply step_ready; vm_compute; done|].
  eapply rtc_l; [apply step_connect_fails|].
  eapply rtc_l; [apply step_wake|].
  eapply rtc_l; [apply step_connect|].
  eapply rtc_l; [apply step_changed; reflexivity|].
  eapply rtc_l; [eapply (step_handle _ _ _ _ _ _ _ [] _ []); [vm_compute; reflexivity|done]|].
  eapply rtc_l; [apply (step_register _ [ex_token "t2" "c1" 1])|].
  eapply rtc_l; [apply step_signal|].
  eapply rtc_l; [apply step_changed; reflexivity|].
  eapply rtc_l; [eapply (step_handle _ _ _ _ _ _ _ [subscribe ["t2"]] {["t1"; "t2"]} [subscribe ["t2"]]);
    [vm_compute; reflexivity|done]|].
  apply rtc_refl.
Qed.

Lemma price_subscriptions_follow_registry_witness :
  asked (sent ex_streaming) = dom (byToken ex_registry) ∧ {["t1"; "t2"]} = dom (byToken ex_registry) ∧
  (0 ≤ priceChanCap)%nat.
Proof.
  apply (price_subscriptions_follow_registry by_elements ex_streaming).
  - by intros s.
  - apply ex_streaming_reachable.
  - reflexivity.
  - reflexivity.
  - reflexivity.
  - reflexivity.
Defined.

Lemma backoff_never_recovers_witness : 1 ≤ 2 ≤ maxBackoff.
Proof.
  apply (backoff_never_recovers by_elements feed_init ex_streaming);
    [by intros s | apply rtc_refl | apply ex_streaming_reachable].
Defined.

Definition ex_change (id : string) : json binary64 :=
  JObj [("event_type", JStr "price_change"); ("asset_id", JStr id); ("price", JStr "0.52")].
Definition ex_clob_event (id : string) : clobWSEvent :=
  {| clob_EventType := "price_change"; AssetID := id; clob_Price := "0.52" |}.

Definition ex_batch : bytes binary64 := Doc (JArr [ex_change "t2"; ex_change "t9"]).
Definition ex_batch_raw : RawProviderEvent binary64 := {|
  raw_ProviderID := "polymarket-ws-price"; ReceivedAt := 7;
  Data := Doc (encodePriceRaw {| ws_ConditionID := "c1"; ws_SelIndex := 1; ws_Price := "0.52";
                                 ws_ProviderID := "polymarket-nba" |}) |}.

Lemma ex_registry_ints id e : byToken ex_registry !! id = Some e → in_int64 (SelIndex e) = true.
Proof.
  revert id e. change (map_Forall (λ _ e, in_int64 (SelIndex e) = true) (byToken ex_registry)).
  apply (bool_decide_eq_true_1 _). vm_compute; reflexivity.
Qed.

(** One of the two tokens is known. *)
Lemma price_handleMessage_spec_witness :
  price_handleMessage ex_registry 7 ex_batch [] = [ex_batch_raw] ∧
  ∃ entry, Lookup ex_registry "t2" = Some entry ∧
    Normalise polymarket_ws_price 7 ex_batch_raw =
      Ok [marketNotice "price.update" "polymarket" (ConditionID entry)].
Proof.
  destruct (price_handleMessage_spec ex_registry 7 ex_batch
    [ex_clob_event "t2"; ex_clob_event "t9"] []) as [Hch Hn].
  - exact ex_registry_ints.
  - cbn. lia.
  - reflexivity.
  - vm_compute; reflexivity.
  - split; [rewrite Hch; vm_compute; reflexivity|].
    destruct (Hn (ex_clob_event "t2") ex_batch_raw) as (entry&He&_&Hnorm).
    + apply list_elem_of_here.
    + vm_compute; reflexivity.
    + exists entry. split; [exact He|exact Hnorm].
Defined.
