(* ===== verification/ScoreFeeds.v ===== *)
(** * The score feeds ([nba_score_feed.go], [nhl_score_feed.go],
    [ncaab_score_feed.go], [polymarket_score_feed.go] of [internal/marketdata])

    What one poll of a scoreboard, or one message of the sports socket, puts in
    the feed's channel, and the theorem that these raw events, normalised, are
    the scores of the games that the event matcher knows. The answers of the
    HTTP servers are inputs; the matcher may change, and its map be iterated in
    another order, at every lookup. *)
From S2P Require Export Scores EventMatcher PriceFeed.
From Stdlib Require Import Ascii.
Local Open Scope Z_scope.

(** ** Team names *)

(** ESPN's location, or the display name without its last word. *)
Definition ncaabTeamName (location displayName : string) : string :=
  if negb (location =? "")%string then location else
  match cut_last " "%char displayName with
  | Some (EmptyString, _) | None => displayName
  | Some (before, _) => before
  end.

(** The display name without the location in front. *)
Definition nhlTeamName (location displayName : string) : string :=
  if negb (location =? "")%string && HasPrefix displayName (location +:+ " ")
  then default "" (str_strip_prefix (location +:+ " ") displayName)
  else displayName.

(** ** Polling *)

Section Feeds.
Context {F : Type} `{FloatOps F}.

(** An HTTP exchange: it fails, or gives a status and a body. *)
Abbreviation response := (option (Z * bytes F)).

(** The matcher and its map's order at the [i]-th game of a poll. *)
Record lookups : Type := {
  matcher : nat → EventMatcher;
  order_at : nat → EventMatcher → list (string * matchEntry)
}.
Definition find_game (l : lookups) (i : nat) (homeTeam awayTeam : string) : option string :=
  FindByTeams (order_at l i) (matcher l i) homeTeam awayTeam.

Definition rawEvent (providerID : string) (data : bytes F) (t : Z) : RawProviderEvent F :=
  {| raw_ProviderID := providerID; Data := data; ReceivedAt := t |}.

(** *** NBA *)

Definition nbaFetchScoreboard (resp : response) : result string (list NBAGame) :=
  match resp with
  | None => Err "http get"
  | Some (statusCode, body) =>
      if negb (statusCode =? 200) then Err "unexpected status" else
      match Unmarshal (jfield (into_record (λ old kvs, field old "games" kvs)) [] "scoreboard") body with
      | None => Err "decode"
      | Some games => Ok games
      end
  end.

(** The event of the [i]-th game: not of one that has not started or is unknown. *)
Definition nbaRaw (l : lookups) (t : Z) (i : nat) (game : NBAGame) : option (RawProviderEvent F) :=
  if GameStatus game =? 1 then None else
  eventID ← find_game l i (TeamName (nba_HomeTeam game)) (TeamName (nba_AwayTeam game));
  data ← MarshalValue {| nba_EventID := eventID; nba_Game := game |};
  Some (rawEvent "nba-scores" data t).

Definition nbaPoll (l : lookups) (t : Z) (resp : response) : list (RawProviderEvent F) :=
  match nbaFetchScoreboard resp with
  | Err _ => []
  | Ok games => omap (λ '(i, game), nbaRaw l t i game) (imap pair games)
  end.

(** *** ESPN *)

Definition fetchURL (resp : response) : result string (list ESPNGame) :=
  match resp with
  | None => Err "http get"
  | Some (statusCode, body) =>
      if negb (statusCode =? 200) then Err "unexpected status" else
      match Unmarshal (field [] "events") body with
      | None => Err "decode"
      | Some games => Ok games
      end
  end.

Definition espnRaw (providerID : string) (teamName : string → string → string) (l : lookups) (t : Z)
    (i : nat) (game : ESPNGame) : option (RawProviderEvent F) :=
  if (espn_State (espn_Type (espn_Status game)) =? "pre")%string then None else
  competitors ← two_competitors game;
  let '(homeTeam, awayTeam) :=
    sides (λ c, teamName (Location (Team c)) (DisplayName (Team c))) "" competitors in
  eventID ← find_game l i homeTeam awayTeam;
  data ← MarshalValue {| espn_EventID := eventID; espn_Game := game |};
  Some (rawEvent providerID data t).

(** [fetchScoreboard] of the hockey feed is the same exchange. *)
Definition nhlFetchScoreboard (resp : response) : result string (list ESPNGame) := fetchURL resp.

Definition nhlPoll (l : lookups) (t : Z) (resp : response) : list (RawProviderEvent F) :=
  match nhlFetchScoreboard resp with
  | Err _ => []
  | Ok games => omap (λ '(i, game), espnRaw "nhl-scores" nhlTeamName l t i game) (imap pair games)
  end.

(** [gameDedupeKey]: the teams, or nothing. *)
Definition gameDedupeKey (g : ESPNGame) : string :=
  match two_competitors g with
  | None => ""
  | Some competitors =>
      let '(home, away) := sides (λ c, DisplayName (Team c)) "" competitors in away +:+ "@" +:+ home
  end.

(** One game of the loop that joins the scoreboards. *)
Definition join_game (acc : gset string * list ESPNGame) (g : ESPNGame) : gset string * list ESPNGame :=
  let key := gameDedupeKey g in
  if decide (key ∈ acc.1) then acc else ({[key]} ∪ acc.1, acc.2 ++ [g]).
Definition join_games : list ESPNGame → gset string * list ESPNGame := foldl join_game (∅, []).

(** The URLs are asked one after the other; one that fails is skipped. *)
Definition ncaabFetchScoreboard (resps : list response) : result string (list ESPNGame) :=
  let fetched := flat_map (λ resp, match fetchURL resp with Ok games => games | Err _ => [] end) resps in
  let '(seen, all) := join_games fetched in
  if (length all =? 0)%nat && (size seen =? 0)%nat then Err "all scoreboard URLs failed" else Ok all.

Definition ncaabPoll (l : lookups) (t : Z) (resps : list response) : list (RawProviderEvent F) :=
  match ncaabFetchScoreboard resps with
  | Err _ => []
  | Ok games => omap (λ '(i, game), espnRaw "ncaab-scores" ncaabTeamName l t i game) (imap pair games)
  end.

(** *** Polymarket's sports socket *)

Definition supportedLeagues (league : string) : bool := bool_decide (league ∈ ["nba"; "cbb"; "nhl"]).
Definition scoreChanCap : nat := 64.

(** Whether "pong" is written, and the channel afterwards. *)
Definition score_handleMessage (l : lookups) (t : Z) (msg : bytes F) (ch : list (RawProviderEvent F)) :
    bool * list (RawProviderEvent F) :=
  if is_text "ping" msg then (true, ch) else
  match UnmarshalValue (A:=SportResult) msg with
  | None => (false, ch)
  | Some result =>
      if negb (supportedLeagues (LeagueAbbreviation result)) then (false, ch) else
      match find_game l 0 (sr_HomeTeam result) (sr_AwayTeam result) with
      | None => (false, ch)
      | Some eventID =>
          match MarshalValue {| pm_EventID := eventID; Result := result |} with
          | None => (false, ch)
          | Some data => (false, send_or_drop scoreChanCap ch (rawEvent "polymarket-scores" data t))
          end
      end
  end.
End Feeds.

(** ** Lemmas *)

Lemma fmap_omap {A B C} (f : B → C) (g : A → option B) (xs : list A) : f <$> omap g xs = omap (λ x, f <$> g x) xs.
Proof. induction xs as [|x xs IH]; [done|]. cbn. destruct (g x); cbn; by rewrite IH. Qed.

Lemma omap_same {A B} (f g : A → option B) (xs : list A) : (∀ x, x ∈ xs → f x = g x) → omap f xs = omap g xs.
Proof.
  induction xs as [|x xs IH]; intros Hfg; [done|]. cbn. rewrite (Hfg x) by apply list_elem_of_here.
  rewrite IH; [done|]. intros y Hy. apply Hfg. by apply list_elem_of_further.
Qed.

Lemma elem_of_imap_pair {A} (xs : list A) i x : (i, x) ∈ imap pair xs → x ∈ xs.
Proof. intros (j&y&[= -> ->]&Hx)%elem_of_lookup_imap. by apply list_elem_of_lookup_2 in Hx. Qed.

Section Lemmas.
Context {F : Type} `{FloatOps F}.

Lemma nbaFetch_representable (resp : option (Z * bytes F)) games :
  nbaFetchScoreboard resp = Ok games → Forall representable games.
Proof.
  unfold nbaFetchScoreboard. destruct resp as [[c body]|]; [|done]. destruct (negb _); [done|].
  destruct (Unmarshal _ body) as [gs|] eqn:Hu; [|done]. intros [= <-].
  assert (∀ kvs, jfield (into_record (λ old kvs, field old "games" kvs)) [] "scoreboard" kvs = Some gs →
    Forall representable gs) as Hf; [|unfold Unmarshal in Hu; repeat case_match; try done; by apply Hf in Hu].
  intros kvs. apply (jfield_keeps (Forall representable)); [|done].
  intros old j a Ho. destruct j; cbn; try done; [by intros [= <-]|].
  intros Ha. by apply field_reads in Ha.
Qed.

Lemma fetchURL_representable (resp : option (Z * bytes F)) games :
  fetchURL resp = Ok games → Forall representable games.
Proof.
  unfold fetchURL. destruct resp as [[c body]|]; [|done]. destruct (negb _); [done|].
  destruct (Unmarshal _ body) as [gs|] eqn:Hu; [|done]. intros [= <-].
  unfold Unmarshal in Hu. repeat case_match; try done; by apply field_reads in Hu; [|apply Forall_nil_2].
Qed.

(** The three normalisers read back what the feeds wrote. *)
Lemma nbaRaw_normalised l t i game now :
  representable game →
  Normalise nba_scores now <$> nbaRaw (F:=F) l t i game =
    if GameStatus game =? 1 then None else
    id ← find_game l i (TeamName (nba_HomeTeam game)) (TeamName (nba_AwayTeam game));
    Some (Ok [nbaState {| nba_EventID := id; nba_Game := game |}]).
Proof.
  intros Hg. unfold nbaRaw. destruct (GameStatus game =? 1); [done|].
  destruct (find_game _ _ _ _) as [id|]; [|done]. cbn [mbind option_bind fmap option_fmap option_map].
  rewrite MarshalValue_some by done. cbn [mbind option_bind]. unfold Normalise, nba_normalise. cbn [Data rawEvent fmap option_fmap option_map].
  rewrite Unmarshal_Marshal by done. done.
Qed.

(** What an ESPN feed delivers for a game. *)
Definition espn_found (teamName : string → string → string) (l : lookups) (i : nat) (game : ESPNGame) :
    option (string * list ESPNCompetitor) :=
  if (espn_State (espn_Type (espn_Status game)) =? "pre")%string then None else
  cs ← two_competitors game;
  let '(home, away) := sides (λ c, teamName (Location (Team c)) (DisplayName (Team c))) "" cs in
  id ← find_game l i home away; Some (id, cs).

Lemma espnRaw_data provider teamName l t i game :
  representable game →
  espnRaw (F:=F) provider teamName l t i game =
    '(id, _) ← espn_found teamName l i game;
    Some (rawEvent provider (Doc (to_json {| espn_EventID := id; espn_Game := game |})) t).
Proof.
  intros Hg. unfold espnRaw, espn_found. destruct (_ =? _)%string; [done|].
  destruct (two_competitors game) as [cs|]; [|done]. cbn [mbind option_bind].
  destruct (sides _ _ _). destruct (find_game _ _ _ _); [|done]. cbn [mbind option_bind].
  by rewrite MarshalValue_some by done.
Qed.

Lemma espn_found_competitors teamName l i game id cs :
  espn_found teamName l i game = Some (id, cs) → two_competitors game = Some cs.
Proof.
  unfold espn_found. destruct (_ =? _)%string; [done|].
  destruct (two_competitors game) as [cs'|]; [|done]. cbn [mbind option_bind].
  destruct (sides _ _ _). destruct (find_game _ _ _ _); [|done]. by intros [= <- <-].
Qed.

Lemma nhlRaw_normalised teamName l t i game now :
  representable game →
  Normalise nhl_scores now <$> espnRaw (F:=F) "nhl-scores" teamName l t i game =
    '(id, cs) ← espn_found teamName l i game;
    Some (Ok [espnState "nhl-scores" formatNHLPeriod formatNHLClock
                {| espn_EventID := id; espn_Game := game |} cs]).
Proof.
  intros Hg. rewrite espnRaw_data by done. destruct (espn_found _ _ _ _) as [[id cs]|] eqn:Hf; [|done].
  apply espn_found_competitors in Hf. cbn [mbind option_bind fmap option_fmap option_map].
  unfold Normalise, nhl_normalise. cbn [Data rawEvent fmap option_fmap option_map]. rewrite Unmarshal_Marshal by done.
  cbn [espn_Game]. by rewrite Hf.
Qed.

Lemma ncaabRaw_normalised teamName l t i game now :
  representable game →
  Normalise ncaab_scores now <$> espnRaw (F:=F) "ncaab-scores" teamName l t i game =
    '(id, cs) ← espn_found teamName l i game;
    Some (Ok [espnState "ncaab-scores" formatNCAABPeriod formatNCAABClock
                {| espn_EventID := id; espn_Game := game |} cs]).
Proof.
  intros Hg. rewrite espnRaw_data by done. destruct (espn_found _ _ _ _) as [[id cs]|] eqn:Hf; [|done].
  apply espn_found_competitors in Hf. cbn [mbind option_bind fmap option_fmap option_map].
  unfold Normalise, ncaab_normalise. cbn [Data rawEvent fmap option_fmap option_map]. rewrite Unmarshal_Marshal by done.
  cbn [espn_Game]. by rewrite Hf.
Qed.

(** A poll, game by game. *)
Lemma poll_normalised {G} `{JsonCodec F G} (f : nat → G → option (RawProviderEvent F)) {B}
    (h : RawProviderEvent F → B) (g : nat → G → option B) games :
  (∀ i game, representable game → h <$> f i game = g i game) → Forall representable games →
  h <$> omap (λ '(i, game), f i game) (imap pair games) = omap (λ '(i, game), g i game) (imap pair games).
Proof.
  intros Hfg Hg. rewrite fmap_omap. apply omap_same. intros [i game] Hin.
  apply elem_of_imap_pair in Hin. rewrite Forall_forall in Hg. by apply Hfg, Hg.
Qed.

(** The joined scoreboards. *)
Lemma join_games_app xs ys : join_games (xs ++ ys) = foldl join_game (join_games xs) ys.
Proof. apply foldl_app. Qed.

Lemma join_games_spec xs :
  let '(seen, all) := join_games xs in
  (∀ k, k ∈ seen ↔ k ∈ gameDedupeKey <$> xs) ∧ (∀ k, k ∈ seen ↔ k ∈ gameDedupeKey <$> all) ∧
  NoDup (gameDedupeKey <$> all) ∧ sublist all xs.
Proof.
  induction xs as [|x xs IH] using rev_ind.
  - unfold join_games. cbn [foldl]. split_and!; [set_solver|set_solver|constructor|done].
  - rewrite join_games_app. destruct (join_games xs) as [seen all]. destruct IH as (Hs&Ha&Hn&Hl).
    cbn [foldl]. unfold join_game. cbn zeta. cbn [fst snd]. rewrite fmap_app.
    destruct (decide (gameDedupeKey x ∈ seen)) as [Hin|Hin].
    + split_and!; [|done..|by apply sublist_inserts_r]. intros k. rewrite elem_of_app, <- Hs. set_solver.
    + rewrite fmap_app. split_and!.
      * intros k. rewrite elem_of_app, <- Hs. set_solver.
      * intros k. rewrite elem_of_app, <- Ha. set_solver.
      * apply NoDup_app. split_and!; [done| |apply NoDup_singleton].
        intros k Hk Hx%list_elem_of_singleton. subst k. apply Hin, Ha, Hk.
      * by apply sublist_app.
Qed.

Lemma join_games_representable xs : Forall representable xs → Forall representable (join_games xs).2.
Proof.
  intros Hx. pose proof (join_games_spec xs) as Hj. destruct (join_games xs) as [seen all].
  destruct Hj as (_&_&_&Hl). rewrite Forall_forall in *. intros g Hg. apply Hx. by eapply elem_of_sublist.
Qed.
End Lemmas.

Lemma flat_map_fetch_representable {F} `{FloatOps F} (resps : list (option (Z * bytes F))) :
  Forall representable (flat_map (λ resp, match fetchURL resp with Ok games => games | Err _ => [] end) resps).
Proof.
  induction resps as [|resp resps IH]; [constructor|]. cbn. apply Forall_app. split; [|done].
  destruct (fetchURL resp) as [games|e] eqn:Hf; [|constructor]. by eapply fetchURL_representable.
Qed.

(** The states of the started games that the matcher knows, in their order. *)
Definition nba_states {F} `{FloatOps F} (l : lookups) (games : list NBAGame) :
    list (result string (list (NormalisedMarketEvent F))) :=
  omap (λ '(i, game),
    if GameStatus game =? 1 then None else
    id ← find_game l i (TeamName (nba_HomeTeam game)) (TeamName (nba_AwayTeam game));
    Some (Ok [nbaState {| nba_EventID := id; nba_Game := game |}])) (imap pair games).
Definition espn_states {F} `{FloatOps F} (provider : string) (period clock : ESPNGame → string)
    (teamName : string → string → string) (l : lookups) (games : list ESPNGame) :
    list (result string (list (NormalisedMarketEvent F))) :=
  omap (λ '(i, game),
    '(id, cs) ← espn_found teamName l i game;
    Some (Ok [espnState provider period clock {| espn_EventID := id; espn_Game := game |} cs])) (imap pair games).

Lemma nbaPoll_normalised {F} `{FloatOps F} l t (resp : option (Z * bytes F)) now :
  Normalise nba_scores now <$> nbaPoll l t resp =
    match nbaFetchScoreboard resp with Err _ => [] | Ok games => nba_states l games end.
Proof.
  unfold nbaPoll. destruct (nbaFetchScoreboard resp) as [games|e] eqn:Hf; [|done].
  apply poll_normalised; [|by apply nbaFetch_representable in Hf].
  intros i game Hg. by apply nbaRaw_normalised.
Qed.

(** ** Properties *)

(** A poll of the NBA scoreboard delivers, in the scoreboard's order, one
    event for each game that has started and whose teams the matcher knows, and
    the ingestion service's normaliser turns it into exactly that game's state:
    the matched event, the two scores, the status, the labels of period and
    clock. Nothing is delivered when the exchange fails. *)
Theorem nba_scores_delivered {F} `{FloatOps F} l t (resp : option (Z * bytes F)) now :
  Normalise nba_scores now <$> nbaPoll l t resp =
    match nbaFetchScoreboard resp with Err _ => [] | Ok games => nba_states l games end.
Proof. apply nbaPoll_normalised. Qed.

(** The same of ESPN's hockey and college basketball scoreboards: each game
    that is not ahead, has two competitors and is known to the matcher under
    their names gives the state of that game, whatever garbage else the
    servers send. *)
Theorem espn_scores_delivered {F} `{FloatOps F} l t (resp : option (Z * bytes F))
    (resps : list (option (Z * bytes F))) now :
  Normalise nhl_scores now <$> nhlPoll l t resp =
    match nhlFetchScoreboard resp with
    | Err _ => []
    | Ok games => espn_states "nhl-scores" formatNHLPeriod formatNHLClock nhlTeamName l games
    end ∧
  Normalise ncaab_scores now <$> ncaabPoll l t resps =
    match ncaabFetchScoreboard resps with
    | Err _ => []
    | Ok games => espn_states "ncaab-scores" formatNCAABPeriod formatNCAABClock ncaabTeamName l games
    end.
Proof.
  split.
  - unfold nhlPoll, nhlFetchScoreboard. destruct (fetchURL resp) as [games|e] eqn:Hf; [|done].
    apply (poll_normalised (λ i game, espnRaw "nhl-scores" nhlTeamName l t i game));
      [|by apply fetchURL_representable in Hf]. intros i game Hg. by apply nhlRaw_normalised.
  - unfold ncaabPoll. destruct (ncaabFetchScoreboard resps) as [games|e] eqn:Hf; [|done].
    apply (poll_normalised (λ i game, espnRaw "ncaab-scores" ncaabTeamName l t i game)).
    + intros i game Hg. by apply ncaabRaw_normalised.
    + unfold ncaabFetchScoreboard in Hf.
      pose proof (join_games_representable _ (flat_map_fetch_representable resps)) as Hr.
      destruct (join_games _) as [seen all]. destruct (_ && _); [done|]. by injection Hf as <-.
Qed.

(** The college scoreboards overlap; joined, each game (each pair of team
    names) appears once, where it was first fetched, and none is lost. *)
Theorem ncaabFetchScoreboard_joins {F} `{FloatOps F} (resps : list (option (Z * bytes F))) games :
  ncaabFetchScoreboard resps = Ok games →
  let fetched := flat_map (λ resp, match fetchURL resp with Ok games => games | Err _ => [] end) resps in
  NoDup (gameDedupeKey <$> games) ∧ sublist games fetched ∧
  (∀ g, g ∈ fetched → gameDedupeKey g ∈ gameDedupeKey <$> games).
Proof.
  unfold ncaabFetchScoreboard. cbn zeta. set (fetched := flat_map _ resps).
  pose proof (join_games_spec fetched) as Hj. destruct (join_games fetched) as [seen all].
  destruct Hj as (Hs&Ha&Hn&Hl). destruct (_ && _); [done|]. intros [= <-].
  split_and!; [done..|]. intros g Hg. apply Ha, Hs. by apply list_elem_of_fmap_2.
Qed.

(** A message of the sports socket: a ping is answered and nothing else; any
    other message delivers one event at most, and only for a supported league
    and a known pair of teams; what is delivered is normalised to the state of
    that game, SCHEDULED, LIVE or FINISHED by its flags; a full channel drops
    the event. *)
Theorem score_handleMessage_spec {F} `{FloatOps F} l t (msg : bytes F) ch now :
  (length ch ≤ scoreChanCap)%nat →
  (is_text "ping" msg = true → score_handleMessage l t msg ch = (true, ch)) ∧
  (is_text "ping" msg = false →
     score_handleMessage l t msg ch = (false, ch) ∨
     ∃ result id raw,
       UnmarshalValue msg = Some result ∧ supportedLeagues (LeagueAbbreviation result) = true ∧
       find_game l 0 (sr_HomeTeam result) (sr_AwayTeam result) = Some id ∧
       score_handleMessage l t msg ch = (false, take scoreChanCap (ch ++ [raw])) ∧
       Normalise polymarket_scores now raw =
         Ok [polymarketState {| pm_EventID := id; Result := result |}]).
Proof.
  intros Hl. unfold score_handleMessage. split; intros ->; [done|].
  destruct (UnmarshalValue msg) as [result|] eqn:Hu; [|by left].
  destruct (supportedLeagues _) eqn:Hs; cbn [negb]; [|by left].
  destruct (find_game _ _ _ _) as [id|] eqn:Hf; [|by left]. right.
  apply UnmarshalValue_reads in Hu as Hr. rewrite MarshalValue_some by done.
  eexists result, id, _. split_and!; try done; [by rewrite send_or_drop_take|].
  unfold Normalise, polymarket_score_normalise. cbn [Data rawEvent].
  by rewrite Unmarshal_Marshal.
Qed.

(** Names for the matcher: of hockey teams the nickname is left when the city
    is in front of it. For colleges the comment promises the place without the
    mascot; only the last word goes, so "Duke Blue Devils" is looked up as "Duke
    Blue". *)
Theorem team_names :
  (∀ city nickname, city ≠ EmptyString → nhlTeamName city (city +:+ " " +:+ nickname) = nickname) ∧
  (∀ place name, place ≠ EmptyString → ncaabTeamName place name = place) ∧
  ncaabTeamName "" "Duke Blue Devils" = "Duke Blue".
Proof.
  split_and!; [| |vm_compute; reflexivity].
  - intros city nickname Hc. unfold nhlTeamName, HasPrefix.
    destruct (String.eqb_spec city "") as [|_]; [done|].
    rewrite <- append_assoc, strip_prefix_app. by rewrite bool_decide_true by done.
  - intros place name Hp. unfold ncaabTeamName. by destruct (String.eqb_spec place "").
Qed.

(** ** Concrete runs *)

#[local] Existing Instance inert_platform.

Definition ex_lookups : lookups := {| matcher _ := ex_events; order_at _ := map_to_list |}.
Definition ex_result : SportResult :=
  Build_SportResult 7 "nba" "bos-cle" "Cavaliers" "Celtics" "InProgress" "101-99" "Q4" "5:04" true false.
Definition ex_sport_msg : bytes binary64 := Doc (to_json ex_result).

Lemma score_handleMessage_spec_witness :
  (score_handleMessage ex_lookups 7 ex_sport_msg []).2 ≠ [] ∧
  ∃ result id (raw : RawProviderEvent binary64),
    UnmarshalValue ex_sport_msg = Some result ∧ find_game ex_lookups 0 (sr_HomeTeam result) (sr_AwayTeam result) = Some id ∧
    Normalise polymarket_scores 8 raw = Ok [polymarketState {| pm_EventID := id; Result := result |}].
Proof.
  assert ((score_handleMessage ex_lookups 7 ex_sport_msg []).2 ≠ []) as Hch by (vm_compute; discriminate).
  split; [exact Hch|].
  destruct (proj2 (score_handleMessage_spec ex_lookups 7 ex_sport_msg [] 8 (Nat.le_0_l _)) (eq_refl _))
    as [Hno|(result&id&raw&Hu&_&Hf&_&Hn)].
  - exfalso. apply Hch. rewrite Hno. reflexivity.
  - exists result, id, raw. split_and!; [exact Hu|exact Hf|exact Hn].
Defined.

Definition ex_college_scoreboard : bytes binary64 :=
  Doc (JObj [("events", JArr [to_json (ex_espn_game "in" false 1 "3" "4"); to_json (ex_espn_game "in" false 2 "3" "4")])]).
Definition ex_joined : result string (list ESPNGame) :=
  ncaabFetchScoreboard [Some (200, ex_college_scoreboard); None; Some (200, ex_college_scoreboard)].

Lemma ncaabFetchScoreboard_joins_witness :
  ex_joined = Ok [ex_espn_game "in" false 1 "3" "4"] ∧ NoDup (gameDedupeKey <$> [ex_espn_game "in" false 1 "3" "4"]).
Proof.
  assert (ex_joined = Ok [ex_espn_game "in" false 1 "3" "4"]) as Hj by (vm_compute; reflexivity).
  split; [exact Hj|]. exact (proj1 (ncaabFetchScoreboard_joins _ _ Hj)).
Defined.
