(* ===== verification/PolymarketFeed.v ===== *)
(** * The Polymarket feed ([internal/marketdata/polymarket_feed.go])

    A poll fetches a competition's events and, for each one it keeps, tells the
    event matcher its name, the token registry its tokens, and then sends it to
    the ingestion service. The matcher and the registry are shared with the
    other feeds, so a poll is the list of what it does to them, in order, and
    [run] lets the others do anything in between. The theorems: exactly the
    eligible events are sent, and when one is, the score and price feeds can
    already find it, under the id and the name the catalogue gets. *)
From S2P Require Export PolymarketNormaliser EventMatcher PriceFeed.
Local Open Scope Z_scope.

(** [eventMatcher != nil] and [tokenRegistry != nil] are the two flags. *)
Record PolymarketFeed : Type := {
  has_matcher : bool;
  has_registry : bool;
  pf_providerID : string;
  slugPrefix : string;
  tagID : Z;
  binaryMode : bool
}.

Definition NBATagID : Z := 745.
Definition NCAABTagID : Z := 28.
Definition NHLTagID : Z := 899.
Definition IranTagID : Z := 78.

Definition NewPolymarketFeed (hm hr : bool) : PolymarketFeed :=
  {| has_matcher := hm; has_registry := hr; pf_providerID := "polymarket-nba"; slugPrefix := "nba-";
     tagID := NBATagID; binaryMode := false |}.
Definition NewIranFeed : PolymarketFeed :=
  {| has_matcher := false; has_registry := false; pf_providerID := "polymarket-iran"; slugPrefix := "";
     tagID := IranTagID; binaryMode := true |}.
Definition NewNCAABFeed (hm hr : bool) : PolymarketFeed :=
  {| has_matcher := hm; has_registry := hr; pf_providerID := "polymarket-ncaab"; slugPrefix := "cbb-";
     tagID := NCAABTagID; binaryMode := false |}.
Definition NewNHLFeed (hm hr : bool) : PolymarketFeed :=
  {| has_matcher := hm; has_registry := hr; pf_providerID := "polymarket-nhl"; slugPrefix := "nhl-";
     tagID := NHLTagID; binaryMode := false |}.

Section Feed.
Context {F : Type} `{FloatOps F} `{GoFormat F} `{!FiniteZero F}.

Definition hasSportsMarkets (markets : list (GammaMarket F)) : bool :=
  existsb (λ m, bool_decide (is_Some (allowedTypes (SportsMarketType m)))) markets.
Definition hasBinaryMarkets (markets : list (GammaMarket F)) : bool :=
  existsb (λ m, negb (gm_Closed m) && gm_Active m && (SportsMarketType m =? "")%string) markets.

(** The three [continue]s at the head of the loop. *)
Definition eligible (f : PolymarketFeed) (ev : GammaEvent F) : bool :=
  negb (ge_Closed ev || negb (ge_Active ev)) &&
  negb (negb (slugPrefix f =? "")%string && negb (HasPrefix (ge_Slug ev) (slugPrefix f))) &&
  (if binaryMode f then hasBinaryMarkets (Markets ev) else hasSportsMarkets (Markets ev)).

(** What a poll does to what it shares. *)
Inductive feed_action : Type :=
| RegisterEvent (eventID name : string)
| RegisterTokens (entries : list TokenEntry)
| Send (raw : RawProviderEvent F).

Definition tokenEntries (f : PolymarketFeed) (m : GammaMarket F) : list TokenEntry :=
  imap (λ i tid, {| TokenID := tid; ConditionID := gm_ConditionID m; SelIndex := Z.of_nat i;
                    te_ProviderID := pf_providerID f |}) (default [] (ParseClobTokenIDs m)).

Definition register_market (f : PolymarketFeed) (m : GammaMarket F) : list feed_action :=
  if bool_decide (tokenEntries f m = []) then [] else [RegisterTokens (tokenEntries f m)].

(** One turn of the loop. *)
Definition poll_event (f : PolymarketFeed) (now : Z) (ev : GammaEvent F) : list feed_action :=
  if negb (eligible f ev) then [] else
  match MarshalValue ev with
  | None => []
  | Some data =>
      (if has_matcher f then [RegisterEvent (ge_ID ev) (ReplaceAll (Title ev) " vs. " " @ ")] else []) ++
      (if has_registry f then flat_map (register_market f) (Markets ev) else []) ++
      [Send (Build_RawProviderEvent (pf_providerID f) data now)]
  end.

(** The poll, on the answers of the API; [None] while it waits for one. *)
Definition poll (f : PolymarketFeed) (now : Z) (resps : list (option (Z * bytes F))) :
    option (list feed_action) :=
  fetched ← FetchEvents resps;
  Some (match fetched with
        | Err _ => []
        | Ok events => flat_map (poll_event f now) events
        end).

(** ** What the actions do *)

Record shared : Type := {
  sh_matcher : EventMatcher;
  sh_registry : TokenRegistry;
  sh_channel : list (RawProviderEvent F)
}.

Definition act (a : feed_action) (s : shared) : shared :=
  match a with
  | RegisterEvent id name =>
      {| sh_matcher := EventMatcher_Register id name (sh_matcher s); sh_registry := sh_registry s;
         sh_channel := sh_channel s |}
  | RegisterTokens entries =>
      {| sh_matcher := sh_matcher s; sh_registry := Register_signal (Register_entries entries (sh_registry s));
         sh_channel := sh_channel s |}
  | Send raw =>
      {| sh_matcher := sh_matcher s; sh_registry := sh_registry s; sh_channel := sh_channel s ++ [raw] |}
  end.
Definition act_all (actions : list feed_action) (s : shared) : shared := foldl (λ s a, act a s) s actions.
End Feed.
Arguments feed_action : clear implicits.
Arguments shared : clear implicits.
Arguments RegisterEvent {F} _ _.
Arguments RegisterTokens {F} _.
Arguments Send {F} _.

(** A run: the actions of everybody, [true] on those of the poll. *)
Abbreviation run F := (list (bool * feed_action F)).
Definition mine {F} (tr : run F) : list (feed_action F) := (filter (λ a, a.1 = true) tr).*2.
Definition others {F} (tr : run F) : list (feed_action F) := (filter (λ a, a.1 = false) tr).*2.

(** ** Lemmas *)

Section Lemmas.
Context {F : Type}.
Implicit Types (a : feed_action F) (l : list (feed_action F)) (s : shared F).

(** The names under which a list of actions registers an event, and the entries
    of a token. *)
Definition names_of (id : string) l : list string :=
  omap (λ a, match a with
             | RegisterEvent id' name => if bool_decide (id' = id) then Some name else None
             | _ => None
             end) l.
Definition entries_of (tid : string) l : list TokenEntry :=
  flat_map (λ a, match a with
                 | RegisterTokens es => filter (λ e, TokenID e = tid) es
                 | _ => []
                 end) l.

Lemma foldl_insert_last {A K} `{Countable K} (key : A → K) (es : list A) (m : gmap K A) k :
  foldl (λ m e, <[key e := e]> m) m es !! k =
    match last (filter (λ e, key e = k) es) with Some e => Some e | None => m !! k end.
Proof.
  revert m. induction es as [|e es IH] using rev_ind; intros m; [done|].
  rewrite foldl_app, filter_app. cbn [foldl]. destruct (decide (key e = k)) as [<-|Hne].
  - rewrite lookup_insert_eq, filter_cons_True, filter_nil by done. by rewrite last_snoc.
  - rewrite lookup_insert_ne, filter_cons_False, filter_nil, app_nil_r by done. apply IH.
Qed.

Lemma last_app_or {A} (xs ys : list A) : last (xs ++ ys) = match last ys with Some y => Some y | None => last xs end.
Proof. rewrite last_app. by destruct (last ys). Qed.

(** The last registration counts. *)
Lemma act_all_matcher l s id :
  sh_matcher (act_all l s) !! id =
    match last (names_of id l) with
    | Some name => Some {| me_eventID := id; me_name := name |}
    | None => sh_matcher s !! id
    end.
Proof.
  revert s. induction l as [|a l IH] using rev_ind; intros s; [done|].
  unfold act_all, names_of in *. rewrite foldl_app, omap_app, last_app_or. cbn [foldl].
  destruct a as [id' name|es|raw]; cbn [act sh_matcher omap list_omap]; [|by rewrite IH..].
  unfold EventMatcher_Register. case_bool_decide as Hid; cbn.
  - subst id'. by rewrite lookup_insert_eq.
  - by rewrite lookup_insert_ne, IH.
Qed.
Lemma act_all_registry l s tid :
  Lookup (sh_registry (act_all l s)) tid =
    match last (entries_of tid l) with Some e => Some e | None => Lookup (sh_registry s) tid end.
Proof.
  revert s. induction l as [|a l IH] using rev_ind; intros s; [done|].
  unfold act_all, entries_of in *. rewrite foldl_app, flat_map_app, last_app_or. cbn [foldl].
  destruct a as [id' name|es|raw]; cbn [act sh_registry flat_map]; rewrite ?app_nil_r; [by rewrite IH| |by rewrite IH].
  unfold Lookup, Register_signal, Register_entries in *. cbn. rewrite foldl_insert_last.
  destruct (last (filter _ es)); [done|]. apply IH.
Qed.

Lemma names_of_app id l l' : names_of id (l ++ l') = names_of id l ++ names_of id l'.
Proof. apply omap_app. Qed.
Lemma entries_of_app tid l l' : entries_of tid (l ++ l') = entries_of tid l ++ entries_of tid l'.
Proof. apply flat_map_app. Qed.

(** Where the others leave a key alone, a run registers what the poll does. *)
Lemma of_run {B} (f : list (feed_action F) → list B) (tr : run F) :
  (∀ l l', f (l ++ l') = f l ++ f l') → f (others tr) = [] → f tr.*2 = f (mine tr).
Proof.
  unfold others, mine. intros Happ. assert (f [] = []) as H0.
  { pose proof (f_equal length (Happ [] [])) as Hl. rewrite length_app in Hl. cbn in Hl.
    apply length_zero_iff_nil. lia. }
  induction tr as [|[[] a] tr IH]; intros Ho; [done|..].
  - rewrite filter_cons_False in Ho by done. rewrite filter_cons_True by done.
    cbn [fmap list_fmap snd]. change (a :: ?x) with ([a] ++ x). rewrite !Happ. f_equal. by apply IH.
  - rewrite filter_cons_True in Ho by done. rewrite filter_cons_False by done.
    cbn [fmap list_fmap snd] in Ho |- *. change (a :: ?x) with ([a] ++ x) in Ho |- *.
    rewrite Happ in Ho |- *. apply app_nil in Ho as [-> Ho]. by apply IH.
Qed.
Lemma mine_app (tr tr' : run F) : mine (tr ++ tr') = mine tr ++ mine tr'.
Proof. unfold mine. by rewrite filter_app, fmap_app. Qed.
End Lemmas.

Section Poll.
Context {F : Type} `{FloatOps F} `{GoFormat F} `{!FiniteZero F}.
Implicit Types (f : PolymarketFeed) (ev : GammaEvent F) (m : GammaMarket F).

(** The actions of a poll before it sends an event. *)
Definition registrations f ev : list (feed_action F) :=
  (if has_matcher f then [RegisterEvent (ge_ID ev) (ReplaceAll (Title ev) " vs. " " @ ")] else []) ++
  (if has_registry f then flat_map (register_market f) (Markets ev) else []).

Lemma poll_event_eq f now ev :
  representable ev →
  poll_event f now ev =
    if eligible f ev
    then registrations f ev ++ [Send (Build_RawProviderEvent (pf_providerID f) (Doc (to_json ev)) now)] else [].
Proof.
  intros Hr. unfold poll_event. destruct (eligible f ev); [|done]. cbn [negb].
  by rewrite MarshalValue_some, app_assoc by done.
Qed.

Definition sends (l : list (feed_action F)) : list (RawProviderEvent F) :=
  omap (λ a, match a with Send raw => Some raw | _ => None end) l.

Lemma registrations_send_nothing f ev : sends (registrations f ev) = [].
Proof.
  unfold registrations, sends. rewrite omap_app. apply app_nil. split; [by destruct (has_matcher f)|].
  destruct (has_registry f); [|done]. induction (Markets ev) as [|m ms IH]; [done|].
  cbn [flat_map]. rewrite omap_app, IH. unfold register_market. by case_bool_decide.
Qed.

(** Where in a poll an event is sent. *)
Lemma poll_sends_at f now evs before raw after :
  Forall representable evs →
  flat_map (poll_event f now) evs = before ++ Send raw :: after →
  ∃ evs1 ev evs2, evs = evs1 ++ ev :: evs2 ∧ eligible f ev = true ∧
    raw = Build_RawProviderEvent (pf_providerID f) (Doc (to_json ev)) now ∧
    before = flat_map (poll_event f now) evs1 ++ registrations f ev.
Proof.
  revert before. induction evs as [|ev evs IH]; intros before; [by destruct before|].
  intros [Hr Hrs]%Forall_cons. cbn [flat_map]. rewrite poll_event_eq by done. destruct (eligible f ev) eqn:He.
  - intros Heq. rewrite <- app_assoc in Heq. cbn [app] in Heq.
    apply app_eq_app in Heq as [l [[Hreg Hl]|[-> Hl]]].
    + destruct l as [|a l]; cbn [app] in Hl; injection Hl as Ha Hl.
      * exists [], ev, evs. rewrite app_nil_r in Hreg. by split_and!; subst.
      * pose proof (registrations_send_nothing f ev) as Hs. rewrite Hreg, <- Ha in Hs. unfold sends in Hs.
        rewrite omap_app in Hs. cbn in Hs. by apply app_nil in Hs as [_ Hs].
    + destruct l as [|a l]; cbn [app] in Hl; injection Hl as Ha Hl.
      * exists [], ev, evs. rewrite app_nil_r. by split_and!; subst.
      * destruct (IH l Hrs Hl) as (evs1&ev'&evs2&->&He'&->&->). exists (ev :: evs1), ev', evs2.
        split_and!; [done..|]. cbn [flat_map]. rewrite poll_event_eq, He by done. rewrite <- Ha. by rewrite <- !app_assoc.
  - intros Heq. destruct (IH before) as (evs1&ev'&evs2&->&He'&->&->); [done..|].
    exists (ev :: evs1), ev', evs2. split_and!; [done..|]. cbn [flat_map]. by rewrite poll_event_eq, He.
Qed.

Lemma poll_sends f now evs :
  Forall representable evs →
  sends (flat_map (poll_event f now) evs) =
    (λ ev, Build_RawProviderEvent (pf_providerID f) (Doc (to_json ev)) now) <$>
      filter (λ ev, eligible f ev = true) evs.
Proof.
  induction 1 as [|ev evs Hr _ IH]; [done|]. cbn [flat_map]. unfold sends in *.
  rewrite poll_event_eq, omap_app, IH by done. destruct (eligible f ev) eqn:He.
  - rewrite filter_cons_True by done. rewrite omap_app.
    pose proof (registrations_send_nothing f ev) as Hs. unfold sends in Hs. by rewrite Hs.
  - by rewrite filter_cons_False by congruence.
Qed.

(** The tokens of an event, market by market. *)
Definition event_tokens ev : list string :=
  flat_map (λ m, default [] (ParseClobTokenIDs m)) (Markets ev).
Definition event_entries f ev : list TokenEntry := flat_map (tokenEntries f) (Markets ev).

Lemma event_entries_tokens f ev : TokenID <$> event_entries f ev = event_tokens ev.
Proof.
  unfold event_entries, event_tokens. induction (Markets ev) as [|m ms IH]; [done|].
  cbn [flat_map]. rewrite fmap_app, IH. f_equal. unfold tokenEntries. rewrite fmap_imap.
  generalize (default [] (ParseClobTokenIDs m)). intros l. rewrite <- (list_fmap_id l) at 2.
  rewrite <- (imap_const id l). by apply imap_ext.
Qed.

Lemma registrations_names f ev :
  has_matcher f = true → names_of (ge_ID ev) (registrations f ev) = [ReplaceAll (Title ev) " vs. " " @ "].
Proof.
  intros Hm. unfold registrations. rewrite Hm, names_of_app. cbn. rewrite bool_decide_true by done. cbn. f_equal.
  destruct (has_registry f); [|done]. induction (Markets ev) as [|m ms IH]; [done|].
  cbn [flat_map]. rewrite names_of_app, IH. unfold register_market. by case_bool_decide.
Qed.
Lemma registrations_entries f ev tid :
  has_registry f = true →
  entries_of tid (registrations f ev) = filter (λ e, TokenID e = tid) (event_entries f ev).
Proof.
  intros Hr. unfold registrations, event_entries. rewrite Hr, entries_of_app.
  assert (entries_of tid (if has_matcher f then [RegisterEvent (F:=F) (ge_ID ev) (ReplaceAll (Title ev) " vs. " " @ ")] else [])
    = []) as -> by (by destruct (has_matcher f)). cbn [app].
  induction (Markets ev) as [|m ms IH]; [done|].
  cbn [flat_map]. rewrite entries_of_app, filter_app, IH. f_equal. unfold register_market.
  case_bool_decide as He; [by rewrite He|]. cbn. by rewrite app_nil_r.
Qed.

Lemma filter_key_unique {A K} `{EqDecision K} (key : A → K) (l : list A) x :
  NoDup (key <$> l) → x ∈ l → filter (λ y, key y = key x) l = [x].
Proof.
  induction l as [|y l IH]; [by intros _ ?%not_elem_of_nil|]. cbn [fmap list_fmap].
  intros [Hy Hn]%NoDup_cons Hx. apply elem_of_cons in Hx as [->|Hx].
  - rewrite filter_cons_True by done. f_equal. destruct (filter _ l) as [|z zs] eqn:Hz; [done|].
    assert (z ∈ filter (λ z, key z = key y) l) as [Hk Hin]%list_elem_of_filter by (rewrite Hz; apply list_elem_of_here).
    destruct Hy. rewrite <- Hk. by apply list_elem_of_fmap_2.
  - rewrite filter_cons_False; [by apply IH|]. intros Hk. apply Hy. rewrite Hk. by apply list_elem_of_fmap_2.
Qed.

Lemma act_all_keyed (l : list (feed_action F)) s : keyed (sh_matcher s) → keyed (sh_matcher (act_all l s)).
Proof.
  unfold act_all. revert s. induction l as [|a l IH]; intros s Hk; [done|]. cbn. apply IH.
  destruct a; cbn; [by apply Register_keyed|done..].
Qed.

(** What the matcher and the registry hold when a poll sends an event. *)
Lemma shared_at_send f now resps tr before raw after :
  poll f now resps = Some (mine tr) → tr = before ++ (true, Send raw) :: after →
  ∃ ev, eligible f ev = true ∧
    raw = Build_RawProviderEvent (pf_providerID f) (Doc (to_json ev)) now ∧
    UnmarshalValue (Data raw) = Some ev ∧
    ∀ s : shared F,
    (has_matcher f = true → names_of (ge_ID ev) (others before) = [] →
       sh_matcher (act_all before.*2 s) !! ge_ID ev =
         Some {| me_eventID := ge_ID ev; me_name := ReplaceAll (Title ev) " vs. " " @ " |}) ∧
    (has_registry f = true → ∀ e, e ∈ event_entries f ev → NoDup (event_tokens ev) →
       entries_of (TokenID e) (others before) = [] →
       Lookup (sh_registry (act_all before.*2 s)) (TokenID e) = Some e).
Proof.
  intros Hp ->. unfold poll in Hp. destruct (FetchEvents resps) as [[evs|]|] eqn:Hf; [| |done].
  all: rewrite mine_app in Hp; cbn in Hp; injection Hp as Hp.
  2: by destruct (mine before).
  assert (Forall representable evs) as Hr by (by eapply FetchEvents_representable; [constructor|]).
  destruct (poll_sends_at f now evs (mine before) raw (mine after) Hr Hp) as (evs1&ev&evs2&->&He&->&Hb).
  exists ev. split_and!; [done|done| |].
  { cbn [Data]. apply Unmarshal_Marshal. rewrite Forall_forall in Hr. apply Hr. set_solver. }
  intros s. split.
  - intros Hm Ho. rewrite act_all_matcher, (of_run (names_of (ge_ID ev))) by (done || apply names_of_app).
    by rewrite Hb, names_of_app, registrations_names, last_snoc.
  - intros Hg e Hin Hn Ho. rewrite act_all_registry, (of_run (entries_of (TokenID e))) by (done || apply entries_of_app).
    rewrite Hb, entries_of_app, registrations_entries by done.
    rewrite (filter_key_unique TokenID) by (rewrite ?event_entries_tokens; done). by rewrite last_snoc.
Qed.
End Poll.

(** ** Properties *)

Section Properties.
Context {F : Type} `{FloatOps F} `{GoFormat F} `{!FiniteZero F}.

(** A poll sends the events that are active, not closed, of the feed's slug
    prefix and with a market of the kind it takes, in the API's order and no
    others, none when a page fails; and the ingestion service decodes from each
    one the event the API served. *)
Theorem poll_sends_the_eligible (f : PolymarketFeed) now (resps : list (option (Z * bytes F))) :
  (λ actions, UnmarshalValue (A:=GammaEvent F) ∘ Data <$> sends actions) <$> poll f now resps =
    (λ fetched, match fetched with
                | Err _ => []
                | Ok evs => Some <$> filter (λ ev, eligible f ev = true) evs
                end) <$> FetchEvents resps.
Proof.
  unfold poll. destruct (FetchEvents resps) as [[evs|e]|] eqn:Hf; [|done..].
  assert (Forall representable evs) as Hr by (by eapply FetchEvents_representable; [constructor|]).
  cbn [mbind option_bind fmap option_fmap option_map]. f_equal.
  rewrite poll_sends, <- list_fmap_compose by done. apply list_fmap_ext.
  intros i ev Hev. apply list_elem_of_lookup_2, list_elem_of_filter in Hev as [_ Hev].
  rewrite Forall_forall in Hr. by apply Unmarshal_Marshal, Hr.
Qed.

(** When the event goes out, the price feed can already look up its tokens:
    as long as nobody else registers a token of it, each one is found with the
    id of its market, its place in that market and the feed's provider. *)
Theorem tokens_known_when_sent (f : PolymarketFeed) now (resps : list (option (Z * bytes F))) tr before raw after
    (s : shared F) :
  poll f now resps = Some (mine tr) → tr = before ++ (true, Send raw) :: after → has_registry f = true →
  ∃ ev, UnmarshalValue (Data raw) = Some ev ∧
    ∀ m tids i tid, m ∈ Markets ev → ParseClobTokenIDs m = Some tids → tids !! i = Some tid →
      NoDup (event_tokens ev) → entries_of tid (others before) = [] →
      Lookup (sh_registry (act_all before.*2 s)) tid =
        Some {| TokenID := tid; ConditionID := gm_ConditionID m; SelIndex := Z.of_nat i;
                te_ProviderID := pf_providerID f |}.
Proof.
  intros Hp Htr Hg. destruct (shared_at_send f now resps tr before raw after Hp Htr) as (ev&_&_&Hu&Hs).
  exists ev. split; [done|]. intros m tids i tid Hm Ht Hi Hn Ho.
  apply (proj2 (Hs s) Hg {| TokenID := tid; ConditionID := gm_ConditionID m; SelIndex := Z.of_nat i;
    te_ProviderID := pf_providerID f |}); [|done..].
  apply elem_of_flat_map. exists m. split; [done|]. unfold tokenEntries. rewrite Ht.
  apply elem_of_lookup_imap. by exists i, tid.
Qed.

(** C35. The score feeds find the games of the catalogue: when the event of an
    upsert goes out, and no other feed has registered a name under its id before,
    the matcher already holds it under the id and the name of the upsert; so a
    score whose two teams are in that name, and in the name of no other event the
    matcher holds, is matched to this event (two games of the same teams on two
    dates both hold them: then either may be found). *)
Theorem scores_find_upserted_events (f : PolymarketFeed) now (resps : list (option (Z * bytes F))) tr before raw after
    (s : shared F) (n : PolymarketNormaliser) now' events e order homeTeam awayTeam :
  poll f now resps = Some (mine tr) → tr = before ++ (true, Send raw) :: after → has_matcher f = true →
  Normalise n now' raw = Ok events → e ∈ events → EventType e = "catalog.upsert" →
  names_of (EventID e) (others before) = [] →
  iterates order → keyed (sh_matcher s) →
  let matcher := sh_matcher (act_all before.*2 s) in
  matcher !! EventID e = Some {| me_eventID := EventID e; me_name := EventName e |} ∧
  (names_game homeTeam awayTeam {| me_eventID := EventID e; me_name := EventName e |} →
   (∀ id entry, matcher !! id = Some entry → names_game homeTeam awayTeam entry → id = EventID e) →
   FindByTeams order matcher homeTeam awayTeam = Some (EventID e)).
Proof.
  intros Hp Htr Hm Hnm He Ht Ho Hit Hk. cbn zeta.
  destruct (shared_at_send f now resps tr before raw after Hp Htr) as (ev&_&_&Hu&Hs).
  destruct (polymarket_upsert_inv n now' raw ev events e) as (st&m&i&_&_&_&_&_&_&_&Hof); [done..|].
  destruct Hof as [_ (Hid&_&_&Hname) _ _ _ _]. rewrite Hid in Ho.
  assert (sh_matcher (act_all before.*2 s) !! EventID e = Some {| me_eventID := EventID e; me_name := EventName e |})
    as Hl by (rewrite Hid, Hname; by apply Hs).
  split; [done|]. intros Hn Hu'.
  pose proof (FindByTeams_cases order _ homeTeam awayTeam Hit (act_all_keyed before.*2 s Hk)) as Hc.
  destruct (FindByTeams _ _ _ _) as [id|]; [|by destruct (Hc _ _ Hl)].
  destruct Hc as (entry&Hid'&Hng). f_equal. by apply (Hu' id entry).
Qed.
End Properties.

(** ** A concrete run: another feed registers its own game in the middle *)

Section Witnesses.
#[local] Existing Instance inert_platform.

Definition ex_feed_market : GammaMarket binary64 :=
  Build_GammaMarket "1" "c1" "Celtics vs. Nets" "s" None "moneyline" None (text_of_two "Celtics" "Nets")
    (text_of_two "0.6" "0.4") (text_of_two "t0" "t1") "2026-03-02 00:00:00+00" "2026-03-02T00:00:00Z" true false.
Definition ex_feed_event : GammaEvent binary64 :=
  Build_GammaEvent "e1" "nba-bos-bkn" "Celtics vs. Nets" true false [ex_feed_market].
Definition ex_feed : PolymarketFeed := NewPolymarketFeed true true.
Definition ex_feed_resps : list (option (Z * bytes binary64)) := [Some (200, Doc (to_json [ex_feed_event]))].
Definition ex_feed_raw : RawProviderEvent binary64 :=
  Build_RawProviderEvent "polymarket-nba" (Doc (to_json ex_feed_event)) ex_pm_now.
Definition ex_feed_before : run binary64 :=
  [(true, RegisterEvent "e1" "Celtics @ Nets"); (false, RegisterEvent "e9" "Kings @ Heat");
   (true, RegisterTokens (tokenEntries ex_feed ex_feed_market))].
Definition ex_feed_run : run binary64 := ex_feed_before ++ [(true, Send ex_feed_raw)].
Definition ex_shared : shared binary64 :=
  {| sh_matcher := NewEventMatcher; sh_registry := NewTokenRegistry; sh_channel := [] |}.
Definition ex_feed_emitted : list (NormalisedMarketEvent binary64) :=
  match Normalise ex_nba ex_pm_now ex_feed_raw with Ok l => l | Err _ => [] end.
Definition ex_feed_upsert : NormalisedMarketEvent binary64 :=
  default (priceUpdate ex_feed_market) (ex_feed_emitted !! 0%nat).

Lemma ex_feed_polled : poll ex_feed ex_pm_now ex_feed_resps = Some (mine ex_feed_run).
Proof. vm_compute. reflexivity. Qed.

Lemma tokens_known_when_sent_witness :
  Lookup (sh_registry (act_all ex_feed_before.*2 ex_shared)) "t1" =
    Some {| TokenID := "t1"; ConditionID := "c1"; SelIndex := 1; te_ProviderID := "polymarket-nba" |}.
Proof.
  destruct (tokens_known_when_sent ex_feed ex_pm_now ex_feed_resps ex_feed_run ex_feed_before ex_feed_raw [] ex_shared)
    as (ev&Hu&Hl); [exact ex_feed_polled|reflexivity|reflexivity|].
  assert (ev = ex_feed_event) as ->.
  { assert (Some ev = Some ex_feed_event) as [= He]; [|exact He]. rewrite <- Hu. vm_compute. reflexivity. }
  apply (Hl ex_feed_market ["t0"; "t1"] 1%nat "t1"); try (vm_compute; reflexivity).
  - apply list_elem_of_here.
  - apply (bool_decide_unpack _). vm_compute. exact I.
Defined.

Lemma ex_one_game (id : string) (entry : matchEntry) :
  sh_matcher (act_all ex_feed_before.*2 ex_shared) !! id = Some entry → names_game "Nets" "Celtics" entry →
  id = "e1".
Proof.
  intros Hl Hn%matches_spec.
  assert (map_Forall (λ id entry, matches "Nets" "Celtics" entry = true → id = "e1")
    (sh_matcher (act_all ex_feed_before.*2 ex_shared))) as Hall.
  { apply (bool_decide_unpack _). vm_compute. exact I. }
  exact (Hall id entry Hl Hn).
Qed.

Lemma scores_find_upserted_events_witness :
  FindByTeams map_to_list (sh_matcher (act_all ex_feed_before.*2 ex_shared)) "Nets" "Celtics" =
    Some (EventID ex_feed_upsert).
Proof.
  refine (proj2 (scores_find_upserted_events ex_feed ex_pm_now ex_feed_resps ex_feed_run ex_feed_before ex_feed_raw []
    ex_shared ex_nba ex_pm_now ex_feed_emitted ex_feed_upsert map_to_list "Nets" "Celtics" _ _ _ _ _ _ _ _ _) _ _);
    [exact ex_feed_polled|reflexivity|reflexivity|vm_compute; reflexivity
    |apply (list_elem_of_lookup_2 _ 0%nat); vm_compute; reflexivity|vm_compute; reflexivity
    |vm_compute; reflexivity|intros m; reflexivity|apply NewEventMatcher_keyed
    |apply matches_spec; vm_compute; reflexivity|exact ex_one_game].
Defined.
End Witnesses.
