(* ===== verification/Identity.v ===== *)
(** * Accounts and tokens ([internal/identity/service.go], [cmd/identity/main.go])

    Registration, login, token validation and sessions, over the users table of
    [migrations/db_identity] and a Redis instance. [bcrypt], the JWT library and
    Redis's EXPIRE are classes with the laws their documentation gives. The
    theorems: registration and login under any faults, who can log in after any
    run of the service, which tokens validate and until when, and that a token
    outlives its session. *)
From stdpp Require Import relations.
From S2P Require Export Messaging GoTime GoText.
From Stdlib Require Import Ascii.
Local Open Scope Z_scope.
Local Open Scope go_scope.

(** ** Libraries *)

(** [golang.org/x/crypto/bcrypt] at its default cost; the salt is an argument. *)
Class Bcrypt : Type := {
  GenerateFromPassword : string → string → option string;
  CompareHashAndPassword : string → string → bool;
  bcrypt_generated salt password hash :
    GenerateFromPassword salt password = Some hash → CompareHashAndPassword hash password = true;
  bcrypt_too_long salt password :
    (72 < String.length password)%nat → GenerateFromPassword salt password = None
}.

(** The claims: times are NumericDates, counted here in microseconds. *)
Record Claims : Type := {
  ExpiresAt : Z;
  IssuedAt : Z;
  Issuer : string;
  cl_UserID : string;
  cl_KYCStatus : string;
  SessionID : string
}.

(** [jwt.NewNumericDate] keeps whole seconds. *)
Definition NewNumericDate (t : Z) : Z := t / second_us * second_us.

(** [golang-jwt/jwt/v5]. [method_hmac]: the token's header names an HMAC method.
    The key function is asked for the key of that method; the flag of the
    result is [token.Valid]. The laws: signing with a byte-slice key succeeds; a
    signed token parses with its key until it expires (its claims are identifiers
    and statuses, which JSON keeps); a token whose method gets no key does not
    parse. *)
Class JwtLibrary : Type := {
  SignedString : string → Claims → option string;
  method_hmac : string → bool;
  ParseWithClaims : (bool → option string) → Z → string → option (Claims * bool);
  jwt_signs secret c : is_Some (SignedString secret c);
  jwt_signed keyfunc secret now c token :
    SignedString secret c = Some token → keyfunc true = Some secret →
    ParseWithClaims keyfunc now token = if now <? ExpiresAt c then Some (c, true) else None;
  jwt_no_key keyfunc now token :
    keyfunc (method_hmac token) = None → ParseWithClaims keyfunc now token = None
}.

(** EXPIRE beside GET and SET: it may move the expiry of its key, nothing else. *)
Class RedisExpire (V R : Type) `{RedisClient V R} : Type := {
  redis_Expire : string → Z → Go R rediserr unit;
  redis_Expire_law k ttl (w : world R) :
    wp (redis_Expire k ttl) (λ w' r,
      clock w' = clock w ∧ fresh w' = fresh w ∧
      ∀ t k' v, redis_at (db w') t k' = Some v →
        redis_at (db w) t k' = Some v ∨
        k' = k ∧ t < clock w + ttl ∧ redis_at (db w) (clock w) k = Some v) w
}.

(** A Redis that answers stores what it is given. *)
Class RedisUp (V R : Type) `{RedisClient V R} : Prop :=
  redis_Set_up : ∀ k v ttl (w : world R), faults w = [] → wp (redis_Set k v ttl) (λ _ r, r = Ok tt) w.

(** ** State *)

Record UserRow : Type := { email : string; password_hash : string; kyc_status : string; created_at : Z }.

Record Identity (R : Type) : Type := { id_users : gmap string UserRow; id_redisSession : R }.
Arguments id_users {R} _.
Arguments id_redisSession {R} _.
Arguments Build_Identity {R}.

Definition users_table {R} : lens (Identity R) (gmap string UserRow) :=
  Lens id_users (λ x s, Build_Identity x (id_redisSession s)).
Definition redisSession {R} : lens (Identity R) R :=
  Lens id_redisSession (λ x s, Build_Identity (id_users s) x).

Inductive identErr : Type := ErrEmailTaken | ErrIdentity (msg : string).

Definition sessionTTL : Z := 15 * 60 * second_us.
Definition jwtTTL : Z := 3600 * second_us.

Record LoginRequest : Type := { login_Email : string; login_Password : string }.
Record LoginResponse : Type := { AccessToken : string; resp_ExpiresAt : Z }.

Definition sessionKeyOf (sessionID : string) : string := "session:" +:+ sessionID.

(** ** The service *)

(** [INSERT INTO users]: the primary key and the UNIQUE address, both of them
    unique violations; the status has its default. *)
Definition has_email (e : string) (u : gmap string UserRow) : bool :=
  bool_decide (map_Exists (λ _ row, email row = e) u).
Definition insertUser (id : string) (row : UserRow) (u : gmap string UserRow) : option (gmap string UserRow) :=
  if has_email (email row) u then None else
  match u !! id with Some _ => None | None => Some (<[id := row]> u) end.

(** [SELECT ... WHERE email = $1]. *)
Definition user_by_email (e : string) (u : gmap string UserRow) : option (string * UserRow) :=
  head (filter (λ p, email p.2 = e) (map_to_list u)).

Section Service.
Context {R : Type} `{RedisExpire string R} `{Bcrypt} `{JwtLibrary}.
Abbreviation Auth A := (Go (Identity R) identErr A).

(** The generated ids of users, the random bytes in hex, and the secret. *)
Variable uuid randomHex : nat → string.
Variable jwtSecret : string.

(** The second half of [Register] and of [Login]. *)
Definition issueSession (userID kycStatus : string) : Auth LoginResponse :=
  flaky (ErrIdentity "generate session id") ;;;
  sessionID <- newID randomHex ;;
  t <- now ;;
  let expiresAt := t + jwtTTL in
  let claims := {| ExpiresAt := NewNumericDate expiresAt; IssuedAt := NewNumericDate t; Issuer := "sportsbook";
                   cl_UserID := userID; cl_KYCStatus := kycStatus; SessionID := sessionID |} in
  match SignedString jwtSecret claims with
  | None => throw (ErrIdentity "sign jwt")
  | Some signed =>
      zoom redisSession (redis_Set (sessionKeyOf sessionID) (userID +:+ "|" +:+ kycStatus) sessionTTL)
        or_throw (ErrIdentity "store session") ;;;
      ret {| AccessToken := signed; resp_ExpiresAt := expiresAt |}
  end.

Definition Register (req : LoginRequest) : Auth LoginResponse :=
  salt <- newID randomHex ;;
  match GenerateFromPassword salt (login_Password req) with
  | None => throw (ErrIdentity "hash password")
  | Some hash =>
      id <- newID uuid ;;
      t <- now ;;
      mapErr (λ e, match e with ErrConstraint => ErrEmailTaken | _ => ErrIdentity "insert user" end)
        (zoom users_table (exec (insertUser id
          {| email := login_Email req; password_hash := hash; kyc_status := "PENDING"; created_at := t |}))) ;;;
      issueSession id "PENDING"
  end.

Definition Login (req : LoginRequest) : Auth LoginResponse :=
  user <- zoom users_table (queryRow (user_by_email (login_Email req))) or_throw (ErrIdentity "user not found") ;;
  let '(userID, row) := user in
  if CompareHashAndPassword (password_hash row) (login_Password req)
  then issueSession userID (kyc_status row)
  else throw (ErrIdentity "invalid credentials").

(** The key function hands out the secret for HMAC methods only. *)
Definition keyfunc (hmac : bool) : option string := if hmac then Some jwtSecret else None.

Definition ValidateToken (now : Z) (tokenStr : string) : result identErr Claims :=
  match ParseWithClaims keyfunc now tokenStr with
  | None => Err (ErrIdentity "invalid token")
  | Some (claims, valid) => if valid then Ok claims else Err (ErrIdentity "invalid claims")
  end.

Definition RefreshSession (sessionID : string) : Auth unit :=
  zoom redisSession (redis_Expire (sessionKeyOf sessionID) sessionTTL) or_throw (ErrIdentity "expire").

(** ** Specification *)

(** No two users share an address. *)
Definition users_ok (u : gmap string UserRow) : Prop :=
  ∀ id1 id2 r1 r2, u !! id1 = Some r1 → u !! id2 = Some r2 → email r1 = email r2 → id1 = id2.

(** An answer for [userID]: its token validates until an hour later, to the
    second, and then no more; its session, as the call leaves Redis, is gone after
    fifteen minutes. *)
Definition session_issued (userID kycStatus : string) (w w' : world (Identity R)) (resp : LoginResponse) : Prop :=
  resp_ExpiresAt resp = clock w + jwtTTL ∧
  ∃ c, cl_UserID c = userID ∧ cl_KYCStatus c = kycStatus ∧
    (∀ t, ValidateToken t (AccessToken resp) =
       if t <? NewNumericDate (clock w + jwtTTL) then Ok c else Err (ErrIdentity "invalid token")) ∧
    ∀ t v, redis_at (id_redisSession (db w')) t (sessionKeyOf (SessionID c)) = Some v → t < clock w + sessionTTL.

Lemma ValidateToken_signed c token t :
  SignedString jwtSecret c = Some token →
  ValidateToken t token = if t <? ExpiresAt c then Ok c else Err (ErrIdentity "invalid token").
Proof.
  intros Hs. unfold ValidateToken. rewrite (jwt_signed keyfunc jwtSecret t c token) by done.
  by destruct (t <? ExpiresAt c).
Qed.

Lemma issueSession_wp userID kycStatus w :
  wp (issueSession userID kycStatus) (λ w' r,
    clock w' = clock w ∧ (fresh w ≤ fresh w')%nat ∧ id_users (db w') = id_users (db w) ∧
    match r with
    | Ok resp => session_issued userID kycStatus w w' resp
    | Err e => e ∈ ErrIdentity <$> ["generate session id"; "sign jwt"; "store session"]
    end) w.
Proof.
  unfold issueSession. go_run; cbn; try (split_and!; try done; try lia; set_solver).
  eapply wp_mono; [|apply redis_Set_law]. cbn. intros w' r (Hc&Hf&Hat).
  destruct r as [[]|e]; go_run; cbn; rewrite Hc, Hf; split_and!; try done; try lia; [|set_solver].
  split; [done|]. cbn in Heqo. match type of Heqo with SignedString _ ?c = _ => exists c end.
  split_and!; [done..|intros t; by apply (ValidateToken_signed _ _ _ Heqo)|].
  intros t v Hv. destruct (Hat _ _ _ Hv) as [(_&_&Ht)|[_ Hno]]; [done|by destruct Hno].
Qed.

(** Without faults a session is issued. *)
Lemma issueSession_up `{!RedisUp string R} userID kycStatus w :
  faults w = [] → wp (issueSession userID kycStatus) (λ _ r, ∃ resp, r = Ok resp) w.
Proof.
  intros Hf. unfold issueSession. go_step. apply wp_flaky_up; [done|]. go_run; cbn.
  - eapply wp_mono; [|by apply redis_Set_up]. intros w' r ->. go_run. cbn. by eexists.
  - match goal with E : SignedString ?s ?c = None |- _ => destruct (jwt_signs s c); congruence end.
Qed.

(** A new account: its address was not taken, its hash is of the password. *)
Definition registered (req : LoginRequest) (w w' : world (Identity R)) (id : string) (row : UserRow) : Prop :=
  id_users (db w) !! id = None ∧ has_email (login_Email req) (id_users (db w)) = false ∧
  id_users (db w') = <[id := row]> (id_users (db w)) ∧
  email row = login_Email req ∧ kyc_status row = "PENDING" ∧ created_at row = clock w ∧
  CompareHashAndPassword (password_hash row) (login_Password req) = true.

Lemma insertUser_spec id row u u' :
  insertUser id row u = Some u' → u !! id = None ∧ has_email (email row) u = false ∧ u' = <[id := row]> u.
Proof. unfold insertUser. destruct (has_email _ _); [done|]. case_match; [done|]. by intros [= <-]. Qed.

Lemma Register_wp req w :
  wp (Register req) (λ w' r,
    clock w' = clock w ∧ (fresh w ≤ fresh w')%nat ∧
    ((id_users (db w') = id_users (db w) ∧ (∀ resp, r ≠ Ok resp) ∧
      (r = Err ErrEmailTaken →
         has_email (login_Email req) (id_users (db w)) = true ∨
         is_Some (id_users (db w) !! uuid (S (fresh w))))) ∨
     ∃ row, registered req w w' (uuid (S (fresh w))) row ∧
       match r with
       | Ok resp => session_issued (uuid (S (fresh w))) "PENDING" w w' resp
       | Err e => e ≠ ErrEmailTaken
       end)) w.
Proof.
  unfold Register. do 2 go_step.
  destruct (GenerateFromPassword _ _) as [hash|] eqn:Hg; [|go_run; cbn; split_and!; [done|lia|by left]].
  go_run; cbn in *; try (split_and!; [done|lia|]; left; by split_and!).
  - apply insertUser_spec in Heqo as (Hid&He&->). eapply wp_mono; [|apply issueSession_wp].
    intros w' r (Hc&Hf&Hu&Hr). cbn in Hc, Hf, Hu. split_and!; [done|lia|]. right. eexists. split.
    + split_and!; [done|exact He|exact Hu|done..|]. by apply bcrypt_generated in Hg.
    + destruct r; [exact Hr|]. intros ->. set_solver.
  - split_and!; [done|lia|]. left. split_and!; [done..|]. intros _. unfold insertUser in Heqo. cbn in Heqo.
    destruct (has_email _ _); [by left|]. right. by case_match.
Qed.

Lemma user_by_email_Some e u id row :
  user_by_email e u = Some (id, row) → u !! id = Some row ∧ email row = e.
Proof.
  unfold user_by_email. destruct (filter _ _) as [|p l] eqn:Hf; [done|]. intros [= ->].
  assert ((id, row) ∈ filter (λ p, email p.2 = e) (map_to_list u)) as [He Hin]%list_elem_of_filter
    by (rewrite Hf; apply list_elem_of_here).
  by rewrite elem_of_map_to_list in Hin.
Qed.

Lemma user_by_email_unique u id row :
  users_ok u → u !! id = Some row → user_by_email (email row) u = Some (id, row).
Proof.
  intros Hok Hid. destruct (user_by_email (email row) u) as [[id' row']|] eqn:Hu.
  - apply user_by_email_Some in Hu as [Hu He]. assert (id' = id) as -> by (by eapply Hok). congruence.
  - unfold user_by_email in Hu. destruct (filter _ _) as [|p l] eqn:Hf; [|done].
    assert ((id, row) ∈ filter (λ p, email p.2 = email row) (map_to_list u)) as Hin
      by (apply list_elem_of_filter; split; [done|by apply elem_of_map_to_list]).
    rewrite Hf in Hin. by apply not_elem_of_nil in Hin.
Qed.

Lemma Login_wp req w :
  wp (Login req) (λ w' r,
    clock w' = clock w ∧ (fresh w ≤ fresh w')%nat ∧ id_users (db w') = id_users (db w) ∧
    match r with
    | Ok resp => ∃ id row, id_users (db w) !! id = Some row ∧ email row = login_Email req ∧
        CompareHashAndPassword (password_hash row) (login_Password req) = true ∧
        session_issued id (kyc_status row) w w' resp
    | Err e => e ≠ ErrEmailTaken
    end) w.
Proof.
  unfold Login. do 3 go_step. all: go_run; cbn in *; try done; simplify_eq.
  all: try (destruct (user_by_email _ _) as [[id row]|] eqn:Hu; simplify_eq).
  eapply wp_mono; [|apply issueSession_wp]. intros w' r (Hc&Hf&Hus&Hr). cbn in Hc, Hf, Hus.
  split_and!; [done..|]. destruct r; [|intros ->; set_solver]. apply user_by_email_Some in Hu as [Hid He].
  exists s, u. by split_and!.
Qed.

Lemma RefreshSession_users sid w w' r : RefreshSession sid w = (w', r) → id_users (db w') = id_users (db w).
Proof.
  apply (wp_intro _ (λ w' _, id_users (db w') = id_users (db w))). unfold RefreshSession. do 2 go_step.
  eapply wp_mono; [|apply redis_Expire_law]. by intros w1 [[]|e] _.
Qed.

(** ** Runs of the service: calls under any faults, and time that passes *)

Inductive id_step : world (Identity R) → world (Identity R) → Prop :=
| StepRegister req w w' r : Register req w = (w', r) → id_step w w'
| StepLogin req w w' r : Login req w = (w', r) → id_step w w'
| StepRefresh sid w w' r : RefreshSession sid w = (w', r) → id_step w w'
| StepTime w t fs : clock w ≤ t → id_step w (World (db w) t (fresh w) fs).

Lemma users_ok_insert id row u :
  users_ok u → u !! id = None → has_email (email row) u = false → users_ok (<[id := row]> u).
Proof.
  intros Hok Hid He. apply bool_decide_eq_false in He.
  assert (∀ k r, u !! k = Some r → email r ≠ email row) as Hno.
  { intros k r Hk Heq. apply He. exists k, r. by split. }
  intros k1 k2 r1 r2 [[<- <-]|[? H1']]%lookup_insert_Some [[<- <-]|[? H2']]%lookup_insert_Some Heq.
  - done.
  - by destruct (Hno _ _ H2').
  - by destruct (Hno _ _ H1').
  - by eapply Hok.
Qed.

Lemma id_step_users w w' :
  id_step w w' → users_ok (id_users (db w)) → users_ok (id_users (db w')) ∧ id_users (db w) ⊆ id_users (db w').
Proof.
  intros [req w1 w2 r Hm|req w1 w2 r Hm|sid w1 w2 r Hm|w1 t fs _] Hok; [| | |by split].
  - apply (wp_intro _ _ _ (Register_wp req w1)) in Hm as (_&_&[(->&_)|(row&(Hid&He&->&Hrow&_)&_)]); [by split|].
    rewrite <- Hrow in He. split; [by apply users_ok_insert|by apply insert_subseteq].
  - apply (wp_intro _ _ _ (Login_wp req w1)) in Hm as (_&_&->&_). by split.
  - apply RefreshSession_users in Hm as ->. by split.
Qed.

Lemma id_run_users w w' :
  rtc id_step w w' → users_ok (id_users (db w)) → users_ok (id_users (db w')) ∧ id_users (db w) ⊆ id_users (db w').
Proof.
  induction 1 as [w|w1 w2 w3 Hs _ IH]; intros Hok; [by split|].
  destruct (id_step_users _ _ Hs Hok) as [Hok2 Hsub]. destruct (IH Hok2) as [Hok3 Hsub'].
  split; [done|by etrans].
Qed.

(** ** Properties *)

(** Registration under any faults: either no account is added and no token is
    given, or exactly one is, with an address nobody had and a hash of the
    password, and the token (if there is one) is for it. "email taken" is only
    answered when it is, or when the database drew a known id. *)
Theorem Register_spec req w w' r :
  Register req w = (w', r) → users_ok (id_users (db w)) →
  users_ok (id_users (db w')) ∧
  ((id_users (db w') = id_users (db w) ∧ (∀ resp, r ≠ Ok resp) ∧
    (r = Err ErrEmailTaken →
       has_email (login_Email req) (id_users (db w)) = true ∨ is_Some (id_users (db w) !! uuid (S (fresh w))))) ∨
   ∃ row, registered req w w' (uuid (S (fresh w))) row ∧
     match r with
     | Ok resp => session_issued (uuid (S (fresh w))) "PENDING" w w' resp
     | Err e => e ≠ ErrEmailTaken
     end).
Proof.
  intros Hm Hok. split; [by eapply id_step_users; [eapply StepRegister|]|].
  by apply (wp_intro _ _ _ (Register_wp req w)) in Hm as (_&_&Hr).
Qed.

(** C31. Whoever registered can log in, after any run of the service: the account
    is still there, a later login with its address succeeds only with a password
    of its hash and then gives a token for that account, valid for an hour; and
    without faults the registered password always gets one. *)
Theorem registered_user_logs_in `{!RedisUp string R} req w0 w1 resp w2 :
  users_ok (id_users (db w0)) → Register req w0 = (w1, Ok resp) → rtc id_step w1 w2 →
  let id := uuid (S (fresh w0)) in
  ∃ row, id_users (db w2) !! id = Some row ∧ email row = login_Email req ∧
    (∀ req' w3 r, login_Email req' = login_Email req → Login req' w2 = (w3, r) →
       (∀ resp', r = Ok resp' →
          CompareHashAndPassword (password_hash row) (login_Password req') = true ∧
          session_issued id (kyc_status row) w2 w3 resp') ∧
       (login_Password req' = login_Password req → faults w2 = [] →
          ∃ resp', r = Ok resp' ∧ session_issued id (kyc_status row) w2 w3 resp')).
Proof.
  intros Hok Hm Hrun. cbn zeta. pose proof Hm as Hreg.
  apply (wp_intro _ _ _ (Register_wp req w0)) in Hreg as (_&_&[(_&Hno&_)|(row&(Hid&He&Hu&Hrow&Hk&Ht&Hc)&_)]);
    [by destruct (Hno resp)|].
  assert (users_ok (id_users (db w1))) as Hok1 by (eapply id_step_users; [by eapply StepRegister|done]).
  destruct (id_run_users w1 w2 Hrun Hok1) as [Hok2 Hsub].
  assert (id_users (db w2) !! uuid (S (fresh w0)) = Some row) as Hrow2.
  { eapply lookup_weaken; [|done]. by rewrite Hu, lookup_insert_eq. }
  exists row. split_and!; [done..|]. intros req' w3 r Heq Hl.
  assert (∀ resp', r = Ok resp' →
    CompareHashAndPassword (password_hash row) (login_Password req') = true ∧
    session_issued (uuid (S (fresh w0))) (kyc_status row) w2 w3 resp') as Hok'.
  { intros resp' ->. apply (wp_intro _ _ _ (Login_wp req' w2)) in Hl as (_&_&_&id'&row'&Hid'&He'&Hc'&Hs).
    assert (id' = uuid (S (fresh w0))) as -> by (eapply Hok2; [done..|]; congruence).
    by assert (row' = row) as -> by congruence. }
  split; [exact Hok'|]. intros Hp Hf.   assert (∃ resp', r = Ok resp') as [resp' ->]; [|exists resp'; split; [done|by apply Hok']].
  unfold Login, gbind, mapErr, zoom, queryRow, flaky in Hl. cbn in Hl. rewrite Hf in Hl. cbn in Hl.
  rewrite Heq, <- Hrow, (user_by_email_unique _ _ _ Hok2 Hrow2) in Hl. cbn in Hl. rewrite Hp, Hc in Hl.
  refine (wp_intro _ _ _ (issueSession_up _ _ _ _) _ _ Hl). exact Hf.
Qed.

(** Tokens and sessions: the answer to a login carries a token that validates
    for an hour, no matter what became of the session: from the fifteenth minute
    on, when no read of Redis can find the session any more (and nobody
    refreshed it), the token is still accepted. A token whose method is not an
    HMAC one is never accepted. *)
Theorem token_outlives_session req w w' resp t :
  Login req w = (w', Ok resp) → clock w + sessionTTL ≤ t < NewNumericDate (clock w + jwtTTL) →
  (∃ c, ValidateToken t (AccessToken resp) = Ok c ∧
     redis_at (id_redisSession (db w')) t (sessionKeyOf (SessionID c)) = None) ∧
  ∀ token now, method_hmac token = false → ValidateToken now token = Err (ErrIdentity "invalid token").
Proof.
  intros Hm Ht. split.
  - apply (wp_intro _ _ _ (Login_wp req w)) in Hm as (_&_&_&id&row&_&_&_&_&c&_&_&Hv&Hs).
    exists c. rewrite Hv, (proj2 (Z.ltb_lt _ _)) by lia. split; [done|].
    destruct (redis_at _ _ _) as [v|] eqn:Hat; [|done]. apply Hs in Hat. lia.
  - intros token now Hh. unfold ValidateToken. by rewrite (jwt_no_key keyfunc now token) by (by rewrite Hh).
Qed.
End Service.

(** ** Reference instances and concrete runs *)

#[export] Instance redis_map_expire V : RedisExpire V (RedisMap V).
Proof.
  refine {| redis_Expire k ttl :=
    flaky RedisConn ;;;
    t <- now ;;
    puts (λ r, match redis_live r t k with Some v => <[k := (v, (t + ttl)%Z)]> r | None => r end) |}.
  intros k ttl w. go_run; cbn; (split_and!; [done..|]); intros t k' v Hv; [|by left].
  destruct (redis_live (db w) (clock w) k) as [v0|] eqn:Hl; [|by left].
  destruct (decide (k' = k)) as [->|Hne].
  - unfold redis_live at 1 in Hv. rewrite lookup_insert_eq in Hv. case_match eqn:Hlt; [|done].
    injection Hv as ->. right. split_and!; [done|lia|done].
  - left. unfold redis_live in *. by rewrite lookup_insert_ne in Hv.
Defined.

(** A hash that keeps the password behind its salt. *)
Definition toy_bcrypt : Bcrypt.
Proof.
  refine {|
    GenerateFromPassword salt password :=
      if (72 <? String.length password)%nat then None else Some (password +:+ ":" +:+ salt);
    CompareHashAndPassword hash password := HasPrefix hash (password +:+ ":") |}.
  - intros salt password hash. destruct (_ <? _)%nat; [done|]. intros [= <-]. unfold HasPrefix.
    rewrite <- append_assoc, strip_prefix_app. by apply bool_decide_true.
  - intros salt password Hl. by rewrite (proj2 (Nat.ltb_lt _ _)).
Defined.

(** Redis in memory stores what it is given. *)
#[export] Instance redis_map_set_up V : RedisUp V (RedisMap V).
Proof.
  intros k v ttl w Hf. cbn [redis_Set redis_map]. go_step. apply wp_flaky_up; [done|].
  do 4 go_step. by apply wp_flaky_up.
Qed.

(** A token that carries its key and its claims, as a number in binary. *)
#[export] Instance Claims_eq_dec : EqDecision Claims.
Proof. solve_decision. Defined.
#[export] Instance Claims_countable : Countable Claims.
Proof.
  refine (inj_countable'
    (λ c, (ExpiresAt c, IssuedAt c, Issuer c, cl_UserID c, cl_KYCStatus c, SessionID c))
    (λ '(e, i, iss, u, k, sid), Build_Claims e i iss u k sid) _). by intros [].
Defined.
Fixpoint digits (p : positive) : string :=
  match p with
  | xH => EmptyString
  | xO p => String "0" (digits p)
  | xI p => String "1" (digits p)
  end.
Fixpoint number (s : string) : positive :=
  match s with
  | EmptyString => 1
  | String c s => if Ascii.eqb c "0" then (number s)~0 else (number s)~1
  end.
Lemma number_digits p : number (digits p) = p.
Proof. induction p as [p IH|p IH|]; cbn; by rewrite ?IH. Qed.
Definition toy_body (c : Claims) : string := digits (encode c).
Definition toy_parse (s : string) : option Claims := decode (number s).
Definition toy_sign (secret : string) (c : Claims) : string :=
  "HS256." +:+ (secret +:+ "." +:+ toy_body c).
Definition toy_read (secret token : string) : option Claims :=
  rest ← str_strip_prefix "HS256." token;
  body ← str_strip_prefix (secret +:+ ".") rest;
  toy_parse body.

Lemma toy_read_sign secret c : toy_read secret (toy_sign secret c) = Some c.
Proof.
  unfold toy_read, toy_sign. rewrite strip_prefix_app. cbn [mbind option_bind].
  rewrite <- append_assoc, strip_prefix_app. cbn [mbind option_bind].
  unfold toy_parse, toy_body. by rewrite number_digits, decode_encode.
Qed.

Definition toy_jwt : JwtLibrary.
Proof.
  refine {|
    SignedString secret c := Some (toy_sign secret c);
    method_hmac token := HasPrefix token "HS256.";
    ParseWithClaims keyfunc now token :=
      secret ← keyfunc (HasPrefix token "HS256.");
      c ← toy_read secret token;
      if now <? ExpiresAt c then Some (c, true) else None |}.
  - by eexists.
  - intros keyfunc secret now c token Hs Hk. injection Hs as <-.
    assert (HasPrefix (toy_sign secret c) "HS256." = true) as ->.
    { unfold HasPrefix, toy_sign. rewrite strip_prefix_app. by apply bool_decide_true. }
    rewrite Hk. cbn [mbind option_bind]. by rewrite toy_read_sign.
  - intros keyfunc now token ->. done.
Defined.

Section Witnesses.
#[local] Existing Instance toy_bcrypt.
#[local] Existing Instance toy_jwt.

Definition ex_user_id (n : nat) : string := "u" +:+ pretty (Z.of_nat n).
Definition ex_hex (n : nat) : string := "s" +:+ pretty (Z.of_nat n).
Definition ex_identity : world (Identity (RedisMap string)) := World (Build_Identity ∅ ∅) 0 0 [].
Definition ex_account : LoginRequest := {| login_Email := "ann@example.com"; login_Password := "correct horse" |}.
Definition ex_registration := Register ex_user_id ex_hex "k" ex_account ex_identity.
(** Twenty minutes later. *)
Definition ex_later : world (Identity (RedisMap string)) :=
  World (db ex_registration.1) (1200 * second_us) (fresh ex_registration.1) [].
Definition ex_login := Login ex_hex "k" ex_account ex_later.
Definition ex_no_answer : LoginResponse := {| AccessToken := ""; resp_ExpiresAt := 0 |}.
Definition answer_of (r : result identErr LoginResponse) : LoginResponse :=
  match r with Ok resp => resp | Err _ => ex_no_answer end.

Lemma ex_registered : Register ex_user_id ex_hex "k" ex_account ex_identity = (ex_registration.1, Ok (answer_of ex_registration.2)).
Proof. vm_compute. reflexivity. Qed.
Lemma ex_users_ok : users_ok (id_users (db ex_identity)).
Proof. intros id1 id2 r1 r2 Hl. cbn in Hl. by apply lookup_empty_Some in Hl. Qed.

Lemma Register_spec_witness :
  users_ok (id_users (db ex_registration.1)) ∧ login_Password ex_account = "correct horse".
Proof.
  split; [|reflexivity].
  exact (proj1 (Register_spec ex_user_id ex_hex "k" ex_account ex_identity _ _ ex_registered ex_users_ok)).
Defined.

Lemma registered_user_logs_in_witness :
  ∃ row, id_users (db ex_later) !! "u1" = Some row ∧
    ∃ resp, ex_login.2 = Ok resp ∧ session_issued "k" "u1" (kyc_status row) ex_later ex_login.1 resp.
Proof.
  destruct (registered_user_logs_in ex_user_id ex_hex "k" ex_account ex_identity ex_registration.1
    (answer_of ex_registration.2) ex_later) as (row&Hrow&_&Hl);
    [exact ex_users_ok|exact ex_registered|apply rtc_once, StepTime; vm_compute; discriminate|].
  exists row. split; [exact Hrow|].
  exact (proj2 (Hl ex_account ex_login.1 ex_login.2 eq_refl (surjective_pairing _)) eq_refl eq_refl).
Defined.

Lemma token_outlives_session_witness :
  ∃ c, ValidateToken "k" (2400 * second_us) (AccessToken (answer_of ex_login.2)) = Ok c ∧ cl_UserID c = "u1".
Proof.
  assert (Login ex_hex "k" ex_account ex_later = (ex_login.1, Ok (answer_of ex_login.2))) as Hm by (vm_compute; reflexivity).
  destruct (proj1 (token_outlives_session ex_hex "k" ex_account ex_later _ _ (2400 * second_us) Hm
    ltac:(vm_compute; split; [discriminate|reflexivity]))) as (c&Hc&_).
  exists c. split; [exact Hc|].
  assert (ValidateToken "k" (2400 * second_us) (AccessToken (answer_of ex_login.2)) =
    Ok (Build_Claims (4800 * second_us) (1200 * second_us) "sportsbook" "u1" "PENDING" "s3")) as Hv
    by (vm_compute; reflexivity).
  rewrite Hv in Hc. injection Hc as <-. reflexivity.
Defined.
End Witnesses.
