(* ===== verification/HttpApi.v ===== *)
(** * HTTP front ends: requests, bearer tokens, and the identity endpoints
    ([cmd/identity/main.go], the JWT middleware of [cmd/betacceptance/main.go],
    [cmd/cashier/main.go] and [cmd/bethistory/main.go])

    A handler is a service method from a request to a response; [None] is a
    handler that panicked, whose connection [net/http] closes without an answer.
    Routing, the listening sockets and shutdown are not modelled. *)
From S2P Require Export Identity.
Local Open Scope Z_scope.
Local Open Scope go_scope.

(** ** Requests and responses *)

(** [Header] is keyed by the names the code uses; [Get] of an absent one is "". *)
Record Request (F : Type) : Type := { Header : gmap string string; Body : bytes F }.
Arguments Header {F} _.
Arguments Body {F} _.
Arguments Build_Request {F}.

Record Response (F : Type) : Type := { StatusCode : Z; resp_Body : bytes F }.
Arguments StatusCode {F} _.
Arguments resp_Body {F} _.
Arguments Build_Response {F}.

Definition Header_Get {F} (name : string) (r : Request F) : string := default "" (Header r !! name).
Definition Header_Set {F} (name value : string) (r : Request F) : Request F :=
  Build_Request (<[name := value]> (Header r)) (Body r).

Abbreviation Handler D F := (Request F → Go D Empty_set (option (Response F))).

Section Http.
Context {F : Type} `{FloatOps F}.

Definition answer {D} (code : Z) (body : bytes F) : Go D Empty_set (option (Response F)) :=
  ret (Some (Build_Response code body)).
(** [http.Error(w, `{"error": ...}`, code)]. *)
Definition http_Error {D} (code : Z) (msg : string) : Go D Empty_set (option (Response F)) :=
  answer code (Doc (JObj [("error", JStr msg)])).
(** [json.NewEncoder(w).Encode(v)]; a value it refuses leaves the body empty. *)
Definition WriteJSON {D} (code : Z) (j : json F) : Go D Empty_set (option (Response F)) :=
  answer code (default (Garbage "") (Marshal j)).

(** ** The JWT middleware: the claims of a valid bearer token, or 401 *)

Section Middleware.
Context `{JwtLibrary}.
Variable jwtSecret : string.

Definition withClaims {D} (missing invalid : string)
    (next : Claims → Handler D F) : Handler D F := λ r,
  match str_strip_prefix "Bearer " (Header_Get "Authorization" r) with
  | None => http_Error 401 missing
  | Some token =>
      t <- now ;;
      match ValidateToken jwtSecret t token with
      | Err _ => http_Error 401 invalid
      | Ok claims => next claims r
      end
  end.

(** Bet Acceptance and Bet History hand the user over in a header, over whatever
    the request had there. *)
Definition jwtMiddleware {D} (next : Handler D F) : Handler D F :=
  withClaims "missing authorization" "invalid token"
    (λ claims r, next (Header_Set "X-User-ID" (cl_UserID claims) r)).
End Middleware.

(** ** POST /auth/login and POST /auth/register *)

Section Auth.
Context {R : Type} `{RedisExpire string R} `{Bcrypt} `{JwtLibrary}.
Variable uuid randomHex : nat → string.
Variable jwtSecret : string.

Definition minPasswordLen : Z := 8.

Definition decodeCredentials (kvs : list (string * json F)) : option LoginRequest :=
  e ← jstring "email" kvs;
  p ← jstring "password" kvs;
  Some {| login_Email := e; login_Password := p |}.

Definition tokenAnswer (code : Z) (resp : LoginResponse) : Go (Identity R) Empty_set (option (Response F)) :=
  WriteJSON code (JObj [("access_token", JStr (AccessToken resp));
                        ("expires_at", JStr (FormatRFC3339 (resp_ExpiresAt resp)))]).

Definition handleLogin : Handler (Identity R) F := λ r,
  match Unmarshal decodeCredentials (Body r) with
  | None => http_Error 400 "invalid body"
  | Some req =>
      res <- catch (Login randomHex jwtSecret req) ;;
      match res with
      | Err _ => http_Error 401 "invalid credentials"
      | Ok resp => tokenAnswer 200 resp
      end
  end.

Definition handleRegister : Handler (Identity R) F := λ r,
  match Unmarshal decodeCredentials (Body r) with
  | None => http_Error 400 "invalid body"
  | Some req =>
      if (login_Email req =? "")%string || (Z.of_nat (String.length (login_Password req)) <? minPasswordLen)
      then http_Error 400 "email required and password must be at least 8 characters" else
      res <- catch (Register uuid randomHex jwtSecret req) ;;
      match res with
      | Err ErrEmailTaken => http_Error 409 "email already registered"
      | Err _ => http_Error 500 "internal error"
      | Ok resp => tokenAnswer 201 resp
      end
  end.

(** ** Properties *)

(** The registration endpoint, under any faults: 201 comes with a new account
    for the address and the password of the body, which has eight bytes at least,
    and with a token for it; 400 and 409 add no account; and nothing else is
    answered but 500, after which the account may exist although no token was
    given. *)
Theorem handleRegister_spec (r : Request F) (w w' : world (Identity R)) o :
  handleRegister r w = (w', Ok o) →
  ∃ resp, o = Some resp ∧ StatusCode resp ∈ [201; 400; 409; 500] ∧
    (StatusCode resp = 201 → ∃ req row token,
       Unmarshal decodeCredentials (Body r) = Some req ∧ (8 ≤ String.length (login_Password req))%nat ∧
       registered req w w' (uuid (S (fresh w))) row ∧
       session_issued jwtSecret (uuid (S (fresh w))) "PENDING" w w' token ∧
       resp_Body resp = Doc (JObj [("access_token", JStr (AccessToken token));
                                   ("expires_at", JStr (FormatRFC3339 (clock w + jwtTTL)))])) ∧
    (StatusCode resp = 400 ∨ StatusCode resp = 409 → id_users (db w') = id_users (db w)).
Proof.
  revert o. unfold handleRegister.
  destruct (Unmarshal _ _) as [req|] eqn:Hu; [|intros o [= <- <-]; eexists; split_and!; [done|set_solver|done|done]].
  destruct (_ || _) eqn:Hshort; [intros o [= <- <-]; eexists; split_and!; [done|set_solver|done|done]|].
  apply orb_false_iff in Hshort as [_ Hlen%Z.ltb_ge]. unfold minPasswordLen in Hlen.
  intros o. unfold gbind, catch. destruct (Register _ _ _ req w) as [w1 res] eqn:Hr.
  apply (wp_intro _ _ _ (Register_wp uuid randomHex jwtSecret req w)) in Hr as (_&_&Hcase).
  destruct res as [token|[|msg]]; intros [= <- <-]; (eexists; split_and!; [done|set_solver|..]); cbn.
  - intros _. destruct Hcase as [(_&Hno&_)|(row&Hreg&Hs)]; [by destruct (Hno token)|].
    exists req, row, token. split_and!; [done|lia|done|done|]. by rewrite (proj1 Hs).
  - by intros [].
  - done.
  - intros _. by destruct Hcase as [(?&_)|(row&_&Hne)].
  - done.
  - by intros [].
Qed.
End Auth.
End Http.

(** ** Concrete runs *)

Definition has_code {F} (code : Z) (o : result Empty_set (option (Response F))) : bool :=
  match o with Ok (Some resp) => StatusCode resp =? code | _ => false end.
Lemma has_code_run {F X} (p : X * result Empty_set (option (Response F))) code :
  has_code code p.2 = true → ∃ resp, p = (p.1, Ok (Some resp)) ∧ StatusCode resp = code.
Proof. destruct p as [x [[resp|]|?]]; cbn; try done. intros ?%Z.eqb_eq. by exists resp. Qed.

Section Witnesses.
#[local] Existing Instance inert_platform.
#[local] Existing Instance toy_bcrypt.
#[local] Existing Instance toy_jwt.

Definition ex_signup : Request binary64 := Build_Request ∅
  (Doc (JObj [("email", JStr "ann@example.com"); ("password", JStr "correct horse")])).

Lemma ex_signup_201 : has_code 201 (handleRegister ex_user_id ex_hex "k" ex_signup ex_identity).2 = true.
Proof. vm_compute. reflexivity. Qed.

Lemma handleRegister_spec_witness :
  ∃ row, registered ex_account ex_identity (handleRegister ex_user_id ex_hex "k" ex_signup ex_identity).1 "u1" row.
Proof.
  destruct (has_code_run _ _ ex_signup_201) as (resp&Hrun&Hcode).
  destruct (handleRegister_spec ex_user_id ex_hex "k" ex_signup ex_identity _ _ Hrun) as (resp'&[= <-]&_&H201&_).
  destruct (H201 Hcode) as (req&row&token&Hreq&_&Hreg&_).
  exists row. assert (Unmarshal decodeCredentials (Body ex_signup) = Some ex_account) as He by reflexivity.
  rewrite He in Hreq. injection Hreq as <-. exact Hreg.
Defined.
End Witnesses.
