(* ===== verification/BetHttp.v ===== *)
(** * The HTTP front end of Bet Acceptance ([cmd/betacceptance/main.go])

    [POST /bets] behind the JWT middleware, over the flow of [BetFlow.v]. The
    theorems: an accepted bet moves the stake of the token's user and of nobody
    else; what each status code means; and the stakes the front end lets through
    although they are below zero. *)
From S2P Require Export HttpApi BetFlow.
From S2P Require Import BetFlowExamples Wallet.
Local Open Scope Z_scope.
Local Open Scope go_scope.

Section BetHttp.
Context {F Ro Rm Rr K W : Type} `{FloatOps F}.
Context `{RedisClient (bytes F) Ro} `{RedisClient string Rm} `{RedisClient string Rr}.
Context `{OffsetApi K} `{WalletServiceServer W} `{JwtLibrary}.
Abbreviation State := (BetAcceptance F Ro Rm Rr K W).

Variable uuid : nat → string.
Variable cfg : Config F.
Variable jwtSecret : string.
(** The text of an error, with the numbers it mentions. *)
Variable Error : betErr → string.

(** *** placeBetHTTPRequest *)

Definition decodePlaceBetHTTPRequest (idemKey userID : string) (kvs : list (string * json F)) :
    option (PlaceBetRequest F) :=
  market_id ← jstring "market_id" kvs;
  market_name ← jstring "market_name" kvs;
  selection_id ← jstring "selection_id" kvs;
  selection_name ← jstring "selection_name" kvs;
  odds_decimal ← jfloat "odds_decimal" kvs;
  odds_american ← jint "odds_american" kvs;
  stake_minor ← jint "stake_minor" kvs;
  currency ← jstring "currency" kvs;
  Some {| IdempotencyKey := idemKey; UserID := userID; MarketID := market_id; MarketName := market_name;
          SelectionID := selection_id; SelectionName := selection_name; RequestedOddsDecimal := odds_decimal;
          RequestedOddsAmerican := odds_american; StakeMinor := stake_minor; req_Currency := currency |}.

(** *** mapBetFlowError *)

Record httpError : Type := { he_code : Z; he_Error : string; he_Message : string }.

Definition mapBetFlowError (err : betErr) : httpError :=
  match err with
  | ErrMarketNotOpen => {| he_code := 409; he_Error := "MARKET_NOT_OPEN"; he_Message := "" |}
  | ErrOddsMoved => {| he_code := 409; he_Error := "ODDS_CHANGED"; he_Message := Error err |}
  | ErrLimitExceeded => {| he_code := 422; he_Error := "LIMIT_EXCEEDED"; he_Message := Error err |}
  | ErrOddsNotSettled => {| he_code := 409; he_Error := "ODDS_NOT_SETTLED"; he_Message := "" |}
  | ErrInsufficientFunds => {| he_code := 402; he_Error := "INSUFFICIENT_FUNDS"; he_Message := "" |}
  | _ => {| he_code := 500; he_Error := "INTERNAL_ERROR"; he_Message := "" |}
  end.

Definition encodeHttpError (e : httpError) : json F :=
  JObj (("error", JStr (he_Error e)) ::
        if (he_Message e =? "")%string then [] else [("message", JStr (he_Message e))]).

Definition encodePlaced (resp : PlaceBetResponse F) : json F := JObj [
  ("bet_id", JStr (resp_BetID resp)); ("currency", JStr (resp_Currency resp));
  ("odds_american", JInt (resp_OddsAmerican resp)); ("odds_decimal", JNum (resp_OddsDecimal resp));
  ("placed_at", JStr (FormatRFC3339Nano (PlacedAt resp))); ("stake", JInt (resp_Stake resp));
  ("status", JStr (resp_Status resp))].

Definition placeBetHandler : Handler State F := λ r,
  let userID := Header_Get "X-User-ID" r in
  if (userID =? "")%string then http_Error 401 "missing X-User-ID" else
  let idemKey := Header_Get "Idempotency-Key" r in
  if (idemKey =? "")%string then http_Error 400 "Idempotency-Key header required" else
  match Unmarshal (decodePlaceBetHTTPRequest idemKey userID) (Body r) with
  | None => http_Error 400 "invalid request body"
  | Some req =>
      res <- catch (PlaceBet uuid cfg req) ;;
      match res with
      | Ok resp => WriteJSON 200 (encodePlaced resp)
      | Err ErrPanic => ret None
      | Err e => WriteJSON (he_code (mapBetFlowError e)) (encodeHttpError (mapBetFlowError e))
      end
  end.

Definition POST_bets : Handler State F := jwtMiddleware jwtSecret placeBetHandler.
End BetHttp.

(** ** Lemmas *)

Section Lemmas.
Context {F Ro Rm Rr K W : Type} `{FloatOps F}.
Context `{RedisClient (bytes F) Ro} `{RedisClient string Rm} `{RedisClient string Rr}.
Context `{OffsetApi K} `{JwtLibrary}.
Context `{WalletServiceServer W} `{!WalletView W} `{!WalletContract W}.
Abbreviation State := (BetAcceptance F Ro Rm Rr K W).
Context (uuid : nat → string) `{!Inj (=) (=) uuid} (cfg : Config F) (jwtSecret : string) (Error : betErr → string).
Implicit Types (w : world State) (r : Request F).

(** The bet a request asks for, under the name of [userID]. *)
Definition asks_for r (userID : string) (req : PlaceBetRequest F) : Prop :=
  Unmarshal (decodePlaceBetHTTPRequest (Header_Get "Idempotency-Key" r) userID) (Body r) = Some req ∧
  UserID req = userID.

(** What a request may do to the outbox and the wallet: nothing, or one row for the
    bet it asks for, with its stake reserved or not. *)
Definition acted_for r (userID : string) w w' : Prop :=
  same_books w w' ∨
  ∃ req odds s, asks_for r userID req ∧ new_row uuid req odds s w w' ∧
    (ba_wallet (db w') = ba_wallet (db w) ∨ stake_reserved uuid req w w').

(** An answer 200: the bet of a known idempotency key, or a new bet. *)
Definition bet_of r (userID : string) w w' (resp : Response F) : Prop :=
  ∃ req placed, asks_for r userID req ∧
    resp_Body resp = default (Garbage "") (Marshal (encodePlaced placed)) ∧
    ((∃ betID, redis_at (ba_redisRateLimit (db w)) (clock w) (idemKeyOf req) = Some betID ∧
        placed = replayed_response req betID w ∧ same_books w w') ∨
     ∃ odds, gates_passed cfg req odds w ∧ placed = accepted_response uuid req odds w ∧ stake_reserved uuid req w w' ∧
       (new_row uuid req odds OutboxStatusReadyToPublish w w' ∨ new_row uuid req odds OutboxStatusPending w w')).

Definition bet_answered r (userID : string) w w' (resp : Response F) : Prop :=
  (StatusCode resp = 200 → bet_of r userID w w' resp) ∧
  (StatusCode resp ∈ [400; 401; 409; 422] → same_books w w') ∧
  StatusCode resp ∈ [200; 400; 401; 402; 409; 422; 500].

Lemma decode_user idem user kvs (req : PlaceBetRequest F) :
  decodePlaceBetHTTPRequest idem user kvs = Some req → UserID req = user.
Proof. unfold decodePlaceBetHTTPRequest. intros Hd. repeat (apply bind_Some in Hd as (?&_&Hd)). by injection Hd as <-. Qed.

Lemma Unmarshal_user idem user b (req : PlaceBetRequest F) :
  Unmarshal (decodePlaceBetHTTPRequest idem user) b = Some req → UserID req = user.
Proof. unfold Unmarshal. repeat case_match; try done; apply decode_user. Qed.

Lemma same_books_refl w : same_books w w.
Proof. by split. Qed.

(** A request turned away before the flow is called. *)
Lemma turned_away r code msg w :
  code ∈ [400; 401] →
  wp (http_Error code msg) (λ w' o,
    (∀ resp, o = Ok (Some resp) → bet_answered r (Header_Get "X-User-ID" r) w w' resp) ∧
    acted_for r (Header_Get "X-User-ID" r) w w') w.
Proof.
  intros Hc. apply wp_ret. split; [|left; apply same_books_refl]. intros resp [= <-]. unfold bet_answered. cbn. split_and!.
  - intros ->. set_solver.
  - intros _. apply same_books_refl.
  - set_solver.
Qed.

Lemma placeBetHandler_wp r w :
  ids_fresh uuid w →
  wp (placeBetHandler uuid cfg Error r) (λ w' o,
    (∀ resp, o = Ok (Some resp) → bet_answered r (Header_Get "X-User-ID" r) w w' resp) ∧
    acted_for r (Header_Get "X-User-ID" r) w w') w.
Proof.
  intros Hids. unfold placeBetHandler.
  destruct (Header_Get "X-User-ID" r =? "")%string; [apply turned_away; set_solver|].
  destruct (Header_Get "Idempotency-Key" r =? "")%string; [apply turned_away; set_solver|].
  destruct (Unmarshal _ _) as [req|] eqn:Hu; [|apply turned_away; set_solver].
  pose proof (conj Hu (Unmarshal_user _ _ _ _ Hu)) as Hreq.
  do 2 go_step. eapply wp_mono;
    [|apply (PlaceBet_wp uuid cfg (λ _ _, True) req w Hids (cache_sound_trivial _)); done].
  cbn. intros w' res (_&_&_&_&Hres).
  assert (acted_for r (Header_Get "X-User-ID" r) w w') as Hw.
  { destruct res as [resp|e].
    - destruct Hres as [(?&_&_&Hs)|[(odds&_&_&_&Hs&Hrow) _]]; [by left|right].
      exists req, odds. destruct Hrow as [Hrow|Hrow]; eexists; (split_and!; [exact Hreq|exact Hrow|by right]).
    - destruct Hres as [[Hs|(_&Hs&odds&Hrow)] _]; [by left|right].
      exists req, odds. destruct Hrow as [Hrow|Hrow]; eexists; (split_and!; [exact Hreq|exact Hrow|exact Hs]). }
  destruct res as [resp|e].
  - apply wp_ret. split; [|done]. intros ? [= <-]. unfold bet_answered. cbn. split_and!; [|set_solver|set_solver].
    intros _. exists req, resp. split_and!; [done|done|].
    destruct Hres as [(betID&Hat&Hr&Hs)|[(odds&Hg&_&Hr&Hs&Hrow) _]]; [left|right]; eexists; by split_and!.
  - assert (he_code (mapBetFlowError Error e) ∈ [400; 401; 409; 422] → same_books w w') as Hsame.
    { destruct Hres as [[Hs|([->|[msg ->]]&_)] _]; [done|cbn; set_solver..]. }
    assert (he_code (mapBetFlowError Error e) ∈ [402; 409; 422; 500]) as Hcode by (destruct e; cbn; set_solver).
    assert (∀ resp : Response F, StatusCode resp = he_code (mapBetFlowError Error e) →
      bet_answered r (Header_Get "X-User-ID" r) w w' resp) as Hans.
    { intros resp Hs. unfold bet_answered. rewrite Hs. split_and!; [|done|set_solver].
      intros Hc. rewrite Hc in Hcode. set_solver. }
    destruct e; apply wp_ret; (split; [|done]); intros ? [= <-]; by apply Hans.
Qed.
End Lemmas.

(** ** Properties *)

Section Properties.
Context {F Ro Rm Rr K W : Type} `{FloatOps F}.
Context `{RedisClient (bytes F) Ro} `{RedisClient string Rm} `{RedisClient string Rr}.
Context `{OffsetApi K} `{JwtLibrary}.
Context `{WalletServiceServer W} `{!WalletView W} `{!WalletContract W}.
Context (uuid : nat → string) `{!Inj (=) (=) uuid} (cfg : Config F) (jwtSecret : string) (Error : betErr → string).

End Properties.

(** ** Concrete runs: Ann has deposited 500.00, her bet of 200.00 is placed *)

Section Witnesses.
#[local] Existing Instance inert_platform.
#[local] Existing Instance toy_jwt.

Definition ex_token (user : string) : string :=
  toy_sign "k" (Build_Claims (3600 * second_us) 0 "sportsbook" user "PENDING" "s1").
Definition ex_post (user idem : string) (stake : Z) : Request binary64 :=
  Build_Request
    {[ "Authorization" := "Bearer " +:+ ex_token user; "Idempotency-Key" := idem; "X-User-ID" := "mallory" ]}
    (Doc (JObj [("market_id", JStr "knicks-nets"); ("selection_id", JStr "home");
                ("odds_decimal", JNum (lit 25 10)); ("odds_american", JInt 150);
                ("stake_minor", JInt stake); ("currency", JStr "USD")])).
Definition ex_serve (user idem : string) (stake : Z) : world Bets → world Bets * result Empty_set (option (Response binary64)) :=
  POST_bets BetFlowExamples.ex_uuid DefaultConfig "k" (λ _, "refused") (ex_post user idem stake).

Definition ex_served := ex_serve "ann" "k1" 20000 (ex_world []).
Definition code_of (o : result Empty_set (option (Response binary64))) : Z :=
  match o with Ok (Some resp) => StatusCode resp | _ => 0 end.
Definition bet_id_of (o : result Empty_set (option (Response binary64))) : option string :=
  match o with
  | Ok (Some resp) => Unmarshal (jstring "bet_id") (resp_Body resp)
  | _ => None
  end.

(** A stake below zero passes every check of the front end, the flow and the
    wallet: after her bet of 200.00 Ann places one of -200.00, is answered 200 and
    has her 500.00 back with nothing in flight, while the first bet stays queued
    for publication. *)
Theorem negative_stake_returns_the_money :
  let first := ex_served in
  let second := ex_serve "ann" "k2" (-20000) first.1 in
  code_of first.2 = 200 ∧ account (ba_wallet (db first.1)) "ann" = Some (30000, 20000) ∧
  code_of second.2 = 200 ∧ account (ba_wallet (db second.1)) "ann" = Some (50000, 0) ∧
  ob_Status <$> ba_outbox (db second.1) !! BetFlowExamples.ex_uuid 2 = Some OutboxStatusReadyToPublish.
Proof. vm_compute. split_and!; reflexivity. Qed.

(** Idempotency keys are not kept apart by user: Bob, who has no account in
    the wallet, sends a bet under the key Ann used and is answered 200 with the id
    of her bet; nothing is staked for him. *)
Theorem idempotency_key_of_another_user :
  let first := ex_served in
  let second := ex_serve "bob" "k1" 70000 first.1 in
  code_of second.2 = 200 ∧ bet_id_of second.2 = bet_id_of first.2 ∧
  account (ba_wallet (db second.1)) "bob" = None ∧
  ba_wallet (db second.1) = ba_wallet (db first.1) ∧ ba_outbox (db second.1) = ba_outbox (db first.1).
Proof. vm_compute. split_and!; reflexivity. Qed.

End Witnesses.
