(* ===== verification/CashierHttp.v ===== *)
(** * The cashier ([cmd/cashier/main.go])

    [GET /cashier/balance], [POST /cashier/deposit] and [POST /cashier/withdraw]
    behind the JWT check, over the wallet's gRPC client. The theorems: the cents
    that dollars become, whose money a request can move and when, and what is
    answered. *)
From Stdlib Require Import Reals Lra.
From S2P Require Export HttpApi Wallet.
Local Open Scope Z_scope.
Local Open Scope go_scope.

(** The names of the generated enumeration. *)
Definition LedgerEntryStatus_String (s : LedgerEntryStatus) : string :=
  match s with
  | LEDGER_ENTRY_STATUS_UNSPECIFIED => "LEDGER_ENTRY_STATUS_UNSPECIFIED"
  | LEDGER_ENTRY_STATUS_PENDING_CONFIRMATION => "LEDGER_ENTRY_STATUS_PENDING_CONFIRMATION"
  | LEDGER_ENTRY_STATUS_CONFIRMED => "LEDGER_ENTRY_STATUS_CONFIRMED"
  | LEDGER_ENTRY_STATUS_CANCELLED => "LEDGER_ENTRY_STATUS_CANCELLED"
  end.

Section Cashier.
Context {F W : Type} `{FloatOps F} `{WalletServiceServer W} `{JwtLibrary}.
Variable uuid : nat → string.
Variable jwtSecret : string.

Record CashierBody : Type := { AmountDollars : F; PaymentMethod : string }.

Definition decodeCashierBody (kvs : list (string * json F)) : option CashierBody :=
  a ← jfloat "amount_dollars" kvs;
  p ← jstring "payment_method" kvs;
  Some {| AmountDollars := a; PaymentMethod := p |}.

Definition amountMinorOf (dollars : F) : Z := int_of_float (math_Round (fmul dollars (fnum 100))).

Definition cashierRequestOf (claims : Claims) (txID : string) (body : CashierBody) : CashierRequest :=
  {| cash_TransactionId := txID; cash_UserId := cl_UserID claims;
     cash_Amount := Some {| AmountMinor := amountMinorOf (AmountDollars body); Currency := "USD" |};
     cash_PaymentMethod := PaymentMethod body |}.

(** [resp.AvailableAfter.AmountMinor] panics on an unset message. *)
Definition transactionAnswer (resp : TransactionResponse) : Go W Empty_set (option (Response F)) :=
  match AvailableAfter resp with
  | None => ret None
  | Some m => WriteJSON 200 (JObj [
      ("available_after", JInt (AmountMinor m)); ("currency", JStr (Currency m));
      ("status", JStr (LedgerEntryStatus_String (txStatus resp)));
      ("transaction_id", JStr (TransactionId resp))])
  end.

Definition handleBalance (claims : Claims) : Handler W F := λ r,
  res <- catch (wallet_GetBalance {| gb_UserId := cl_UserID claims |}) ;;
  match res with
  | Err _ => http_Error 500 "INTERNAL"
  | Ok resp =>
      match Available resp with
      | None => ret None
      | Some m => WriteJSON 200 (JObj [("available_minor", JInt (AmountMinor m)); ("currency", JStr (Currency m))])
      end
  end.

Definition handleDeposit (claims : Claims) : Handler W F := λ r,
  match Unmarshal decodeCashierBody (Body r) with
  | None => http_Error 400 "INVALID_REQUEST"
  | Some body =>
      if fle (AmountDollars body) (fnum 0) then http_Error 400 "INVALID_REQUEST" else
      txID <- newID uuid ;;
      res <- catch (wallet_Deposit (cashierRequestOf claims txID body)) ;;
      match res with
      | Err _ => http_Error 500 "INTERNAL"
      | Ok resp => transactionAnswer resp
      end
  end.

Definition handleWithdraw (claims : Claims) : Handler W F := λ r,
  match Unmarshal decodeCashierBody (Body r) with
  | None => http_Error 400 "INVALID_REQUEST"
  | Some body =>
      if fle (AmountDollars body) (fnum 0) then http_Error 400 "INVALID_REQUEST" else
      txID <- newID uuid ;;
      res <- catch (wallet_Withdraw (cashierRequestOf claims txID body)) ;;
      match res with
      | Err st => if bool_decide (code st = FailedPrecondition)
                  then WriteJSON 402 (JObj [("error", JStr "INSUFFICIENT_FUNDS")])
                  else http_Error 500 "INTERNAL"
      | Ok resp => transactionAnswer resp
      end
  end.

Definition jwtMw (next : Claims → Handler W F) : Handler W F :=
  withClaims jwtSecret "UNAUTHORIZED" "UNAUTHORIZED" next.
Definition GET_balance : Handler W F := jwtMw handleBalance.
Definition POST_deposit : Handler W F := jwtMw handleDeposit.
Definition POST_withdraw : Handler W F := jwtMw handleWithdraw.
End Cashier.
Arguments CashierBody : clear implicits.

(** ** Specification *)

(** The claims of the request's bearer token, if it is valid at [t]. *)
Definition authorized {F} `{JwtLibrary} (jwtSecret : string) (t : Z) (r : Request F) (claims : Claims) : Prop :=
  ∃ token, str_strip_prefix "Bearer " (Header_Get "Authorization" r) = Some token ∧
    ValidateToken jwtSecret t token = Ok claims.

(** A deposit, and a withdrawal, that took effect. *)
Definition deposited (req : CashierRequest) (d d' : WalletDB) : Prop :=
  let amount := GetAmountMinor (cash_Amount req) in
  ∃ t, let b := depositRow amount t (balances d !! cash_UserId req) in
    ledger_entries d !! cash_TransactionId req = None ∧ 0 ≤ amount ∧
    balances d' = <[cash_UserId req := b]> (balances d) ∧
    ledger_entries d' = <[cash_TransactionId req :=
      cashierEntry "CREDIT_DEPOSIT" req amount (bal_currency b) t]> (ledger_entries d).
Definition withdrawn (req : CashierRequest) (d d' : WalletDB) : Prop :=
  let amount := GetAmountMinor (cash_Amount req) in
  ∃ t b, balances d !! cash_UserId req = Some b ∧ amount ≤ available_minor b ∧
    ledger_entries d !! cash_TransactionId req = None ∧
    balances d' = <[cash_UserId req := withdrawRow amount t b]> (balances d) ∧
    ledger_entries d' = <[cash_TransactionId req :=
      cashierEntry "DEBIT_WITHDRAWAL" req amount (bal_currency b) t]> (ledger_entries d).

(** What a cashier endpoint may do with a request. *)
Definition cashier_outcome {F} `{FloatOps F} `{JwtLibrary} (jwtSecret txID : string)
    (effect : CashierRequest → WalletDB → WalletDB → Prop) (r : Request F) (w w' : world WalletDB)
    (o : option (Response F)) : Prop :=
  (db w' = db w ∨ ∃ claims body, authorized jwtSecret (clock w) r claims ∧
     Unmarshal decodeCashierBody (Body r) = Some body ∧ fle (AmountDollars body) (fnum 0) = false ∧
     effect (cashierRequestOf claims txID body) (db w) (db w')) ∧
  ∀ resp, o = Some resp →
    (StatusCode resp ∈ [400; 401] → db w' = db w) ∧
    (StatusCode resp = 200 → ledger_entries (db w) !! txID = None → ∃ claims body,
       authorized jwtSecret (clock w) r claims ∧ Unmarshal decodeCashierBody (Body r) = Some body ∧
       effect (cashierRequestOf claims txID body) (db w) (db w')) ∧
    StatusCode resp ∈ [200; 400; 401; 402; 500].

(** What the balance endpoint answers: it only reads, and shows the row of the
    token's user. *)
Definition balance_answer {F} `{FloatOps F} (b : Balance) : json F :=
  JObj [("available_minor", JInt (available_minor b)); ("currency", JStr (bal_currency b))].
Definition balance_outcome {F} `{FloatOps F} `{JwtLibrary} (jwtSecret : string)
    (r : Request F) (w w' : world WalletDB) (o : option (Response F)) : Prop :=
  db w' = db w ∧ ∃ resp, o = Some resp ∧ StatusCode resp ∈ [200; 401; 500] ∧
    (StatusCode resp = 200 → ∃ claims b, authorized jwtSecret (clock w) r claims ∧
       balances (db w) !! cl_UserID claims = Some b ∧
       resp_Body resp = default (Garbage "") (Marshal (balance_answer b))) ∧
    (∀ claims, authorized jwtSecret (clock w) r claims → cl_UserID claims ≠ "" →
       faults w = [] → is_Some (balances (db w) !! cl_UserID claims) → StatusCode resp = 200).

(** The cashier's client of the wallet service. *)
Definition cashier_client : WalletServiceServer WalletDB := @wallet_client WalletDB wallet_server.

(** ** Lemmas *)

Section Lemmas.
Context {F : Type} `{FloatOps F} `{JwtLibrary}.
Variable uuid : nat → string.
Variable jwtSecret : string.
#[local] Existing Instance cashier_client | 0.
Implicit Types (w : world WalletDB).

(** A method of the server behind the connection. *)
Lemma cashier_call_wp (method : CashierRequest → Go WalletDB status TransactionResponse)
    (effect : CashierRequest → WalletDB → WalletDB → Prop) req w :
  (∀ w, wp (method req) (λ w' r, match r with
     | Ok _ => is_Some (ledger_entries (db w) !! cash_TransactionId req) ∧ db w' = db w ∨ effect req (db w) (db w')
     | Err _ => db w' = db w end) w) →
  wp (over_grpc method req) (λ w' r,
    (db w' = db w ∨ effect req (db w) (db w')) ∧
    match r with
    | Ok _ => ledger_entries (db w) !! cash_TransactionId req = None → effect req (db w) (db w')
    | Err _ => True
    end) w.
Proof.
  intros Hm. eapply wp_mono; [|apply (over_grpc_wp method (λ _ _, True) (λ d d',
    is_Some (ledger_entries d !! cash_TransactionId req) ∧ d' = d ∨ effect req d d')); try done].
  - intros w' [resp|e] [_ Hr]; [|destruct Hr as [?|[[_ ?]|?]]; auto].
    split; [destruct Hr as [[_ ?]|?]; auto|]. intros Hnone. destruct Hr as [[[x Hx] _]|?]; [congruence|done].
  - intros w1. eapply wp_mono; [|apply Hm]. intros w' [resp|e] Hr; (split; [done|]); auto.
Qed.

Lemma deposit_call_wp req w :
  wp (wallet_Deposit req) (λ w' r,
    (db w' = db w ∨ deposited req (db w) (db w')) ∧
    match r with
    | Ok _ => ledger_entries (db w) !! cash_TransactionId req = None → deposited req (db w) (db w')
    | Err _ => True
    end) w.
Proof.
  apply (cashier_call_wp Deposit deposited). intros w1. eapply wp_mono; [|apply Deposit_wp].
  cbn zeta. intros w' [resp|e] (_&_&Hr); [|done]. destruct Hr as [?|(?&?&?&?&_)]; [by left|right].
  exists (clock w1). by split_and!.
Qed.
Lemma withdraw_call_wp req w :
  wp (wallet_Withdraw req) (λ w' r,
    (db w' = db w ∨ withdrawn req (db w) (db w')) ∧
    match r with
    | Ok _ => ledger_entries (db w) !! cash_TransactionId req = None → withdrawn req (db w) (db w')
    | Err _ => True
    end) w.
Proof.
  apply (cashier_call_wp Withdraw withdrawn). intros w1. eapply wp_mono; [|apply Withdraw_wp].
  cbn zeta. intros w' [resp|e] (_&_&Hr); [|done]. destruct Hr as [?|(b&?&?&?&?&?)]; [by left|right].
  exists (clock w1), b. by split_and!.
Qed.

(** Behind the JWT check. *)
Lemma jwtMw_wp (next : Claims → Handler WalletDB F) effect txID (r : Request F) w :
  (∀ claims, authorized jwtSecret (clock w) r claims →
     wp (next claims r) (λ w' o, ∃ o', o = Ok o' ∧ cashier_outcome jwtSecret txID effect r w w' o') w) →
  wp (jwtMw jwtSecret next r) (λ w' o, ∃ o', o = Ok o' ∧ cashier_outcome jwtSecret txID effect r w w' o') w.
Proof.
  intros Hn. unfold jwtMw, withClaims.
  assert (∀ msg, wp (http_Error 401 msg) (λ w' o, ∃ o', o = Ok o' ∧ cashier_outcome jwtSecret txID effect r w w' o') w)
    as H401.
  { intros msg. apply wp_ret. eexists. split; [done|]. split; [by left|]. intros resp [= <-]. cbn.
    split_and!; [done|done|set_solver]. }
  destruct (str_strip_prefix _ _) as [token|] eqn:Ht; [|apply H401]. do 2 go_step.
  destruct (ValidateToken _ _ _) as [claims|e] eqn:Hv; [|apply H401]. apply Hn. by exists token.
Qed.

(** The part the two endpoints share: [failed] is what they do with an error. *)
Lemma cashier_handler_wp (call : CashierRequest → Go WalletDB status TransactionResponse) effect failed claims (r : Request F) w :
  authorized jwtSecret (clock w) r claims →
  (∀ req w, wp (call req) (λ w' r,
    (db w' = db w ∨ effect req (db w) (db w')) ∧
    match r with
    | Ok _ => ledger_entries (db w) !! cash_TransactionId req = None → effect req (db w) (db w')
    | Err _ => True
    end) w) →
  (∀ st, ∃ resp, failed st = ret (Some resp) ∧ StatusCode resp ∈ [402; 500]) →
  wp (match Unmarshal decodeCashierBody (Body r) with
      | None => http_Error 400 "INVALID_REQUEST"
      | Some body =>
          if fle (AmountDollars body) (fnum 0) then http_Error 400 "INVALID_REQUEST" else
          txID <- newID uuid ;;
          res <- catch (call (cashierRequestOf claims txID body)) ;;
          match res with Err st => failed st | Ok resp => transactionAnswer resp end
      end)
    (λ w' o, ∃ o', o = Ok o' ∧ cashier_outcome jwtSecret (uuid (fresh w)) effect r w w' o') w.
Proof.
  intros Hauth Hcall Hfail.
  assert (wp (http_Error 400 "INVALID_REQUEST")
    (λ w' o, ∃ o', o = Ok o' ∧ cashier_outcome jwtSecret (uuid (fresh w)) effect r w w' o') w) as H400.
  { apply wp_ret. eexists. split; [done|]. split; [by left|]. intros resp [= <-]. cbn.
    split_and!; [done|done|set_solver]. }
  destruct (Unmarshal _ _) as [body|] eqn:Hu; [|exact H400].
  destruct (fle _ _) eqn:Hle; [exact H400|]. do 4 go_step.
  eapply wp_mono; [|apply Hcall]. cbn. intros w' res [Hdb Hres].
  assert (db w' = db w ∨ ∃ claims body, authorized jwtSecret (clock w) r claims ∧
     Unmarshal decodeCashierBody (Body r) = Some body ∧ fle (AmountDollars body) (fnum 0) = false ∧
     effect (cashierRequestOf claims (uuid (fresh w)) body) (db w) (db w')) as Hout
    by (destruct Hdb as [->|?]; [by left|right; by exists claims, body]).
  destruct res as [resp|st].
  - unfold transactionAnswer. destruct (AvailableAfter resp) as [m|].
    + apply wp_ret. eexists. split; [done|]. split; [done|]. intros ? [= <-]. cbn. split_and!; [set_solver| |set_solver].
      intros _ Hnone. exists claims, body. split_and!; auto.
    + apply wp_ret. eexists. split; [done|]. by split.
  - destruct (Hfail st) as (resp&->&Hc). apply wp_ret. eexists. split; [done|]. split; [done|].
    assert (StatusCode resp = 402 ∨ StatusCode resp = 500) as Hs by set_solver. intros ? [= <-].
    destruct Hs as [-> | ->]; (split_and!; [set_solver|done|set_solver]).
Qed.

Lemma balance_call_wp req w :
  wp (wallet_GetBalance req) (λ w' r, db w' = db w ∧
    match r with
    | Ok resp => ∃ b, balances (db w) !! gb_UserId req = Some b ∧
        Available resp = Some {| AmountMinor := available_minor b; Currency := bal_currency b |}
    | Err _ => faults w = [] → gb_UserId req ≠ "" → balances (db w) !! gb_UserId req = None
    end) w.
Proof.
  cbn [wallet_GetBalance cashier_client wallet_client wallet_server]. unfold over_grpc, rpc, GetBalance.
  destruct (String.eqb_spec (gb_UserId req) ""); unfold catch, flaky, gbind, queryRow, mapErr, gets, ret, throw, wp;
    destruct w as [d t k [|[] [|[] [|[] fs]]]]; cbn; (destruct (balances d !! gb_UserId req) as [b|] eqn:Hb || idtac); cbn;
    (split; [done|]); try done; by exists b.
Qed.

Lemma GET_balance_wp (r : Request F) w :
  wp (GET_balance jwtSecret r) (λ w' o, ∃ o', o = Ok o' ∧ balance_outcome jwtSecret r w w' o') w.
Proof.
  unfold GET_balance, jwtMw, withClaims.
  assert (∀ msg, (∀ claims, ¬ authorized jwtSecret (clock w) r claims) →
    wp (http_Error 401 msg) (λ w' o, ∃ o', o = Ok o' ∧ balance_outcome jwtSecret r w w' o') w) as H401.
  { intros msg Hno. apply wp_ret. eexists. split; [done|]. split; [done|]. eexists. split; [done|]. cbn.
    split_and!; [set_solver|done|]. intros claims Hc. by destruct (Hno claims). }
  destruct (str_strip_prefix _ _) as [token|] eqn:Ht; [|apply H401; by intros claims (token&Ht'&_); rewrite Ht in Ht'].
  do 2 go_step.
  destruct (ValidateToken _ _ _) as [claims|e] eqn:Hv;
    [|apply H401; intros claims (token'&Ht'&Hv'); rewrite Ht in Ht'; injection Ht' as <-; congruence].
  assert (authorized jwtSecret (clock w) r claims) as Hauth by by exists token.
  assert (∀ claims', authorized jwtSecret (clock w) r claims' → claims' = claims) as Hone.
  { intros claims' (token'&Ht'&Hv'). rewrite Ht in Ht'. injection Ht' as <-. congruence. }
  unfold handleBalance. do 2 go_step. eapply wp_mono; [|apply balance_call_wp]. cbn. intros w' [resp|st] [Hdb Hr].
  - destruct Hr as (b&Hb&Ha). rewrite Ha. apply wp_ret. eexists. split; [done|]. split; [done|].
    eexists. split; [done|]. cbn. split_and!; [set_solver|intros _; by exists claims, b|done].
  - apply wp_ret. eexists. split; [done|]. split; [done|]. eexists. split; [done|]. cbn. split_and!; [set_solver|done|].
    intros claims' ->%Hone Hne Hf [b Hb]. by rewrite Hr in Hb.
Qed.
End Lemmas.

(** ** Properties *)

Section Properties.
Context {F : Type} `{FloatOps F} `{JwtLibrary}.
Variable uuid : nat → string.
Variable jwtSecret : string.
#[local] Existing Instance cashier_client | 0.

(** C15. A deposit or a withdrawal, over a connection that may lose the request or
    the answer: the wallet stays as it is, or the user of a valid token gets (has
    taken) the cents of the body, a positive number of dollars, with one ledger
    row and nobody else's balance touched. 200 means it happened, 400 and 401
    that nothing did; after a 500 it may have. The balance endpoint changes nothing
    and shows the available money of the user of a valid token; when nothing fails
    and the user has a balance, it does. *)
Theorem cashier_acts_for_the_token (r : Request F) (w w' : world WalletDB) o :
  (POST_deposit uuid jwtSecret r w = (w', Ok o) →
     cashier_outcome jwtSecret (uuid (fresh w)) deposited r w w' o) ∧
  (POST_withdraw uuid jwtSecret r w = (w', Ok o) →
     cashier_outcome jwtSecret (uuid (fresh w)) withdrawn r w w' o) ∧
  (GET_balance jwtSecret r w = (w', Ok o) → balance_outcome jwtSecret r w w' o).
Proof.
  split_and!; intros Hm.
  - assert (wp (POST_deposit uuid jwtSecret r) (λ w' o, ∃ o', o = Ok o' ∧
      cashier_outcome jwtSecret (uuid (fresh w)) deposited r w w' o') w) as Hwp.
    { apply jwtMw_wp. intros claims Hc. apply cashier_handler_wp; [done|apply deposit_call_wp|].
      intros st. eexists. split; [done|cbn; set_solver]. }
    apply (wp_intro _ _ _ Hwp) in Hm as (o'&[= ->]&Ho). exact Ho.
  - assert (wp (POST_withdraw uuid jwtSecret r) (λ w' o, ∃ o', o = Ok o' ∧
      cashier_outcome jwtSecret (uuid (fresh w)) withdrawn r w w' o') w) as Hwp.
    { apply jwtMw_wp. intros claims Hc. apply cashier_handler_wp; [done|apply withdraw_call_wp|].
      intros st. case_bool_decide; eexists; (split; [done|cbn; set_solver]). }
    apply (wp_intro _ _ _ Hwp) in Hm as (o'&[= ->]&Ho). exact Ho.
  - apply (wp_intro _ _ _ (GET_balance_wp jwtSecret r w)) in Hm as (o'&[= ->]&Ho). exact Ho.
Qed.
End Properties.

(** Dollars to cents, over exact numbers: the nearest number of cents, halves
    up, so a whole number of cents is kept; a positive amount below half a cent
    becomes zero cents. *)
Theorem amountMinorOf_nearest (x : R) :
  (0 <= x)%R →
  (Rabs (IZR (amountMinorOf x) - x * 100) <= / 2)%R ∧
  (∀ n, x = (IZR n / 100)%R → amountMinorOf x = n) ∧
  ((x < / 200)%R → amountMinorOf x = 0).
Proof.
  intros Hx. unfold amountMinorOf. change (fmul x (fnum 100)) with (x * 100)%R.
  change (int_of_float (math_Round (x * 100)%R)) with (R_trunc (R_round (x * 100))).
  assert (IZR (R_trunc (R_round (x * 100))) = R_round (x * 100)) as Hr
    by (unfold R_round; by rewrite R_trunc_IZR).
  split_and!.
  - rewrite Hr. apply R_round_close.
  - intros n ->. replace (IZR n / 100 * 100)%R with (IZR n) by field. by rewrite R_round_IZR, R_trunc_IZR.
  - intros Hlt. pose proof (R_round_close (x * 100)) as Hc. rewrite <- Hr in Hc.
    assert (-1 < IZR (R_trunc (R_round (x * 100))) < 1)%R as [H1 H2]
      by (unfold Rabs in Hc; destruct (Rcase_abs _); lra).
    apply lt_IZR in H1. apply lt_IZR in H2. lia.
Qed.

(** ** A concrete run: Ann deposits 25.50 *)

Section Witnesses.
#[local] Existing Instance inert_platform.
#[local] Existing Instance toy_jwt.
#[local] Existing Instance cashier_client | 0.

Definition ex_cash_request : Request binary64 :=
  Build_Request {[ "Authorization" := "Bearer " +:+
      toy_sign "k" (Build_Claims (3600 * second_us) 0 "sportsbook" "ann" "PENDING" "s1") ]}
    (Doc (JObj [("amount_dollars", JNum (lit 255 10)); ("payment_method", JStr "card")])).
Definition ex_cash_world : world WalletDB := World empty_db 0 0 [].
Definition ex_cash := POST_deposit ex_user_id "k" ex_cash_request ex_cash_world.

Definition ex_balance_run := GET_balance "k" ex_cash_request ex_cash.1.

Lemma cashier_acts_for_the_token_witness :
  available_minor <$> balances (db ex_cash.1) !! "ann" = Some 2550 ∧
  (∃ o, cashier_outcome "k" "u0" deposited ex_cash_request ex_cash_world ex_cash.1 o ∧ is_Some o) ∧
  ∃ o, balance_outcome "k" ex_cash_request ex_cash.1 ex_balance_run.1 o.
Proof.
  split; [vm_compute; reflexivity|].
  assert (∃ o, POST_deposit ex_user_id "k" ex_cash_request ex_cash_world = (ex_cash.1, Ok (Some o))) as [o Ho]
    by (eexists; vm_compute; reflexivity).
  assert (∃ o, GET_balance "k" ex_cash_request ex_cash.1 = (ex_balance_run.1, Ok o)) as [o' Ho']
    by (eexists; vm_compute; reflexivity).
  split; [|exists o'; apply (cashier_acts_for_the_token ex_user_id "k" ex_cash_request ex_cash.1 ex_balance_run.1 o'), Ho'].
  exists (Some o). split; [|eexists; reflexivity].
  exact (proj1 (cashier_acts_for_the_token ex_user_id "k" ex_cash_request ex_cash_world ex_cash.1 (Some o)) Ho).
Defined.
End Witnesses.

Lemma amountMinorOf_nearest_witness : amountMinorOf (IZR 2550 / 100)%R = 2550.
Proof. apply (amountMinorOf_nearest (IZR 2550 / 100)%R); [lra|reflexivity]. Defined.
