(* ===== verification/HistoryHttp.v ===== *)
(** * The bets page ([cmd/bethistory/main.go])

    [GET /bets] behind the JWT middleware: the latest fifty bets of the token's
    user, out of the read model of [BetHistory.v]. The loop does not look at
    [rows.Err()]; [rows_read] is how many rows arrive before the connection is
    lost, if it is. *)
From stdpp Require Import sorting.
From S2P Require Export HttpApi BetHistory.
Local Open Scope Z_scope.
Local Open Scope go_scope.

Section History.
Context {F W : Type} `{FloatOps F} `{JwtLibrary}.
Abbreviation State := (BetHistory F W).
Abbreviation Row := (string * Z * BetRow F)%type.
Variable jwtSecret : string.

(** [WHERE user_id = $1 ORDER BY placed_at DESC LIMIT 50]. *)
Definition newest_first (x y : Row) : Prop := y.1.2 ≤ x.1.2.
#[export] Instance newest_first_dec x y : Decision (newest_first x y).
Proof. unfold newest_first. apply _. Defined.
Definition user_bets (userID : string) (s : State) : list Row :=
  merge_sort newest_first (filter (λ r, bh_user_id r.2 = userID) (map_to_list (bets s))).
Definition latest_bets (userID : string) (s : State) : list Row := take 50 (user_bets userID s).

(** One element of the answer: [settled_at] and [payout_minor] when they are set. *)
Definition encodeBet (r : Row) : json F :=
  let '(betID, placedAt, row) := r in
  JObj (encode_fields [
    ("bet_id", Some (JStr betID)); ("currency", Some (JStr (bh_currency row)));
    ("market_id", Some (JStr (bh_market_id row))); ("market_name", Some (JStr (bh_market_name row)));
    ("odds_american", Some (JInt (bh_odds_american row))); ("odds_decimal", Some (JNum (bh_odds_decimal row)));
    ("payout_minor", JInt <$> bh_payout_minor row);
    ("placed_at", Some (JStr (FormatRFC3339 placedAt)));
    ("selection_id", Some (JStr (bh_selection_id row))); ("selection_name", Some (JStr (bh_selection_name row)));
    ("settled_at", (λ t, JStr (FormatRFC3339 t)) <$> bh_settled_at row);
    ("stake_minor", Some (JInt (bh_stake_minor row))); ("status", Some (JStr (bh_status row)))]).

Definition handleGetBets (rows_read : nat) : Handler State F := λ r,
  let userID := Header_Get "X-User-ID" r in
  res <- catch (queryRow (λ s, Some (latest_bets userID s))) ;;
  match res with
  | Err _ => http_Error 500 "internal error"
  | Ok rows => WriteJSON 200 (JObj [("bets", JArr (encodeBet <$> take rows_read rows))])
  end.

Definition GET_bets (rows_read : nat) : Handler State F := jwtMiddleware jwtSecret (handleGetBets rows_read).

(** ** Lemmas *)

#[local] Instance newest_first_total : base.Total newest_first.
Proof. intros x y. unfold newest_first. lia. Qed.
#[local] Instance newest_first_trans : Transitive newest_first.
Proof. intros x y z. unfold newest_first. lia. Qed.

Lemma elem_of_user_bets userID (s : State) k row :
  (k, row) ∈ user_bets userID s ↔ bets s !! k = Some row ∧ bh_user_id row = userID.
Proof. unfold user_bets. rewrite merge_sort_Permutation, list_elem_of_filter, elem_of_map_to_list. cbn. tauto. Qed.

Lemma user_bets_NoDup userID (s : State) : NoDup (user_bets userID s).*1.
Proof.
  unfold user_bets. rewrite merge_sort_Permutation.
  eapply sublist_keys; [apply sublist_filter|apply NoDup_fst_map_to_list].
Qed.

(** Nothing that was left out is newer than what was listed. *)
Lemma StronglySorted_take_drop {A} (P : A → A → Prop) l n x y :
  StronglySorted P l → x ∈ take n l → y ∈ drop n l → P x y.
Proof.
  intros Hs. revert n. induction Hs as [|z l Hs IH Hz]; intros [|n]; cbn [take drop];
    try by intros ?%not_elem_of_nil.
  intros [->|Hx]%elem_of_cons Hy; [|by eapply IH].
  rewrite Forall_forall in Hz. apply Hz. eapply elem_of_sublist; [done|apply sublist_drop].
Qed.

(** What the page lists. *)
Definition listing (userID : string) (rows_read : nat) (s : State) (rows : list Row) : Prop :=
  (length rows ≤ 50)%nat ∧ NoDup rows.*1 ∧
  (∀ k row, (k, row) ∈ rows → bets s !! k = Some row ∧ bh_user_id row = userID) ∧
  (∀ k row, bets s !! k = Some row → bh_user_id row = userID → (k, row) ∉ rows →
     ∀ x, x ∈ rows → newest_first x (k, row)) ∧
  ((50 ≤ rows_read)%nat → (length rows < 50)%nat →
     ∀ k row, bets s !! k = Some row → bh_user_id row = userID → (k, row) ∈ rows).

Lemma take_latest_listing userID rows_read (s : State) :
  listing userID rows_read s (take rows_read (latest_bets userID s)).
Proof.
  unfold latest_bets. rewrite take_take. set (n := (rows_read `min` 50)%nat).
  assert (take n (user_bets userID s) `sublist_of` user_bets userID s) as Hsub by apply sublist_take.
  split_and!.
  - rewrite length_take. lia.
  - eapply sublist_keys; [done|apply user_bets_NoDup].
  - intros k row Hin. apply elem_of_user_bets. by eapply elem_of_sublist.
  - intros k row Hk Hu Hout x Hx. assert ((k, row) ∈ user_bets userID s) as Hin by by apply elem_of_user_bets.
    rewrite <- (take_drop n (user_bets userID s)) in Hin. apply elem_of_app in Hin as [?|Hin]; [done|].
    eapply (StronglySorted_take_drop newest_first (user_bets userID s) n); [|done..].
    apply Sorted_StronglySorted; [apply _|]. apply Sorted_merge_sort. apply _.
  - intros Hr Hlen k row Hk Hu. rewrite length_take in Hlen. rewrite take_ge by lia. by apply elem_of_user_bets.
Qed.

(** An answer of the endpoint. *)
Lemma GET_bets_run rows_read r (w w' : world State) resp :
  GET_bets rows_read r w = (w', Ok (Some resp)) →
  db w' = db w ∧ StatusCode resp ∈ [200; 401; 500] ∧
  (StatusCode resp = 200 → ∃ token claims rows,
     str_strip_prefix "Bearer " (Header_Get "Authorization" r) = Some token ∧
     ValidateToken jwtSecret (clock w) token = Ok claims ∧
     resp_Body resp = default (Garbage "") (Marshal (JObj [("bets", JArr (encodeBet <$> rows))])) ∧
     listing (cl_UserID claims) rows_read (db w) rows).
Proof.
  unfold GET_bets, jwtMiddleware, withClaims.
  destruct (str_strip_prefix _ _) as [token|]; [|intros [= <- <-]; split_and!; [done|cbn; set_solver|done]].
  unfold gbind at 1, now at 1. cbn beta iota.
  destruct (ValidateToken _ _ _) as [claims|e] eqn:Hv; [|intros [= <- <-]; split_and!; [done|cbn; set_solver|done]].
  unfold handleGetBets. set (u := Header_Get "X-User-ID" _).
  assert (u = cl_UserID claims) as -> by (unfold u, Header_Get, Header_Set; cbn; by rewrite lookup_insert_eq).
  unfold gbind, catch, queryRow, flaky. destruct (faults w) as [|[] fs]; cbn; intros [= <- <-];
    (split_and!; [done|cbn; set_solver|]); try done; intros _;
    exists token, claims, (take rows_read (latest_bets (cl_UserID claims) (db w)));
    (split_and!; [done..|apply take_latest_listing]).
Qed.

(** ** Properties *)

(** C17. The page shows a user only their own bets: whatever user the headers name,
    an answer 200 lists bets of the user of a valid token, each once, at most
    fifty, no bet of theirs that is newer than a listed one is left out, and when
    all rows arrive and there are less than fifty, none is; the stored bets are
    not touched. *)
Theorem GET_bets_shows_own_bets rows_read r (w w' : world State) resp :
  GET_bets rows_read r w = (w', Ok (Some resp)) →
  db w' = db w ∧ StatusCode resp ∈ [200; 401; 500] ∧
  (StatusCode resp = 200 → ∃ token claims rows,
     str_strip_prefix "Bearer " (Header_Get "Authorization" r) = Some token ∧
     ValidateToken jwtSecret (clock w) token = Ok claims ∧
     resp_Body resp = default (Garbage "") (Marshal (JObj [("bets", JArr (encodeBet <$> rows))])) ∧
     listing (cl_UserID claims) rows_read (db w) rows).
Proof. apply GET_bets_run. Qed.
End History.

(** ** A concrete run: Ann has three bets, Bob one *)

Section Witnesses.
#[local] Existing Instance inert_platform.
#[local] Existing Instance toy_jwt.

Definition ex_row (user : string) : BetRow binary64 :=
  Build_BetRow user "m1" "Moneyline" "s1" "Celtics" (lit 2 1) 100 500 "USD" "PLACED" None None.
Definition ex_history : world (BetHistory binary64 unit) :=
  World (Build_BetHistory {[ ("b1", 1000000) := ex_row "ann"; ("b2", 3000000) := ex_row "ann";
    ("b3", 2000000) := ex_row "bob"; ("b4", 2000000) := ex_row "ann" ]} tt) 0 0 [].
Definition ex_bets_request : Request binary64 :=
  Build_Request {[ "Authorization" := "Bearer " +:+
      toy_sign "k" (Build_Claims (3600 * second_us) 0 "sportsbook" "ann" "PENDING" "s1"); "X-User-ID" := "bob" ]}
    (Garbage "").
Definition ex_page := GET_bets "k" 50 ex_bets_request ex_history.
Definition ids_of (o : result Empty_set (option (Response binary64))) : option (list string) :=
  match o with
  | Ok (Some resp) => Unmarshal (jfield (into_slice "" (into_struct (jstring "bet_id"))) [] "bets") (resp_Body resp)
  | _ => None
  end.

Definition claims_of (r : Request binary64) (at_ : Z) : option Claims :=
  str_strip_prefix "Bearer " (Header_Get "Authorization" r) ≫= λ token,
  match ValidateToken "k" at_ token with Ok claims => Some claims | _ => None end.

Lemma ex_page_ids : ids_of ex_page.2 = Some ["b2"; "b4"; "b1"].
Proof. vm_compute. reflexivity. Qed.
Lemma ex_bets_200 : has_code 200 (GET_bets "k" 50 ex_bets_request ex_history).2 = true.
Proof. vm_compute. reflexivity. Qed.
Lemma ex_claims : cl_UserID <$> claims_of ex_bets_request 0 = Some "ann".
Proof. vm_compute. reflexivity. Qed.

Lemma GET_bets_shows_own_bets_witness :
  ids_of ex_page.2 = Some ["b2"; "b4"; "b1"] ∧
  ∃ claims rows, cl_UserID claims = "ann" ∧ listing (cl_UserID claims) 50 (db ex_history) rows.
Proof.
  split; [exact ex_page_ids|]. destruct (has_code_run _ _ ex_bets_200) as (resp&Hr&Hc).
  destruct (GET_bets_shows_own_bets "k" 50 ex_bets_request ex_history _ resp Hr) as (_&_&H200).
  destruct (H200 Hc) as (token&claims&rows&Ht&Hv&_&Hl).
  exists claims, rows. split; [|exact Hl]. pose proof ex_claims as He. unfold claims_of in He.
  rewrite Ht in He. cbn in He. change (clock ex_history) with 0 in Hv. rewrite Hv in He.
  by injection He.
Defined.
End Witnesses.
