(* ===== verification/CatalogHttp.v ===== *)
(** * The catalogue's page ([internal/catalog/http.go])

    [GET /events] and the snapshot a WebSocket client is sent first: one joined
    query over the tables of [Catalog.v], the rows grouped into events, markets
    and selections through maps and insertion orders, and the prices read from
    the odds cache in one MGET. The theorems: the grouping is that of a
    reference definition without maps, whatever order the rows come in, and it
    never dereferences a nil pointer; what the page lists, in which order and at
    which prices, under any faults; and the row that hides all after it. *)
From stdpp Require Import sorting.
From S2P Require Export HttpApi Catalog BetFlow.
Local Open Scope Z_scope.
Local Open Scope go_scope.

(** ** MGET

    One value or nil per key, each what a GET could have returned; a server that
    nothing fails on answers every key that has a value. *)
Class RedisMGet (V R : Type) `{RedisClient V R} : Type := {
  redis_MGet : list string → Go R rediserr (list (option V));
  redis_MGet_law keys (w : world R) :
    wp (redis_MGet keys) (λ w' r,
      clock w' = clock w ∧
      ∀ vals, r = Ok vals →
        Forall2 (λ k o, ∀ v, o = Some v → redis_at (db w) (clock w) k = Some v) keys vals) w;
  redis_MGet_up keys (w : world R) :
    faults w = [] → wp (redis_MGet keys) (λ _ r, r = Ok (redis_at (db w) (clock w) <$> keys)) w
}.

#[export] Instance redis_map_mget V : RedisMGet V (RedisMap V).
Proof.
  refine {| redis_MGet keys := flaky RedisConn ;;; t <- now ;; gets (λ r, (redis_live r t) <$> keys) |}.
  - intros keys w. go_run; cbn; split; try done.
    intros vals [= <-]. clear. induction keys as [|k keys IH]; cbn; constructor; [|exact IH]. by intros v ->.
  - intros keys [d t k fs] Hf. cbn in Hf. by subst.
Defined.

(** ** Data *)

Record selectionResp (F : Type) : Type := {
  sr_SelectionID : string; sr_Name : string; sr_TargetValue : F; sr_OddsDecimal : F; sr_OddsAmerican : Z
}.
Record marketResp (F : Type) : Type := {
  mr_MarketID : string; mr_Name : string; mr_Status : string; mr_MarketType : string; mr_TargetValue : F;
  mr_IsMain : bool; mr_Selections : list (selectionResp F)
}.
Record eventResp (F : Type) : Type := {
  er_EventID : string; er_CompetitionID : string; er_Name : string; er_StartsAt : string; er_Status : string;
  er_HomeScore : Z; er_AwayScore : Z; er_GamePeriod : string; er_GameClock : string;
  er_Markets : list (marketResp F)
}.
Arguments sr_SelectionID {F} _. Arguments sr_Name {F} _. Arguments sr_TargetValue {F} _.
Arguments sr_OddsDecimal {F} _. Arguments sr_OddsAmerican {F} _. Arguments Build_selectionResp {F}.
Arguments mr_MarketID {F} _. Arguments mr_Name {F} _. Arguments mr_Status {F} _. Arguments mr_MarketType {F} _.
Arguments mr_TargetValue {F} _. Arguments mr_IsMain {F} _. Arguments mr_Selections {F} _.
Arguments Build_marketResp {F}.
Arguments er_EventID {F} _. Arguments er_CompetitionID {F} _. Arguments er_Name {F} _. Arguments er_StartsAt {F} _.
Arguments er_Status {F} _. Arguments er_HomeScore {F} _. Arguments er_AwayScore {F} _.
Arguments er_GamePeriod {F} _. Arguments er_GameClock {F} _. Arguments er_Markets {F} _. Arguments Build_eventResp {F}.

Record oddsVal (F : Type) : Type := { ov_decimal : F; ov_american : Z }.
Arguments ov_decimal {F} _. Arguments ov_american {F} _. Arguments Build_oddsVal {F}.

(** The variables a row is scanned into. *)
Record ScannedRow (F : Type) : Type := {
  eID : string; eCompID : string; eName : string; eStartsAt : string; eStatus : string;
  eHomeScore : Z; eAwayScore : Z; eGamePeriod : string; eGameClock : string;
  mID : string; mName : string; mStatus : string; mType : string; mTargetValue : F; mIsMain : bool;
  sID : string; sName : string; sTargetValue : F
}.
Arguments eID {F} _. Arguments eCompID {F} _. Arguments eName {F} _. Arguments eStartsAt {F} _.
Arguments eStatus {F} _. Arguments eHomeScore {F} _. Arguments eAwayScore {F} _. Arguments eGamePeriod {F} _.
Arguments eGameClock {F} _. Arguments mID {F} _. Arguments mName {F} _. Arguments mStatus {F} _.
Arguments mType {F} _. Arguments mTargetValue {F} _. Arguments mIsMain {F} _. Arguments sID {F} _.
Arguments sName {F} _. Arguments sTargetValue {F} _. Arguments Build_ScannedRow {F}.

(** The catalogue's database and the odds cache. *)
Record HTTPHandler (F R : Type) : Type := { h_db : CatalogDB F; h_redisOdds : R }.
Arguments h_db {F R} _.
Arguments h_redisOdds {F R} _.
Arguments Build_HTTPHandler {F R}.

(** ** The query *)

(** The order of the database's text columns, its collation. *)
Class Collation := {
  collate : string → string → comparison;
  collate_antisym x y : collate y x = CompOpp (collate x y)
}.
(** The collation "C" orders by bytes. *)
Definition byte_collation : Collation := {| collate := String.compare; collate_antisym x y := String.compare_antisym y x |}.

Section Query.
Context {F : Type} `{FloatOps F} `{Collation}.

(** A row of the join: an event, a market of it and a selection of that. *)
Abbreviation JoinedRow := (((string * EventRow) * (string * MarketRow F)) * (string * SelectionRow F))%type.

Definition listed_row (e : EventRow) (m : MarketRow F) (s : SelectionRow F) : bool :=
  bool_decide (evt_status e ∈ ["SCHEDULED"; "LIVE"]) && (mk_status m =? "OPEN")%string && sel_active s.
Definition joined_row (d : CatalogDB F) (x : string * SelectionRow F) : option JoinedRow :=
  m ← markets d !! sel_market_id x.2;
  e ← events d !! mk_event_id m;
  if listed_row e m x.2 then Some (mk_event_id m, e, (sel_market_id x.2, m), x) else None.

(** The ORDER BY clause; a NULL type sorts last. *)
Definition then_by (c d : comparison) : comparison := match c with Eq => d | _ => c end.
Definition fcompare (x y : F) : comparison := if flt x y then Lt else if flt y x then Gt else Eq.
Definition nulls_last (x y : option string) : comparison :=
  match x, y with
  | Some a, Some b => collate a b
  | Some _, None => Lt
  | None, Some _ => Gt
  | None, None => Eq
  end.
Definition live_rank (e : EventRow) : Z := if (evt_status e =? "LIVE")%string then 0 else 1.
Definition row_compare (x y : JoinedRow) : comparison :=
  let '((ei, e), (_, m), (si, _)) := x in
  let '((ei', e'), (_, m'), (si', _)) := y in
  then_by (live_rank e ?= live_rank e')
  (then_by (evt_starts_at e ?= evt_starts_at e')
  (then_by (collate ei ei')
  (then_by (Z.b2z (mk_is_main m') ?= Z.b2z (mk_is_main m))
  (then_by (nulls_last (mk_type m) (mk_type m'))
  (then_by (fcompare (mk_target_value m) (mk_target_value m'))
  (collate si si')))))).
Definition row_before (x y : JoinedRow) : Prop := row_compare x y ≠ Gt.
#[export] Instance row_before_dec x y : Decision (row_before x y).
Proof. unfold row_before. apply _. Defined.

Definition snapshot_rows (d : CatalogDB F) : list JoinedRow :=
  merge_sort row_before (omap (joined_row d) (map_to_list (selections d))).
End Query.

(** ** Scanning and grouping *)

Section Snapshot.
Context {F : Type} `{FloatOps F} `{Collation}.
Abbreviation JoinedRow := (((string * EventRow) * (string * MarketRow F)) * (string * SelectionRow F))%type.
(** [starts_at::text], in the time zone of the session. *)
Variable timestamptz_text : Z → string.

(** [rows.Scan]: a NULL type does not fit a [string]. *)
Definition scanRow (x : JoinedRow) : option (ScannedRow F) :=
  let '((ei, e), (mi, m), (si, s)) := x in
  t ← mk_type m;
  Some {| eID := ei; eCompID := evt_competition_id e; eName := evt_name e;
          eStartsAt := timestamptz_text (evt_starts_at e); eStatus := evt_status e;
          eHomeScore := evt_home_score e; eAwayScore := evt_away_score e;
          eGamePeriod := evt_game_period e; eGameClock := evt_game_clock e;
          mID := mi; mName := mk_name m; mStatus := mk_status m; mType := t;
          mTargetValue := mk_target_value m; mIsMain := mk_is_main m;
          sID := si; sName := sel_name s; sTargetValue := sel_target_value s |}.

(** The loop over the rows. The driver closes them when a scan fails, so the
    [continue] leaves the loop. *)
Fixpoint scanRows (rows : list JoinedRow) : list (ScannedRow F) :=
  match rows with
  | [] => []
  | x :: rest => match scanRow x with Some r => r :: scanRows rest | None => [] end
  end.

Definition new_event (r : ScannedRow F) : eventResp F := {|
  er_EventID := eID r; er_CompetitionID := eCompID r; er_Name := eName r; er_StartsAt := eStartsAt r;
  er_Status := eStatus r; er_HomeScore := eHomeScore r; er_AwayScore := eAwayScore r;
  er_GamePeriod := eGamePeriod r; er_GameClock := eGameClock r; er_Markets := [] |}.
Definition new_market (r : ScannedRow F) : marketResp F := {|
  mr_MarketID := mID r; mr_Name := mName r; mr_Status := mStatus r; mr_MarketType := mType r;
  mr_TargetValue := mTargetValue r; mr_IsMain := mIsMain r; mr_Selections := [] |}.
Definition new_selection (r : ScannedRow F) : selectionResp F := {|
  sr_SelectionID := sID r; sr_Name := sName r; sr_TargetValue := sTargetValue r;
  sr_OddsDecimal := fnum 0; sr_OddsAmerican := 0 |}.

Definition set_Selections (l : list (selectionResp F)) (mk : marketResp F) : marketResp F :=
  Build_marketResp (mr_MarketID mk) (mr_Name mk) (mr_Status mk) (mr_MarketType mk) (mr_TargetValue mk) (mr_IsMain mk) l.
Definition set_Markets (l : list (marketResp F)) (ev : eventResp F) : eventResp F :=
  Build_eventResp (er_EventID ev) (er_CompetitionID ev) (er_Name ev) (er_StartsAt ev) (er_Status ev)
    (er_HomeScore ev) (er_AwayScore ev) (er_GamePeriod ev) (er_GameClock ev) l.

(** The maps and the orders of first appearance. *)
Record Assembly : Type := {
  eventMap : gmap string (eventResp F);
  marketMap : gmap string (marketResp F);
  marketEvent : gmap string string;
  eventOrder : list string;
  marketOrder : list string;
  selKeys : list (string * string)
}.
Definition no_rows : Assembly := Build_Assembly ∅ ∅ ∅ [] [] [].

Definition see_event (r : ScannedRow F) (st : Assembly) : Assembly :=
  match eventMap st !! eID r with
  | Some _ => st
  | None => Build_Assembly (<[eID r := new_event r]> (eventMap st)) (marketMap st) (marketEvent st)
              (eventOrder st ++ [eID r]) (marketOrder st) (selKeys st)
  end.
Definition see_market (r : ScannedRow F) (st : Assembly) : Assembly :=
  match marketMap st !! mID r with
  | Some _ => st
  | None => Build_Assembly (eventMap st) (<[mID r := new_market r]> (marketMap st))
              (<[mID r := eID r]> (marketEvent st)) (eventOrder st) (marketOrder st ++ [mID r]) (selKeys st)
  end.
Definition see_selection (r : ScannedRow F) (st : Assembly) : Assembly :=
  Build_Assembly (eventMap st)
    (alter (λ mk, set_Selections (mr_Selections mk ++ [new_selection r]) mk) (mID r) (marketMap st))
    (marketEvent st) (eventOrder st) (marketOrder st) (selKeys st ++ [(mID r, sID r)]).
Definition add_row (st : Assembly) (r : ScannedRow F) : Assembly :=
  see_selection r (see_market r (see_event r st)).
Definition add_rows : list (ScannedRow F) → Assembly := foldl add_row no_rows.

(** The prices of a market's selections. *)
Definition priceSelection (odds : gmap string (oddsVal F)) (market : string) (s : selectionResp F) : selectionResp F :=
  match odds !! (market +:+ ":" +:+ sr_SelectionID s) with
  | Some o => Build_selectionResp (sr_SelectionID s) (sr_Name s) (sr_TargetValue s) (ov_decimal o) (ov_american o)
  | None => s
  end.
Definition inject (odds : gmap string (oddsVal F)) (mk : marketResp F) : marketResp F :=
  set_Selections (priceSelection odds (mr_MarketID mk) <$> mr_Selections mk) mk.

(** Markets into events in order; [None] is a nil pointer. *)
Fixpoint placeMarkets (mkEv : gmap string string) (mkts : gmap string (marketResp F)) (order : list string)
    (evs : gmap string (eventResp F)) : option (gmap string (eventResp F)) :=
  match order with
  | [] => Some evs
  | mid :: rest =>
      let eid := default "" (mkEv !! mid) in
      ev ← evs !! eid;
      mk ← mkts !! mid;
      placeMarkets mkEv mkts rest (<[eid := set_Markets (er_Markets ev ++ [mk]) ev]> evs)
  end.
Definition assemble (odds : gmap string (oddsVal F)) (st : Assembly) : option (list (eventResp F)) :=
  evs ← placeMarkets (marketEvent st) (inject odds <$> marketMap st) (marketOrder st) (eventMap st);
  mapM (λ eid, evs !! eid) (eventOrder st).

(** ** The odds *)

Definition decodeOddsVal (kvs : list (string * json F)) : option (oddsVal F) :=
  d ← jfloat "decimal" kvs;
  a ← jint "american" kvs;
  Some (Build_oddsVal d a).

Definition redisKey (k : string * string) : string := "odds:" +:+ k.1 +:+ ":" +:+ k.2.

(** One reply: nil and what does not decode are skipped. *)
Definition addOdds (result : gmap string (oddsVal F)) (x : (string * string) * option (bytes F)) : gmap string (oddsVal F) :=
  match x.2 with
  | None => result
  | Some v => match Unmarshal decodeOddsVal v with
              | None => result
              | Some o => <[x.1.1 +:+ ":" +:+ x.1.2 := o]> result
              end
  end.

Context {R : Type} `{RedisMGet (bytes F) R}.
Abbreviation State := (HTTPHandler F R).
Definition handler_redis : lens State R := Lens h_redisOdds (λ x s, Build_HTTPHandler (h_db s) x).

(** An error of Redis is logged and leaves the selections without prices. *)
Definition fetchOdds (keys : list (string * string)) : Go R Empty_set (gmap string (oddsVal F)) :=
  match keys with
  | [] => ret ∅
  | _ => vals <- catch (redis_MGet (redisKey <$> keys)) ;;
         ret (match vals with Err _ => ∅ | Ok vals => foldl addOdds ∅ (zip keys vals) end)
  end.

(** The query and the loop over its rows. [rows_read]: how many rows arrive before
    the connection is lost, if it is; [rows.Err()] is only logged. *)
Definition queryEvents (rows_read : nat) : Go State string Assembly :=
  rows <- queryRow (λ s, Some (snapshot_rows (h_db s))) or_throw "query events" ;;
  ret (add_rows (scanRows (take rows_read rows))).
(** The rest: the prices, and the list. *)
Definition priceEvents (st : Assembly) : Go State string (option (list (eventResp F))) :=
  odds <- zoom handler_redis (fetchOdds (selKeys st)) or_throw "" ;;
  ret (assemble odds st).
Definition buildEventsSnapshot (rows_read : nat) : Go State string (option (list (eventResp F))) :=
  st <- queryEvents rows_read ;; priceEvents st.

(** ** The handlers *)

Definition encodeSelectionResp (s : selectionResp F) : json F := JObj [
  ("selection_id", JStr (sr_SelectionID s)); ("name", JStr (sr_Name s)); ("target_value", JNum (sr_TargetValue s));
  ("odds_decimal", JNum (sr_OddsDecimal s)); ("odds_american", JInt (sr_OddsAmerican s))].
Definition encodeMarketResp (mk : marketResp F) : json F := JObj [
  ("market_id", JStr (mr_MarketID mk)); ("name", JStr (mr_Name mk)); ("status", JStr (mr_Status mk));
  ("market_type", JStr (mr_MarketType mk)); ("target_value", JNum (mr_TargetValue mk));
  ("is_main", JBool (mr_IsMain mk)); ("selections", JArr (encodeSelectionResp <$> mr_Selections mk))].
Definition encodeEventResp (ev : eventResp F) : json F := JObj [
  ("event_id", JStr (er_EventID ev)); ("competition_id", JStr (er_CompetitionID ev)); ("name", JStr (er_Name ev));
  ("starts_at", JStr (er_StartsAt ev)); ("status", JStr (er_Status ev)); ("home_score", JInt (er_HomeScore ev));
  ("away_score", JInt (er_AwayScore ev)); ("game_period", JStr (er_GamePeriod ev));
  ("game_clock", JStr (er_GameClock ev)); ("markets", JArr (encodeMarketResp <$> er_Markets ev))].

Definition handleGetEvents (rows_read : nat) : Handler State F := λ _,
  res <- catch (buildEventsSnapshot rows_read) ;;
  match res with
  | Err _ => http_Error 500 "internal"
  | Ok None => ret None
  | Ok (Some events) => WriteJSON 200 (JArr (encodeEventResp <$> events))
  end.

(** The message of [handleWS] before the client joins the hub of [Broadcaster.v];
    [Err] is a connection that is closed instead. *)
Definition snapshot_message (events : list (eventResp F)) : json F :=
  JObj [("type", JStr "snapshot"); ("events", JArr (encodeEventResp <$> events))].
Definition sendSnapshot (events : list (eventResp F)) : Go State string (bytes F) :=
  match Marshal (snapshot_message events) with
  | None => throw "ws: send snapshot failed"
  | Some msg => flaky "ws: send snapshot failed" ;;; ret msg
  end.
End Snapshot.

(** ** The reference: rows grouped without maps *)

Section Representatives.
Context {A : Type} (key : A → string).
Implicit Types l : list A.

(** The first element of each key, in order. *)
Fixpoint representatives l : list A :=
  match l with
  | [] => []
  | x :: rest => x :: filter (λ y, key y ≠ key x) (representatives rest)
  end.

Lemma representatives_sublist l : representatives l `sublist_of` l.
Proof.
  induction l as [|x l IH]; cbn [representatives]; constructor.
  etrans; [apply sublist_filter|exact IH].
Qed.
Lemma representatives_NoDup l : NoDup (key <$> representatives l).
Proof.
  induction l as [|x l IH]; cbn; constructor.
  - intros (y&Hk&Hy)%list_elem_of_fmap. apply list_elem_of_filter in Hy as [Hne _]. by apply Hne.
  - eapply sublist_NoDup; [|apply sublist_map, sublist_filter]. exact IH.
Qed.
Lemma representatives_keys l k : k ∈ key <$> representatives l ↔ k ∈ key <$> l.
Proof.
  induction l as [|x l IH]; cbn; [done|]. rewrite !elem_of_cons, <- IH, !list_elem_of_fmap.
  setoid_rewrite list_elem_of_filter. destruct (decide (k = key x)) as [->|Hne]; [tauto|].
  split; intros [?|(y&->&Hy)]; try done; right; [exists y; tauto|].
  exists y. split; [done|]. by split.
Qed.
Lemma representatives_snoc l x :
  representatives (l ++ [x]) =
  if decide (key x ∈ key <$> l) then representatives l else representatives l ++ [x].
Proof.
  induction l as [|y l IH]; [done|]. cbn [app representatives]. rewrite IH, fmap_cons.
  destruct (decide (key x ∈ key y :: (key <$> l))) as [Hin|Hout]; rewrite elem_of_cons in *.
  - destruct (decide (key x ∈ key <$> l)) as [|Hn]; [done|]. destruct Hin as [E|]; [|done].
    rewrite filter_app, filter_cons_False by (intros Hne; by apply Hne). by rewrite filter_nil, app_nil_r.
  - rewrite decide_False by naive_solver. rewrite filter_app, filter_cons_True by naive_solver. by rewrite filter_nil.
Qed.
Lemma representatives_inj l x y : x ∈ representatives l → y ∈ representatives l → key x = key y → x = y.
Proof.
  induction l as [|z l IH]; cbn [representatives]; [by intros ?%not_elem_of_nil|].
  rewrite !elem_of_cons, !list_elem_of_filter. naive_solver.
Qed.
End Representatives.

Section Grouping.
Context {F : Type} `{FloatOps F}.
Implicit Types (rows l : list (ScannedRow F)) (odds : gmap string (oddsVal F)).

(** A market as the rows list it: the header of its first row, and its selections. *)
Definition market_of rows (m : ScannedRow F) : marketResp F :=
  set_Selections (new_selection <$> filter (λ r, mID r = mID m) rows) (new_market m).
(** An event: the header of its first row, and the markets that first appear in it. *)
Definition event_of odds rows (e : ScannedRow F) : eventResp F :=
  set_Markets ((λ m, inject odds (market_of rows m)) <$>
                 filter (λ m, eID m = eID e) (representatives mID rows)) (new_event e).
Definition grouped odds rows : list (eventResp F) := event_of odds rows <$> representatives eID rows.

(** What the maps hold after the rows. *)
Definition events_ok l (st : Assembly (F:=F)) : Prop :=
  eventOrder st = eID <$> representatives eID l ∧
  (∀ k, eventMap st !! k = None ↔ k ∉ eID <$> l) ∧
  (∀ r, r ∈ representatives eID l → eventMap st !! eID r = Some (new_event r)).
Definition markets_ok l (st : Assembly (F:=F)) : Prop :=
  marketOrder st = mID <$> representatives mID l ∧
  (∀ k, marketMap st !! k = None ↔ k ∉ mID <$> l) ∧
  (∀ r, r ∈ representatives mID l →
     marketMap st !! mID r = Some (market_of l r) ∧ marketEvent st !! mID r = Some (eID r)).

Lemma lookup_fresh {V} (f : ScannedRow F → string) (m : gmap string V) l x v k :
  (∀ k, m !! k = None ↔ k ∉ f <$> l) → m !! f x = None →
  (<[f x := v]> m !! k = None ↔ k ∉ f <$> (l ++ [x])).
Proof.
  intros Hm Hx. rewrite fmap_app, not_elem_of_app. cbn. rewrite list_elem_of_singleton.
  destruct (decide (k = f x)) as [->|Hne]; [rewrite lookup_insert_eq; naive_solver|].
  rewrite lookup_insert_ne by done. rewrite Hm. naive_solver.
Qed.
Lemma known_in {V} (f : ScannedRow F → string) (m : gmap string V) l x v :
  (∀ k, m !! k = None ↔ k ∉ f <$> l) → m !! f x = Some v → f x ∈ f <$> l.
Proof.
  intros Hm Hx. destruct (decide (f x ∈ f <$> l)) as [|Hn]; [done|]. apply Hm in Hn. by rewrite Hn in Hx.
Qed.
Lemma lookup_known {V} (f : ScannedRow F → string) (m : gmap string V) l x k :
  (∀ k, m !! k = None ↔ k ∉ f <$> l) → f x ∈ f <$> l → (m !! k = None ↔ k ∉ f <$> (l ++ [x])).
Proof.
  intros Hm Hx. rewrite fmap_app, not_elem_of_app. cbn. rewrite list_elem_of_singleton, Hm.
  split; [|naive_solver]. intros Hn. split; [done|]. by intros ->.
Qed.

Lemma market_of_snoc l x m :
  market_of (l ++ [x]) m =
  if decide (mID x = mID m)
  then set_Selections (mr_Selections (market_of l m) ++ [new_selection x]) (market_of l m) else market_of l m.
Proof.
  unfold market_of. rewrite filter_app. destruct (decide (mID x = mID m)) as [E|E].
  - rewrite filter_cons_True, filter_nil, fmap_app by done. done.
  - rewrite filter_cons_False, filter_nil, app_nil_r by done. done.
Qed.

Lemma see_event_ok l x st : events_ok l st → events_ok (l ++ [x]) (see_event x st).
Proof.
  intros (Ho&Hn&Hr). unfold see_event, events_ok. rewrite representatives_snoc.
  destruct (eventMap st !! eID x) as [v|] eqn:Hx.
  - apply (known_in eID _ l) in Hx; [|done]. rewrite decide_True by done. split_and!; [done| |done].
    intros k. by apply lookup_known.
  - rewrite decide_False by (by apply Hn). cbn. rewrite Ho, fmap_app. split_and!; [done| |].
    + intros k. by apply lookup_fresh.
    + intros r [Hin|Hin%list_elem_of_singleton]%elem_of_app; [|subst r; by rewrite lookup_insert_eq].
      rewrite lookup_insert_ne; [by apply Hr|]. intros E. apply Hn in Hx. apply Hx. rewrite E.
      by apply representatives_keys, list_elem_of_fmap_2.
Qed.

Lemma market_of_new l x : mID x ∉ mID <$> l → market_of l x = new_market x.
Proof.
  intros Hx. unfold market_of.
  assert (filter (λ r, mID r = mID x) l = []) as ->; [|done].
  induction l as [|y l IH]; [done|]. rewrite fmap_cons, not_elem_of_cons in Hx.
  rewrite filter_cons_False by naive_solver. apply IH. tauto.
Qed.

Lemma see_market_ok l x st : markets_ok l st → markets_ok (l ++ [x]) (see_selection x (see_market x st)).
Proof.
  intros (Ho&Hn&Hr).
  set (mkts := marketMap (see_market x st)).
  assert (marketOrder (see_market x st) = mID <$> representatives mID (l ++ [x]) ∧
    (∀ k, mkts !! k = None ↔ k ∉ mID <$> (l ++ [x])) ∧
    (∀ r, r ∈ representatives mID (l ++ [x]) →
       mkts !! mID r = Some (market_of l r) ∧ marketEvent (see_market x st) !! mID r = Some (eID r)))
    as (Ho'&Hn'&Hr').
  { unfold mkts, see_market. rewrite representatives_snoc. destruct (marketMap st !! mID x) as [v|] eqn:Hx.
    - apply (known_in mID _ l) in Hx; [|done]. rewrite decide_True by done. split_and!; [done| |done].
      intros k. by apply lookup_known.
    - assert (mID x ∉ mID <$> l) as Hout by (by apply Hn). rewrite decide_False by done. cbn.
      rewrite Ho, fmap_app. split_and!; [done|intros k; by apply lookup_fresh|].
      intros r [Hin|Hin%list_elem_of_singleton]%elem_of_app;
        [|subst r; rewrite !lookup_insert_eq; by rewrite market_of_new].
      assert (mID r ≠ mID x) as Hne
        by (intros E; apply Hout; rewrite <- E; by apply representatives_keys, list_elem_of_fmap_2).
      rewrite !lookup_insert_ne by done. by apply Hr. }
  unfold markets_ok, see_selection. cbn. fold mkts. split_and!; [done| |].
  - intros k. rewrite <- Hn', lookup_alter_None. done.
  - intros r Hin. destruct (Hr' r Hin) as [Hm He]. split; [|done]. rewrite market_of_snoc.
    destruct (decide (mID x = mID r)) as [E|E]; [rewrite E, lookup_alter_eq|rewrite lookup_alter_ne by done]; by rewrite Hm.
Qed.

Lemma add_rows_ok l : events_ok l (add_rows l) ∧ markets_ok l (add_rows l) ∧
  selKeys (add_rows l) = (λ r, (mID r, sID r)) <$> l.
Proof.
  induction l as [|x l (He&Hm&Hk)] using rev_ind.
  - unfold events_ok, markets_ok. cbn. set_solver.
  - unfold add_rows in *. rewrite foldl_app. cbn [foldl]. set (st := foldl add_row no_rows l) in *.
    assert (markets_ok l (see_event x st)) as Hm'
      by (unfold see_event; by destruct (eventMap st !! eID x)).
    split_and!.
    + apply (see_event_ok l x) in He. unfold add_row, see_market.
      by destruct (marketMap (see_event x st) !! mID x).
    + by apply see_market_ok.
    + unfold add_row, see_selection, see_market, see_event. rewrite fmap_app. cbn.
      rewrite <- Hk. by destruct (eventMap st !! eID x); cbn; destruct (marketMap st !! mID x).
Qed.

(** The markets of the first ones of [p], placed. *)
Lemma placeMarkets_groups odds rows (mkEv : gmap string string) mkts p evs :
  NoDup (eID <$> representatives eID rows) →
  (∀ m, m ∈ p → mkEv !! mID m = Some (eID m) ∧ mkts !! mID m = Some (inject odds (market_of rows m)) ∧
     eID m ∈ eID <$> representatives eID rows) →
  (∀ e, e ∈ representatives eID rows → ∃ ev, evs !! eID e = Some ev) →
  ∃ evs', placeMarkets mkEv mkts (mID <$> p) evs = Some evs' ∧
    ∀ e ev, e ∈ representatives eID rows → evs !! eID e = Some ev →
      evs' !! eID e = Some (set_Markets (er_Markets ev ++
        ((λ m, inject odds (market_of rows m)) <$> filter (λ m, eID m = eID e) p)) ev).
Proof.
  intros Hnd. revert evs. induction p as [|m p IH]; intros evs Hp Hevs; cbn [fmap list_fmap placeMarkets].
  - exists evs. split; [done|]. intros e ev _ ->. rewrite filter_nil, app_nil_r. by destruct ev.
  - destruct (Hp m ltac:(left)) as (->&->&Hin). cbn [default from_option].
    apply list_elem_of_fmap in Hin as (e0&E0&He0). destruct (Hevs e0 He0) as [ev0 Hev0].
    unfold id. rewrite E0, Hev0. cbn [mbind option_bind].
    destruct (IH (<[eID e0 := set_Markets (er_Markets ev0 ++ [inject odds (market_of rows m)]) ev0]> evs))
      as (evs'&Hpl&Hall).
    + intros m' Hm'. apply Hp. by right.
    + intros e He. destruct (decide (eID e0 = eID e)) as [->|Hne]; [rewrite lookup_insert_eq; by eexists|].
      rewrite lookup_insert_ne by done. by apply Hevs.
    + exists evs'. split; [done|]. intros e ev He Hev. destruct (decide (eID e0 = eID e)) as [E|Hne].
      * rewrite E, Hev in Hev0. injection Hev0 as <-. rewrite filter_cons_True by congruence. cbn [fmap list_fmap].
        erewrite Hall; [|done|rewrite E; apply lookup_insert_eq]. cbn. by rewrite <- app_assoc.
      * rewrite filter_cons_False by congruence. apply Hall; [done|]. by rewrite lookup_insert_ne.
Qed.

Lemma first_event rows r : r ∈ rows → eID r ∈ eID <$> representatives eID rows.
Proof. intros Hr. by apply representatives_keys, list_elem_of_fmap_2. Qed.

(** The maps never meet a nil pointer. *)
Lemma assemble_grouped odds rows : assemble odds (add_rows rows) = Some (grouped odds rows).
Proof.
  destruct (add_rows_ok rows) as ((Ho&_&He)&(Hmo&_&Hm)&_). unfold assemble. rewrite Ho, Hmo.
  destruct (placeMarkets_groups odds rows (marketEvent (add_rows rows)) (inject odds <$> marketMap (add_rows rows))
    (representatives mID rows) (eventMap (add_rows rows))) as (evs'&->&Hall).
  - apply representatives_NoDup.
  - intros m Hin. destruct (Hm m Hin) as [Hmm ->]. rewrite lookup_fmap, Hmm. split_and!; [done..|].
    apply first_event. eapply elem_of_sublist; [done|apply representatives_sublist].
  - intros e Hin. eexists. by apply He.
  - cbn [mbind option_bind]. unfold grouped. apply mapM_Some, Forall2_fmap, Forall2_same_length_lookup_2; [done|].
    intros i x y Hx Hy. simplify_eq. apply list_elem_of_lookup_2 in Hx. by rewrite (Hall x _ Hx (He x Hx)).
Qed.
End Grouping.

(** Lists cut up by a key. *)
Section Cutting.
Context {A : Type} (key : A → string).
Implicit Types l cuts : list A.

Definition cut_by l cuts : list A := flat_map (λ e, filter (λ x, key x = key e) l) cuts.

Lemma cut_by_cons_absent x l cuts : key x ∉ key <$> cuts → cut_by (x :: l) cuts = cut_by l cuts.
Proof.
  induction cuts as [|e cuts IH]; [done|]. rewrite fmap_cons, not_elem_of_cons. intros [Hne Hn]. cbn.
  rewrite decide_False by done. f_equal. by apply IH.
Qed.
Lemma cut_by_Permutation l cuts :
  NoDup (key <$> cuts) → (∀ x, x ∈ l → key x ∈ key <$> cuts) → cut_by l cuts ≡ₚ l.
Proof.
  intros Hnd. induction l as [|x l IH]; intros Hin.
  - clear. induction cuts as [|e cuts IH]; [done|]. exact IH.
  - rewrite <- (IH (λ y Hy, Hin y ltac:(by right))) at 2. clear IH.
    pose proof (Hin x ltac:(by left)) as (e&Ee&He)%list_elem_of_fmap.
    apply list_elem_of_split in He as (l1&l2&->). rewrite fmap_app, fmap_cons in Hnd.
    apply NoDup_app in Hnd as (_&H1&[H2 _]%NoDup_cons).
    unfold cut_by. rewrite !flat_map_app. cbn [flat_map]. fold (cut_by (x :: l) l1) (cut_by (x :: l) l2).
    fold (cut_by l l1) (cut_by l l2).
    rewrite <- Ee in H1, H2. assert (key x ∉ key <$> l1) as H3 by (intros Hx; by eapply H1, list_elem_of_here).
    rewrite !cut_by_cons_absent by done.
    rewrite filter_cons_True by done. cbn. symmetry. apply Permutation_middle.
Qed.
Lemma elem_of_cut_by l cuts x : x ∈ cut_by l cuts ↔ x ∈ l ∧ key x ∈ key <$> cuts.
Proof.
  unfold cut_by. rewrite list_elem_of_In, in_flat_map. setoid_rewrite <- list_elem_of_In.
  setoid_rewrite list_elem_of_filter. rewrite list_elem_of_fmap. naive_solver.
Qed.
End Cutting.

(** ** What the page lists *)

Lemma Forall2_elem_of_r {A B} (P : A → B → Prop) l k y : Forall2 P l k → y ∈ k → ∃ x, x ∈ l ∧ P x y.
Proof.
  intros Hl [i Hi]%list_elem_of_lookup. destruct (Forall2_lookup_r _ _ _ _ _ Hl Hi) as (x&Hx&?).
  eauto using list_elem_of_lookup_2.
Qed.
Lemma Forall2_elem_of_l {A B} (P : A → B → Prop) l k x : Forall2 P l k → x ∈ l → ∃ y, y ∈ k ∧ P x y.
Proof.
  intros Hl [i Hi]%list_elem_of_lookup. destruct (Forall2_lookup_l _ _ _ _ _ Hl Hi) as (y&Hy&?).
  eauto using list_elem_of_lookup_2.
Qed.
Lemma Forall2_map {A B C} (f : A → C) (g : B → C) (P : A → B → Prop) l k :
  (∀ x y, P x y → f x = g y) → Forall2 P l k → f <$> l = g <$> k.
Proof. intros Hf. induction 1 as [|x y l k Hx _ IH]; [done|]. rewrite !fmap_cons. by rewrite (Hf x y), IH. Qed.

Lemma StronglySorted_sublist {A} (P : A → A → Prop) l k : l `sublist_of` k → StronglySorted P k → StronglySorted P l.
Proof.
  induction 1 as [|x l k Hsub IH|x l k Hsub IH]; intros Hs; [done|..];
    apply StronglySorted_inv in Hs as [Hs Hx]; [|by apply IH].
  constructor; [by apply IH|]. rewrite Forall_forall in *. intros y Hy. apply Hx. by eapply elem_of_sublist.
Qed.
Lemma StronglySorted_Forall2 {A B} (P : A → A → Prop) (Q : B → B → Prop) (M : A → B → Prop) l k :
  (∀ x x' y y', M x y → M x' y' → P x x' → Q y y') → Forall2 M l k → StronglySorted P l → StronglySorted Q k.
Proof.
  intros HPQ. induction 1 as [|x y l k Hxy Hlk IH]; intros Hs; [constructor|].
  apply StronglySorted_inv in Hs as [Hs Hx]. constructor; [by apply IH|]. rewrite Forall_forall in Hx. apply Forall_forall.
  intros y' Hy'. destruct (Forall2_elem_of_r _ _ _ _ Hlk Hy') as (x'&Hx'&Hm). eapply HPQ; [exact Hxy|exact Hm|by apply Hx].
Qed.

Lemma Sorted_weaken {A} (P Q : A → A → Prop) l : (∀ x y, P x y → Q x y) → Sorted P l → Sorted Q l.
Proof.
  intros HPQ. induction 1 as [|x l Hs IH Hx]; constructor; [done|]. destruct Hx; constructor. by apply HPQ.
Qed.

Section Listing.
Context {F : Type} `{FloatOps F} `{Collation}.
Variable timestamptz_text : Z → string.
Abbreviation scanRow := (scanRow (F:=F) timestamptz_text).
Abbreviation scanRows := (scanRows (F:=F) timestamptz_text).
Implicit Types (d : CatalogDB F) (r : ScannedRow F) (rows : list (ScannedRow F)) (odds : gmap string (oddsVal F)).

(** A row of the query on the tables. *)
Definition db_row d r : Prop :=
  ∃ e m s, selections d !! sID r = Some s ∧ sel_market_id s = mID r ∧ markets d !! mID r = Some m ∧
    mk_event_id m = eID r ∧ events d !! eID r = Some e ∧ listed_row e m s = true ∧
    scanRow (eID r, e, (mID r, m), (sID r, s)) = Some r.

Lemma db_row_market d r r' : db_row d r → db_row d r' → mID r = mID r' →
  eID r = eID r' ∧ new_market r = new_market r'.
Proof.
  intros (e&m&s&_&_&Hm&He&_&_&Hr) (e'&m'&s'&_&_&Hm'&He'&_&_&Hr') E.
  assert (m = m') as <- by congruence. split; [congruence|].
  unfold CatalogHttp.scanRow in Hr, Hr'. apply bind_Some in Hr as (t&Ht&[= Hr]), Hr' as (t'&Ht'&[= Hr']).
  rewrite <- Hr, <- Hr'. unfold new_market; cbn. congruence.
Qed.
Lemma db_row_event d r r' : db_row d r → db_row d r' → eID r = eID r' → new_event r = new_event r'.
Proof.
  intros (e&m&s&_&_&_&_&He&_&Hr) (e'&m'&s'&_&_&_&_&He'&_&Hr') E.
  assert (e = e') as <- by congruence.
  unfold CatalogHttp.scanRow in Hr, Hr'. apply bind_Some in Hr as (t&Ht&[= Hr]), Hr' as (t'&Ht'&[= Hr']).
  rewrite <- Hr, <- Hr'. unfold new_event; cbn. congruence.
Qed.

Lemma elem_of_snapshot_rows d ei e mi m si s :
  (ei, e, (mi, m), (si, s)) ∈ snapshot_rows d ↔
  selections d !! si = Some s ∧ sel_market_id s = mi ∧ markets d !! mi = Some m ∧ mk_event_id m = ei ∧
  events d !! ei = Some e ∧ listed_row e m s = true.
Proof.
  unfold snapshot_rows. rewrite merge_sort_Permutation, list_elem_of_omap. split.
  - intros ([si' s']&Hs%elem_of_map_to_list&Hj). unfold joined_row in Hj. cbn in Hj.
    apply bind_Some in Hj as (m'&Hm&Hj). apply bind_Some in Hj as (e'&He&Hj).
    destruct (listed_row e' m' s') eqn:Hl; [|done]. by simplify_eq.
  - intros (Hs&<-&Hm&<-&He&Hl). exists (si, s). split; [by apply elem_of_map_to_list|].
    unfold joined_row. cbn. rewrite Hm. cbn. rewrite He. cbn. by rewrite Hl.
Qed.

(** Each selection gives one row at most. *)
Lemma snapshot_rows_NoDup d : NoDup ((λ x, x.2.1) <$> snapshot_rows d).
Proof.
  unfold snapshot_rows. rewrite merge_sort_Permutation.
  assert (∀ l, ((λ x, x.2.1) <$> omap (joined_row d) l) `sublist_of` l.*1) as Hsub.
  { induction l as [|[si s] l IH]; [constructor|]. cbn. unfold joined_row at 1. cbn.
    destruct (markets d !! sel_market_id s) as [m|]; cbn; [|by constructor].
    destruct (events d !! mk_event_id m) as [e|]; cbn; [|by constructor].
    destruct (listed_row e m s); cbn; by constructor. }
  eapply sublist_NoDup; [|apply Hsub]. apply NoDup_fst_map_to_list.
Qed.

Lemma scanRows_prefix l : ∃ k, Forall2 (λ x r, scanRow x = Some r) (take k l) (scanRows l).
Proof.
  induction l as [|x l [k IH]]; [by exists 0%nat; constructor|]. cbn [CatalogHttp.scanRows].
  destruct (scanRow x) as [r|] eqn:Hx; [exists (S k); by constructor|exists 0%nat; constructor].
Qed.
Lemma scanRows_all l : (∀ x, x ∈ l → is_Some (mk_type x.1.2.2)) → Forall2 (λ x r, scanRow x = Some r) l (scanRows l).
Proof.
  induction l as [|x l IH]; intros Hl; cbn [CatalogHttp.scanRows]; [constructor|].
  destruct (Hl x ltac:(left)) as [t Ht].
  destruct (scanRow x) as [r|] eqn:Hx.
  - constructor; [done|]. apply IH. intros y Hy. apply Hl. by right.
  - destruct x as [[[ei e] [mi m]] [si s]]. cbn in *. by rewrite Ht in Hx.
Qed.
Lemma scanRow_ids x r : scanRow x = Some r → eID r = x.1.1.1 ∧ mID r = x.1.2.1 ∧ sID r = x.2.1.
Proof.
  destruct x as [[[ei e] [mi m]] [si s]]. cbn. intros Hx. by apply bind_Some in Hx as (t&_&[= <-]).
Qed.

(** The rows the loop reads. *)
Abbreviation read n d := (scanRows (take n (snapshot_rows d))).

Lemma scanned_in_order n d : ∃ l, l `sublist_of` snapshot_rows d ∧ Forall2 (λ x r, scanRow x = Some r) l (read n d).
Proof.
  destruct (scanRows_prefix (take n (snapshot_rows d))) as [k Hk]. eexists. split; [|exact Hk].
  etrans; apply sublist_take.
Qed.
Lemma read_db_row n d r : r ∈ read n d → db_row d r.
Proof.
  intros Hr. destruct (scanned_in_order n d) as (l&Hsub&Hl).
  destruct (Forall2_elem_of_r _ _ _ _ Hl Hr) as (x&Hx&Hscan). pose proof (scanRow_ids x r Hscan) as (E1&E2&E3).
  destruct x as [[[ei e] [mi m]] [si s]]. cbn in E1, E2, E3. subst.
  eapply elem_of_sublist, elem_of_snapshot_rows in Hx as (?&?&?&?&?&?); [|done].
  exists e, m, s. by split_and!.
Qed.
Lemma read_all n d r :
  (length (snapshot_rows d) ≤ n)%nat → (∀ k m, markets d !! k = Some m → is_Some (mk_type m)) →
  db_row d r → r ∈ read n d.
Proof.
  intros Hn Ht (e&m&s&Hs&Hm&Hmk&He&Hev&Hl&Hr). rewrite take_ge by done.
  assert (Forall2 (λ x r, scanRow x = Some r) (snapshot_rows d) (scanRows (snapshot_rows d))) as Hall.
  { apply scanRows_all. intros [[[ei e'] [mi m']] [si s']] (_&_&Hm'&_)%elem_of_snapshot_rows. by eapply Ht. }
  assert ((eID r, e, (mID r, m), (sID r, s)) ∈ snapshot_rows d) as Hin by (by apply elem_of_snapshot_rows).
  destruct (Forall2_elem_of_l _ _ _ _ Hall Hin) as (r'&Hr'&Hscan). by rewrite Hr in Hscan; injection Hscan as <-.
Qed.
Lemma read_NoDup n d : NoDup (sID <$> read n d).
Proof.
  destruct (scanned_in_order n d) as (l&Hsub&Hl).
  replace (sID <$> read n d) with ((λ x, x.2.1) <$> l).
  - eapply sublist_NoDup; [apply snapshot_rows_NoDup|by apply sublist_map].
  - eapply Forall2_map; [|exact Hl]. intros x r Hx. symmetry. by apply scanRow_ids.
Qed.

(** Live events come first, then the earlier ones. *)
Definition not_after (e e' : EventRow) : Prop :=
  live_rank e < live_rank e' ∨ live_rank e = live_rank e' ∧ evt_starts_at e ≤ evt_starts_at e'.
Definition shown_first d (a b : string) : Prop :=
  ∀ e e', events d !! a = Some e → events d !! b = Some e' → not_after e e'.

#[local] Instance not_after_trans : Transitive not_after.
Proof. intros x y z. unfold not_after. lia. Qed.
Lemma row_before_not_after (x y : ((string * EventRow) * (string * MarketRow F)) * (string * SelectionRow F)) :
  row_before x y → not_after x.1.1.2 y.1.1.2.
Proof.
  destruct x as [[[? e] [? ?]] [? ?]], y as [[[? e'] [? ?]] [? ?]]. unfold row_before, not_after. cbn.
  destruct (Z.compare_spec (live_rank e) (live_rank e')); cbn; [|lia|done].
  destruct (Z.compare_spec (evt_starts_at e) (evt_starts_at e')); cbn; [lia|lia|done].
Qed.

(** The clause compares any two rows one way or the other. *)
Definition flips (c c' : comparison) : Prop := match c with Gt => c' = Lt | Eq => c' = Eq | Lt => True end.
Lemma flips_then c c' k k' : flips c c' → flips k k' → flips (then_by c k) (then_by c' k').
Proof. destruct c; cbn; [intros ->; done|done|by intros ->]. Qed.
Lemma flips_opp c : flips c (CompOpp c).
Proof. by destruct c. Qed.
Lemma flips_collate x y : flips (collate x y) (collate y x).
Proof. rewrite (collate_antisym x y). apply flips_opp. Qed.
Lemma flips_float (x y : F) : flips (fcompare x y) (fcompare y x).
Proof. unfold fcompare. by destruct (flt x y), (flt y x). Qed.
Lemma flips_type x y : flips (nulls_last x y) (nulls_last y x).
Proof. destruct x, y; cbn; try done. apply flips_collate. Qed.
#[local] Instance row_before_total : base.Total (row_before (F:=F)).
Proof.
  intros x y. unfold row_before. assert (flips (row_compare x y) (row_compare y x)) as Hf.
  { destruct x as [[[? ?] [? ?]] [? ?]], y as [[[? ?] [? ?]] [? ?]]. cbn [row_compare].
    repeat apply flips_then; first [apply flips_float|apply flips_type
      |rewrite Z.compare_antisym; by destruct (_ ?= _)|apply flips_collate]. }
  destruct (row_compare x y); cbn in Hf; [by left|by left|right; by rewrite Hf].
Qed.

Lemma grouped_in_order n d odds :
  StronglySorted (shown_first d) (er_EventID <$> grouped odds (read n d)).
Proof.
  replace (er_EventID <$> grouped odds (read n d)) with (eID <$> representatives eID (read n d))
    by (unfold grouped; by rewrite <- list_fmap_compose).
  eapply StronglySorted_sublist; [apply sublist_map, representatives_sublist|].
  destruct (scanned_in_order n d) as (l&Hsub&Hl).
  eapply (StronglySorted_Forall2 (λ x y, not_after x.1.1.2 y.1.1.2) _ (λ x k, k = x.1.1.1 ∧ x ∈ snapshot_rows d) l).
  - intros [[[ei e] [mi m]] [si s]] [[[ei' e'] [mi' m']] [si' s']] ? ? [-> Hx] [-> Hx'] Hle. cbn in *.
    apply elem_of_snapshot_rows in Hx as (_&_&_&_&He&_), Hx' as (_&_&_&_&He'&_). intros a b Ha Hb. by simplify_eq.
  - apply Forall2_fmap_r. assert (Forall (λ x, x ∈ snapshot_rows d) l) as Hin
      by (apply Forall_forall; intros x Hx; by eapply elem_of_sublist).
    revert Hin. clear Hsub. induction Hl as [|x r l k Hx Hl IH]; intros Hin; constructor.
    + apply Forall_cons in Hin as [? _]. split; [exact (proj1 (scanRow_ids _ _ Hx))|done].
    + apply Forall_cons in Hin as [_ ?]. by apply IH.
  - eapply StronglySorted_sublist; [exact Hsub|]. apply Sorted_StronglySorted; [intros x y z; apply not_after_trans|].
    eapply Sorted_weaken; [apply row_before_not_after|]. apply Sorted_merge_sort, _.
Qed.

(** ** The page *)

Definition all_markets (evs : list (eventResp F)) : list (marketResp F) := flat_map er_Markets evs.
Definition all_selections (evs : list (eventResp F)) : list (selectionResp F) := flat_map mr_Selections (all_markets evs).

Lemma grouped_markets odds rows :
  all_markets (grouped odds rows) =
  (λ m, inject odds (market_of rows m)) <$> cut_by eID (representatives mID rows) (representatives eID rows).
Proof.
  unfold all_markets, grouped, cut_by. generalize (representatives eID rows). intros es.
  induction es as [|e es IH]; [done|]. rewrite fmap_cons. cbn [flat_map]. by rewrite IH, fmap_app.
Qed.
Lemma price_keeps_id odds k (s : selectionResp F) : sr_SelectionID (priceSelection odds k s) = sr_SelectionID s.
Proof. unfold priceSelection. by destruct (odds !! _). Qed.
Lemma market_selection_ids odds rows ms :
  sr_SelectionID <$> flat_map mr_Selections ((λ m, inject odds (market_of rows m)) <$> ms) = sID <$> cut_by mID rows ms.
Proof.
  unfold cut_by. induction ms as [|m ms IH]; [done|]. rewrite fmap_cons. cbn [flat_map]. rewrite !fmap_app, IH. f_equal.
  unfold inject, market_of. cbn. rewrite <- !list_fmap_compose. apply list_fmap_ext. intros i r _. apply price_keeps_id.
Qed.
Lemma cut_markets_Permutation rows :
  cut_by eID (representatives mID rows) (representatives eID rows) ≡ₚ representatives mID rows.
Proof.
  apply cut_by_Permutation; [apply representatives_NoDup|]. intros m Hm. apply first_event.
  eapply elem_of_sublist; [done|apply representatives_sublist].
Qed.

(** An entry shows a row: its three headers. *)
Definition shows (ev : eventResp F) (mk : marketResp F) (s : selectionResp F) r : Prop :=
  set_Markets [] ev = new_event r ∧ set_Selections [] mk = new_market r ∧
  sr_SelectionID s = sID r ∧ sr_Name s = sName r ∧ sr_TargetValue s = sTargetValue r.
Definition entry evs ev mk (s : selectionResp F) : Prop :=
  ev ∈ (evs : list (eventResp F)) ∧ mk ∈ er_Markets ev ∧ s ∈ mr_Selections mk.

Lemma grouped_entry odds rows ev mk s :
  entry (grouped odds rows) ev mk s ↔
  ∃ e m r, e ∈ representatives eID rows ∧ m ∈ representatives mID rows ∧ r ∈ rows ∧ eID m = eID e ∧ mID r = mID m ∧
    ev = event_of odds rows e ∧ mk = inject odds (market_of rows m) ∧
    s = priceSelection odds (mID m) (new_selection r).
Proof.
  unfold entry, grouped. rewrite list_elem_of_fmap. split.
  - intros ((e&->&He)&Hm&Hs). unfold event_of in Hm. cbn in Hm. apply list_elem_of_fmap in Hm as (m&->&Hm).
    apply list_elem_of_filter in Hm as [Em Hm]. unfold inject, market_of in Hs. cbn in Hs.
    apply list_elem_of_fmap in Hs as (s'&->&Hs). apply list_elem_of_fmap in Hs as (r&->&Hr).
    apply list_elem_of_filter in Hr as [Er Hr]. by exists e, m, r.
  - intros (e&m&r&He&Hm&Hr&Em&Er&->&->&->). split_and!; [by exists e|..].
    + unfold event_of. cbn. apply list_elem_of_fmap. exists m. split; [done|]. by apply list_elem_of_filter.
    + unfold inject, market_of. cbn. apply list_elem_of_fmap. eexists. split; [done|].
      apply list_elem_of_fmap. exists r. split; [done|]. by apply list_elem_of_filter.
Qed.

(** The entry of a row that was read. *)
Lemma grouped_shows odds rows ev mk s e m r d :
  (∀ r, r ∈ rows → db_row d r) → e ∈ rows → m ∈ rows → r ∈ rows → eID m = eID e → mID r = mID m →
  ev = event_of odds rows e → mk = inject odds (market_of rows m) → s = priceSelection odds (mID m) (new_selection r) →
  shows ev mk s r.
Proof.
  intros Hd He Hm Hr Em Er -> -> ->.
  destruct (db_row_market d r m (Hd r Hr) (Hd m Hm) Er) as [E1 E2].
  assert (new_event r = new_event e) as E3 by (apply (db_row_event d); [by apply Hd..|congruence]).
  unfold shows. rewrite E2, E3. split_and!; [done..| | |]; unfold priceSelection; by destruct (odds !! _).
Qed.
End Listing.

(** ** Properties *)

Section Properties.
Context {F R : Type} `{FloatOps F} `{Collation} `{RedisMGet (bytes F) R}.
Variable timestamptz_text : Z → string.
Abbreviation State := (HTTPHandler F R).
Abbreviation scanRows := (scanRows (F:=F) timestamptz_text).
Abbreviation db_row := (db_row (F:=F) timestamptz_text).
Implicit Types (w : world State) (evs : list (eventResp F)).

(** The price of a selection is the one cached under its key, or none. *)
Definition cached_price w (mk : marketResp F) (s : selectionResp F) : Prop :=
  (sr_OddsDecimal s = fnum 0 ∧ sr_OddsAmerican s = 0) ∨
  ∃ v o, redis_at (h_redisOdds (db w)) (clock w) (redisKey (mr_MarketID mk, sr_SelectionID s)) = Some v ∧
    Unmarshal decodeOddsVal v = Some o ∧ sr_OddsDecimal s = ov_decimal o ∧ sr_OddsAmerican s = ov_american o.

(** Exactly: the entry under its key when that decodes, no price otherwise. *)
Definition cached_value (r : R) (t : Z) (k : string) : option (oddsVal F) :=
  redis_at r t ("odds:" +:+ k) ≫= Unmarshal decodeOddsVal.
Definition exact_prices w evs : Prop := ∀ ev mk s, entry evs ev mk s →
  (sr_OddsDecimal s, sr_OddsAmerican s) =
  match cached_value (h_redisOdds (db w)) (clock w) (mr_MarketID mk +:+ ":" +:+ sr_SelectionID s) with
  | Some o => (ov_decimal o, ov_american o)
  | None => (fnum 0, 0)
  end.

Definition cached_odds (r : R) (t : Z) (odds : gmap string (oddsVal F)) : Prop := ∀ k o, odds !! k = Some o →
  ∃ v, redis_at r t ("odds:" +:+ k) = Some v ∧ Unmarshal decodeOddsVal v = Some o.

Lemma addOdds_cached (r : R) t ks vals odds :
  Forall2 (λ k o, ∀ v, o = Some v → redis_at r t (redisKey k) = Some v) ks vals →
  cached_odds r t odds → cached_odds r t (foldl addOdds odds (zip ks vals)).
Proof.
  intros Hks. revert odds. induction Hks as [|[m s] o ks vals Hk _ IH]; intros odds Ho; [done|]. cbn.
  apply IH. unfold addOdds; cbn. destruct o as [v|]; [|done]. destruct (Unmarshal decodeOddsVal v) as [o|] eqn:Hd; [|done].
  intros k o'. destruct (decide (m +:+ ":" +:+ s = k)) as [<-|Hne]; [rewrite lookup_insert_eq; intros [= <-]|
    rewrite lookup_insert_ne by done; apply Ho]. exists v. split; [by apply Hk|done].
Qed.
(** With every key answered, nothing is left out. *)
Lemma addOdds_all (r : R) t ks odds :
  (∀ k o, odds !! k = Some o → cached_value r t k = Some o) →
  let odds' := foldl addOdds odds (zip ks (redis_at r t <$> (redisKey <$> ks))) in
  (∀ k o, odds' !! k = Some o → cached_value r t k = Some o) ∧ (∀ k, is_Some (odds !! k) → is_Some (odds' !! k)) ∧
  ∀ m s, (m, s) ∈ ks → odds' !! (m +:+ ":" +:+ s) = cached_value r t (m +:+ ":" +:+ s).
Proof.
  revert odds. induction ks as [|[m s] ks IH]; intros odds Ho; cbn zeta.
  { split_and!; [done|done|]. intros m s Hin. by apply not_elem_of_nil in Hin. }
  cbn [fmap list_fmap zip zip_with foldl].
  assert (addOdds odds ((m, s), redis_at r t (redisKey (m, s))) =
    match cached_value r t (m +:+ ":" +:+ s) with None => odds | Some o => <[m +:+ ":" +:+ s := o]> odds end) as ->.
  { unfold addOdds, cached_value, redisKey. cbn. destruct (redis_at r t _); cbn; [|done]. by destruct (Unmarshal _ _). }
  set (odds1 := match cached_value r t _ with None => _ | Some _ => _ end).
  destruct (IH odds1) as (Hsound&Hmono&Hall).
  { intros k o. unfold odds1. destruct (cached_value r t (m +:+ ":" +:+ s)) as [o1|] eqn:Hv; [|apply Ho].
    rewrite lookup_insert_Some. intros [[<- <-]|[_ Hk]]; [done|by apply Ho]. }
  assert (∀ k, is_Some (odds !! k) → is_Some (odds1 !! k)) as Hmono1.
  { intros k Hk. unfold odds1. destruct (cached_value r t _); [|done]. apply lookup_insert_is_Some'. by right. }
  split_and!; [done|auto|]. intros m' s' [[= -> ->]|Hin]%elem_of_cons; [|by apply Hall].
  destruct (cached_value r t (m +:+ ":" +:+ s)) as [o|] eqn:Hv.
  - assert (is_Some (odds1 !! (m +:+ ":" +:+ s))) as [o' Ho']%Hmono
      by (unfold odds1; rewrite lookup_insert_eq; by eexists).
    rewrite Ho'. apply Hsound in Ho'. congruence.
  - destruct (foldl _ _ _ !! _) as [o'|] eqn:Ho'; [|done]. apply Hsound in Ho'. congruence.
Qed.

(** All of the keys are priced as the cache has them. *)
Definition all_priced (r : R) (t : Z) (keys : list (string * string)) (odds : gmap string (oddsVal F)) : Prop :=
  ∀ m s, (m, s) ∈ keys → odds !! (m +:+ ":" +:+ s) = cached_value r t (m +:+ ":" +:+ s).

Lemma fetchOdds_wp keys (x : world R) :
  wp (fetchOdds keys) (λ x' r, clock x' = clock x ∧ ∃ odds, r = Ok odds ∧ cached_odds (db x) (clock x) odds ∧
    (faults x = [] → all_priced (db x) (clock x) keys odds)) x.
Proof.
  assert (cached_odds (db x) (clock x) ∅) as Hempty by (intros k o Hk; by rewrite lookup_empty in Hk).
  destruct keys as [|k keys]; cbn [fetchOdds].
  { go_step. split; [done|]. exists ∅. split_and!; [done|done|]. intros _ m s Hin. by apply not_elem_of_nil in Hin. }
  do 2 go_step. apply wp_run. intros w1 r Hrun.
  from_wp (redis_MGet_law (redisKey <$> k :: keys) x) at Hrun as Hlaw. destruct Hlaw as [Hc Hr].
  go_step. split; [done|]. eexists. split; [done|]. split.
  - destruct r as [vals|]; [|done]. apply addOdds_cached; [|done]. exact (proj1 (Forall2_fmap_l _ _ _ _) (Hr _ eq_refl)).
  - intros Hf. from_wp (redis_MGet_up (redisKey <$> k :: keys) x Hf) at Hrun as Hup. rewrite Hup.
    destruct (addOdds_all (db x) (clock x) (k :: keys) ∅) as (_&_&Hall); [intros k' o Hk; by rewrite lookup_empty in Hk|exact Hall].
Qed.

(** The rows are grouped and priced as the reference does, never a nil pointer. *)
Lemma queryEvents_wp n w :
  wp (queryEvents timestamptz_text n) (λ w' r,
    db w' = db w ∧ clock w' = clock w ∧ (faults w = [] → faults w' = [] ∧ is_ok r = true) ∧
    match r with Err _ => True | Ok st => st = add_rows (scanRows (take n (snapshot_rows (h_db (db w))))) end) w.
Proof.
  unfold queryEvents, gbind, mapErr, ret, wp. rewrite queryRow_run. cbn.
  destruct (hd false (faults w)) eqn:Hf; cbn; split_and!; try done; intros Hno; by rewrite Hno in *.
Qed.

Lemma priceEvents_wp rows w :
  wp (priceEvents (add_rows rows)) (λ w' r,
    h_db (db w') = h_db (db w) ∧ clock w' = clock w ∧
    ∃ odds, r = Ok (Some (grouped odds rows)) ∧ cached_odds (h_redisOdds (db w)) (clock w) odds ∧
      (faults w = [] → all_priced (h_redisOdds (db w)) (clock w) ((λ r, (mID r, sID r)) <$> rows) odds)) w.
Proof.
  unfold priceEvents. do 3 go_step. eapply wp_mono; [|apply fetchOdds_wp]. cbn beta.
  intros w1 r (Hc&odds&->&Ho&Hall). cbn. split_and!; [done..|]. exists odds. rewrite assemble_grouped. split_and!; [done|done|].
  by destruct (add_rows_ok rows) as (_&_&<-).
Qed.

Lemma buildEventsSnapshot_wp n w :
  wp (buildEventsSnapshot timestamptz_text n) (λ w' r,
    h_db (db w') = h_db (db w) ∧ clock w' = clock w ∧ (faults w = [] → is_ok r = true) ∧
    match r with
    | Err _ => True
    | Ok o => let rows := scanRows (take n (snapshot_rows (h_db (db w)))) in
        ∃ odds, o = Some (grouped odds rows) ∧ cached_odds (h_redisOdds (db w)) (clock w) odds ∧
        (faults w = [] → all_priced (h_redisOdds (db w)) (clock w) ((λ r, (mID r, sID r)) <$> rows) odds)
    end) w.
Proof.
  unfold buildEventsSnapshot. go_step. eapply wp_mono; [|apply queryEvents_wp]. cbn beta.
  intros w1 [st|e] (Hd&Hc&Hf&Hst); [subst st|].
  - eapply wp_mono; [|apply priceEvents_wp]. cbn beta. intros w2 r (Hd2&Hc2&odds&->&Ho&Hall). rewrite Hd, Hc in *.
    split_and!; [done|done|done|]. exists odds. split_and!; [done|done|]. intros Hno. by apply Hall, Hf.
  - rewrite Hd. split_and!; [done|done| |done]. intros Hno. by destruct (Hf Hno).
Qed.

(** C24. Whatever rows the loop scans, in whatever order, the maps and orders of
    insertion give what the reference without maps gives, and no nil pointer is
    met; so the snapshot is that of the reference: the rows of the query, read until
    one does not scan, grouped by event and market in the order of their first
    rows, with the odds of one MGET. *)
Theorem buildEventsSnapshot_groups :
  (∀ (rows : list (ScannedRow F)) odds,
     selKeys (add_rows rows) = (λ r, (mID r, sID r)) <$> rows ∧ assemble odds (add_rows rows) = Some (grouped odds rows)) ∧
  ∀ n w, buildEventsSnapshot timestamptz_text n w =
    (rows <- queryRow (λ s, Some (snapshot_rows (h_db s))) or_throw "query events" ;;
     let read := scanRows (take n rows) in
     odds <- zoom handler_redis (fetchOdds ((λ r, (mID r, sID r)) <$> read)) or_throw "" ;;
     ret (Some (grouped odds read))) w.
Proof.
  split; [intros rows odds; split; [apply add_rows_ok|apply assemble_grouped]|].
  intros n w. unfold buildEventsSnapshot, queryEvents, priceEvents, gbind, mapErr, ret.
  destruct (queryRow _ w) as [w1 [rows|e]]; [|done]. cbn beta iota zeta.
  destruct (add_rows_ok (scanRows (take n rows))) as (_&_&->).
  destruct (zoom _ _ w1) as [w2 [odds|e]]; [|done]. by rewrite assemble_grouped.
Qed.

(** ** What a page built from [n] rows at the world [w] is *)

(** A selection on offer: active, of an open market of a scheduled or live event. *)
Definition on_offer (d : CatalogDB F) (ei mi si : string) : Prop :=
  ∃ e m s, events d !! ei = Some e ∧ markets d !! mi = Some m ∧ selections d !! si = Some s ∧
    mk_event_id m = ei ∧ sel_market_id s = mi ∧
    evt_status e ∈ ["SCHEDULED"; "LIVE"] ∧ mk_status m = "OPEN" ∧ sel_active s = true.
(** An entry carries the values of its three rows. *)
Definition displays (d : CatalogDB F) (ev : eventResp F) (mk : marketResp F) (sr : selectionResp F) : Prop :=
  ∃ e m s, events d !! er_EventID ev = Some e ∧ markets d !! mr_MarketID mk = Some m ∧
    selections d !! sr_SelectionID sr = Some s ∧
    er_CompetitionID ev = evt_competition_id e ∧ er_Name ev = evt_name e ∧
    er_StartsAt ev = timestamptz_text (evt_starts_at e) ∧ er_Status ev = evt_status e ∧
    er_HomeScore ev = evt_home_score e ∧ er_AwayScore ev = evt_away_score e ∧
    er_GamePeriod ev = evt_game_period e ∧ er_GameClock ev = evt_game_clock e ∧
    mr_Name mk = mk_name m ∧ mr_Status mk = mk_status m ∧ Some (mr_MarketType mk) = mk_type m ∧
    mr_TargetValue mk = mk_target_value m ∧ mr_IsMain mk = mk_is_main m ∧
    sr_Name sr = sel_name s ∧ sr_TargetValue sr = sel_target_value s.

Definition page n w evs : Prop :=
  let d := h_db (db w) in
  (∀ ev mk s, entry evs ev mk s →
     cached_price w mk s ∧ displays d ev mk s ∧ on_offer d (er_EventID ev) (mr_MarketID mk) (sr_SelectionID s)) ∧
  NoDup (er_EventID <$> evs) ∧ NoDup (mr_MarketID <$> all_markets evs) ∧
  NoDup (sr_SelectionID <$> all_selections evs) ∧
  StronglySorted (shown_first d) (er_EventID <$> evs) ∧
  ((length (snapshot_rows d) ≤ n)%nat → (∀ k m, markets d !! k = Some m → is_Some (mk_type m)) →
   ∀ ei mi si, on_offer d ei mi si →
     ∃ ev mk s, entry evs ev mk s ∧ er_EventID ev = ei ∧ mr_MarketID mk = mi ∧ sr_SelectionID s = si).

Lemma listed_row_spec e m (s : SelectionRow F) :
  listed_row e m s = true ↔ evt_status e ∈ ["SCHEDULED"; "LIVE"] ∧ mk_status m = "OPEN" ∧ sel_active s = true.
Proof. unfold listed_row. rewrite !andb_true_iff, bool_decide_eq_true, String.eqb_eq. tauto. Qed.
Lemma shows_ids ev mk s (r : ScannedRow F) :
  shows ev mk s r → er_EventID ev = eID r ∧ mr_MarketID mk = mID r ∧ sr_SelectionID s = sID r.
Proof.
  intros (He&Hm&Hs&_). split_and!; [change (er_EventID ev) with (er_EventID (set_Markets [] ev)); by rewrite He
    |change (mr_MarketID mk) with (mr_MarketID (set_Selections [] mk)); by rewrite Hm|done].
Qed.
Lemma shows_row d ev mk s r : db_row d r → shows ev mk s r →
  displays d ev mk s ∧ on_offer d (er_EventID ev) (mr_MarketID mk) (sr_SelectionID s).
Proof.
  intros (e&m&sel&Hs&Hsm&Hm&Hme&He&Hl&Hr) Hshows. pose proof (shows_ids _ _ _ _ Hshows) as (E1&E2&E3).
  unfold displays, on_offer. rewrite E1, E2, E3. split; exists e, m, sel; [|by apply listed_row_spec in Hl].
  unfold CatalogHttp.scanRow in Hr. apply bind_Some in Hr as (t&Ht&[= Hr]).
  destruct Hshows as (Hev&Hmk&_&Hn&Htv). rewrite <- Hr in Hev, Hmk, Hn, Htv. cbn in Hev, Hmk, Hn, Htv.
  injection Hev. injection Hmk. intros. split_and!; congruence.
Qed.
Lemma on_offer_row d ei mi si :
  (∀ k m, markets d !! k = Some m → is_Some (mk_type m)) → on_offer d ei mi si →
  ∃ r, db_row d r ∧ eID r = ei ∧ mID r = mi ∧ sID r = si.
Proof.
  intros Ht (e&m&s&He&Hm&Hs&Hme&Hsm&Hl). destruct (Ht _ _ Hm) as [t Hty]. apply listed_row_spec in Hl.
  assert (∃ r, CatalogHttp.scanRow timestamptz_text (ei, e, (mi, m), (si, s)) = Some r) as [r Hr]
    by (eexists; cbn; by rewrite Hty).
  pose proof (scanRow_ids _ _ _ Hr) as (E1&E2&E3). cbn in E1, E2, E3. exists r. split_and!; [|done..].
  exists e, m, s. rewrite E1, E2, E3. by split_and!.
Qed.

Lemma grouped_page odds n w :
  cached_odds (h_redisOdds (db w)) (clock w) odds →
  page n w (grouped odds (scanRows (take n (snapshot_rows (h_db (db w)))))).
Proof.
  intros Ho. set (d := h_db (db w)). set (rows := scanRows _).
  assert (∀ r, r ∈ rows → db_row d r) as Hd by apply read_db_row.
  assert (∀ (f : ScannedRow F → string) r, r ∈ representatives f rows → r ∈ rows) as Hrep
    by (intros f r Hr; eapply elem_of_sublist; [exact Hr|apply representatives_sublist]).
  unfold page. fold d. split_and!.
  - intros ev mk s (e&m&r&He&Hm&Hr&Em&Er&Hev&Hmk&Hs)%grouped_entry. split.
    + unfold cached_price, redisKey. rewrite Hs, price_keeps_id, Hmk. unfold priceSelection. cbn.
      destruct (odds !! _) as [o|] eqn:Hk; [|by left]. right. destruct (Ho _ _ Hk) as (v&Hv&Hdec). by exists v, o.
    + apply (shows_row d ev mk s r); [by apply Hd|].
      eapply (grouped_shows timestamptz_text odds rows ev mk s e m r d); eauto.
  - unfold grouped. rewrite <- list_fmap_compose. apply representatives_NoDup.
  - rewrite grouped_markets, <- list_fmap_compose, cut_markets_Permutation. apply representatives_NoDup.
  - unfold all_selections. rewrite grouped_markets, market_selection_ids, cut_by_Permutation; [apply read_NoDup|..].
    + rewrite cut_markets_Permutation. apply representatives_NoDup.
    + intros r Hr. rewrite cut_markets_Permutation. by apply representatives_keys, list_elem_of_fmap_2.
  - apply grouped_in_order.
  - intros Hn Ht ei mi si (r&Hr&<-&<-&<-)%on_offer_row; [|done]. apply (read_all timestamptz_text n d) in Hr; [|done..]. fold rows in Hr.
    assert (mID r ∈ mID <$> representatives mID rows) as (m&Em&Hm)%list_elem_of_fmap
      by (by apply representatives_keys, list_elem_of_fmap_2).
    assert (eID m ∈ eID <$> representatives eID rows) as (e&Ee&He)%list_elem_of_fmap
      by (apply first_event; by eapply Hrep).
    do 3 eexists. split; [apply grouped_entry; exists e, m, r; by split_and!|].
    eapply shows_ids, (grouped_shows timestamptz_text odds rows _ _ _ e m r d); eauto.
Qed.

Lemma grouped_exact odds w (rows : list (ScannedRow F)) :
  all_priced (h_redisOdds (db w)) (clock w) ((λ r, (mID r, sID r)) <$> rows) odds → exact_prices w (grouped odds rows).
Proof.
  intros Hall ev mk s (e&m&r&He&Hm&Hr&Em&Er&Hev&Hmk&Hs)%grouped_entry.
  assert (odds !! (mID m +:+ ":" +:+ sID r) =
    cached_value (h_redisOdds (db w)) (clock w) (mID m +:+ ":" +:+ sID r)) as Ho.
  { apply Hall. rewrite <- Er. by apply (list_elem_of_fmap_2 (λ r, (mID r, sID r))). }
  rewrite Hs, price_keeps_id, Hmk. cbn [inject market_of set_Selections new_market mr_MarketID new_selection sr_SelectionID].
  rewrite <- Ho. unfold priceSelection. cbn [new_selection sr_SelectionID]. by destruct (odds !! _).
Qed.

(** C23. Under any faults [GET /events] is answered 200 or 500, without a nil
    pointer, and leaves the catalogue alone. An answer 200 lists selections of
    open markets of scheduled or live events, with the values of their rows and
    the price cached under their key or none; no event, market or selection
    twice; live events before scheduled ones and the earlier ones first; and, when
    all rows arrive and every market has a type, every such selection. When nothing
    fails the answer is 200 and every price is the one in the cache: a selection
    has none only when its key has no entry that decodes. *)
Theorem GET_events_spec n r w w' o :
  handleGetEvents timestamptz_text n r w = (w', Ok o) →
  h_db (db w') = h_db (db w) ∧ ∃ resp, o = Some resp ∧ StatusCode resp ∈ [200; 500] ∧
  (StatusCode resp = 200 → ∃ evs, page n w evs ∧ (faults w = [] → exact_prices w evs) ∧
     resp_Body resp = default (Garbage "") (Marshal (JArr (encodeEventResp <$> evs)))) ∧
  (faults w = [] → StatusCode resp = 200).
Proof.
  intros Hrun. assert (wp (handleGetEvents timestamptz_text n r) (λ w' res, h_db (db w') = h_db (db w) ∧
    ∀ o, res = Ok o → ∃ resp, o = Some resp ∧ StatusCode resp ∈ [200; 500] ∧
      (StatusCode resp = 200 → ∃ evs, page n w evs ∧ (faults w = [] → exact_prices w evs) ∧
         resp_Body resp = default (Garbage "") (Marshal (JArr (encodeEventResp <$> evs)))) ∧
      (faults w = [] → StatusCode resp = 200)) w) as Hwp.
  { unfold handleGetEvents. do 2 go_step. eapply wp_mono; [|apply buildEventsSnapshot_wp]. cbn beta.
    intros w1 res (Hdb&_&Hup&Hres). destruct res as [res|e].
    - destruct Hres as (odds&->&Ho&Hall). cbn beta iota. unfold WriteJSON, answer. go_step. split; [done|].
      intros o' [= <-]. eexists. split_and!; [done|left| |done]. intros _. eexists. split_and!; [by apply grouped_page| |done].
      intros Hf. by apply grouped_exact, Hall.
    - unfold http_Error, answer. go_step. split; [done|]. intros o' [= <-]. eexists.
      split_and!; [done|right; left|done|]. intros Hf. discriminate (Hup Hf). }
  from_wp Hwp at Hrun as Hout. destruct Hout as [? Hout]. split; [done|]. by apply Hout.
Qed.
End Properties.

(** ** Concrete pages *)

Section Witnesses.
#[local] Existing Instance inert_platform.
#[local] Existing Instance byte_collation.
Abbreviation ExState := (HTTPHandler binary64 (RedisMap (bytes binary64))).

Definition ex_event (status : string) (starts : Z) : EventRow :=
  Build_EventRow "nba" "Celtics vs Lakers" starts status 0 0 "" "" 0.
Definition ex_market (event : string) (type : option string) : MarketRow binary64 :=
  Build_MarketRow event "m" "OPEN" 0 None 0 type (b64_of_int 0) true.
Definition ex_selection (market : string) : SelectionRow binary64 :=
  Build_SelectionRow market "s" true (b64_of_int 0) None.

(** A live event with one market, and two scheduled questions of one event whose
    rows alternate: the clause does not order by market. *)
Definition ex_tables (type : option string) : CatalogDB binary64 := Build_CatalogDB
  {[ "bb" := "Basketball" ]} {[ "nba" := Build_CompetitionRow "bb" "NBA" "" ]}
  {[ "e1" := ex_event "SCHEDULED" 5; "e2" := ex_event "LIVE" 7; "e3" := ex_event "FINISHED" 1 ]}
  {[ "m1" := ex_market "e1" (Some "BINARY"); "m2" := ex_market "e1" (Some "BINARY"); "m3" := ex_market "e2" type ]}
  {[ "s1" := ex_selection "m1"; "s2" := ex_selection "m2"; "s3" := ex_selection "m1"; "s4" := ex_selection "m2";
     "s5" := ex_selection "m3" ]}.
Definition ex_cached : RedisMap (bytes binary64) :=
  {[ "odds:m1:s3" := (Doc (JObj [("decimal", JNum (b64_of_int 2)); ("american", JInt 100)]), 100) ]}.
Definition ex_handler (type : option string) : world ExState :=
  World (Build_HTTPHandler (ex_tables type) ex_cached) 50 0 [].
Definition ex_get : Request binary64 := Build_Request ∅ (Garbage "").

(** The ids and American odds of an answer. *)
Definition objects {A} (d : list (string * json binary64) → option A) (name : string)
    (kvs : list (string * json binary64)) : option (list A) :=
  l ← jfield (into_slice None (λ _ j, match j with JObj kvs => Some (d kvs) | _ => None end)) [] name kvs; mapM id l.
Definition outline_selection (kvs : list (string * json binary64)) : option (string * Z) :=
  i ← jstring "selection_id" kvs; a ← jint "odds_american" kvs; Some (i, a).
Definition outline_market (kvs : list (string * json binary64)) : option (string * list (string * Z)) :=
  i ← jstring "market_id" kvs; l ← objects outline_selection "selections" kvs; Some (i, l).
Definition outline_event (kvs : list (string * json binary64)) : option (string * list (string * list (string * Z))) :=
  i ← jstring "event_id" kvs; l ← objects outline_market "markets" kvs; Some (i, l).
Definition outline (o : option (Response binary64)) : option (list (string * list (string * list (string * Z)))) :=
  resp ← o; match resp_Body resp with Doc j => objects outline_event "page" [("page", j)] | _ => None end.
Definition ex_events_page (type : option string) := handleGetEvents (λ _, "t") 10 ex_get (ex_handler type).
Definition answered (o : result Empty_set (option (Response binary64))) : option (Response binary64) :=
  match o with Ok o => o | Err _ => None end.

(** An open market without a type cannot be scanned, and the driver then closes
    the rows: the page is still answered 200 but ends before that market, here it
    is empty, though two markets of another event are open. *)
Theorem untyped_market_hides_the_rest :
  outline (answered (ex_events_page None).2) = Some [] ∧
  outline (answered (ex_events_page (Some "ML")).2) =
    Some [("e2", [("m3", [("s5", 0)])]); ("e1", [("m1", [("s1", 0); ("s3", 100)]); ("m2", [("s2", 0); ("s4", 0)])])].
Proof. vm_compute. split; reflexivity. Qed.

Lemma ex_events_200 : has_code 200 (handleGetEvents (λ _, "t") 10 ex_get (ex_handler (Some "ML"))).2 = true.
Proof. vm_compute. reflexivity. Qed.

Lemma GET_events_spec_witness :
  has_code 200 (ex_events_page (Some "ML")).2 = true ∧ ∃ evs,
    page (λ _, "t") 10 (ex_handler (Some "ML")) evs ∧ exact_prices (ex_handler (Some "ML")) evs.
Proof.
  split; [exact ex_events_200|]. destruct (has_code_run _ _ ex_events_200) as (resp&Hrun&Hcode).
  destruct (GET_events_spec (λ _, "t") 10 ex_get (ex_handler (Some "ML")) _ _ Hrun) as (_&resp'&[= <-]&_&H200&_).
  destruct (H200 Hcode) as (evs&Hp&He&_). exists evs. split; [exact Hp|exact (He eq_refl)].
Defined.
End Witnesses.
