(* ===== verification/CatalogSocket.v ===== *)
(** * The WebSocket endpoint ([internal/catalog/http.go], [broadcaster.go])

    [handleWS] for every connection - upgrade, query, prices, snapshot, registration,
    read loop, removal - next to the goroutines of the hub of [Broadcaster], in every
    interleaving, while other services write the tables and the cache. What a
    client is sent is read off the history of the run. The theorem: first a page
    with the rows of one moment and the prices of a later one, then messages broadcast since the registration,
    each once at most and in the order in which they were queued; and a
    connection stays registered only while it is read or being removed. *)
From S2P Require Export CatalogHttp Broadcaster.
Local Open Scope Z_scope.

(** ** The history of the hub *)

Section History.
Context {M : Type}.
Implicit Types (es : list (HubEvent M)) (h : Hub M) (ts : list (Thread M)) (conn ch : nat).

(** Histories have the latest event first, the lists they give the earliest. *)
Fixpoint written conn es : list M :=
  match es with
  | [] => []
  | EvWrite c m :: es => written conn es ++ (if decide (c = conn) then [m] else [])
  | _ :: es => written conn es
  end.
Fixpoint queued conn es : list M :=
  match es with
  | [] => []
  | EvQueue c m :: es => queued conn es ++ (if decide (c = conn) then [m] else [])
  | _ :: es => queued conn es
  end.
Definition registered conn es : Prop := ∃ ch, EvAdd conn ch ∈ es.
Definition is_add conn (e : HubEvent M) : bool := match e with EvAdd c _ => bool_decide (c = conn) | _ => false end.
Fixpoint broadcast_since conn es : list M :=
  match es with
  | [] => []
  | EvBroadcast m :: es => broadcast_since conn es ++ (if existsb (is_add conn) es then [m] else [])
  | _ :: es => broadcast_since conn es
  end.

Lemma is_add_spec conn es : existsb (is_add conn) es = true ↔ registered conn es.
Proof.
  unfold registered. induction es as [|e es IH]; cbn; [split; [done|intros [? []%elem_of_nil]]|].
  rewrite orb_true_iff, IH. setoid_rewrite elem_of_cons. split.
  - intros [He|[ch Hch]]; [|by eauto]. destruct e; cbn in He; try done. apply bool_decide_eq_true in He as ->. by eauto.
  - intros [ch [<-|Hch]]; [left; cbn; by apply bool_decide_eq_true|right; by exists ch].
Qed.

(** What the broadcasts under way may still queue for a connection. *)
Definition pending_of conn (t : Thread M) : list M :=
  match t with TBroadcast m rest => (λ _, m) <$> filter (λ p, p.1 = conn) rest | _ => [] end.
Definition pending conn ts : list M := concat (map (pending_of conn) ts).
Definition pump_of (t : Thread M) : list nat := match t with TPump conn _ => [conn] | _ => [] end.
Definition pumps ts : list nat := concat (map pump_of ts).

Record hub_log es h : Prop := {
  hl_chan conn ch : EvAdd conn ch ∈ es → ∃ c x, chans h !! ch = Some c ∧
    queued conn es = written conn es ++ x ∧ (TPump conn ch ∈ threads h → x = buffer c);
  hl_fun conn ch ch' : EvAdd conn ch ∈ es → EvAdd conn ch' ∈ es → ch = ch';
  hl_inj conn conn' ch : EvAdd conn ch ∈ es → EvAdd conn' ch ∈ es → conn = conn';
  hl_client conn ch : clients h !! conn = Some ch → EvAdd conn ch ∈ es;
  hl_pump conn ch : TPump conn ch ∈ threads h → EvAdd conn ch ∈ es;
  hl_sends m rest conn ch : TBroadcast m rest ∈ threads h → (conn, ch) ∈ rest → EvAdd conn ch ∈ es;
  hl_pumps : NoDup (pumps (threads h));
  hl_pending conn : queued conn es ++ pending conn (threads h) ⊆+ broadcast_since conn es;
  hl_new conn : ¬ registered conn es → queued conn es = [] ∧ written conn es = []
}.

Lemma concat_middle {A B} (f : A → list B) l1 x l2 :
  concat (map f (l1 ++ x :: l2)) ≡ₚ f x ++ concat (map f (l1 ++ l2)).
Proof.
  rewrite !map_app, !concat_app. cbn. rewrite !app_assoc. by rewrite (Permutation_app_comm (concat (map f l1)) (f x)).
Qed.

Lemma pending_snapshot conn (m : M) h snap :
  snap ≡ₚ map_to_list (clients h) →
  pending_of conn (TBroadcast m snap) ⊆+ (match clients h !! conn with Some _ => [m] | None => [] end).
Proof.
  intros Hs. cbn. rewrite Hs.
  assert (∀ cl : gmap nat nat, cl !! conn = None → filter (λ p, p.1 = conn) (map_to_list cl) = []) as Hnone.
  { intros cl Hcl. apply elem_of_nil_inv. intros [k v] [Hk Hin%elem_of_map_to_list]%list_elem_of_filter. cbn in Hk. congruence. }
  destruct (clients h !! conn) as [ch|] eqn:Hc; [|by rewrite Hnone].
  rewrite <- (insert_delete_id (clients h) conn ch) by done.
  rewrite map_to_list_insert by apply lookup_delete_eq.
  rewrite filter_cons_True by done. rewrite Hnone by apply lookup_delete_eq. done.
Qed.

(** A step that queues, writes and registers nothing. *)
Lemma log_silent es h e h' :
  hub_log es h → match e with EvDisconnect _ | EvSilent => True | _ => False end →
  (∀ conn ch c, chans h !! ch = Some c → ∃ c', chans h' !! ch = Some c' ∧
     (TPump conn ch ∈ threads h' → TPump conn ch ∈ threads h ∧ buffer c' = buffer c)) →
  (∀ conn ch, clients h' !! conn = Some ch → clients h !! conn = Some ch) →
  (∀ conn ch, TPump conn ch ∈ threads h' → TPump conn ch ∈ threads h) →
  (∀ m rest p, TBroadcast m rest ∈ threads h' → p ∈ rest → ∃ rest', TBroadcast m rest' ∈ threads h ∧ p ∈ rest') →
  pumps (threads h') ⊆+ pumps (threads h) →
  (∀ conn, pending conn (threads h') ⊆+ pending conn (threads h)) →
  hub_log (e :: es) h'.
Proof.
  intros [Hc Hf Hi Hcl Hp Hs Hnd Hpe Hn] He Hch Hcl' Hp' Hs' Hnd' Hpe'.
  assert (∀ conn ch, EvAdd conn ch ∈ e :: es ↔ EvAdd conn ch ∈ es) as Hadd.
  { intros conn ch. rewrite elem_of_cons. split; [intros [<-|]; done|by right]. }
  assert (∀ conn, written conn (e :: es) = written conn es ∧ queued conn (e :: es) = queued conn es ∧
    broadcast_since conn (e :: es) = broadcast_since conn es) as Hsame by (intros conn; by destruct e).
  split.
  - intros conn ch Hin%Hadd. destruct (Hc conn ch Hin) as (c&x&Hchan&Hq&Hx).
    destruct (Hch conn ch c Hchan) as (c'&Hc'&Hpb). exists c', x. destruct (Hsame conn) as (->&->&_). split_and!; [done..|].
    intros [Hpump ->]%Hpb. by apply Hx.
  - intros conn ch ch' ?%Hadd ?%Hadd. by eapply Hf.
  - intros conn conn' ch ?%Hadd ?%Hadd. by eapply Hi.
  - intros conn ch ?%Hcl'. by apply Hadd, Hcl.
  - intros conn ch ?%Hp'. by apply Hadd, Hp.
  - intros m rest conn ch Hin Hr. destruct (Hs' m rest _ Hin Hr) as (rest'&?&?). apply Hadd. by eapply Hs.
  - apply submseteq_Permutation in Hnd' as [k Hk]. rewrite Hk in Hnd. by apply NoDup_app in Hnd as [? _].
  - intros conn. destruct (Hsame conn) as (_&->&->). etrans; [|apply Hpe]. by apply submseteq_app.
  - intros conn Hreg. destruct (Hsame conn) as (->&->&_). apply Hn. intros [ch Hin]. apply Hreg. exists ch. by apply Hadd.
Qed.

(** The middle thread replaced. *)
Lemma elem_of_middle (t : Thread M) ts1 new ts2 : t ∈ ts1 ++ new ++ ts2 ↔ t ∈ new ∨ t ∈ ts1 ++ ts2.
Proof. rewrite !elem_of_app. tauto. Qed.

Lemma log_thread es h e h' ts1 t new ts2 :
  hub_log es h → match e with EvDisconnect _ | EvSilent => True | _ => False end →
  threads h = ts1 ++ t :: ts2 → threads h' = ts1 ++ new ++ ts2 →
  (∀ conn ch c, chans h !! ch = Some c → ∃ c', chans h' !! ch = Some c' ∧
     (TPump conn ch ∈ ts1 ++ ts2 → buffer c' = buffer c)) →
  (∀ conn ch, clients h' !! conn = Some ch → clients h !! conn = Some ch) →
  pumps new = [] → (∀ m rest, TBroadcast m rest ∈ new → ∃ p, t = TBroadcast m (p :: rest)) →
  (∀ conn, pending conn new ⊆+ pending_of conn t) →
  hub_log (e :: es) h'.
Proof.
  intros Hlog He Hts Hts' Hch Hcl Hpumps Hnew Hpend.
  assert (∀ conn ch, TPump conn ch ∈ threads h' → TPump conn ch ∈ ts1 ++ ts2) as Hold.
  { intros conn ch. rewrite Hts', elem_of_middle. intros [Hin|]; [|done]. exfalso.
    apply list_elem_of_In in Hin. apply (in_map pump_of) in Hin.
    assert (conn ∈ pumps new) as Hbad; [|rewrite Hpumps in Hbad; by apply elem_of_nil in Hbad].
    apply list_elem_of_In, in_concat. exists [conn]. split; [done|by left]. }
  assert (∀ n, n ∈ ts1 ++ ts2 → n ∈ threads h) as Hin.
  { intros n Hn. rewrite Hts. rewrite elem_of_app in *. rewrite elem_of_cons. tauto. }
  apply (log_silent es h e h' Hlog He); [|done| | |..].
  - intros conn ch c Hc. destruct (Hch conn ch c Hc) as (c'&Hc'&Hb). exists c'. split; [done|]. intros Hp%Hold. auto.
  - intros conn ch Hp%Hold. auto.
  - intros m rest p Hb Hp. rewrite Hts', elem_of_middle in Hb. destruct Hb as [Hb|Hb]; [|by eauto].
    destruct (Hnew m rest Hb) as [q ->]. exists (q :: rest). split; [|by right]. rewrite Hts, elem_of_app. right. by left.
  - rewrite Hts, Hts'. unfold pumps in *. rewrite concat_middle, !map_app, !concat_app, Hpumps. cbn.
    by apply submseteq_inserts_l.
  - intros conn. rewrite Hts, Hts'. unfold pending in *. rewrite concat_middle, !map_app, !concat_app.
    rewrite !(assoc_L (++)), (Permutation_app_comm (concat (map _ ts1)) (concat (map _ new))), <- !(assoc_L (++)).
    by apply submseteq_app.
Qed.

Lemma elem_of_pumps conn ts : conn ∈ pumps ts ↔ ∃ ch, TPump conn ch ∈ ts.
Proof.
  unfold pumps. rewrite list_elem_of_In, in_concat. setoid_rewrite in_map_iff. setoid_rewrite <- list_elem_of_In. split.
  - intros (l&(t&<-&Ht)&Hin). destruct t; cbn in Hin; try by apply elem_of_nil in Hin.
    apply list_elem_of_singleton in Hin as ->. by eexists.
  - intros [ch Hin]. exists [conn]. split; [by exists (TPump conn ch)|by left].
Qed.

Lemma one_pump es h conn ch ts1 ts2 :
  hub_log es h → threads h = ts1 ++ TPump conn ch :: ts2 → ∀ ch', TPump conn ch' ∉ ts1 ++ ts2.
Proof.
  intros Hlog Hts ch' Hin. pose proof (hl_pumps _ _ Hlog) as Hnd. rewrite Hts in Hnd. unfold pumps in Hnd.
  rewrite concat_middle in Hnd. apply NoDup_cons in Hnd as [Hn _]. apply Hn, elem_of_pumps. by exists ch'.
Qed.

Lemma log_add es h conn ch :
  hub_log es h → ¬ registered conn es → clients h !! conn = None → chans h !! ch = None →
  hub_log (EvAdd conn ch :: es) {| clients := <[conn := ch]> (clients h);
    chans := <[ch := {| buffer := []; is_closed := false |}]> (chans h);
    threads := TPump conn ch :: threads h; panicked := panicked h |}.
Proof.
  intros [Hc Hf Hi Hcl Hp Hs Hnd Hpe Hn] Hreg Hconn Hch.
  assert (∀ k, EvAdd k ch ∉ es) as Hfresh by (intros k Hin; destruct (Hc k ch Hin) as (c&x&?&_); congruence).
  assert (∀ k, EvAdd conn k ∉ es) as Hfresh' by (intros k Hin; apply Hreg; by exists k).
  split; cbn.
  - intros k k'. rewrite elem_of_cons. intros [[= -> ->]|Hin].
    + destruct (Hn conn Hreg) as [-> ->]. exists {| buffer := []; is_closed := false |}, []. by rewrite lookup_insert_eq.
    + destruct (Hc k k' Hin) as (c&x&Hk&Hq&Hx). exists c, x.
      rewrite lookup_insert_ne by (intros ->; congruence). split_and!; [done..|].
      rewrite elem_of_cons. intros [[= -> ->]|?]; [by apply Hfresh in Hin|auto].
  - intros k c1 c2. rewrite !elem_of_cons. intros [[= -> ->]|H1] [[= ->]|H2]; subst; try done; [by apply Hfresh' in H2|by apply Hfresh' in H1|by eapply Hf].
  - intros k1 k2 c0. rewrite !elem_of_cons. intros [[= -> ->]|H1] [[= ->]|H2]; subst; try done; [by apply Hfresh in H2|by apply Hfresh in H1|by eapply Hi].
  - intros k k' [[<- <-]|[_ ?]]%lookup_insert_Some; [by left|right; auto].
  - intros k k'. rewrite elem_of_cons. intros [[= -> ->]|?]; [by left|right; auto].
  - intros m rest k k'. rewrite elem_of_cons. intros [[=]|Hin] Hr. right. by eapply Hs.
  - apply NoDup_cons. split; [|done]. intros [k Hk%Hp]%elem_of_pumps. by apply Hfresh' in Hk.
  - done.
  - intros k Hk. apply Hn. intros [k' Hin]. apply Hk. exists k'. by right.
Qed.

Lemma log_broadcast es h m snap :
  hub_log es h → snap ≡ₚ map_to_list (clients h) →
  hub_log (EvBroadcast m :: es) {| clients := clients h; chans := chans h;
    threads := TBroadcast m snap :: threads h; panicked := panicked h |}.
Proof.
  intros [Hc Hf Hi Hcl Hp Hs Hnd Hpe Hn] Hsnap.
  assert (∀ k k', EvAdd k k' ∈ EvBroadcast m :: es ↔ EvAdd k k' ∈ es) as Hadd.
  { intros k k'. rewrite elem_of_cons. split; [intros [|]; done|by right]. }
  assert (∀ k k', TPump k k' ∈ TBroadcast m snap :: threads h ↔ TPump k k' ∈ threads h) as Hpump.
  { intros k k'. rewrite elem_of_cons. split; [intros [|]; done|by right]. }
  split; cbn [clients chans threads panicked].
  - intros k k' Hin%Hadd. destruct (Hc k k' Hin) as (c&x&?&?&Hx). exists c, x. split_and!; [done..|]. rewrite Hpump. done.
  - intros k c1 c2 ?%Hadd ?%Hadd. by eapply Hf.
  - intros k1 k2 c0 ?%Hadd ?%Hadd. by eapply Hi.
  - intros k k' ?%Hcl. by apply Hadd.
  - intros k k' ?%Hpump. by apply Hadd, Hp.
  - intros m' rest k k'. rewrite elem_of_cons, Hadd. intros [[= -> ->]|Hin] Hr; [|by eapply Hs].
    rewrite Hsnap in Hr. apply elem_of_map_to_list in Hr. auto.
  - done.
  - intros k. cbn [queued broadcast_since]. unfold pending. cbn [map concat].
    rewrite (Permutation_app_comm (pending_of _ _)), (assoc_L (++)). apply submseteq_app; [apply Hpe|].
    etrans; [by apply pending_snapshot|]. destruct (clients h !! k) as [k'|] eqn:Hk; [|apply submseteq_nil_l].
    replace (existsb (is_add k) es) with true; [done|]. symmetry. apply is_add_spec. exists k'. auto.
  - intros k Hk. apply Hn. intros [k' Hin]. apply Hk. exists k'. by apply Hadd.
Qed.

Lemma log_send es h m conn ch c rest ts1 ts2 :
  hub_log es h → threads h = ts1 ++ TBroadcast m ((conn, ch) :: rest) :: ts2 → chans h !! ch = Some c →
  hub_log (EvQueue conn m :: es) {| clients := clients h; chans := <[ch := push_msg m c]> (chans h);
    threads := ts1 ++ TBroadcast m rest :: ts2; panicked := panicked h |}.
Proof.
  intros [Hc Hf Hi Hcl Hp Hs Hnd Hpe Hn] Hts Hch. rewrite Hts in *.
  assert (EvAdd conn ch ∈ es) as Hmine by (eapply (Hs m ((conn, ch) :: rest)); [rewrite elem_of_app; right|]; by left).
  assert (∀ k k', EvAdd k k' ∈ EvQueue conn m :: es ↔ EvAdd k k' ∈ es) as Hadd.
  { intros k k'. rewrite elem_of_cons. split; [intros [|]; done|by right]. }
  assert (∀ t, t ∈ ts1 ++ TBroadcast m rest :: ts2 → t = TBroadcast m rest ∨ t ∈ ts1 ++ TBroadcast m ((conn, ch) :: rest) :: ts2) as Hin'.
  { intros t. rewrite !elem_of_app, !elem_of_cons. tauto. }
  split; cbn [clients chans threads panicked].
  - intros k k' Hin%Hadd. destruct (Hc k k' Hin) as (c0&x&Hk&Hq&Hx). cbn [queued written]. rewrite Hq.
    destruct (decide (ch = k')) as [<-|Hne].
    + rewrite Hch in Hk. injection Hk as <-. rewrite (Hi k conn ch Hin Hmine), decide_True by done.
      exists (push_msg m c), (x ++ [m]). rewrite lookup_insert_eq. split_and!; [done|by rewrite (assoc_L (++))|].
      intros [[=]|Hpump]%Hin'. cbn. rewrite Hx; [done|]. by rewrite (Hi k conn ch Hin Hmine).
    + rewrite decide_False by (intros <-; by apply Hne, (Hf conn)). rewrite app_nil_r.
      exists c0, x. rewrite lookup_insert_ne by done. split_and!; [done..|]. intros [[=]|Hpump]%Hin'. auto.
  - intros k c1 c2 ?%Hadd ?%Hadd. by eapply Hf.
  - intros k1 k2 c0 ?%Hadd ?%Hadd. by eapply Hi.
  - intros k k' ?%Hcl. by apply Hadd.
  - intros k k' [[=]|?]%Hin'. by apply Hadd, Hp.
  - intros m' r k k' [[= -> ->]|Hb]%Hin' Hr; apply Hadd; [|by eapply Hs].
    eapply (Hs m ((conn, ch) :: rest)); [rewrite elem_of_app; right; by left|by right].
  - unfold pumps in *. by rewrite concat_middle in *.
  - intros k. specialize (Hpe k). cbn [queued broadcast_since]. unfold pending in *. rewrite concat_middle in *.
    cbn [pending_of] in *. rewrite <- (assoc_L (++)).
    destruct (decide (conn = k)); [by rewrite filter_cons_True in Hpe|by rewrite filter_cons_False in Hpe].
  - intros k Hk. destruct (Hn k) as [Hq Hw]; [intros [k' Hin]; apply Hk; exists k'; by apply Hadd|].
    cbn. rewrite Hq, Hw. case_decide; [|done]. subst. destruct Hk. exists ch. by apply Hadd.
Qed.

Lemma log_write es h conn ch c m ms ts1 ts2 :
  hub_log es h → threads h = ts1 ++ TPump conn ch :: ts2 → chans h !! ch = Some c → buffer c = m :: ms →
  hub_log (EvWrite conn m :: es) {| clients := clients h;
    chans := <[ch := {| buffer := ms; is_closed := is_closed c |}]> (chans h);
    threads := ts1 ++ TPump conn ch :: ts2; panicked := panicked h |}.
Proof.
  intros [Hc Hf Hi Hcl Hp Hs Hnd Hpe Hn] Hts Hch Hbuf. rewrite Hts in *.
  assert (TPump conn ch ∈ ts1 ++ TPump conn ch :: ts2) as Hpump by (rewrite elem_of_app; right; by left).
  pose proof (Hp conn ch Hpump) as Hmine.
  assert (∀ k k', EvAdd k k' ∈ EvWrite conn m :: es ↔ EvAdd k k' ∈ es) as Hadd.
  { intros k k'. rewrite elem_of_cons. split; [intros [|]; done|by right]. }
  split; cbn [clients chans threads panicked].
  - intros k k' Hin%Hadd. destruct (Hc k k' Hin) as (c0&x&Hk&Hq&Hx). cbn [queued written]. rewrite Hq.
    destruct (decide (ch = k')) as [<-|Hne].
    + pose proof (Hi k conn ch Hin Hmine) as ->. rewrite Hch in Hk. injection Hk as <-. rewrite decide_True by done.
      eexists _, ms. rewrite lookup_insert_eq. split_and!; [done| |done]. rewrite Hx, Hbuf by done. by rewrite <- (assoc_L (++)).
    + rewrite decide_False by (intros <-; by apply Hne, (Hf conn)). rewrite app_nil_r.
      exists c0, x. rewrite lookup_insert_ne by done. done.
  - intros k c1 c2 ?%Hadd ?%Hadd. by eapply Hf.
  - intros k1 k2 c0 ?%Hadd ?%Hadd. by eapply Hi.
  - intros k k' ?%Hcl. by apply Hadd.
  - intros k k' ?. by apply Hadd, Hp.
  - intros m' r k k' ??. apply Hadd. by eapply Hs.
  - done.
  - done.
  - intros k Hk. destruct (Hn k) as [Hq Hw]; [intros [k' Hin]; apply Hk; exists k'; by apply Hadd|].
    cbn. rewrite Hq, Hw. case_decide; [|done]. subst. destruct Hk. exists ch. by apply Hadd.
Qed.

Lemma log_write_fails es h conn ch c m ms ts1 ts2 :
  hub_log es h → threads h = ts1 ++ TPump conn ch :: ts2 → chans h !! ch = Some c → buffer c = m :: ms →
  hub_log (EvSilent :: es) {| clients := clients h;
    chans := <[ch := {| buffer := ms; is_closed := is_closed c |}]> (chans h);
    threads := ts1 ++ TRemove conn :: ts2; panicked := panicked h |}.
Proof.
  intros Hlog Hts Hch Hbuf.
  apply (log_thread es h EvSilent _ ts1 (TPump conn ch) [TRemove conn] ts2 Hlog); [done..| |done|done| |done].
  + intros k ch' c' Hc'. cbn. destruct (decide (ch = ch')) as [<-|Hne].
    * eexists. rewrite lookup_insert_eq. split; [done|]. intros Hin. exfalso.
      assert (TPump conn ch ∈ threads h ∧ TPump k ch ∈ threads h) as [Hp1 Hp2].
      { rewrite Hts, !elem_of_app, !elem_of_cons. rewrite elem_of_app in Hin. tauto. }
      apply (hl_pump _ _ Hlog) in Hp1, Hp2. rewrite (hl_inj _ _ Hlog _ _ _ Hp2 Hp1) in Hin.
      by apply (one_pump es h conn ch ts1 ts2 Hlog Hts) in Hin.
    * exists c'. by rewrite lookup_insert_ne.
  + intros m' r. rewrite !elem_of_cons, elem_of_nil. by intros [|[]].
Qed.

Lemma log_close es h ch c ts1 ts2 :
  hub_log es h → threads h = ts1 ++ TClose ch :: ts2 → chans h !! ch = Some c →
  hub_log (EvSilent :: es) {| clients := clients h; chans := <[ch := close_chan c]> (chans h); threads := ts1 ++ ts2;
    panicked := panicked h |}.
Proof.
  intros Hlog Hts Hch.
  apply (log_thread es h _ _ ts1 (TClose ch) [] ts2 Hlog); [done..| |done|done| |done].
  + intros k ch' c' Hc'. cbn. destruct (decide (ch = ch')) as [<-|Hne].
    * rewrite Hch in Hc'. injection Hc' as <-. exists (close_chan c). by rewrite lookup_insert_eq.
    * exists c'. by rewrite lookup_insert_ne.
  + intros ?? []%elem_of_nil.
Qed.

Lemma hub_log_step es h e h' :
  hub_log es h → (∀ conn ch, e = EvAdd conn ch → ¬ registered conn es) → hub_step h e h' → hub_log (e :: es) h'.
Proof.
  intros Hlog Hnew Hstep. destruct Hstep as
    [conn ch Hconn Hch|msg snap Hsnap|msg ts1 ts2 Hts|msg conn ch c rest ts1 ts2 Hts Hch Hcl Hlen
    |msg conn ch c rest ts1 ts2 Hts Hch Hcl Hlen|msg conn ch c rest ts1 ts2 Hts Hch Hcl
    |conn ch c m ms ts1 ts2 Hts Hch Hbuf|conn ch c m ms ts1 ts2 Hts Hch Hbuf|conn ch c ts1 ts2 Hts Hch Hbuf Hcl
    |conn|conn ch ts1 ts2 Hts Hconn|conn ts1 ts2 Hts Hconn|ch c ts1 ts2 Hts Hch Hcl|ch c ts1 ts2 Hts Hch Hcl].
  - eapply log_add; [done|by eapply Hnew|done..].
  - by apply log_broadcast.
  - apply (log_thread es h _ _ ts1 (TBroadcast msg []) [] ts2 Hlog); [done..| |done|done| |done].
    + intros ??? Hc. eauto.
    + intros ?? []%elem_of_nil.
  - by eapply log_send.
  - apply (log_thread es h _ _ ts1 (TBroadcast msg ((conn, ch) :: rest)) [TRemove conn; TBroadcast msg rest] ts2 Hlog); [done..| |done|done| |].
    + intros ??? Hc. eauto.
    + intros m r. rewrite !elem_of_cons, elem_of_nil. intros [|[[= -> ->]|[]]]; [done|by eexists].
    + intros k. unfold pending. cbn [map concat pending_of app]. rewrite app_nil_r, filter_cons.
      case_decide; [by apply submseteq_cons|done].
  - apply (log_silent es h _ _ Hlog); cbn [clients chans threads panicked]; try done; [|by eexists].
    intros k ch' c' Hc'. by exists c'.
  - by eapply log_write.
  - by eapply log_write_fails.
  - apply (log_thread es h _ _ ts1 (TPump conn ch) [TRemove conn] ts2 Hlog); [done..| |done|done| |done].
    + intros ??? Hc. eauto.
    + intros m r. rewrite !elem_of_cons, elem_of_nil. by intros [|[]].
  - apply (log_silent es h _ _ Hlog); cbn [clients chans threads panicked]; try done.
    + intros k ch c Hc. exists c. split; [done|]. rewrite elem_of_cons. by intros [|?].
    + intros k ch. rewrite elem_of_cons. by intros [|?].
    + intros m rest p. rewrite elem_of_cons. intros [|?]; [done|]. by eexists.
  - apply (log_thread es h _ _ ts1 (TRemove conn) [TClose ch] ts2 Hlog); [done..| | |done| |done].
    + intros ??? Hc. eauto.
    + intros k ch'. cbn. by intros [_ ?]%lookup_delete_Some.
    + intros m r. rewrite !elem_of_cons, elem_of_nil. by intros [|[]].
  - apply (log_thread es h _ _ ts1 (TRemove conn) [] ts2 Hlog); [done..| |done|done| |done].
    + intros ??? Hc. eauto.
    + intros ?? []%elem_of_nil.
  - by eapply log_close.
  - apply (log_silent es h _ _ Hlog); cbn [clients chans threads panicked]; try done; [|by eexists].
    intros k ch' c' Hc'. by exists c'.
Qed.
End History.

(** ** The server *)

Section Server.
Context {F R : Type} `{FloatOps F} `{Collation} `{RedisMGet (bytes F) R}.
Variable timestamptz_text : Z → string.
Abbreviation State := (HTTPHandler F R).

(** Where [handleWS] is for a connection; the worlds of the query and of the MGET
    are remembered for the theorem. *)
Inductive Session : Type :=
| SUpgraded          (** before the query *)
| SQueried (rows_read : nat) (w1 : world State) (st : Assembly (F:=F))  (** the rows are read, MGET is next *)
| SPriced (rows_read : nat) (w1 w2 : world State) (events : list (eventResp F))  (** the page is built *)
| SSnapshot          (** the snapshot is written, [AddClient] is next *)
| SReading           (** the read loop *)
| SClosed.

Record WsServer : Type := {
  ws_handler : State;
  ws_hub : Hub (bytes F);
  sessions : gmap nat Session
}.

(** What a step shows: a query or a MGET at the world [w], a snapshot that is written,
    or an event of the hub. *)
Inductive WsEvent : Type :=
| WsQueried (conn rows_read : nat) (w : world State)
| WsPriced (conn : nat) (w : world State)
| WsSnapshot (conn : nat) (msg : bytes F)
| WsHub (e : HubEvent (bytes F))
| WsQuiet.

Definition set_session (conn : nat) (p : Session) (h : State) (hub : Hub (bytes F)) (s : WsServer) : WsServer :=
  {| ws_handler := h; ws_hub := hub; sessions := <[conn := p]> (sessions s) |}.

Inductive ws_step (s : WsServer) : WsEvent → WsServer → Prop :=
(** The catalogue's consumers and Redis change what the handler reads. *)
| ws_tables h : ws_step s WsQuiet {| ws_handler := h; ws_hub := ws_hub s; sessions := sessions s |}
| ws_upgrade conn :
    sessions s !! conn = None → ws_step s WsQuiet (set_session conn SUpgraded (ws_handler s) (ws_hub s) s)
(** The query, the MGET and the write are round trips of their own. *)
| ws_query conn n w w' st :
    sessions s !! conn = Some SUpgraded → db w = ws_handler s →
    queryEvents timestamptz_text n w = (w', Ok st) →
    ws_step s (WsQueried conn n w) (set_session conn (SQueried n w st) (db w') (ws_hub s) s)
| ws_prices conn n w1 st w w' events :
    sessions s !! conn = Some (SQueried n w1 st) → db w = ws_handler s →
    priceEvents st w = (w', Ok (Some events)) →
    ws_step s (WsPriced conn w) (set_session conn (SPriced n w1 w events) (db w') (ws_hub s) s)
| ws_snapshot conn n w1 w2 events w w' msg :
    sessions s !! conn = Some (SPriced n w1 w2 events) → db w = ws_handler s →
    sendSnapshot events w = (w', Ok msg) →
    ws_step s (WsSnapshot conn msg) (set_session conn SSnapshot (db w') (ws_hub s) s)
(** The snapshot cannot be built or written: the connection is closed. *)
| ws_refused conn p w w' e :
    sessions s !! conn = Some p → db w = ws_handler s →
    match p with
    | SUpgraded => ∃ n, queryEvents timestamptz_text n w = (w', Err e)
    | SQueried _ _ st => priceEvents st w = (w', Err e)
    | SPriced _ _ _ events => sendSnapshot events w = (w', Err e)
    | _ => False
    end →
    ws_step s WsQuiet (set_session conn SClosed (db w') (ws_hub s) s)
(** [h.broadcaster.AddClient(conn)] *)
| ws_register conn ch hub :
    sessions s !! conn = Some SSnapshot → hub_step (ws_hub s) (EvAdd conn ch) hub →
    ws_step s (WsHub (EvAdd conn ch)) (set_session conn SReading (ws_handler s) hub s)
(** A message of the client is read and dropped. *)
| ws_message conn : sessions s !! conn = Some SReading → ws_step s WsQuiet s
(** [ReadMessage] fails: the loop ends and [RemoveClient] is called. *)
| ws_read_ends conn hub :
    sessions s !! conn = Some SReading → hub_step (ws_hub s) (EvDisconnect conn) hub →
    ws_step s (WsHub (EvDisconnect conn)) (set_session conn SClosed (ws_handler s) hub s)
(** Broadcasts, the write pumps and removals under way. *)
| ws_hub_runs e hub :
    match e with EvAdd _ _ | EvDisconnect _ => False | _ => True end → hub_step (ws_hub s) e hub →
    ws_step s (WsHub e) {| ws_handler := ws_handler s; ws_hub := hub; sessions := sessions s |}.

(** A run with its history, from a process without connections. *)
Inductive ws_run : list WsEvent → WsServer → Prop :=
| ws_start h : ws_run [] {| ws_handler := h; ws_hub := NewBroadcaster; sessions := ∅ |}
| ws_then es s e s' : ws_run es s → panicked (ws_hub s) = false → ws_step s e s' → ws_run (e :: es) s'.

Definition hub_events (es : list WsEvent) : list (HubEvent (bytes F)) :=
  omap (λ e, match e with WsHub e => Some e | _ => None end) es.

(** What is written to a connection, the snapshot by [handleWS], the rest by its [writePump]. *)
Fixpoint frames (conn : nat) (es : list WsEvent) : list (bytes F) :=
  match es with
  | [] => []
  | WsSnapshot c m :: es => frames conn es ++ (if decide (c = conn) then [m] else [])
  | WsHub (EvWrite c m) :: es => frames conn es ++ (if decide (c = conn) then [m] else [])
  | _ :: es => frames conn es
  end.

(** ** The invariant *)

(** The tables of the query with the cache of the MGET. *)
Definition mixed (w1 w2 : world State) : world State :=
  World (Build_HTTPHandler (h_db (db w1)) (h_redisOdds (db w2))) (clock w2) (fresh w2) (faults w2).
Definition page_of (n : nat) (w1 w2 : world State) (events : list (eventResp F)) : Prop :=
  page timestamptz_text n (mixed w1 w2) events ∧ (faults w2 = [] → exact_prices (mixed w1 w2) events).

(** A client was sent its page, built in steps of this order (the latest first),
    before it was registered. *)
Definition greeted conn es : Prop := ∃ n w1 w2 events msg,
  let steps := [WsSnapshot conn msg; WsPriced conn w2; WsQueried conn n w1] in
  steps `sublist_of` es ∧
  (∀ ch, EvAdd conn ch ∈ hub_events es → WsHub (EvAdd conn ch) :: steps `sublist_of` es) ∧
  page_of n w1 w2 events ∧ Marshal (snapshot_message events) = Some msg ∧
  frames conn es = msg :: written conn (hub_events es).
Definition session_ok es conn (o : option Session) : Prop :=
  let fresh := frames conn es = [] ∧ ¬ registered conn (hub_events es) in
  match o with
  | None | Some SUpgraded => fresh
  | Some (SQueried n w1 st) => fresh ∧ [WsQueried conn n w1] `sublist_of` es ∧
      st = add_rows (scanRows timestamptz_text (take n (snapshot_rows (h_db (db w1)))))
  | Some (SPriced n w1 w2 events) => fresh ∧ [WsPriced conn w2; WsQueried conn n w1] `sublist_of` es ∧ page_of n w1 w2 events
  | Some SSnapshot => greeted conn es ∧ ¬ registered conn (hub_events es)
  | Some SReading => greeted conn es ∧ registered conn (hub_events es)
  | Some SClosed => fresh ∨ (greeted conn es ∧ registered conn (hub_events es))
  end.
Record ws_ok es (s : WsServer) : Prop := {
  wo_log : hub_log (hub_events es) (ws_hub s);
  wo_session conn : session_ok es conn (sessions s !! conn);
  wo_kept conn ch : clients (ws_hub s) !! conn = Some ch →
    sessions s !! conn = Some SReading ∨ TRemove conn ∈ threads (ws_hub s)
}.
Implicit Types (es : list WsEvent) (s : WsServer) (conn ch : nat).

Lemma start_log : hub_log (M:=bytes F) [] NewBroadcaster.
Proof.
  split; cbn; try done; try (by intros ??[]%elem_of_nil || by intros ???[]%elem_of_nil || by intros ????[]%elem_of_nil).
  apply NoDup_nil_2.
Qed.

(** An event that concerns another connection. *)
Definition concerns conn (e : WsEvent) : Prop :=
  match e with
  | WsQueried c _ _ | WsPriced c _ | WsSnapshot c _ => c = conn
  | WsHub (EvAdd c _) | WsHub (EvWrite c _) => c = conn
  | _ => False
  end.
#[local] Instance concerns_dec conn e : Decision (concerns conn e).
Proof. destruct e as [| | |[]|]; cbn; apply _. Defined.

Lemma session_ok_other es conn e o : ¬ concerns conn e → session_ok es conn o → session_ok (e :: es) conn o.
Proof.
  intros Hc Ho.
  assert (frames conn (e :: es) = frames conn es) as Ef.
  { destruct e as [| |c m|[]|]; cbn in *; try done; by rewrite decide_False, app_nil_r. }
  assert (written conn (hub_events (e :: es)) = written conn (hub_events es)) as Ew.
  { destruct e as [| |c m|[]|]; cbn in *; try done; by rewrite decide_False, app_nil_r. }
  assert (∀ ch, EvAdd conn ch ∈ hub_events (e :: es) ↔ EvAdd conn ch ∈ hub_events es) as Ea.
  { intros ch. destruct e as [| |c m|e|]; cbn; try done. rewrite elem_of_cons. split; [|by right].
    intros [<-|?]; [by destruct Hc|done]. }
  assert (registered conn (hub_events (e :: es)) ↔ registered conn (hub_events es)) as Er.
  { unfold registered. by setoid_rewrite Ea. }
  assert (greeted conn es → greeted conn (e :: es)) as Hg.
  { intros (n&w1&w2&evs&m&Hsub&Hadd&Hp&Hm&Hf). exists n, w1, w2, evs, m. rewrite Ef, Ew.
    split_and!; [by apply sublist_cons| |done..]. intros ch Hin%Ea. by apply sublist_cons, Hadd. }
  assert (frames conn es = [] ∧ ¬ registered conn (hub_events es) →
    frames conn (e :: es) = [] ∧ ¬ registered conn (hub_events (e :: es))) as Hfr by (rewrite Ef, Er; done).
  apply proj2 in Er as Hreg. clear Hc Ef Ew Ea. unfold session_ok in *.
  destruct o as [[|n w st|n w1 w2 evs| | |]|]; [by apply Hfr|..|by apply Hfr].
  - destruct Ho as (Ho&Hsub&?). split_and!; [by apply Hfr..|by apply sublist_cons|done].
  - destruct Ho as (Ho&Hsub&?). split_and!; [by apply Hfr..|by apply sublist_cons|done].
  - destruct Ho as [Ho Hno]. split; [by apply Hg|]. by rewrite Er.
  - destruct Ho as [Ho Hno]. split; [by apply Hg|by apply Hreg].
  - destruct Ho as [Ho|[Ho Hno]]; [left; by apply Hfr|right; split; [by apply Hg|by apply Hreg]].
Qed.

(** The hub, when nobody is added. *)
Lemma hub_kept h e h' conn ch : (∀ c k, e ≠ EvAdd c k) → hub_step h e h' →
  clients h' !! conn = Some ch →
  clients h !! conn = Some ch ∧ (TRemove conn ∈ threads h → TRemove (M:=bytes F) conn ∈ threads h').
Proof.
  intros He Hstep. destruct Hstep; cbn; intros Hc; try (by edestruct He); try apply lookup_delete_Some in Hc as [Hne Hc];
    (split; [done|]); try done; try (intros ?; by right);
    match goal with Hts : threads _ = _ |- _ => rewrite Hts end; rewrite !elem_of_app, !elem_of_cons; try naive_solver.
Qed.

Lemma ws_ok_hub es s e hub :
  ws_ok es s → (∀ conn ch, e = EvAdd conn ch → ¬ registered conn (hub_events es)) → hub_step (ws_hub s) e hub →
  hub_log (hub_events (WsHub e :: es)) hub.
Proof. intros Hok Hnew Hstep. cbn. eapply hub_log_step; [apply Hok|exact Hnew|exact Hstep]. Qed.

(** A session that changes; the hub and its history stay. *)
Lemma ws_ok_session es s e conn p h :
  ws_ok es s → hub_events (e :: es) = hub_events es → (∀ c, c ≠ conn → ¬ concerns c e) →
  session_ok (e :: es) conn (Some p) → sessions s !! conn ≠ Some SReading →
  ws_ok (e :: es) (set_session conn p h (ws_hub s) s).
Proof.
  intros [Hlog Hse Hk] Hev He Hp Hr. split; cbn [ws_hub set_session sessions].
  - by rewrite Hev.
  - intros c. rewrite lookup_insert. case_decide as Hc; [by subst|]. apply session_ok_other; [by apply He|done].
  - intros c ch Hin. destruct (Hk c ch Hin) as [Hs|]; [left|by right]. rewrite lookup_insert_ne; [done|congruence].
Qed.

Lemma ws_register_ok es s conn ch hub :
  ws_ok es s → sessions s !! conn = Some SSnapshot → hub_step (ws_hub s) (EvAdd conn ch) hub →
  ws_ok (WsHub (EvAdd conn ch) :: es) (set_session conn SReading (ws_handler s) hub s).
Proof.
  intros Hok Hc Hh.
  pose proof (wo_session _ _ Hok conn) as Hs. rewrite Hc in Hs. destruct Hs as [Hg Hr].
  destruct (Hg) as (n&w1&w2&evs&m&Hsub&Hadd&Hp&Hm&Hf). split; cbn [ws_hub set_session sessions].
  + eapply ws_ok_hub; [done| |done]. by intros ?? [= -> ->].
  + intros c. rewrite lookup_insert. case_decide as Hcc; [subst|by apply session_ok_other; [|apply Hok]].
    split; [|exists ch; by left]. exists n, w1, w2, evs, m. split_and!; [by apply sublist_cons| |done..].
    intros ch'. cbn. rewrite elem_of_cons. intros [[= ->]|Hin]; [by apply sublist_skip|]. destruct Hr. by exists ch'.
  + intros c k. inversion Hh; subst. cbn. intros [[<- <-]|[Hne Hin']]%lookup_insert_Some; [left; by rewrite lookup_insert_eq|].
    rewrite lookup_insert_ne by done. destruct (wo_kept _ _ Hok c k Hin') as [|]; [by left|right; by right].
Qed.

Lemma ws_read_ends_ok es s conn hub :
  ws_ok es s → sessions s !! conn = Some SReading → hub_step (ws_hub s) (EvDisconnect conn) hub →
  ws_ok (WsHub (EvDisconnect conn) :: es) (set_session conn SClosed (ws_handler s) hub s).
Proof.
  intros Hok Hc Hh.
  pose proof (wo_session _ _ Hok conn) as Hs. rewrite Hc in Hs.
  split; cbn [ws_hub set_session sessions].
  + by eapply ws_ok_hub.
  + intros c. rewrite lookup_insert. case_decide as Hcc; [subst|].
    * right. by apply (session_ok_other es c (WsHub (EvDisconnect c)) (Some SReading)); [intros []|].
    * apply session_ok_other; [by intros []|apply Hok].
  + intros c k Hin. destruct (decide (conn = c)) as [<-|Hne].
    * right. inversion Hh; subst. by left.
    * rewrite lookup_insert_ne by done. destruct (hub_kept (ws_hub s) (EvDisconnect conn) hub c k ltac:(done) Hh Hin) as [Hold Hrm].
      destruct (wo_kept _ _ Hok c k Hold); auto.
Qed.

Lemma ws_hub_runs_ok es s e hub :
  ws_ok es s → match e with EvAdd _ _ | EvDisconnect _ => False | _ => True end → hub_step (ws_hub s) e hub →
  ws_ok (WsHub e :: es) {| ws_handler := ws_handler s; ws_hub := hub; sessions := sessions s |}.
Proof.
  intros Hok He Hh.
  split; cbn [ws_hub sessions].
  + eapply ws_ok_hub; [done| |done]. by intros ?? ->.
  + intros c. destruct (decide (concerns c (WsHub e))) as [Hcc|Hcc]; [|apply session_ok_other; [done|apply Hok]].
    destruct e as [| |? ?|c' m| |]; try done. cbn in Hcc. subst c'. pose proof (wo_session _ _ Hok c) as Hs.
    assert (registered c (hub_events es)) as Hreg.
    { inversion Hh; subst. eexists. eapply (hl_pump _ _ (wo_log _ _ Hok)).
      match goal with Hts : threads _ = _ |- _ => rewrite Hts end. rewrite elem_of_app. right. by left. }
    assert (greeted c es → greeted c (WsHub (EvWrite c m) :: es)) as Hg.
    { intros (n&w1&w2&evs&m'&Hsub&Hadd&Hp&Hm&Hf). exists n, w1, w2, evs, m'. split_and!; [by apply sublist_cons| |done|done|].
      - intros ch. cbn. rewrite elem_of_cons. intros [[=]|Hin]. by apply sublist_cons, Hadd.
      - cbn. by rewrite Hf, decide_True. }
    assert (registered c (hub_events (WsHub (EvWrite c m) :: es))) as Hreg'.
    { destruct Hreg as [k Hk]. exists k. by right. }
    destruct (sessions s !! c) as [[]|]; cbn in Hs |- *; naive_solver.
  + intros c k Hin. destruct (hub_kept (ws_hub s) e hub c k ltac:(by intros ?? ->) Hh Hin) as [Hold Hrm].
    destruct (wo_kept _ _ Hok c k Hold); auto.
Qed.

(** The steps of the page. *)
Lemma priceEvents_page n (w1 w2 : world State) w' events :
  priceEvents (add_rows (scanRows timestamptz_text (take n (snapshot_rows (h_db (db w1)))))) w2 = (w', Ok (Some events)) →
  page_of n w1 w2 events.
Proof.
  intros Hrun. from_wp (priceEvents_wp (scanRows timestamptz_text (take n (snapshot_rows (h_db (db w1))))) w2) at Hrun as Hp.
  destruct Hp as (_&_&odds&[= ->]&Ho&Hall). split.
  - by apply (grouped_page timestamptz_text odds n (mixed w1 w2)).
  - intros Hf. by apply grouped_exact, Hall.
Qed.

Lemma sendSnapshot_msg events (w w' : world State) msg :
  sendSnapshot events w = (w', Ok msg) → Marshal (snapshot_message events) = Some msg.
Proof.
  revert w' msg. assert (wp (sendSnapshot events) (λ _ r, ∀ msg, r = Ok msg → Marshal (snapshot_message events) = Some msg) w) as Hwp.
  { unfold sendSnapshot. destruct (Marshal (snapshot_message events)) as [m|]; go_run; try done; by intros ? [= <-]. }
  intros w' msg Hrun. by apply (wp_intro _ _ _ Hwp _ _ Hrun).
Qed.

Lemma ws_step_ok es s e s' : ws_ok es s → ws_step s e s' → ws_ok (e :: es) s'.
Proof.
  intros Hok Hstep. destruct Hstep as [h|conn Hc|conn n w w' st Hc Hw Hm|conn n w1 st w w' evs Hc Hw Hm|conn n w1 w2 evs w w' m Hc Hw Hm
    |conn p w w' er Hc Hw Hm|conn ch hub Hc Hh|conn Hc|conn hub Hc Hh|e hub He Hh].
  - destruct Hok as [Hlog Hse Hk]. split; [done| |done]. intros c. apply session_ok_other; [by intros []|apply Hse].
  - apply ws_ok_session; [done|done|by intros ?? []| |by rewrite Hc].
    apply session_ok_other; [by intros []|]. pose proof (wo_session _ _ Hok conn) as Hs. by rewrite Hc in Hs.
  - apply ws_ok_session; [done|done|by intros ?? ->| |by rewrite Hc].
    pose proof (wo_session _ _ Hok conn) as Hs. rewrite Hc in Hs. split_and!; [apply Hs..|by apply sublist_skip, sublist_nil_l|].
    from_wp (queryEvents_wp timestamptz_text n w) at Hm as Hq. apply Hq.
  - apply ws_ok_session; [done|done|by intros ?? ->| |by rewrite Hc].
    pose proof (wo_session _ _ Hok conn) as Hs. rewrite Hc in Hs. destruct Hs as (Hfr&Hsub&->).
    split_and!; [apply Hfr..|by apply sublist_skip|by eapply priceEvents_page].
  - apply ws_ok_session; [done|done|by intros ?? ->| |by rewrite Hc].
    pose proof (wo_session _ _ Hok conn) as Hs. rewrite Hc in Hs. destruct Hs as ([Hf Hr]&Hsub&Hp). split; [|done].
    destruct (hl_new _ _ (wo_log _ _ Hok) conn Hr) as [_ Hwr]. exists n, w1, w2, evs, m.
    split_and!; [by apply sublist_skip|intros ch Hin; destruct Hr; by exists ch|done|by eapply sendSnapshot_msg|].
    rewrite (Hwr : written conn (hub_events (WsSnapshot conn m :: es)) = []). cbn. by rewrite Hf, decide_True.
  - apply ws_ok_session; [done|done|by intros ?? []| |by rewrite Hc; destruct p].
    pose proof (wo_session _ _ Hok conn) as Hs. rewrite Hc in Hs. left. destruct p; try done; apply Hs.
  - by apply ws_register_ok.
  - destruct Hok as [Hlog Hse Hk]. split; [done| |done]. intros c. apply session_ok_other; [by intros []|apply Hse].
  - by apply ws_read_ends_ok.
  - by apply ws_hub_runs_ok.
Qed.

Lemma ws_run_ok es s : ws_run es s → ws_ok es s.
Proof.
  induction 1 as [h|es s e s' _ IH _ Hstep]; [|by eapply ws_step_ok].
  split; cbn; [apply start_log| |].
  - intros conn. rewrite lookup_empty. split; [done|]. by intros [ch []%elem_of_nil].
  - intros conn ch. by rewrite lookup_empty.
Qed.

(** C25. What a WebSocket client is sent, in every interleaving of the handlers,
    the broadcasts, the write pumps and the removals, while the tables and the
    cache change: nothing, or first a page with the rows of one moment and prices
    cached at a later one, both between its upgrade and its registration, then
    the front of what was queued for it, in that order; every message queued was
    broadcast after the registration and is queued once at most, so what was
    broadcast between the page and the registration never arrives. And no client
    leaks: a registered connection is in its read loop, or its removal is under way. *)
Theorem socket_gets_snapshot_then_updates es s :
  ws_run es s →
  (∀ conn, frames conn es = [] ∨
     ∃ n w1 w2 events msg sent, let steps := [WsSnapshot conn msg; WsPriced conn w2; WsQueried conn n w1] in
       steps `sublist_of` es ∧
       (∀ ch, EvAdd conn ch ∈ hub_events es → WsHub (EvAdd conn ch) :: steps `sublist_of` es) ∧
       page timestamptz_text n (mixed w1 w2) events ∧ (faults w2 = [] → exact_prices (mixed w1 w2) events) ∧
       Marshal (snapshot_message events) = Some msg ∧ frames conn es = msg :: sent ∧
       sent `prefix_of` queued conn (hub_events es) ∧
       queued conn (hub_events es) ⊆+ broadcast_since conn (hub_events es)) ∧
  (∀ conn ch, clients (ws_hub s) !! conn = Some ch →
     sessions s !! conn = Some SReading ∨ TRemove conn ∈ threads (ws_hub s)).
Proof.
  intros Hrun. pose proof (ws_run_ok es s Hrun) as [Hlog Hse Hk]. split; [|done]. intros conn.
  assert (frames conn es = [] ∨ greeted conn es) as [Hf|(n&w1&w2&evs&msg&Hsub&Hadd&[Hp He]&Hm&Hf)]; [|by left|right].
  { specialize (Hse conn). destruct (sessions s !! conn) as [[]|]; cbn in Hse; tauto. }
  exists n, w1, w2, evs, msg, (written conn (hub_events es)). split_and!; [done..| |].
  - destruct (existsb (is_add conn) (hub_events es)) eqn:Hr.
    + apply is_add_spec in Hr as [ch Hch]. destruct (hl_chan _ _ Hlog conn ch Hch) as (c&x&_&->&_). by apply prefix_app_r.
    + assert (¬ registered conn (hub_events es)) as Hno by (rewrite <- is_add_spec, Hr; done).
      destruct (hl_new _ _ Hlog conn Hno) as [_ ->]. apply prefix_nil.
  - etrans; [|apply (hl_pending _ _ Hlog conn)]. by apply submseteq_inserts_r.
Qed.
End Server.

(** ** The gap *)

#[local] Tactic Notation "extend" ident(R) "to" constr(s') "by" tactic3(tac) :=
  match type of R with @ws_run _ _ _ _ _ _ ?t ?es ?s =>
    let R' := fresh in
    eassert (ws_run t (_ :: es) s') as R' by (eapply (ws_then t es s); [exact R|reflexivity|tac]);
    clear R; rename R' into R
  end.

Section Gap.
Context {F R : Type} `{FloatOps F} `{Collation} `{RedisMGet (bytes F) R}.

(** Whatever page a client is sent, a change [u] broadcast before it is registered
    is lost for it, while the next one [u'] arrives. *)
Lemma update_in_the_gap_is_lost text n (w1 w2 w3 w' : world (HTTPHandler F R)) st events msg (u u' : bytes F) :
  queryEvents text n w1 = (w2, Ok st) → priceEvents st w2 = (w3, Ok (Some events)) →
  sendSnapshot events w3 = (w', Ok msg) →
  ∃ es s, ws_run text es s ∧ WsHub (EvBroadcast u) ∈ es ∧ WsHub (EvBroadcast u') ∈ es ∧
    frames 0 es = [msg; u'] ∧ is_Some (clients (ws_hub s) !! 0%nat).
Proof.
  intros Hq Hpr Hmsg.
  pose (at_ (h : HTTPHandler F R) cl ch (ts : list (Thread (bytes F))) p := {| ws_handler := h;
    ws_hub := {| clients := cl; chans := ch; threads := ts; panicked := false |}; sessions := p |}).
  pose (c0 := <[0%nat := 0%nat]> (∅ : gmap nat nat)).
  pose (ch b := <[0%nat := {| buffer := b; is_closed := false |}]> (∅ : gmap nat (Chan (bytes F)))).
  pose (p0 := <[0%nat := SUpgraded]> (∅ : gmap nat (Session (F:=F) (R:=R)))).
  pose (pq := <[0%nat := SQueried n w1 st]> p0). pose (pp := <[0%nat := SPriced n w1 w2 events]> pq).
  pose (p1 := <[0%nat := SSnapshot]> pp). pose (p2 := <[0%nat := SReading]> p1).
  pose proof (ws_start text (db w1)) as Run.
  extend Run to (at_ (db w1) ∅ ∅ [] p0) by (refine (ws_upgrade _ _ 0%nat _); reflexivity).
  extend Run to (at_ (db w2) ∅ ∅ [] pq) by (refine (ws_query _ _ 0%nat n _ _ st _ _ Hq); reflexivity).
  extend Run to (at_ (db w3) ∅ ∅ [] pp) by (refine (ws_prices _ _ 0%nat n _ st _ _ events _ _ Hpr); reflexivity).
  extend Run to (at_ (db w') ∅ ∅ [] p1) by (refine (ws_snapshot _ _ 0%nat n _ _ events _ _ msg _ _ Hmsg); reflexivity).
  extend Run to (at_ (db w') ∅ ∅ [TBroadcast u []] p1) by (refine (ws_hub_runs _ _ (EvBroadcast u) _ I (hub_broadcast _ u [] _)); reflexivity).
  extend Run to (at_ (db w') c0 (ch []) [TPump 0%nat 0%nat; TBroadcast u []] p2)
    by (refine (ws_register _ _ 0%nat 0%nat _ _ (hub_add _ 0%nat 0%nat _ _)); reflexivity).
  extend Run to (at_ (db w') c0 (ch []) [TBroadcast u' [(0%nat, 0%nat)]; TPump 0%nat 0%nat; TBroadcast u []] p2)
    by (refine (ws_hub_runs _ _ (EvBroadcast u') _ I (hub_broadcast _ u' [(0%nat, 0%nat)] _)); reflexivity).
  extend Run to (at_ (db w') c0 (<[0%nat := push_msg u' {| buffer := []; is_closed := false |}]> (ch []))
      [TBroadcast u' []; TPump 0%nat 0%nat; TBroadcast u []] p2)
    by (refine (ws_hub_runs _ _ (EvQueue 0%nat u') _ I (hub_send _ u' 0%nat 0%nat _ [] [] _ _ _ _ _));
        [reflexivity..|cbn; unfold clientSendBuf; lia]).
  extend Run to (at_ (db w') c0 (<[0%nat := {| buffer := []; is_closed := false |}]>
      (<[0%nat := push_msg u' {| buffer := []; is_closed := false |}]> (ch [])))
      [TBroadcast u' []; TPump 0%nat 0%nat; TBroadcast u []] p2)
    by (refine (ws_hub_runs _ _ (EvWrite 0%nat u') _ I
          (hub_write _ 0%nat 0%nat (push_msg u' {| buffer := []; is_closed := false |}) u' [] [TBroadcast u' []] [TBroadcast u []] _ _ _)); reflexivity).
  eexists _, _. split; [exact Run|]. split_and!; [do 4 right; by left|do 2 right; by left|reflexivity|by eexists].
Qed.
End Gap.

(** ** A run *)

Section Examples.
#[local] Existing Instance inert_platform.
#[local] Existing Instance byte_collation.
Abbreviation ExMsg := (bytes binary64).

Definition ex_queried := queryEvents (λ _, "t") 10 (ex_handler (Some "ML")).
Definition ex_st := match ex_queried.2 with Ok st => st | Err _ => no_rows end.
Definition ex_built := priceEvents ex_st ex_queried.1.
Definition ex_events := match ex_built.2 with Ok (Some evs) => evs | _ => [] end.
Definition ex_snapshot := sendSnapshot ex_events ex_built.1.
Definition ex_page_msg : ExMsg := match ex_snapshot.2 with Ok m => m | _ => Garbage "" end.

Lemma ex_page_runs :
  ex_queried = (ex_queried.1, Ok ex_st) ∧ ex_built = (ex_built.1, Ok (Some ex_events)) ∧
  ex_snapshot = (ex_snapshot.1, Ok ex_page_msg).
Proof.
  assert (is_ok ex_queried.2 = true) as H1 by (vm_compute; reflexivity).
  assert (match ex_built.2 with Ok (Some _) => true | _ => false end = true) as H2 by (vm_compute; reflexivity).
  assert (is_ok ex_snapshot.2 = true) as H3 by (vm_compute; reflexivity).
  split_and!; [clear H2 H3|clear H1 H3|clear H1 H2].
  - unfold ex_st. destruct ex_queried as [w [st|e]]; [reflexivity|discriminate H1].
  - unfold ex_events. destruct ex_built as [w [[l|]|e]]; [reflexivity|discriminate H2..].
  - unfold ex_page_msg. destruct ex_snapshot as [w [m|e]]; [reflexivity|discriminate H3].
Qed.

Definition ex_update (american : Z) : ExMsg := Doc (oddsUpdateMsg "m1" "s3" (b64_of_int 3) american).

Lemma socket_gets_snapshot_then_updates_witness : ∃ es,
  frames (F:=binary64) (R:=RedisMap ExMsg) 0 es = [ex_page_msg; ex_update 250] ∧
  [ex_update 250] `prefix_of` queued 0 (hub_events es).
Proof.
  destruct ex_page_runs as (Hq&Hp&Hs).
  destruct (update_in_the_gap_is_lost (λ _, "t") 10 (ex_handler (Some "ML")) _ _ _ _ _ _ (ex_update 200) (ex_update 250) Hq Hp Hs)
    as (es&s&Hrun&_&_&Hf&_). exists es. split; [exact Hf|].
  destruct (socket_gets_snapshot_then_updates _ es s Hrun) as [Hall _].
  destruct (Hall 0%nat) as [Hno|(n&w1&w2&evs&msg&sent&_&_&_&_&_&Hfr&Hpre&_)]; [congruence|].
  rewrite Hf in Hfr. apply (f_equal tail) in Hfr. cbn [tail] in Hfr. rewrite <- Hfr in Hpre. exact Hpre.
Defined.
End Examples.
