(* ===== verification/MarketData.v ===== *)
(** * The market data service ([cmd/marketdata/main.go],
    [IngestionService.Run] of [internal/marketdata/ingestion.go])

    The ten feeds and the normalisers the service is built from, and its run:
    a goroutine per feed that receives raw events, normalises them and
    publishes to one topic, interleaved at every call. The theorems: each feed
    keeps its order on the topic whatever the others do and nothing else gets
    there; and, composed with [Settlement.v], that no market is ever resulted. *)
From stdpp Require Import relations.
From S2P Require Export ScoreFeeds PolymarketFeed Settlement.
Local Open Scope Z_scope.
Local Open Scope go_scope.

(** ** The parts *)

Inductive AnyNormaliser : Type :=
| SportradarN | PolymarketN (n : PolymarketNormaliser) | PoliticsN (n : PoliticsNormaliser)
| NBAScoreN | NCAABScoreN | NHLScoreN | WSPriceN | PolymarketScoreN.

Inductive ProviderFeed : Type :=
| SportradarFeed | GammaFeed (f : PolymarketFeed) | NBAScoreFeed | NCAABScoreFeed | NHLScoreFeed
| PolymarketPriceFeed | PolymarketScoreFeed.

(** In the order of [run]; the matcher and the registry are there. *)
Definition feeds : list ProviderFeed :=
  [SportradarFeed; GammaFeed (NewPolymarketFeed true true); GammaFeed (NewNCAABFeed true true);
   GammaFeed (NewNHLFeed true true); GammaFeed NewIranFeed; NBAScoreFeed; NCAABScoreFeed; NHLScoreFeed;
   PolymarketPriceFeed; PolymarketScoreFeed].

Definition NewCompositeNormaliser (l : list (string * AnyNormaliser)) : CompositeNormaliser AnyNormaliser :=
  {| normalisers := list_to_map l |}.
Definition normaliser : CompositeNormaliser AnyNormaliser := NewCompositeNormaliser [
  ("sportradar", SportradarN);
  ("polymarket-nba", PolymarketN (Build_PolymarketNormaliser "basketball" "Basketball" "nba" "NBA"));
  ("polymarket-ncaab", PolymarketN (Build_PolymarketNormaliser "basketball" "Basketball" "ncaab" "NCAAB"));
  ("polymarket-nhl", PolymarketN (Build_PolymarketNormaliser "hockey" "Hockey" "nhl" "NHL"));
  ("polymarket-iran", PoliticsN (Build_PoliticsNormaliser "politics" "Politics" "iran" "Iran" "IR"));
  ("nba-scores", NBAScoreN); ("ncaab-scores", NCAABScoreN); ("nhl-scores", NHLScoreN);
  ("polymarket-ws-price", WSPriceN); ("polymarket-scores", PolymarketScoreN)].

Section Service.
Context {F : Type} `{FloatOps F} `{GoFormat F} `{!FiniteZero F}.

#[export] Instance any_normalise : Normaliser F AnyNormaliser := λ n now raw,
  match n with
  | SportradarN => Normalise sportradar now raw
  | PolymarketN n => Normalise n now raw
  | PoliticsN n => Normalise n now raw
  | NBAScoreN => Normalise nba_scores now raw
  | NCAABScoreN => Normalise ncaab_scores now raw
  | NHLScoreN => Normalise nhl_scores now raw
  | WSPriceN => Normalise polymarket_ws_price now raw
  | PolymarketScoreN => Normalise polymarket_scores now raw
  end.

(** What a feed may put in its channel; the stub of Sportradar sends nothing. *)
Inductive may_send : ProviderFeed → RawProviderEvent F → Prop :=
| gamma_sends f now resps actions raw :
    poll f now resps = Some actions → Send raw ∈ actions → may_send (GammaFeed f) raw
| nba_sends l t resp raw : raw ∈ nbaPoll l t resp → may_send NBAScoreFeed raw
| ncaab_sends l t resps raw : raw ∈ ncaabPoll l t resps → may_send NCAABScoreFeed raw
| nhl_sends l t resp raw : raw ∈ nhlPoll l t resp → may_send NHLScoreFeed raw
| price_sends r t ev raw : priceRaw r t ev = Some raw → may_send PolymarketPriceFeed raw
| score_sends l t msg raw : raw ∈ (score_handleMessage l t msg []).2 → may_send PolymarketScoreFeed raw.

(** ** The run *)

Context {K : Type} `{SyncProducer F K}.
Abbreviation Event := (NormalisedMarketEvent F).
Abbreviation Message := (ProducerMessage F).

(** A goroutine of [Run]: the events of its current raw event still to be
    published, and those it has normalised since it started. *)
Record goroutine : Type := { g_feed : ProviderFeed; g_todo : list Event; g_normalised : list Event }.
Definition start (f : ProviderFeed) : goroutine := {| g_feed := f; g_todo := []; g_normalised := [] |}.

Definition receive (f : ProviderFeed) (done es : list Event) : goroutine :=
  {| g_feed := f; g_todo := es; g_normalised := done ++ es |}.

Inductive ingest_step : world K * list goroutine → world K * list goroutine → Prop :=
| ingest_receive w gs i f done raw :
    gs !! i = Some (Build_goroutine f [] done) → may_send f raw →
    ingest_step (w, gs) (w, <[i := receive f done (normalised normaliser (clock w) raw)]> gs)
| ingest_publish w gs i f e es done :
    gs !! i = Some (Build_goroutine f (e :: es) done) →
    ingest_step (w, gs) ((publish_event e w).1, <[i := Build_goroutine f es done]> gs)
| ingest_faults w gs fs : ingest_step (w, gs) (set_faults fs w, gs)
| ingest_wait w gs t : clock w ≤ t → ingest_step (w, gs) (World (db w) t (fresh w) (faults w), gs).

Definition Run (w : world K) (fs : list ProviderFeed) : world K * list goroutine → Prop :=
  rtc ingest_step (w, start <$> fs).
End Service.
Arguments goroutine : clear implicits.

(** ** What the feeds can say *)

Section Kinds.
Context {F : Type} `{FloatOps F} `{GoFormat F} `{!FiniteZero F}.

Definition kinds : list string := ["catalog.upsert"; "game.state"; "price.update"].
Definition speaks_kinds (es : list (NormalisedMarketEvent F)) : Prop := ∀ e, e ∈ es → EventType e ∈ kinds.

Lemma speaks_app es es' : speaks_kinds es → speaks_kinds es' → speaks_kinds (es ++ es').
Proof. intros H1' H2' e [?|?]%elem_of_app; auto. Qed.
Lemma speaks_flat_map {A} (f : A → list (NormalisedMarketEvent F)) l : (∀ x, speaks_kinds (f x)) → speaks_kinds (flat_map f l).
Proof. intros Hf e (x&_&He)%list_elem_of_In%in_flat_map. apply list_elem_of_In in He. by eapply Hf. Qed.
Lemma speaks_imap {A} (f : nat → A → NormalisedMarketEvent F) l : (∀ i x, EventType (f i x) ∈ kinds) → speaks_kinds (imap f l).
Proof. intros Hf e (i&x&->&_)%elem_of_lookup_imap. apply Hf. Qed.
Lemma speaks_prices ms : speaks_kinds (priceUpdate <$> ms).
Proof. intros e (m&->&_)%list_elem_of_fmap. do 2 apply list_elem_of_further. apply list_elem_of_here. Qed.
Lemma speaks_one e : EventType e ∈ kinds → speaks_kinds [e].
Proof. intros He e' ->%list_elem_of_singleton. exact He. Qed.

Lemma polymarket_speaks (n : PolymarketNormaliser) t raw : speaks_kinds (normalised n t raw).
Proof.
  unfold normalised, Normalise, polymarket_normalise. destruct (UnmarshalValue _) as [ev|]; [|by intros ? ?%not_elem_of_nil].
  unfold polymarket_events. destruct (gameStartTime _); [|by intros ? ?%not_elem_of_nil].
  destruct (_ || _); [by intros ? ?%not_elem_of_nil|]. apply speaks_app; [|apply speaks_prices].
  apply speaks_flat_map. intros m. unfold market_upserts.
  destruct (ParseOutcomes m) as [[|o0 [|o1 [|]]]|], (ParseOutcomePrices m) as [[|q0 [|q1 [|]]]|];
    try by intros ? ?%not_elem_of_nil. apply speaks_imap. intros i x. apply list_elem_of_here.
Qed.
Lemma politics_speaks (n : PoliticsNormaliser) t raw : speaks_kinds (normalised n t raw).
Proof.
  unfold normalised, Normalise, politics_normalise. destruct (UnmarshalValue _) as [ev|]; [|by intros ? ?%not_elem_of_nil].
  unfold politics_events. repeat (case_match; try by intros ? ?%not_elem_of_nil).
  apply speaks_app; [|apply speaks_prices]. apply speaks_flat_map. intros m. unfold question_upserts.
  destruct (ParseOutcomePrices m) as [[|q0 [|q1 l]]|]; try by intros ? ?%not_elem_of_nil. apply speaks_imap. intros i x. apply list_elem_of_here.
Qed.

(** Scores and prices are one event each. *)
Lemma speaks_state e : EventType e = "game.state" → speaks_kinds [e].
Proof. intros He. apply speaks_one. rewrite He. apply list_elem_of_further, list_elem_of_here. Qed.
Lemma nba_speaks t raw : speaks_kinds (normalised nba_scores t raw).
Proof.
  unfold normalised, Normalise, nba_normalise. destruct (UnmarshalValue _); [by apply speaks_state|by intros ? ?%not_elem_of_nil].
Qed.
Lemma espn_speaks provider period clock r cs : speaks_kinds [espnState (F:=F) provider period clock r cs].
Proof. apply speaks_state. unfold espnState. by destruct (sides _ _ _). Qed.
Lemma nhl_speaks t raw : speaks_kinds (normalised nhl_scores t raw).
Proof.
  unfold normalised, Normalise, nhl_normalise. destruct (UnmarshalValue _) as [r|]; [|by intros ? ?%not_elem_of_nil].
  destruct (two_competitors _); [apply espn_speaks|by intros ? ?%not_elem_of_nil].
Qed.
Lemma ncaab_speaks t raw : speaks_kinds (normalised ncaab_scores t raw).
Proof.
  unfold normalised, Normalise, ncaab_normalise. destruct (UnmarshalValue _) as [r|]; [|by intros ? ?%not_elem_of_nil].
  destruct (two_competitors _); [apply espn_speaks|by intros ? ?%not_elem_of_nil].
Qed.
Lemma socket_speaks t raw : speaks_kinds (normalised polymarket_scores t raw).
Proof.
  unfold normalised, Normalise, polymarket_score_normalise.
  destruct (UnmarshalValue _); [|by intros ? ?%not_elem_of_nil].
  apply speaks_state. unfold polymarketState. by destruct (parseScore _).
Qed.
Lemma price_speaks t raw : speaks_kinds (normalised polymarket_ws_price t raw).
Proof.
  unfold normalised, Normalise, ws_price_normalise. destruct (Unmarshal _ _); [|by intros ? ?%not_elem_of_nil].
  apply speaks_one. do 2 apply list_elem_of_further. apply list_elem_of_here.
Qed.

(** Every provider but Sportradar. *)
Lemma providers_speak t (raw : RawProviderEvent F) :
  raw_ProviderID raw ≠ "sportradar" → speaks_kinds (normalised normaliser t raw).
Proof.
  intros Hne. unfold normalised, Normalise, composite_normalise.
  destruct (normalisers normaliser !! raw_ProviderID raw) as [n|] eqn:Hn; [|by intros ? ?%not_elem_of_nil].
  apply elem_of_list_to_map_2 in Hn.
  repeat (apply elem_of_cons in Hn as [[= Hp ->]|Hn];
    [try done; first [apply polymarket_speaks|apply politics_speaks|apply nba_speaks|apply nhl_speaks
      |apply ncaab_speaks|apply socket_speaks|apply price_speaks]|]).
  by apply not_elem_of_nil in Hn.
Qed.

(** The provider of what a feed of the service sends. *)
Lemma espn_provider provider name l t i game (raw : RawProviderEvent F) :
  espnRaw provider name l t i game = Some raw → raw_ProviderID raw = provider.
Proof.
  unfold espnRaw. destruct (_ =? _)%string; [done|]. intros (cs&_&Hr)%bind_Some. destruct (sides _ _ _).
  apply bind_Some in Hr as (id&_&Hr). by apply bind_Some in Hr as (data&_&[= <-]).
Qed.
Lemma elem_of_poll {A} (f : nat * A → option (RawProviderEvent F)) (l : list (nat * A)) raw (P : _ → Prop) :
  (∀ x raw, f x = Some raw → P raw) → raw ∈ omap f l → P raw.
Proof. intros Hf (x&_&Hx)%list_elem_of_omap. by eapply Hf. Qed.
Lemma gamma_provider f now resps actions (raw : RawProviderEvent F) :
  poll f now resps = Some actions → Send raw ∈ actions → raw_ProviderID raw = pf_providerID f.
Proof.
  unfold poll. intros (fetched&_&[= <-])%bind_Some Hin. destruct fetched as [evs|]; [|by apply not_elem_of_nil in Hin].
  apply list_elem_of_In, in_flat_map in Hin as (ev&_&Hin). apply list_elem_of_In in Hin. unfold poll_event in Hin.
  destruct (negb _); [by apply not_elem_of_nil in Hin|]. destruct (MarshalValue _); [|by apply not_elem_of_nil in Hin].
  apply elem_of_app in Hin as [Hin|[Hin|Hin]%elem_of_app].
  - destruct (has_matcher f); [by apply list_elem_of_singleton in Hin|by apply not_elem_of_nil in Hin].
  - destruct (has_registry f); [|by apply not_elem_of_nil in Hin].
    apply list_elem_of_In, in_flat_map in Hin as (m&_&Hin). apply list_elem_of_In in Hin. unfold register_market in Hin.
    case_bool_decide; [by apply not_elem_of_nil in Hin|by apply list_elem_of_singleton in Hin].
  - apply list_elem_of_singleton in Hin. by injection Hin as ->.
Qed.
Lemma socket_provider l t msg (raw : RawProviderEvent F) :
  raw ∈ (score_handleMessage l t msg []).2 → raw_ProviderID raw = "polymarket-scores".
Proof.
  unfold score_handleMessage. intros Hin.
  repeat (case_match; try by apply not_elem_of_nil in Hin). cbn in Hin. by apply list_elem_of_singleton in Hin as ->.
Qed.

Lemma feeds_are_not_sportradar f (raw : RawProviderEvent F) :
  f ∈ feeds → may_send f raw → raw_ProviderID raw ≠ "sportradar".
Proof.
  intros Hf Hs E. destruct Hs as [f now resps actions raw Hp Hin|l t resp raw Hin|l t resps raw Hin|l t resp raw Hin
    |r t ev raw Hr|l t msg raw Hin].
  - rewrite (gamma_provider _ _ _ _ _ Hp Hin) in E. unfold feeds in Hf.
    repeat (apply elem_of_cons in Hf as [Hf|Hf]; [by simplify_eq/=|]). by apply not_elem_of_nil in Hf.
  - revert E. unfold nbaPoll in Hin. destruct (nbaFetchScoreboard resp); [|by apply not_elem_of_nil in Hin].
    eapply (elem_of_poll _ _ _ (λ raw, raw_ProviderID raw ≠ "sportradar")); [|exact Hin]. intros [i game] raw'. unfold nbaRaw.
    destruct (_ =? _); [done|]. intros (id&_&Hr)%bind_Some. by apply bind_Some in Hr as (data&_&[= <-]).
  - revert E. unfold ncaabPoll in Hin. destruct (ncaabFetchScoreboard resps); [|by apply not_elem_of_nil in Hin].
    eapply (elem_of_poll _ _ _ (λ raw, raw_ProviderID raw ≠ "sportradar")); [|exact Hin].
    by intros [i game] raw' ->%espn_provider.
  - revert E. unfold nhlPoll in Hin. destruct (nhlFetchScoreboard resp); [|by apply not_elem_of_nil in Hin].
    eapply (elem_of_poll _ _ _ (λ raw, raw_ProviderID raw ≠ "sportradar")); [|exact Hin].
    by intros [i game] raw' ->%espn_provider.
  - unfold priceRaw in Hr. repeat (case_match; try done). apply bind_Some in Hr as (entry&_&Hr).
    apply bind_Some in Hr as (data&_&[= <-]). done.
  - apply socket_provider in Hin. by rewrite Hin in E.
Qed.
End Kinds.

(** ** The run *)

Section Runs.
Context {F : Type} `{FloatOps F} `{GoFormat F} `{!FiniteZero F} {K : Type} `{SyncProducer F K}.
Abbreviation Event := (NormalisedMarketEvent F).
Implicit Types (w : world K) (gs : list (goroutine F)) (tags : list (nat * Event)) (fs : list ProviderFeed).

(** The events behind the messages of the log, each with its goroutine. *)
Definition of_goroutine (i : nat) tags : list Event := (filter (λ x, x.1 = i) tags).*2.
Definition carries (m : ProducerMessage F) (x : nat * Event) : Prop := ∃ t, eventMessage t x.2 = Some m.
(** What a goroutine has normalised comes from its feed. *)
Definition from_feed (g : goroutine F) : Prop :=
  ∀ e, e ∈ g_normalised g → ∃ raw t, may_send (g_feed g) raw ∧ e ∈ normalised normaliser t raw.
(** It has published, in order, some of what it is through with. *)
Definition in_step tags (i : nat) (g : goroutine F) : Prop :=
  ∃ through, g_normalised g = through ++ g_todo g ∧ of_goroutine i tags `sublist_of` through.

Definition run_inv (old : list (ProducerMessage F)) fs (c : world K * list (goroutine F)) : Prop :=
  g_feed <$> c.2 = fs ∧ ∃ ms tags, produced (db c.1) = old ++ ms ∧ Forall2 carries ms tags ∧
  (∀ x, x ∈ tags → is_Some (c.2 !! x.1)) ∧
  ∀ i g, c.2 !! i = Some g → in_step tags i g ∧ from_feed g.

Lemma of_goroutine_snoc i j tags (e : Event) :
  of_goroutine i (tags ++ [(j, e)]) = of_goroutine i tags ++ (if decide (j = i) then [e] else []).
Proof. unfold of_goroutine. rewrite filter_app, fmap_app. f_equal. cbn. by destruct (decide (j = i)). Qed.

Lemma publish_event_log w (e : Event) :
  produced (db (publish_event e w).1) = produced (db w) ∨
  ∃ m, eventMessage (clock w) e = Some m ∧ produced (db (publish_event e w).1) = produced (db w) ++ [m].
Proof.
  destruct (publish_event e w) as [w' r] eqn:Hw.
  from_wp (publish_event_wp e w) at Hw as Hp. destruct Hp as (_&sent&Hs&Hp). cbn.
  destruct (eventMessage (clock w) e) as [m|]; cbn in Hs.
  - apply sublist_cons_r in Hs as [Hs|(l&->&Hs)]; apply sublist_nil_r in Hs as ->; [left|right].
    + by rewrite Hp, app_nil_r.
    + by exists m.
  - apply sublist_nil_r in Hs as ->. left. by rewrite Hp, app_nil_r.
Qed.

(** The goroutines after one of them has moved on. *)
Lemma insert_feeds gs i g g' : gs !! i = Some g → g_feed g' = g_feed g → g_feed <$> <[i := g']> gs = g_feed <$> gs.
Proof. intros Hi Hf. rewrite list_fmap_insert. apply list_insert_id. by rewrite list_lookup_fmap, Hi, Hf. Qed.

Lemma receive_inv old fs w gs i f got raw :
  gs !! i = Some (Build_goroutine f [] got) → may_send f raw → run_inv old fs (w, gs) →
  run_inv old fs (w, <[i := receive f got (normalised normaliser (clock w) raw)]> gs).
Proof.
  intros Hi Hsend (Hf&ms&tags&Hlog&Hms&Hdom&Hg). generalize (eq_refl (normalised normaliser (clock w) raw)).
  generalize (normalised normaliser (clock w) raw) at 1 3. intros es Hes. cbn in Hf, Hlog, Hdom, Hg.
  split; [cbn; by rewrite (insert_feeds _ _ _ _ Hi)|]. exists ms, tags. cbn. split_and!; [exact Hlog|exact Hms| |].
  - intros x Hx. apply list_lookup_insert_is_Some. by apply Hdom.
  - intros j g [(<-&<-&_)|[_ Hj]]%list_lookup_insert_Some; [|by apply Hg].
    destruct (Hg i _ Hi) as [(through&Hth&Hsub) Hfrom]. cbn in Hth. rewrite app_nil_r in Hth. subst through. split.
    + by exists got.
    + intros e [He|He]%elem_of_app; [by apply Hfrom|]. exists raw, (clock w). by rewrite <- Hes.
Qed.

(** Its next event is behind it: published or not, its order is kept. *)
Lemma publish_goroutines gs i f e es got tags tags' :
  gs !! i = Some (Build_goroutine f (e :: es) got) →
  (∀ x, x ∈ tags → is_Some (gs !! x.1)) → (∀ j g, gs !! j = Some g → in_step tags j g ∧ from_feed g) →
  tags' = tags ∨ tags' = tags ++ [(i, e)] →
  (∀ x, x ∈ tags' → is_Some (<[i := Build_goroutine f es got]> gs !! x.1)) ∧
  ∀ j g, <[i := Build_goroutine f es got]> gs !! j = Some g → in_step tags' j g ∧ from_feed g.
Proof.
  intros Hi Hdom Hg Htags. destruct (Hg i _ Hi) as [(through&Hth&Hsub) Hfrom]. cbn in Hth. split.
  - intros x Hx. apply list_lookup_insert_is_Some. destruct Htags as [->| ->]; [by apply Hdom|].
    apply elem_of_app in Hx as [Hx|Hx]; [by apply Hdom|]. apply list_elem_of_singleton in Hx as ->. by eexists.
  - intros j g [(<-&<-&_)|[Hne Hj]]%list_lookup_insert_Some.
    + split; [|intros e' He'; exact (Hfrom e' He')]. exists (through ++ [e]). cbn. split; [by rewrite <- app_assoc|].
      destruct Htags as [->| ->]; [by apply sublist_inserts_r|].
      rewrite of_goroutine_snoc, decide_True by done. by apply sublist_app.
    + destruct (Hg j _ Hj) as [(through'&Hth'&Hsub') Hfrom']. split; [|exact Hfrom']. exists through'.
      split; [done|]. destruct Htags as [->| ->]; [done|]. by rewrite of_goroutine_snoc, decide_False, app_nil_r.
Qed.
Lemma publish_inv old fs w w' gs i f e es got :
  produced (db w') = produced (db w) ∨
  (∃ m, eventMessage (clock w) e = Some m ∧ produced (db w') = produced (db w) ++ [m]) →
  gs !! i = Some (Build_goroutine f (e :: es) got) → run_inv old fs (w, gs) →
  run_inv old fs (w', <[i := Build_goroutine f es got]> gs).
Proof.
  intros Hcase Hi (Hf&ms&tags&Hlog&Hms&Hdom&Hg). cbn in Hf, Hlog, Hdom, Hg.
  split; [cbn; by rewrite (insert_feeds _ _ _ _ Hi)|]. cbn [fst snd].
  destruct Hcase as [Hp|(m&Hm&Hp)]; rewrite Hp.
  - exists ms, tags. destruct (publish_goroutines _ _ _ _ _ _ tags tags Hi Hdom Hg) as [? ?]; [by left|].
    by split_and!.
  - exists (ms ++ [m]), (tags ++ [(i, e)]).
    destruct (publish_goroutines _ _ _ _ _ _ tags (tags ++ [(i, e)]) Hi Hdom Hg) as [? ?]; [by right|].
    split_and!; [by rewrite Hlog, app_assoc| |done..].
    apply Forall2_app; [done|]. constructor; [by exists (clock w)|constructor].
Qed.

Lemma ingest_step_inv old fs c c' : ingest_step c c' → run_inv old fs c → run_inv old fs c'.
Proof.
  intros [w gs i f got raw Hi Hs|w gs i f e es got Hi|w gs fs'|w gs t Ht] Hinv; [| |exact Hinv|exact Hinv].
  - exact (receive_inv old fs w gs i f got raw Hi Hs Hinv).
  - exact (publish_inv old fs w _ gs i f e es got (publish_event_log w e) Hi Hinv).
Qed.

Lemma Run_inv w fs c : Run w fs c → run_inv (produced (db w)) fs c.
Proof.
  intros Hrun. refine (rtc_ind_r (R:=ingest_step) (λ c, run_inv (produced (db w)) fs c) (w, start <$> fs) _ _ c _); [| |exact Hrun].
  - split; [cbn; rewrite <- list_fmap_compose; apply list_fmap_id|]. exists [], []. cbn. split_and!.
    + by rewrite app_nil_r.
    + constructor.
    + by intros x ?%not_elem_of_nil.
    + intros i g Hg. rewrite list_lookup_fmap in Hg. apply fmap_Some in Hg as (f&_&->). split; [by exists []|by intros e ?%not_elem_of_nil].
  - intros c1 c2 _ Hs. by apply ingest_step_inv.
Qed.
End Runs.

(** ** Properties *)

Section Properties.
Context {F : Type} `{FloatOps F} `{GoFormat F} `{!FiniteZero F} {K : Type} `{SyncProducer F K}.
Implicit Types (w : world K) (c : world K * list (goroutine F)).

(** C33. The feeds of a service share one topic without disturbing each other: in
    every interleaving and under any faults, what is added to the log is a
    sequence of messages each carrying one normalised event; those of a feed's
    goroutine are, in the order it normalised them, among the events of raw
    events that this feed sent; and there are no others. *)
Theorem feeds_share_the_topic w fs c :
  Run w fs c → ∃ ms tags, produced (db c.1) = produced (db w) ++ ms ∧ Forall2 carries ms tags ∧
  (∀ x, x ∈ tags → (x.1 < length fs)%nat) ∧
  ∀ i f, fs !! i = Some f → ∃ g, c.2 !! i = Some g ∧ of_goroutine i tags `sublist_of` g_normalised g ∧
    ∀ e, e ∈ g_normalised g → ∃ raw t, may_send f raw ∧ e ∈ normalised normaliser t raw.
Proof.
  intros (<-&ms&tags&Hlog&Hms&Hdom&Hg)%Run_inv. exists ms, tags. split_and!; [exact Hlog|exact Hms| |].
  - intros x Hx. rewrite length_fmap. by apply lookup_lt_is_Some, Hdom.
  - intros i f Hf. rewrite list_lookup_fmap in Hf. apply fmap_Some in Hf as (g&Hi&->). destruct (Hg i g Hi) as [(through&Hth&Hsub) Hfrom].
    exists g. split_and!; [exact Hi|rewrite Hth; by apply sublist_inserts_r|exact Hfrom].
Qed.

Lemma resulted_at_absent (e : NormalisedMarketEvent F) :
  ToLower "resulted_at" ∉ map (λ f, ToLower f.1) (event_fields e).
Proof.
  assert (∀ (x : string) (l : list string), bool_decide (x ∉ l) = true → x ∉ l) as Hd by (intros x l; apply bool_decide_eq_true).
  apply Hd. vm_compute. reflexivity.
Qed.
Lemma decodeResult_reads (kvs : list (string * json F)) (a b s r : string) :
  jstring "event_type" kvs = Some a → jstring "market_id" kvs = Some b →
  jstring "winning_selection_id" kvs = Some s → jstring "resulted_at" kvs = Some r →
  decodeResultEvent kvs = Some (Build_ResultEvent a b s r).
Proof. intros E1 E2 E3 E4. unfold decodeResultEvent. by rewrite E1, E2, E3, E4. Qed.
(** The message of an event, as settlement reads it. *)
Lemma read_as_result (e : NormalisedMarketEvent F) :
  Unmarshal decodeResultEvent (Doc (encodeEvent e)) =
    Some (Build_ResultEvent (ToValidUTF8 (EventType e)) (ToValidUTF8 (ev_MarketID e))
            (ToValidUTF8 (WinningSelectionID e)) "").
Proof.
  pose proof (event_fields_distinct e) as Hnd. apply decodeResult_reads.
  - apply (read_string _ Hnd). find_field.
  - apply (read_string _ Hnd). find_field.
  - apply (read_omit_string _ Hnd). find_field.
  - apply jfield_absent, resulted_at_absent.
Qed.
Lemma read_event_type (e : NormalisedMarketEvent F) t m :
  eventMessage t e = Some m →
  ∃ re, Unmarshal decodeResultEvent (Value m) = Some re ∧ re_EventType re = ToValidUTF8 (EventType e).
Proof.
  unfold eventMessage, Marshal. destruct (marshalable _); [|done]. intros [= <-]. cbn [Value].
  eexists. split; [apply (read_as_result (stamp t e))|done].
Qed.

Lemma settlement_skips {F' W} `{WalletServiceServer W} `{FloatOps F'} {K'} `{SyncProducer F' K'} uuid
    (msgs : list (ConsumerMessage F')) (w : world (Settlement F' W K')) :
  (∀ msg, msg ∈ msgs → ∃ re, Unmarshal decodeResultEvent (Value (cm msg)) = Some re ∧ re_EventType re ≠ "market.resulted") →
  settlementConsumeClaim uuid msgs w = (w, Ok (Offset <$> msgs)).
Proof.
  unfold settlementConsumeClaim. induction msgs as [|msg msgs IH]; intros Hmsgs; [done|]. cbn [ConsumeClaim].
  destruct (Hmsgs msg (list_elem_of_here _ _)) as (re&Hre&Hne). unfold gbind at 1, catch at 1, handleResult at 1.
  rewrite Hre. apply String_eqb_neq in Hne. rewrite Hne. cbn [negb]. unfold ret at 1, gbind at 1.
  rewrite IH; [done|]. intros msg' Hin. apply Hmsgs. by right.
Qed.

(** C2. No market is ever resulted: of all that the ten feeds of the service can
    put on the topic, in every interleaving and under any faults, settlement
    handles nothing; it commits every offset and touches neither its tables nor
    the wallet nor its topic. *)
Theorem settlement_is_never_asked {W K'} `{WalletServiceServer W} `{SyncProducer F K'} uuid (w : world K) c
    (msgs : list (ConsumerMessage F)) (s : world (Settlement F W K')) :
  produced (db w) = [] → Run w feeds c → (∀ msg, msg ∈ msgs → cm msg ∈ produced (db c.1)) →
  settlementConsumeClaim uuid msgs s = (s, Ok (Offset <$> msgs)).
Proof.
  intros Hempty Hrun Hmsgs. apply settlement_skips. intros msg Hin. apply Hmsgs in Hin.
  apply Run_inv in Hrun as (Hf&ms&tags&Hlog&Hms&Hdom&Hg). rewrite Hempty in Hlog. rewrite Hlog in Hin. cbn in Hin.
  apply list_elem_of_lookup in Hin as [k Hk]. destruct (Forall2_lookup_l _ _ _ _ _ Hms Hk) as ([i e]&Hi&t&Hm).
  apply list_elem_of_lookup_2 in Hi. destruct (Hdom _ Hi) as [g Hgi]. cbn in Hgi, Hm.
  destruct (Hg i g Hgi) as [(through&Hth&Hsub) Hfrom].
  assert (e ∈ g_normalised g) as He.
  { rewrite Hth. apply elem_of_app. left. eapply elem_of_sublist; [|exact Hsub].
    unfold of_goroutine. apply list_elem_of_fmap. exists (i, e). split; [done|]. by apply list_elem_of_filter. }
  destruct (Hfrom e He) as (raw&t'&Hsend&Hnorm).
  assert (g_feed g ∈ feeds) as Hfeed.
  { rewrite <- Hf. apply list_elem_of_fmap. exists g. split; [done|]. by eapply list_elem_of_lookup_2. }
  destruct (read_event_type e t _ Hm) as (re&Hre&Hty). exists re. split; [exact Hre|]. rewrite Hty.
  apply (providers_speak t' raw) in Hnorm; [|by eapply feeds_are_not_sportradar].
  intros E. unfold kinds in Hnorm. repeat (apply elem_of_cons in Hnorm as [Hnorm|Hnorm];
    [by rewrite Hnorm in E|]). by apply not_elem_of_nil in Hnorm.
Qed.
End Properties.

(** ** A concrete run: the price feed sends one price *)

Section Witnesses.
#[local] Existing Instance inert_platform.
Abbreviation Log := (list (ProducerMessage binary64)).

Definition ex_empty_log : world Log := World [] 0 0 [].
Definition ex_price_event : NormalisedMarketEvent binary64 := marketNotice "price.update" "polymarket" "c1".
Definition ex_started : list (goroutine binary64) := start <$> feeds.
Definition ex_received : list (goroutine binary64) :=
  <[8%nat := receive PolymarketPriceFeed [] [ex_price_event]]> ex_started.
Definition ex_published : world Log * list (goroutine binary64) :=
  ((publish_event ex_price_event ex_empty_log).1,
   <[8%nat := Build_goroutine PolymarketPriceFeed [] [ex_price_event]]> ex_received).

Lemma ex_price_sent : may_send PolymarketPriceFeed ex_batch_raw.
Proof. apply (price_sends ex_registry 7 (ex_clob_event "t2")). vm_compute. reflexivity. Qed.
Lemma ex_price_normalised : normalised normaliser 0 ex_batch_raw = [ex_price_event].
Proof. vm_compute. reflexivity. Qed.
Lemma ex_market_data_run : Run ex_empty_log feeds ex_published.
Proof.
  apply (rtc_l _ _ (ex_empty_log, ex_received)).
  - unfold ex_received. rewrite <- ex_price_normalised.
    apply (ingest_receive ex_empty_log ex_started 8 PolymarketPriceFeed [] ex_batch_raw); [reflexivity|exact ex_price_sent].
  - apply rtc_once, ingest_publish. reflexivity.
Qed.
Lemma ex_log_length : length (produced (db ex_published.1)) = 1%nat.
Proof. vm_compute. reflexivity. Qed.

Lemma feeds_share_the_topic_witness :
  length (produced (db ex_published.1)) = 1%nat ∧
  ∃ ms tags, produced (db ex_published.1) = [] ++ ms ∧ Forall2 carries ms tags.
Proof.
  split; [exact ex_log_length|].
  destruct (feeds_share_the_topic ex_empty_log feeds ex_published ex_market_data_run) as (ms&tags&Hlog&Hms&_).
  exists ms, tags. split; [exact Hlog|exact Hms].
Defined.

Definition ex_delivered : list (ConsumerMessage binary64) :=
  (λ m, {| cm := m; Offset := 0 |}) <$> produced (db ex_published.1).
Lemma ex_delivered_messages msg : msg ∈ ex_delivered → cm msg ∈ produced (db ex_published.1).
Proof. intros (m&->&Hm)%list_elem_of_fmap. exact Hm. Qed.

Lemma settlement_is_never_asked_witness :
  length ex_delivered = 1%nat ∧
  settlementConsumeClaim (H0:=wallet_client) settle_uuid ex_delivered (ex_settlement_world ∅) =
    (ex_settlement_world ∅, Ok (Offset <$> ex_delivered)).
Proof.
  split; [unfold ex_delivered; rewrite length_fmap; exact ex_log_length|].
  exact (settlement_is_never_asked settle_uuid ex_empty_log ex_published ex_delivered (ex_settlement_world ∅)
    eq_refl ex_market_data_run ex_delivered_messages).
Defined.
End Witnesses.
