(* ===== verification/ScoreSocket.v ===== *)
(** * The connection of the sports socket
    ([internal/marketdata/polymarket_score_feed.go], [run] and [connectAndStream])

    Two goroutines per connection, one that reads messages into a channel of 64
    and one that handles them, and the loop that reconnects, as a step relation
    with every interleaving. Contexts are never cancelled. The theorems: what
    bounds its buffers and its backoff; that messages are handled in the order
    they were read and events delivered in the order they were handled; and
    that losing the connection loses messages already read. *)
From stdpp Require Import relations.
From S2P Require Export ScoreFeeds.
Local Open Scope Z_scope.

Definition scoreMaxBackoff : Z := 60.
Definition nextScoreBackoff (backoff : Z) : Z :=
  if scoreMaxBackoff <? backoff * 2 then scoreMaxBackoff else backoff * 2.
Definition msgChanCap : nat := 64.

Section Socket.
Context {F : Type} `{FloatOps F}.
Abbreviation Msg := (bytes F).
Abbreviation Raw := (RawProviderEvent F).

(** Dialing; streaming, where the reader goes on until its read fails; waiting
    before the next attempt. *)
Inductive socket_phase : Type := Dialing | Streaming (failed : bool) | Waiting.

(** A message as it was handled: what the matcher answered, and when. *)
Record handled_msg : Type := { hm_lookups : lookups; hm_time : Z; hm_msg : Msg }.

Record socket : Type := {
  phase : socket_phase;
  msgCh : list Msg;             (** read and not yet handled *)
  backoff : Z;
  losses : nat;                 (** attempts that failed or connections lost *)
  read : list Msg;              (** on the current connection, oldest first *)
  handled : list handled_msg;   (** on the current connection *)
  before : list handled_msg;    (** on earlier ones *)
  out : list Raw;               (** the channel to the ingestion service *)
  taken : list Raw              (** received from it *)
}.

(** The events of one message, at most one. *)
Definition raws_of (h : handled_msg) : list Raw := (score_handleMessage (hm_lookups h) (hm_time h) (hm_msg h) []).2.

Definition socket_init : socket := {|
  phase := Dialing; msgCh := []; backoff := 1; losses := 0; read := []; handled := []; before := [];
  out := []; taken := [] |}.

Inductive socket_step : socket → socket → Prop :=
| dial b n rd hd bf o tk mc :
    socket_step (Build_socket Dialing mc b n rd hd bf o tk)
                (Build_socket (Streaming false) [] b n [] [] (bf ++ hd) o tk)
| dial_fails b n rd hd bf o tk mc :
    socket_step (Build_socket Dialing mc b n rd hd bf o tk) (Build_socket Waiting mc b (S n) rd hd bf o tk)
(** [conn.ReadMessage] and the select that drops a message when the channel is full. *)
| read_message m mc b n rd hd bf o tk :
    socket_step (Build_socket (Streaming false) mc b n rd hd bf o tk)
      (Build_socket (Streaming false) (if (length mc <? msgChanCap)%nat then mc ++ [m] else mc) b n (rd ++ [m]) hd bf o tk)
| read_fails mc b n rd hd bf o tk :
    socket_step (Build_socket (Streaming false) mc b n rd hd bf o tk) (Build_socket (Streaming true) mc b n rd hd bf o tk)
(** The select of the loop: a message or the error, if both are there either one. *)
| handle_message f l t m mc b n rd hd bf o tk :
    socket_step (Build_socket (Streaming f) (m :: mc) b n rd hd bf o tk)
      (Build_socket (Streaming f) mc b n rd (hd ++ [Build_handled_msg l t m]) bf (score_handleMessage l t m o).2 tk)
| lose mc b n rd hd bf o tk :
    socket_step (Build_socket (Streaming true) mc b n rd hd bf o tk) (Build_socket Waiting mc b (S n) rd hd bf o tk)
| wait_over mc b n rd hd bf o tk :
    socket_step (Build_socket Waiting mc b n rd hd bf o tk) (Build_socket Dialing mc (nextScoreBackoff b) n rd hd bf o tk)
| take_event mc ph b n rd hd bf raw o tk :
    socket_step (Build_socket ph mc b n rd hd bf (raw :: o) tk) (Build_socket ph mc b n rd hd bf o (tk ++ [raw])).

Definition socket_reachable (s : socket) : Prop := rtc socket_step socket_init s.

(** ** The invariant *)

Definition waits (ph : socket_phase) : nat := match ph with Waiting => 1 | _ => 0 end.
Definition socket_inv (s : socket) : Prop :=
  (length (msgCh s) ≤ msgChanCap)%nat ∧ (length (out s) ≤ scoreChanCap)%nat ∧
  ((hm_msg <$> handled s) ++ msgCh s) `sublist_of` read s ∧
  (taken s ++ out s) `sublist_of` flat_map raws_of (before s ++ handled s) ∧
  backoff s = Z.min scoreMaxBackoff (2 ^ Z.of_nat (losses s - waits (phase s))) ∧ (waits (phase s) ≤ losses s)%nat.
End Socket.
Arguments socket : clear implicits.
Arguments handled_msg : clear implicits.

Section Lemmas.
Context {F : Type} `{FloatOps F}.
Implicit Types s : socket F.

(** A handled message adds its events to the channel, as far as there is room. *)
Lemma score_handleMessage_out l t (msg : bytes F) ch :
  (length ch ≤ scoreChanCap)%nat →
  (score_handleMessage l t msg ch).2 = take scoreChanCap (ch ++ raws_of (Build_handled_msg l t msg)).
Proof.
  intros Hl. assert (ch = take scoreChanCap (ch ++ [])) as Hch by (by rewrite app_nil_r, take_ge).
  unfold raws_of, score_handleMessage. cbn [hm_lookups hm_time hm_msg].
  destruct (is_text _ msg); [exact Hch|]. destruct (UnmarshalValue msg) as [r|]; [|exact Hch].
  destruct (negb _); [exact Hch|]. destruct (find_game _ _ _ _); [|exact Hch].
  destruct (MarshalValue _); [|exact Hch]. cbn [snd]. by rewrite send_or_drop_take.
Qed.

Lemma nextScoreBackoff_min k : (0 ≤ k) → nextScoreBackoff (Z.min scoreMaxBackoff (2 ^ k)) = Z.min scoreMaxBackoff (2 ^ (k + 1)).
Proof.
  intros Hk. unfold nextScoreBackoff, scoreMaxBackoff. rewrite Z.pow_add_r by lia.
  destruct (Z.ltb_spec 60 (Z.min 60 (2 ^ k) * 2)); lia.
Qed.

Lemma socket_step_inv s s' : socket_step s s' → socket_inv s → socket_inv s'.
Proof.
  intros Hs (Hmc&Ho&Hrd&Htk&Hb&Hw).
  destruct Hs as [b n rd hd bf o tk mc|b n rd hd bf o tk mc|m mc b n rd hd bf o tk|mc b n rd hd bf o tk
    |f l t m mc b n rd hd bf o tk|mc b n rd hd bf o tk|mc b n rd hd bf o tk|mc ph b n rd hd bf raw o tk];
    unfold socket_inv; cbn [phase msgCh backoff losses read handled before out taken waits] in *;
    rewrite ?Nat.sub_0_r in *; cbn [Nat.sub] in *; rewrite ?Nat.sub_0_r in *.
  - split_and!; try done; [unfold msgChanCap; cbn; lia|]. by rewrite app_nil_r.
  - split_and!; try done. lia.
  - split_and!; try done.
    + destruct (Nat.ltb_spec (length mc) msgChanCap); [rewrite length_app; cbn; lia|lia].
    + destruct (length mc <? msgChanCap)%nat; [rewrite app_assoc; by apply sublist_app|by apply sublist_inserts_r].
  - by split_and!.
  - cbn in Hmc. split_and!; try done; [lia| | |].
    + rewrite score_handleMessage_out by done. rewrite length_take. lia.
    + rewrite fmap_app. cbn. by rewrite <- app_assoc.
    + rewrite score_handleMessage_out by done. rewrite app_assoc, flat_map_app. cbn [flat_map]. rewrite app_nil_r.
      etrans; [apply sublist_app; [done|apply sublist_take]|]. rewrite app_assoc. by apply sublist_app.
  - split_and!; try done. lia.
  - split_and!; try done; [|lia]. rewrite Hb, nextScoreBackoff_min by lia. do 2 f_equal. lia.
  - cbn in Ho. split_and!; try done; [lia|]. by rewrite <- app_assoc.
Qed.

Lemma socket_reachable_inv s : socket_reachable s → socket_inv s.
Proof.
  intros Hs. refine (rtc_ind_r (R:=socket_step) socket_inv socket_init _ _ s Hs).
  - unfold socket_inv. cbn. split_and!; try done; lia.
  - intros s1 s2 _. apply socket_step_inv.
Qed.
End Lemmas.

(** ** Properties *)

(** C38. In every run of the sports socket at most 64 messages and 64 events are
    waiting; on a connection messages are handled in the order they were read,
    some may be dropped; events reach the ingestion service in the order of the
    messages they come from; and the wait after the [n]-th loss is [2 ^ (n - 1)]
    seconds, at most a minute, however long connections lasted in between. *)
Theorem score_socket_in_order {F} `{FloatOps F} (s : socket F) :
  socket_reachable s →
  (length (msgCh s) ≤ 64)%nat ∧ (length (out s) ≤ 64)%nat ∧
  ((hm_msg <$> handled s) ++ msgCh s) `sublist_of` read s ∧
  (taken s ++ out s) `sublist_of` flat_map raws_of (before s ++ handled s) ∧
  (phase s = Waiting → backoff s = Z.min 60 (2 ^ (Z.of_nat (losses s) - 1))).
Proof.
  intros (Hmc&Ho&Hrd&Htk&Hb&Hw)%socket_reachable_inv. split_and!; [exact Hmc|exact Ho|exact Hrd|exact Htk|].
  intros Hph. rewrite Hph in Hb, Hw. cbn in Hb, Hw. rewrite Hb. unfold scoreMaxBackoff. do 2 f_equal. lia.
Qed.

(** ** Concrete runs *)

Section Witnesses.
#[local] Existing Instance inert_platform.

(** The game's score is read, then the connection fails; the select takes the error first. *)
Definition ex_score_read : socket binary64 :=
  Build_socket (Streaming false) [ex_sport_msg] 1 0 [ex_sport_msg] [] [] [] [].
Definition ex_score_lost : socket binary64 := Build_socket Waiting [ex_sport_msg] 1 1 [ex_sport_msg] [] [] [] [].
Definition ex_score_redialed : socket binary64 := Build_socket (Streaming false) [] 2 1 [] [] [] [] [].

Lemma ex_score_read_reachable : socket_reachable ex_score_read.
Proof.
  eapply rtc_l; [apply dial|]. apply rtc_once. exact (read_message ex_sport_msg [] 1 0 [] [] [] [] []).
Qed.
Lemma ex_score_lost_reachable : socket_reachable ex_score_lost.
Proof.
  eapply rtc_r; [eapply rtc_r; [apply ex_score_read_reachable|apply read_fails]|apply lose].
Qed.

(** A message that was read before the connection failed can be lost: the loop
    may see the error first, and the channel goes with the connection. *)
Theorem read_score_can_be_lost :
  socket_reachable ex_score_read ∧ read ex_score_read = [ex_sport_msg] ∧
  rtc socket_step ex_score_read ex_score_redialed ∧
  before ex_score_redialed = [] ∧ handled ex_score_redialed = [] ∧ msgCh ex_score_redialed = [].
Proof.
  split_and!; [exact ex_score_read_reachable|done| |done..].
  eapply rtc_l; [apply read_fails|]. eapply rtc_l; [apply lose|]. eapply rtc_l; [apply wait_over|].
  apply rtc_once. exact (dial 2 1 [ex_sport_msg] [] [] [] [] [ex_sport_msg]).
Qed.

Lemma score_socket_in_order_witness :
  phase ex_score_lost = Waiting ∧ backoff ex_score_lost = Z.min 60 (2 ^ (Z.of_nat 1 - 1)).
Proof.
  split; [reflexivity|].
  destruct (score_socket_in_order ex_score_lost ex_score_lost_reachable) as (_&_&_&_&Hb). exact (Hb eq_refl).
Defined.
End Witnesses.
