(* ===== verification/Loops.v ===== *)
(** * Loops that run until they are cancelled

    The background loops of the services as interaction trees: a consumer's
    [Run] ([for { cg.Consume ... }], the same text in six packages) and the
    ticker loops of the outbox relay, the cache warmer and the polling feeds.
    A tree asks its surroundings ([cg.Consume], [ctx.Err()], the [select] on the
    ticker) and may go on for ever. An environment answers from a state; the
    theorems compare a loop with the plain iteration of one turn. *)
From S2P Require Export Prelude.
From ITree Require Export ITree.
From ITree Require Import ITreeFacts Events.State Events.StateFacts.

#[local] Notation "x ⇐ t ;; k" := (ITree.bind t (λ x, k))
  (at level 100, t at next level, right associativity).

(** ** A consumer group *)

(** [sarama.OffsetOldest], [sarama.OffsetNewest]. *)
Inductive InitialOffset : Type := OffsetOldest | OffsetNewest.

Record GroupConfig : Type := {
  gc_group : string;
  gc_topics : list string;
  gc_initial : InitialOffset;
  gc_autocommit : bool;
  gc_prefix : string    (** of its errors *)
}.

(** What a consumer asks; [None] is a nil error. *)
Inductive consumerE : Type → Type :=
| NewConsumerGroup (cfg : GroupConfig) : consumerE (option string)
| Consume (topics : list string) : consumerE (option string)
| CtxErr : consumerE bool
| LogError (e : string) : consumerE unit
| CloseGroup : consumerE unit.

(** The last statement of the loop's body: [if ctx.Err() != nil { return nil }]. *)
Definition until_cancelled : itree consumerE (unit + unit) :=
  cancelled ⇐ ITree.trigger CtxErr ;;
  Ret (if cancelled : bool then inr tt else inl tt).

Definition consume_turn (topics : list string) : itree consumerE (unit + unit) :=
  err ⇐ ITree.trigger (Consume topics) ;;
  match err with
  | Some e =>
      cancelled ⇐ ITree.trigger CtxErr ;;
      if cancelled : bool then Ret (inr tt)
      else _ ⇐ ITree.trigger (LogError e) ;; until_cancelled
  | None => until_cancelled
  end.

Definition consume_loop (topics : list string) : itree consumerE unit :=
  ITree.iter (λ _, consume_turn topics) tt.

(** [NewConsumerGroup], [defer cg.Close()], the loop. *)
Definition RunGroup (cfg : GroupConfig) : itree consumerE (result string unit) :=
  err ⇐ ITree.trigger (NewConsumerGroup cfg) ;;
  match err with
  | Some e => Ret (Err (gc_prefix cfg +:+ ": consumer group: " +:+ e))
  | None =>
      _ ⇐ consume_loop (gc_topics cfg) ;;
      _ ⇐ ITree.trigger CloseGroup ;;
      Ret (Ok tt)
  end.

(** The surroundings: how each question changes the state and what it answers. *)
Record ConsumerEnv (S : Type) : Type := {
  env_new : GroupConfig → S → S * option string;
  env_consume : list string → S → S * option string;
  env_cancelled : S → bool;
  env_log : S → S;
  env_close : S → S
}.
Arguments env_new {S}.
Arguments env_consume {S}.
Arguments env_cancelled {S}.
Arguments env_log {S}.
Arguments env_close {S}.

Definition answer {S} (env : ConsumerEnv S) : ∀ T, consumerE T → S → itree void1 (S * T) := λ T e s,
  match e in consumerE T return itree void1 (S * T) with
  | NewConsumerGroup cfg => Ret (env_new env cfg s)
  | Consume topics => Ret (env_consume env topics s)
  | CtxErr => Ret (s, env_cancelled env s)
  | LogError _ => Ret (env_log env s, tt)
  | CloseGroup => Ret (env_close env s, tt)
  end.

Definition run_in {S A} (env : ConsumerEnv S) (t : itree consumerE A) (s : S) : itree void1 (S * A) :=
  interp_state (answer env) t s.

(** One session and what the loop does about its error. *)
Definition session {S} (env : ConsumerEnv S) (topics : list string) (s : S) : S :=
  match env_consume env topics s with
  | (s1, Some _) => if env_cancelled env s1 then s1 else env_log env s1
  | (s1, None) => s1
  end.

Fixpoint sessions {S} (env : ConsumerEnv S) (topics : list string) (n : nat) (s : S) : S :=
  match n with O => s | Datatypes.S n => sessions env topics n (session env topics s) end.

(** Not cancelled during the first [n] sessions. *)
Definition goes_on {S} (env : ConsumerEnv S) (topics : list string) (n : nat) (s : S) : Prop :=
  ∀ i, (i < n)%nat → env_cancelled env (sessions env topics (Datatypes.S i) s) = false.

(** ** A ticker *)

(** [NextTick] is the [select]: true when the ticker fired, false when the
    context is done. *)
Inductive tickE : Type → Type :=
| NextTick : tickE bool
| Work : tickE unit.

Definition tick_turn : itree tickE (unit + unit) :=
  fired ⇐ ITree.trigger NextTick ;;
  if fired : bool then _ ⇐ ITree.trigger Work ;; Ret (inl tt) else Ret (inr tt).

(** [for { select { case <-ctx.Done(): return; case <-ticker.C: work } }]. *)
Definition tick_loop : itree tickE unit := ITree.iter (λ _, tick_turn) tt.

(** The work once before the first tick. *)
Definition poll_loop : itree tickE unit := _ ⇐ ITree.trigger Work ;; tick_loop.

(** Turn [n] of the ticker: what happens meanwhile, or the end. *)
Definition Schedule (S : Type) : Type := nat → option (S → S).

Definition tick_answer {S} (work : S → S) (σ : Schedule S) :
    ∀ T, tickE T → nat * S → itree void1 (nat * S * T) := λ T e s,
  match e in tickE T return itree void1 (nat * S * T) with
  | NextTick => Ret (match σ s.1 with Some f => (Datatypes.S s.1, f s.2, true) | None => (s, false) end)
  | Work => Ret (s.1, work s.2, tt)
  end.

Definition ticks_in {S A} (work : S → S) (σ : Schedule S) (t : itree tickE A) (s : S) : itree void1 (nat * S * A) :=
  interp_state (tick_answer work σ) t (0%nat, s).

(** The state after [n] turns from turn [i]. *)
Fixpoint turns {S} (work : S → S) (σ : Schedule S) (i n : nat) (s : S) : S :=
  match n with
  | O => s
  | Datatypes.S n => match σ i with Some f => turns work σ (Datatypes.S i) n (work (f s)) | None => s end
  end.

(** ** The loops are the iteration of their turn *)

#[local] Infix "≳" := (euttge eq) (at level 70).

Ltac run_itree :=
  repeat (rewrite ?interp_state_bind, ?interp_state_trigger_eqit, ?interp_state_ret,
    ?bind_bind, ?bind_ret_l, ?bind_tau, ?tau_euttge; cbn [answer tick_answer fst snd]).

Lemma spin_tau {E R} : (ITree.spin : itree E R) ≅ Tau ITree.spin.
Proof. rewrite (itree_eta ITree.spin) at 1. reflexivity. Qed.

Lemma spin_bind {E A B} (k : A → itree E B) : ITree.bind ITree.spin k ≈ ITree.spin.
Proof.
  einit. ecofix CIH. rewrite (spin_tau (R:=A)), (spin_tau (R:=B)), bind_tau. etau.
Qed.

Section ConsumerLoop.
Context {S : Type} (env : ConsumerEnv S).
Implicit Types (s : S) (topics : list string).

Lemma consume_turn_run topics s :
  run_in env (consume_turn topics) s ≳
  Ret (session env topics s, if env_cancelled env (session env topics s) then inr tt else inl tt).
Proof.
  unfold run_in, consume_turn, session, until_cancelled. run_itree.
  destruct (env_consume env topics s) as [s1 [e|]]; cbn [fst snd]; run_itree.
  - destruct (env_cancelled env s1) eqn:Hc; run_itree; [by rewrite Hc|reflexivity].
  - reflexivity.
Qed.

Lemma consume_loop_turn topics s :
  run_in env (consume_loop topics) s ≳
  (if env_cancelled env (session env topics s) then Ret (session env topics s, tt)
   else Tau (run_in env (consume_loop topics) (session env topics s))).
Proof.
  unfold consume_loop at 1. rewrite unfold_iter. unfold run_in at 1.
  rewrite interp_state_bind. setoid_rewrite consume_turn_run. rewrite bind_ret_l. cbn [fst snd].
  destruct (env_cancelled env (session env topics s)); [rewrite interp_state_ret|rewrite interp_state_tau]; reflexivity.
Qed.

Lemma consume_loop_step topics s :
  run_in env (consume_loop topics) s ≈
  (if env_cancelled env (session env topics s) then Ret (session env topics s, tt)
   else run_in env (consume_loop topics) (session env topics s)).
Proof. rewrite consume_loop_turn. destruct (env_cancelled _ _); [reflexivity|apply tau_eutt]. Qed.

Lemma sessions_S topics n s : sessions env topics (Datatypes.S n) s = session env topics (sessions env topics n s).
Proof. revert s. induction n as [|n IH]; intros s; [done|]. cbn. by rewrite <- IH. Qed.

Lemma sessions_add topics n m s :
  sessions env topics (n + m) s = sessions env topics m (sessions env topics n s).
Proof. revert s. induction n as [|n IH]; intros s; [done|apply IH]. Qed.

(** A run that is not cancelled is still in its loop, after that many sessions. *)
Lemma consume_loop_sessions topics n s :
  goes_on env topics n s →
  run_in env (consume_loop topics) s ≈ run_in env (consume_loop topics) (sessions env topics n s).
Proof.
  induction n as [|n IH]; intros Hon; [reflexivity|].
  rewrite IH by (intros i Hi; apply Hon; lia). rewrite consume_loop_step, <- sessions_S.
  rewrite (Hon n) by lia. reflexivity.
Qed.

Lemma consume_loop_stops topics n s :
  goes_on env topics n s → env_cancelled env (sessions env topics (Datatypes.S n) s) = true →
  run_in env (consume_loop topics) s ≈ Ret (sessions env topics (Datatypes.S n) s, tt).
Proof.
  intros Hon Hc. rewrite (consume_loop_sessions topics n s Hon), consume_loop_step, <- sessions_S, Hc.
  reflexivity.
Qed.

Lemma goes_on_step topics n s :
  goes_on env topics (Datatypes.S n) s → goes_on env topics n (session env topics s).
Proof. intros Hon i Hi. apply (Hon (Datatypes.S i)). lia. Qed.

Lemma consume_loop_diverges topics s :
  (∀ n, goes_on env topics n s) → run_in env (consume_loop topics) s ≈ ITree.spin.
Proof.
  revert s. einit. ecofix CIH. intros s Hon.
  pose proof (Hon 1%nat 0%nat ltac:(lia)) as Hc. cbn in Hc.
  rewrite consume_loop_turn, spin_tau, Hc. etau. ebase. right. apply CIHL. intros n. apply goes_on_step, Hon.
Qed.
End ConsumerLoop.

Section GroupLoop.
Context {S : Type} (env : ConsumerEnv S).
Implicit Types (s : S) (cfg : GroupConfig).

(** The whole of [Run] in terms of its loop. *)
Lemma RunGroup_run cfg s :
  run_in env (RunGroup cfg) s ≈
  match env_new env cfg s with
  | (s1, Some e) => Ret (s1, Err (gc_prefix cfg +:+ ": consumer group: " +:+ e))
  | (s1, None) => ITree.bind (run_in env (consume_loop (gc_topics cfg)) s1) (λ r, Ret (env_close env r.1, Ok tt))
  end.
Proof.
  unfold RunGroup, run_in. run_itree. destruct (env_new env cfg s) as [s1 [e|]]; cbn [fst snd]; run_itree.
  - reflexivity.
  - apply eutt_eq_bind. intros [s2 []]. run_itree. reflexivity.
Qed.

(** [Run] of a consumer returns an error only when the group cannot be created,
    before any session; it ends with nil, the group closed, after the
    session in which the context is cancelled and not before, whatever errors the
    sessions ended with; and it runs for ever when the context never is. *)
Lemma RunGroup_returns cfg s :
  (∀ s1 e, env_new env cfg s = (s1, Some e) →
     run_in env (RunGroup cfg) s ≈ Ret (s1, Err (gc_prefix cfg +:+ ": consumer group: " +:+ e))) ∧
  (∀ s1, env_new env cfg s = (s1, None) →
     (∀ n, goes_on env (gc_topics cfg) n s1 →
        env_cancelled env (sessions env (gc_topics cfg) (Datatypes.S n) s1) = true →
        run_in env (RunGroup cfg) s ≈ Ret (env_close env (sessions env (gc_topics cfg) (Datatypes.S n) s1), Ok tt)) ∧
     ((∀ n, goes_on env (gc_topics cfg) n s1) → run_in env (RunGroup cfg) s ≈ ITree.spin)).
Proof.
  split.
  - intros s1 e Hn. rewrite RunGroup_run, Hn. reflexivity.
  - intros s1 Hn. split.
    + intros n Hon Hc. rewrite RunGroup_run, Hn, consume_loop_stops by done. rewrite bind_ret_l. reflexivity.
    + intros Hon. rewrite RunGroup_run, Hn, consume_loop_diverges by done. apply spin_bind.
Qed.
End GroupLoop.

Section TickLoop.
Context {S : Type} (work : S → S) (σ : Schedule S).
Implicit Types (s : S).

(** The ticker fires at [n] turns from turn [i] on. *)
Definition fires (i n : nat) : Prop := ∀ k, (k < n)%nat → is_Some (σ (i + k)%nat).

Lemma tick_loop_turn i s :
  interp_state (tick_answer work σ) tick_loop (i, s) ≳
  match σ i with
  | Some f => Tau (interp_state (tick_answer work σ) tick_loop (Datatypes.S i, work (f s)))
  | None => Ret (i, s, tt)
  end.
Proof.
  unfold tick_loop at 1. rewrite unfold_iter. unfold tick_turn at 1. run_itree.
  destruct (σ i) as [f|]; cbn [fst snd]; run_itree; [|reflexivity].
  rewrite interp_state_tau. reflexivity.
Qed.

Lemma turns_S i n s f :
  fires i n → σ (i + n)%nat = Some f → turns work σ i (Datatypes.S n) s = work (f (turns work σ i n s)).
Proof.
  revert i s. induction n as [|n IH]; intros i s Hf Hn.
  - rewrite Nat.add_0_r in Hn. cbn. by rewrite Hn.
  - destruct (Hf 0%nat ltac:(lia)) as [g Hg]. rewrite Nat.add_0_r in Hg.
    change (turns work σ i (Datatypes.S (Datatypes.S n)) s)
      with (match σ i with Some f => turns work σ (Datatypes.S i) (Datatypes.S n) (work (f s)) | None => s end).
    change (turns work σ i (Datatypes.S n) s)
      with (match σ i with Some f => turns work σ (Datatypes.S i) n (work (f s)) | None => s end).
    rewrite Hg. apply IH; [|by rewrite Nat.add_succ_l, <- Nat.add_succ_r].
    intros k Hk. rewrite Nat.add_succ_l, <- Nat.add_succ_r. apply Hf. lia.
Qed.

(** Cancelled before turn [i + n], the loop has done the work of [n] turns. *)
Lemma tick_loop_stops i n s :
  fires i n → σ (i + n)%nat = None →
  interp_state (tick_answer work σ) tick_loop (i, s) ≈ Ret ((i + n)%nat, turns work σ i n s, tt).
Proof.
  revert i s. induction n as [|n IH]; intros i s Hf Hn; rewrite tick_loop_turn.
  - rewrite Nat.add_0_r in *. rewrite Hn. reflexivity.
  - destruct (Hf 0%nat ltac:(lia)) as [f Hi]. rewrite Nat.add_0_r in Hi. cbn [turns]. rewrite Hi, tau_eutt, IH.
    + by rewrite Nat.add_succ_l, <- Nat.add_succ_r.
    + intros k Hk. rewrite Nat.add_succ_l, <- Nat.add_succ_r. apply Hf. lia.
    + by rewrite Nat.add_succ_l, <- Nat.add_succ_r.
Qed.

Lemma tick_loop_diverges i s :
  (∀ k, is_Some (σ k)) → interp_state (tick_answer work σ) tick_loop (i, s) ≈ ITree.spin.
Proof.
  intros Hall. revert i s. einit. ecofix CIH. intros i s. destruct (Hall i) as [f Hf].
  rewrite tick_loop_turn, spin_tau, Hf. etau.
Qed.

Lemma poll_loop_stops n s :
  fires 0 n → σ n = None → ticks_in work σ poll_loop s ≈ Ret (n, turns work σ 0 n (work s), tt).
Proof.
  intros Hf Hn. unfold ticks_in, poll_loop. run_itree. by rewrite (tick_loop_stops 0 n).
Qed.
End TickLoop.
