(* ===== verification/ConsumerGroup.v ===== *)
(** * A consumer group against the broker

    What Kafka and [sarama] do between the broker's log and a service's handler:
    partitions with committed offsets, sessions that start from them, and the
    claim loop of the services ([ConsumeClaim]: a message handled without an error
    is marked and committed, a failed one is skipped; a commit may be lost, and the
    next one that gets through makes up for it). A session is played from
    a plan, which says what arrives, in which order the partitions deliver,
    how the session ends and what others do to the service's data meanwhile; the
    theorems hold for every plan. With [consume_loop] of [Loops] this gives the
    whole life of a consumer. *)
From S2P Require Export Messaging Loops.
From ITree Require Import ITreeFacts.

(** A topic's partition. *)
Abbreviation TP := (string * Z)%type.

Section Group.
Context {F D E : Type}.
Implicit Types (log : gmap TP (list (ProducerMessage F))) (tp : TP) (i n : nat).

(** The message at offset [i] of a partition. *)
Definition message_at log tp i : option (ConsumerMessage F) :=
  m ← (log !! tp) ≫= lookup i; Some {| cm := m; Offset := Z.of_nat i |}.

(** Producers append to partition [p] of the message's topic. *)
Definition arrive log (pm : Z * ProducerMessage F) : gmap TP (list (ProducerMessage F)) :=
  let tp := (Topic pm.2, pm.1) in <[tp := default [] (log !! tp) ++ [pm.2]]> log.

(** A session under way: the service's world, the committed offsets, the offsets
    marked in this session, the next offset of each partition that has delivered,
    and all deliveries so far with whether they were handled without an error. *)
Record Progress : Type := {
  pg_world : world D;
  pg_committed : gmap TP nat;
  pg_marked : gmap TP nat;
  pg_next : gmap TP nat;
  pg_seen : list (TP * nat * bool)
}.

(** Where a partition starts in a session. *)
Definition start_at (initial : InitialOffset) log (committed : gmap TP nat) tp : nat :=
  match committed !! tp, initial with
  | Some n, _ => n
  | None, OffsetOldest => 0%nat
  | None, OffsetNewest => length (default [] (log !! tp))
  end.

Definition position (initial : InitialOffset) log (p : Progress) tp : nat :=
  match pg_next p !! tp with Some n => n | None => start_at initial log (pg_committed p) tp end.

Definition succeeded {A} (r : result E A) : bool := match r with Ok _ => true | Err _ => false end.

(** One turn of [for msg := range claim.Messages()] for the claim of [tp.1]: a
    message handled without an error is marked, and [session.Commit()] sends what is
    marked; [tp.2] says whether this reaches the broker, which the code does not learn. *)
Definition deliver (initial : InitialOffset) (handle : ConsumerMessage F → Go D E unit) log (p : Progress) (tpc : TP * bool) : Progress :=
  let '(tp, kept) := tpc in
  let i := position initial log p tp in
  match message_at log tp i with
  | None => p
  | Some msg =>
      let '(w, r) := handle msg (pg_world p) in
      let marked := if succeeded r then <[tp := S i]> (pg_marked p) else pg_marked p in
      {| pg_world := w;
         pg_committed := if succeeded r && kept then marked ∪ pg_committed p else pg_committed p;
         pg_marked := marked;
         pg_next := <[tp := S i]> (pg_next p);
         pg_seen := pg_seen p ++ [(tp, i, succeeded r)] |}
  end.

Record Turn : Type := {
  tn_outside : world D → world D;                  (** others change the data, time passes *)
  tn_arrivals : list (Z * ProducerMessage F);
  tn_deliver : list (TP * bool);                   (** the order in which messages are handed over, and whose commits arrive *)
  tn_err : option string;                          (** what [cg.Consume] returns *)
  tn_cancel : bool                                 (** the context is cancelled meanwhile *)
}.

Record GroupState : Type := {
  gs_log : gmap TP (list (ProducerMessage F));
  gs_committed : gmap TP nat;
  gs_world : world D;
  gs_seen : list (TP * nat * bool);
  gs_turn : nat;
  gs_cancelled : bool;
  gs_closed : bool
}.

(** A session opens at the committed offsets. *)
Definition opening (t : Turn) (s : GroupState) : Progress :=
  {| pg_world := tn_outside t (gs_world s); pg_committed := gs_committed s; pg_marked := ∅; pg_next := ∅; pg_seen := gs_seen s |}.

Definition play (initial : InitialOffset) (handle : ConsumerMessage F → Go D E unit) (topics : list string)
    (t : Turn) (s : GroupState) : GroupState :=
  let log := foldl arrive (gs_log s) (tn_arrivals t) in
  let p := foldl (deliver initial handle log) (opening t s)
    (base.filter (λ tpc, tpc.1.1 ∈ topics) (tn_deliver t)) in
  {| gs_log := log; gs_committed := pg_committed p; gs_world := pg_world p; gs_seen := pg_seen p;
     gs_turn := S (gs_turn s); gs_cancelled := gs_cancelled s || tn_cancel t; gs_closed := gs_closed s |}.

(** The environment of a consumer loop; [refused] is the error with which the
    group cannot be created. *)
Definition group_env (initial : InitialOffset) (handle : ConsumerMessage F → Go D E unit) (plan : nat → Turn)
    (refused : option string) : ConsumerEnv GroupState := {|
  env_new _ s := (s, refused);
  env_consume topics s :=
    (play initial handle topics (plan (gs_turn s)) s, tn_err (plan (gs_turn s)));
  env_cancelled := gs_cancelled;
  env_log := id;
  env_close s := {| gs_log := gs_log s; gs_committed := gs_committed s; gs_world := gs_world s; gs_seen := gs_seen s;
    gs_turn := gs_turn s; gs_cancelled := gs_cancelled s; gs_closed := true |}
|}.
End Group.
Arguments Progress : clear implicits.
Arguments Turn : clear implicits.
Arguments GroupState : clear implicits.

Section GroupLemmas.
Context {F D E : Type} (initial : InitialOffset) (handle : ConsumerMessage F → Go D E unit).
Implicit Types (log : gmap TP (list (ProducerMessage F))) (tp : TP) (i n : nat) (p : Progress D) (s : GroupState F D).

Lemma message_at_Some log tp i msg :
  message_at log tp i = Some msg → ∃ l, log !! tp = Some l ∧ l !! i = Some (cm msg) ∧ Offset msg = Z.of_nat i.
Proof.
  unfold message_at. intros Hm. apply bind_Some in Hm as (m&Hm&[= <-]).
  apply bind_Some in Hm as (l&Hl&Hm). by exists l.
Qed.

Lemma session_play plan refused topics s :
  session (group_env initial handle plan refused) topics s = play initial handle topics (plan (gs_turn s)) s.
Proof. unfold session. cbn [group_env env_consume env_cancelled env_log]. destruct (tn_err _); [by destruct (gs_cancelled _)|done]. Qed.

Lemma arrive_lookup log pm tp l :
  log !! tp = Some l → ∃ more, arrive log pm !! tp = Some (l ++ more).
Proof.
  intros Hl. unfold arrive. destruct (decide (tp = (Topic pm.2, pm.1))) as [->|Hne].
  - rewrite lookup_insert_eq, Hl. by eexists.
  - rewrite lookup_insert_ne by done. exists []. by rewrite app_nil_r.
Qed.

Lemma arrivals_message log pms tp i msg :
  message_at log tp i = Some msg → message_at (foldl arrive log pms) tp i = Some msg.
Proof.
  revert log. induction pms as [|pm pms IH]; intros log Hm; [done|]. cbn. apply IH.
  unfold message_at in *. apply bind_Some in Hm as (m&Hm&Hmsg). apply bind_Some in Hm as (l&Hl&Hm).
  destruct (arrive_lookup log pm tp l Hl) as [more ->]. cbn.
  assert ((l ++ more) !! i = Some m) as -> by (by apply lookup_app_l_Some). done.
Qed.

(** Handing over the next messages of one claim, with all commits reaching the
    broker, is the services' [ConsumeClaim] over them. *)
Lemma deliver_run log tp msgs p w' marked :
  (∀ k msg, msgs !! k = Some msg → message_at log tp (position initial log p tp + k) = Some msg) →
  ConsumeClaim handle msgs (pg_world p) = (w', Ok marked) →
  let p' := foldl (deliver initial handle log) p (replicate (length msgs) (tp, true)) in
  pg_world p' = w' ∧
  pg_committed p' !! tp = match last marked with Some o => Some (S (Z.to_nat o)) | None => pg_committed p !! tp end.
Proof.
  revert p w' marked. induction msgs as [|msg msgs IH]; intros p w' marked Hm Hrun.
  { by injection Hrun as <- <-. }
  cbn [length replicate foldl]. pose proof (Hm 0%nat msg eq_refl) as H0. rewrite Nat.add_0_r in H0.
  cbn [ConsumeClaim] in Hrun. unfold gbind, catch in Hrun. unfold deliver at 2 4. rewrite H0.
  destruct (handle msg (pg_world p)) as [w1 r] eqn:Hh. cbn iota beta in Hrun |- *.
  destruct (ConsumeClaim handle msgs w1) as [w2 [marked2|e2]] eqn:Hrest; [|done].
  match goal with |- context [foldl _ ?q _] => set (p1 := q) end.
  assert (position initial log p1 tp = S (position initial log p tp)) as Hpos.
  { unfold position at 1. cbn. by rewrite lookup_insert_eq. }
  destruct (IH p1 w2 marked2) as [Hw Hc].
  { intros k m Hk. rewrite Hpos, Nat.add_succ_l, <- Nat.add_succ_r. by apply (Hm (S k)). }
  { done. }
  injection Hrun as <- <-. split; [done|]. rewrite Hc.
  apply message_at_Some in H0 as (_&_&_&Hoff). subst p1. destruct r as [[]|]; cbn; [|done].
  rewrite last_cons. destruct (last marked2); [done|].
  erewrite lookup_union_Some_l by apply lookup_insert_eq. by rewrite Hoff, Nat2Z.id.
Qed.
End GroupLemmas.

(** ** What a group that started from the oldest offset has seen *)

Section Delivery.
Context {F D E : Type} (handle : ConsumerMessage F → Go D E unit).
Implicit Types (log : gmap TP (list (ProducerMessage F))) (tp : TP) (i n : nat) (p : Progress D) (s : GroupState F D).

#[local] Abbreviation pos := (position OffsetOldest).

(** Everything before the next offset was handed over, and the last message
    committed was handled. *)
Definition handled_up_to log p tp n : Prop := (n ≤ pos log p tp)%nat ∧ ∃ i, n = S i ∧ (tp, i, true) ∈ pg_seen p.
Definition progress_ok log p : Prop :=
  (∀ tp i, (i < pos log p tp)%nat → ∃ b, (tp, i, b) ∈ pg_seen p) ∧
  (∀ tp n, pg_committed p !! tp = Some n → handled_up_to log p tp n) ∧
  (∀ tp n, pg_marked p !! tp = Some n → handled_up_to log p tp n ∧ (default 0 (pg_committed p !! tp) ≤ n)%nat) ∧
  (∀ tp n, pg_marked p !! tp = Some n → is_Some (pg_next p !! tp)).

(** Deliveries are added from [c0] on only. *)
Definition adds_from log (c0 : gmap TP nat) p p' : Prop :=
  ∃ later, pg_seen p' = pg_seen p ++ later ∧
    ∀ tp i b, (tp, i, b) ∈ later → (default 0%nat (c0 !! tp) ≤ i)%nat.

Lemma deliver_position log p tp kept tp' :
  progress_ok log p →
  pos log (deliver OffsetOldest handle log p (tp, kept)) tp' =
  if decide (tp' = tp) then
    match message_at log tp (pos log p tp) with Some _ => S (pos log p tp) | None => pos log p tp end
  else pos log p tp'.
Proof.
  intros (_&_&_&Hmark). unfold deliver. destruct (message_at _ _ _) as [msg|].
  - destruct (handle msg (pg_world p)) as [w r]. unfold position at 1. cbn.
    destruct (decide (tp' = tp)) as [->|Hne]; [by rewrite lookup_insert_eq|].
    rewrite lookup_insert_ne by done. unfold position, start_at. cbn.
    destruct (pg_next p !! tp') eqn:Hn; [done|]. destruct (pg_marked p !! tp') as [n|] eqn:Hm; [by destruct (Hmark tp' n Hm); congruence|].
    destruct (succeeded r), kept; cbn; try done. by rewrite lookup_union_r by (by rewrite lookup_insert_ne).
  - by destruct (decide (tp' = tp)) as [->|].
Qed.

(** What is committed after a delivery: as before, or marked. *)
Lemma deliver_committed_cases log p tp kept tp' n :
  pg_committed (deliver OffsetOldest handle log p (tp, kept)) !! tp' = Some n →
  pg_committed p !! tp' = Some n ∨ pg_marked (deliver OffsetOldest handle log p (tp, kept)) !! tp' = Some n.
Proof.
  unfold deliver. destruct (message_at _ _ _) as [msg|]; [|auto].
  destruct (handle msg (pg_world p)) as [w r]. cbn. destruct (succeeded r && kept) eqn:Hk; [|auto].
  intros [?|[_ ?]]%lookup_union_Some_raw; auto.
Qed.

Lemma deliver_marked log p tp kept tp' n :
  pg_marked (deliver OffsetOldest handle log p (tp, kept)) !! tp' = Some n →
  pg_marked p !! tp' = Some n ∨ tp' = tp ∧ n = S (pos log p tp) ∧
    pos log (deliver OffsetOldest handle log p (tp, kept)) tp = S (pos log p tp) ∧
    (tp, pos log p tp, true) ∈ pg_seen (deliver OffsetOldest handle log p (tp, kept)).
Proof.
  unfold deliver. destruct (message_at _ _ _) as [msg|]; [|auto].
  destruct (handle msg (pg_world p)) as [w r]. cbn. destruct (succeeded r) eqn:Hr; [|auto].
  rewrite lookup_insert_Some. intros [[<- <-]|[_ ?]]; [right|by left]. split_and!; [done|done| |].
  - unfold position at 1. cbn. by rewrite lookup_insert_eq.
  - rewrite elem_of_app. right. by apply list_elem_of_singleton.
Qed.

Lemma deliver_seen log p tp kept x :
  x ∈ pg_seen p → x ∈ pg_seen (deliver OffsetOldest handle log p (tp, kept)).
Proof.
  unfold deliver. destruct (message_at _ _ _) as [msg|]; [|done].
  destruct (handle msg (pg_world p)) as [w r]. cbn. rewrite elem_of_app. auto.
Qed.

Lemma deliver_handled log p tp kept tp' n :
  progress_ok log p → handled_up_to log p tp' n → handled_up_to log (deliver OffsetOldest handle log p (tp, kept)) tp' n.
Proof.
  intros Hok (Hle&i&->&Hin). split; [|exists i; split; [done|by apply deliver_seen]].
  rewrite deliver_position by done. case_decide as Heq; [subst|done]. destruct (message_at _ _ _); lia.
Qed.

(** A committed offset only grows. *)
Definition committed_le (c c' : gmap TP nat) : Prop :=
  ∀ tp, (default 0 (c !! tp) ≤ default 0 (c' !! tp))%nat.

Lemma deliver_committed log p tpc :
  progress_ok log p → committed_le (pg_committed p) (pg_committed (deliver OffsetOldest handle log p tpc)).
Proof.
  destruct tpc as [tp kept]. intros (_&Hcom&Hmark&_) tp'. unfold deliver. destruct (message_at _ _ _) as [msg|]; [|done].
  destruct (handle msg (pg_world p)) as [w r]. cbn. destruct (succeeded r); [|done]. destruct kept; [|done]. cbn.
  rewrite lookup_union. destruct (<[tp:=S (pos log p tp)]> (pg_marked p) !! tp') as [n|] eqn:Hn; [|by rewrite (left_id_L None _)].
  rewrite union_Some_l. cbn. apply lookup_insert_Some in Hn as [[<- <-]|[_ Hn]]; [|by apply Hmark].
  destruct (pg_committed p !! tp) as [m|] eqn:Hm; cbn; [|lia]. destruct (Hcom tp m Hm). lia.
Qed.

Lemma deliver_ok log p tpc : progress_ok log p → progress_ok log (deliver OffsetOldest handle log p tpc).
Proof.
  destruct tpc as [tp kept]. intros Hok. pose proof Hok as (Hseen&Hcom&Hmark&Hnext). split_and!.
  - intros tp' i. rewrite deliver_position by done. intros Hi.
    destruct (decide (i < pos log p tp')%nat) as [Hlt|Hge]; [destruct (Hseen tp' i Hlt) as [b Hb]; exists b; by apply deliver_seen|].
    case_decide as Heq; [subst|lia]. unfold deliver. destruct (message_at _ _ _) as [msg|]; [|lia].
    assert (i = pos log p tp) as -> by lia. destruct (handle msg (pg_world p)) as [w r].
    exists (succeeded r). cbn. rewrite elem_of_app. right. by apply list_elem_of_singleton.
  - intros tp' n [Hn|[Hn|(->&->&Hp&Hin)]%deliver_marked]%deliver_committed_cases;
      [by apply deliver_handled, Hcom|by apply deliver_handled, Hmark|]. split; [by rewrite Hp|]. by eexists.
  - intros tp' n Hn. split.
    + apply deliver_marked in Hn as [Hn|(->&->&Hp&Hin)]; [by apply deliver_handled, Hmark|].
      split; [by rewrite Hp|]. by eexists.
    + destruct (pg_committed _ !! tp') as [m|] eqn:Hm; cbn; [|lia].
      pose proof Hm as [Hm'|Hm']%deliver_committed_cases; [|rewrite Hm' in Hn; injection Hn as ->; lia].
      apply deliver_marked in Hn as [Hn|(->&->&_)].
      * destruct (Hmark tp' n Hn) as [_ Hle]. by rewrite Hm' in Hle.
      * destruct (Hcom tp m Hm'). lia.
  - intros tp' n Hn. unfold deliver in *. destruct (message_at _ _ _) as [msg|]; [|by eapply Hnext].
    destruct (handle msg (pg_world p)) as [w r]. cbn in *. apply lookup_insert_is_Some'.
    destruct (decide (tp = tp')) as [|Hne]; [by left|right]. destruct (succeeded r); [|by eapply Hnext].
    rewrite lookup_insert_ne in Hn by done. by eapply Hnext.
Qed.

Lemma deliver_adds log c0 p tpc :
  progress_ok log p → (∀ tp, (default 0 (c0 !! tp) ≤ pos log p tp)%nat) →
  adds_from log c0 p (deliver OffsetOldest handle log p tpc) ∧
  (∀ tp', (default 0 (c0 !! tp') ≤ pos log (deliver OffsetOldest handle log p tpc) tp')%nat).
Proof.
  destruct tpc as [tp kept]. intros Hok Hle. split.
  - unfold adds_from, deliver. destruct (message_at _ _ _) as [msg|].
    + destruct (handle msg (pg_world p)) as [w r]. cbn. eexists. split; [done|].
      intros tp' i b Hin. apply list_elem_of_singleton in Hin as [= -> -> _]. apply Hle.
    + exists []. rewrite app_nil_r. split; [done|]. intros ??? Hin. by apply not_elem_of_nil in Hin.
  - intros tp'. rewrite deliver_position by done. specialize (Hle tp'). destruct (decide (tp' = tp)) as [->|]; [|done].
    destruct (message_at _ _ _); lia.
Qed.

Lemma adds_from_refl log c0 p : adds_from log c0 p p.
Proof. exists []. rewrite app_nil_r. split; [done|]. intros ??? Hin. by apply not_elem_of_nil in Hin. Qed.

Lemma adds_from_trans log c0 p1 p2 p3 : adds_from log c0 p1 p2 → adds_from log c0 p2 p3 → adds_from log c0 p1 p3.
Proof.
  intros (l1&H1&Hl1) (l2&H2&Hl2). exists (l1 ++ l2). rewrite H2, H1, app_assoc. split; [done|].
  intros tp i b [Hin|Hin]%elem_of_app; eauto.
Qed.

Lemma deliveries_ok log c0 p tps :
  progress_ok log p → (∀ tp, (default 0 (c0 !! tp) ≤ pos log p tp)%nat) →
  progress_ok log (foldl (deliver OffsetOldest handle log) p tps) ∧
  adds_from log c0 p (foldl (deliver OffsetOldest handle log) p tps).
Proof.
  revert p. induction tps as [|tp tps IH]; intros p Hok Hle; cbn [foldl]; [split; [done|apply adds_from_refl]|].
  destruct (deliver_adds log c0 p tp Hok Hle) as [Hadd Hle'].
  destruct (IH (deliver OffsetOldest handle log p tp) (deliver_ok log p tp Hok) Hle'). split; [done|].
  by eapply adds_from_trans.
Qed.

(** Between sessions. *)
Definition group_ok s : Prop := ∀ tp n, gs_committed s !! tp = Some n →
  (∀ i, (i < n)%nat → ∃ b, (tp, i, b) ∈ gs_seen s) ∧ ∃ i, n = S i ∧ (tp, i, true) ∈ gs_seen s.

Lemma deliveries_committed log p tps :
  progress_ok log p →
  committed_le (pg_committed p) (pg_committed (foldl (deliver OffsetOldest handle log) p tps)).
Proof.
  revert p. induction tps as [|tp tps IH]; intros p Hok tp'; cbn [foldl]; [done|].
  etrans; [by apply (deliver_committed log p tp)|]. apply IH. by apply deliver_ok.
Qed.

Lemma opening_position log t s tp : pos log (opening t s) tp = default 0%nat (gs_committed s !! tp).
Proof. unfold position, start_at. cbn. rewrite lookup_empty. by destruct (gs_committed s !! tp). Qed.

Lemma opening_ok log t s : group_ok s → progress_ok log (opening t s).
Proof.
  intros Hok. split_and!; [| |intros tp n Hn; cbn in Hn; by rewrite lookup_empty in Hn..].
  - intros tp i. rewrite opening_position. destruct (gs_committed s !! tp) as [n|] eqn:Hn; cbn; [|lia].
    by apply (Hok tp n).
  - intros tp n Hn. cbn in Hn. split; [by rewrite opening_position, Hn|]. by apply Hok.
Qed.

(** What a later state has beyond [s]: deliveries from the committed offsets on. *)
Definition follows s s' : Prop :=
  committed_le (gs_committed s) (gs_committed s') ∧
  ∃ later, gs_seen s' = gs_seen s ++ later ∧
    ∀ tp i b, (tp, i, b) ∈ later → (default 0 (gs_committed s !! tp) ≤ i)%nat.

Lemma follows_trans s1 s2 s3 : follows s1 s2 → follows s2 s3 → follows s1 s3.
Proof.
  intros (Hc1&l1&H1&Hl1) (Hc2&l2&H2&Hl2). unfold committed_le in *.
  split; [intros tp; specialize (Hc1 tp); specialize (Hc2 tp); lia|].
  exists (l1 ++ l2). rewrite H2, H1, app_assoc. split; [done|].
  intros tp i b [Hin|Hin]%elem_of_app; [by eapply Hl1|]. etrans; [apply Hc1|]. by eapply Hl2.
Qed.

Lemma play_ok topics t s :
  group_ok s →
  group_ok (play OffsetOldest handle topics t s) ∧ follows s (play OffsetOldest handle topics t s).
Proof.
  intros Hok. unfold play. set (log := foldl arrive (gs_log s) (tn_arrivals t)). set (tps := base.filter _ _).
  pose proof (opening_ok log t s Hok) as Hp0.
  destruct (deliveries_ok log (gs_committed s) (opening t s) tps Hp0) as [(Hseen&Hcom&_) Hadd].
  { intros tp. by rewrite opening_position. }
  split; [|split; [by apply (deliveries_committed log (opening t s))|exact Hadd]].
  intros tp n Hn. destruct (Hcom tp n Hn) as [Hle Hlast]. split; [|done].
  intros i Hi. apply Hseen. lia.
Qed.

Lemma sessions_ok plan refused topics k s :
  group_ok s →
  let s' := sessions (group_env OffsetOldest handle plan refused) topics k s in
  group_ok s' ∧ follows s s'.
Proof.
  revert s. induction k as [|k IH]; intros s Hok; cbn [sessions].
  { split; [done|]. split; [by intros tp|]. exists []. rewrite app_nil_r. split; [done|].
    intros ??? Hin. by apply not_elem_of_nil in Hin. }
  rewrite session_play.
  destruct (play_ok topics (plan (gs_turn s)) s Hok) as [Hok' Hf].
  destruct (IH _ Hok') as [Hok'' Hf']. split; [done|]. by eapply follows_trans.
Qed.
End Delivery.

(** ** Properties *)

Section Properties.
Context {F D E : Type} (handle : ConsumerMessage F → Go D E unit).

Definition new_group (log : gmap TP (list (ProducerMessage F))) (w : world D) : GroupState F D :=
  {| gs_log := log; gs_committed := ∅; gs_world := w; gs_seen := []; gs_turn := 0; gs_cancelled := false; gs_closed := false |}.

(** C18. A consumer group that a service opens, loops on and closes itself (Odds
    Management, Bet History, Settlement), from the oldest offset and with commits by
    hand, whatever arrives, in whatever order the partitions deliver, however often
    sessions end in an error and whichever commits are lost: when the context is
    cancelled in session [k + 1], [Run] returns nil with the group closed; every
    offset below a committed one was handed to the handler, and the last one
    committed was handled without an error (delivery at least once). But a message
    that failed is not retried when the commit of a later one of its partition got
    through: once an offset is committed, nothing below it is delivered in any later
    session. *)
Theorem consumer_group_delivery (cfg : GroupConfig) (plan : nat → Turn F D) log w k :
  let env := group_env (gc_initial cfg) handle plan None in
  let at_ n := sessions env (gc_topics cfg) n (new_group log w) in
  gc_initial cfg = OffsetOldest → gc_autocommit cfg = false →
  goes_on env (gc_topics cfg) k (new_group log w) → gs_cancelled (at_ (S k)) = true →
  run_in env (RunGroup cfg) (new_group log w) ≈ Ret (env_close env (at_ (S k)), Ok tt) ∧
  (∀ n tp c, (n ≤ S k)%nat → gs_committed (at_ n) !! tp = Some c →
     (∀ i, (i < c)%nat → ∃ b, (tp, i, b) ∈ gs_seen (at_ n)) ∧
     (∃ i, c = S i ∧ (tp, i, true) ∈ gs_seen (at_ n)) ∧
     ∃ later, gs_seen (at_ (S k)) = gs_seen (at_ n) ++ later ∧ ∀ i b, (tp, i, b) ∈ later → (c ≤ i)%nat).
Proof.
  intros env at_ Hold _. unfold at_, env in *. clear env at_. rewrite Hold.
  set (env := group_env OffsetOldest handle plan None).
  set (at_ n := sessions env (gc_topics cfg) n (new_group log w)). intros Hon Hc. split.
  { destruct (RunGroup_returns env cfg (new_group log w)) as [_ Hr]. by apply (Hr _ eq_refl). }
  intros n tp c Hn Hcom.
  destruct (sessions_ok handle plan None (gc_topics cfg) n (new_group log w)) as [Hok _]; [done|].
  destruct (Hok tp c Hcom) as [Hseen Hlast]. split; [done|]. split; [done|].
  destruct (sessions_ok handle plan None (gc_topics cfg) (S k - n) (at_ n) Hok) as [_ (_&later&Hl&Hge)].
  unfold at_ in *. rewrite <- sessions_add in Hl. replace (n + (S k - n))%nat with (S k) in Hl by lia.
  exists later. split; [done|]. intros i b Hin. specialize (Hge tp i b Hin). by rewrite Hcom in Hge.
Qed.
End Properties.
