(* ===== verification/System.v ===== *)
(** * The services together

    One state for the whole sportsbook and one step relation for its services:
    a request to Bet Acceptance, a turn of the outbox relay, a message handed to
    one of the consumers, an event published by the feeds, a pass of the status
    warmer, and what the rest of the world does. Every step is the operation of
    the service's own file, run on its part of the state; they share the Kafka
    log, the Redis instances and the wallet as [cmd/*/main.go] connects them. *)
From S2P Require Export OddsCache Settlement BetHistory CatalogService MarketEvent HistoryHttp.
Local Open Scope Z_scope.
Local Open Scope go_scope.

(** ** The state *)

Record Sportsbook (F Ro Rm Rr K W : Type) : Type := {
  sb_accept : BetAcceptance F Ro Rm Rr K W;        (** Bet Acceptance, with the shared Redis instances, Kafka and wallet *)
  sb_odds : list (OddsRow F);                      (** db_odds *)
  sb_catalog : CatalogDB F;                        (** db_catalog *)
  sb_pending : gmap string (PendingBet F);         (** db_settlement *)
  sb_settlements : gmap string SettlementRow;
  sb_history : gmap (string * Z) (BetRow F)        (** db_bet_history *)
}.
Arguments Build_Sportsbook {F Ro Rm Rr K W}.
Arguments sb_accept {F Ro Rm Rr K W} s.
Arguments sb_odds {F Ro Rm Rr K W} s.
Arguments sb_catalog {F Ro Rm Rr K W} s.
Arguments sb_pending {F Ro Rm Rr K W} s.
Arguments sb_settlements {F Ro Rm Rr K W} s.
Arguments sb_history {F Ro Rm Rr K W} s.

Section Parts.
Context {F Ro Rm Rr K W : Type}.
Abbreviation State := (Sportsbook F Ro Rm Rr K W).

Definition set_accept (x : BetAcceptance F Ro Rm Rr K W) (s : State) : State :=
  Build_Sportsbook x (sb_odds s) (sb_catalog s) (sb_pending s) (sb_settlements s) (sb_history s).

Definition accept_part : lens State (BetAcceptance F Ro Rm Rr K W) := Lens sb_accept set_accept.

Definition kafka_part : lens State K :=
  Lens (λ s, ba_kafka (sb_accept s)) (λ x s, set_accept (put kafka x (sb_accept s)) s).

(** The odds service: its database, the catalogue it reads, the producer. *)
Definition odds_part : lens State (OddsService F K) :=
  Lens (λ s, Build_OddsService (sb_odds s) (sb_catalog s) (ba_kafka (sb_accept s)))
       (λ x s, Build_Sportsbook (put kafka (os_kafka x) (sb_accept s)) (os_odds x) (os_catalog x)
          (sb_pending s) (sb_settlements s) (sb_history s)).

Definition cache_part : lens State Ro :=
  Lens (λ s, ba_redisOdds (sb_accept s)) (λ x s, set_accept (put redisOdds x (sb_accept s)) s).

Definition settlement_part : lens State (Settlement F W K) :=
  Lens (λ s, Build_Settlement (sb_pending s) (sb_settlements s) (ba_wallet (sb_accept s)) (ba_kafka (sb_accept s)))
       (λ x s, Build_Sportsbook (put kafka (sc_producer x) (put wallet (sc_wallet x) (sb_accept s))) (sb_odds s)
          (sb_catalog s) (pending_bets x) (settlements x) (sb_history s)).

Definition history_part : lens State (BetHistory F W) :=
  Lens (λ s, Build_BetHistory (sb_history s) (ba_wallet (sb_accept s)))
       (λ x s, Build_Sportsbook (put wallet (bh_wallet x) (sb_accept s)) (sb_odds s) (sb_catalog s)
          (sb_pending s) (sb_settlements s) (bets x)).

Definition catalog_part : lens State (CatalogService F Rm) :=
  Lens (λ s, Build_CatalogService (sb_catalog s) (ba_redisMarket (sb_accept s)))
       (λ x s, Build_Sportsbook (put redisMarket (cs_redis x) (sb_accept s)) (sb_odds s) (cs_db x)
          (sb_pending s) (sb_settlements s) (sb_history s)).
End Parts.

(** ** The steps *)

Section Steps.
Context {F Ro Rm Rr K W : Type} `{FloatOps F} `{Postgres F}.
Context `{RedisClient (bytes F) Ro} `{RedisPipeline string Rm} `{RedisClient string Rr}.
Context `{OffsetApi K} `{SyncProducer F K} `{WalletServiceServer W}.
Abbreviation State := (Sportsbook F Ro Rm Rr K W).
Context (uuid : nat → string) (cfg : Config F).
Implicit Types (w : world State) (msg : ConsumerMessage F).

(** A consumer is handed a message that is in the log, of a topic it subscribed to. *)
Definition delivered w (topics : list string) msg : Prop :=
  cm msg ∈ produced (ba_kafka (sb_accept (db w))) ∧ Topic (cm msg) ∈ topics.

(** The rest: the cashier moves money, the catalogue's consumer and its methods
    change the catalogue and the market statuses, Redis evicts entries, time
    passes, faults come. *)
Definition elsewhere w w' : Prop :=
  let s := db w in let s' := db w' in
  ba_outbox (sb_accept s') = ba_outbox (sb_accept s) ∧
  produced (ba_kafka (sb_accept s')) = produced (ba_kafka (sb_accept s)) ∧
  (∀ t k v, redis_at (ba_redisOdds (sb_accept s')) t k = Some v → redis_at (ba_redisOdds (sb_accept s)) t k = Some v) ∧
  (∀ t k v, redis_at (ba_redisRateLimit (sb_accept s')) t k = Some v →
     redis_at (ba_redisRateLimit (sb_accept s)) t k = Some v) ∧
  sb_odds s' = sb_odds s ∧ sb_pending s' = sb_pending s ∧ sb_settlements s' = sb_settlements s ∧
  sb_history s' = sb_history s.

Inductive sb_step w w' : Prop :=
| sb_PlaceBet req r : zoom accept_part (PlaceBet uuid cfg req) w = (w', r) → sb_step w w'
| sb_publishBatch locked r :
    zoom accept_part (publishBatch outbox_table kafka locked) w = (w', r) → sb_step w w'
| sb_publish_event (e : NormalisedMarketEvent F) r : zoom kafka_part (publish_event e) w = (w', r) → sb_step w w'
| sb_oddsManagement msg r :
    delivered w odds_topics msg → zoom odds_part (handleEvent msg) w = (w', r) → sb_step w w'
| sb_cacheUpdater msg r :
    delivered w [TopicOddsUpdated] msg → zoom cache_part (handleMessage msg) w = (w', r) → sb_step w w'
| sb_settlement msg r :
    delivered w ["market-data-normalised"] msg → zoom settlement_part (handleResult uuid msg) w = (w', r) → sb_step w w'
| sb_betHistory msg r :
    delivered w history_topics msg → zoom history_part (handleBetEvent msg) w = (w', r) → sb_step w w'
| sb_warm r : zoom catalog_part warm w = (w', r) → sb_step w w'
| sb_elsewhere : elsewhere w w' → sb_step w w'.
End Steps.

(** ** From an empty deployment *)

Section Quiet.
Context {F Ro Rm Rr K W : Type} `{FloatOps F} `{Postgres F}.
Context `{RedisClient (bytes F) Ro} `{RedisPipeline string Rm} `{RedisClient string Rr}.
Context `{OffsetApi K} `{SyncProducer F K} `{WalletServiceServer W}.
Abbreviation State := (Sportsbook F Ro Rm Rr K W).
Context (uuid : nat → string) (cfg : Config F).
Implicit Types (w : world State) (b : BetAcceptance F Ro Rm Rr K W).

(** No bet and no price anywhere; the log holds feed events only. *)
Definition no_bets b : Prop :=
  ba_outbox b = ∅ ∧ (∀ t k, redis_at (ba_redisOdds b) t k = None) ∧
  (∀ t k, redis_at (ba_redisRateLimit b) t k = None).
Definition feed_only (k : K) : Prop := ∀ m : ProducerMessage F, m ∈ produced k → Topic m = "market-data-normalised".
Definition quiet (s : State) : Prop :=
  no_bets (sb_accept s) ∧ feed_only (ba_kafka (sb_accept s)) ∧
  sb_odds s = [] ∧ sb_pending s = ∅ ∧ sb_settlements s = ∅ ∧ sb_history s = ∅.

(** The three answers of a request that finds no price. *)
Definition turned_away {A} (r : result betErr A) : Prop :=
  r = Err (ErrOther "market status cache miss") ∨ r = Err ErrMarketNotOpen ∨ r = Err (ErrOther "odds cache miss").

Lemma PlaceBet_turned_away req (c : world (BetAcceptance F Ro Rm Rr K W)) :
  no_bets (db c) →
  wp (PlaceBet uuid cfg req) (λ c' r, no_bets (db c') ∧ turned_away r ∧
    ba_kafka (db c') = ba_kafka (db c) ∧ ba_wallet (db c') = ba_wallet (db c)) c.
Proof.
  intros (Ho&Hp&Hi). unfold PlaceBet, turned_away, no_bets. do 3 go_step.
  eapply wp_mono; [|apply redis_Get_law]. cbn. intros w0 r0 (Hc0&_&Hold0&Hr0).
  destruct r0 as [betID|e0]; [by rewrite Hi in Hr0; discriminate (Hr0 betID eq_refl)|].
  assert (∀ t k, redis_at (db w0) t k = None) as Hi0.
  { intros t k. destruct (redis_at (db w0) t k) eqn:E; [|done]. apply Hold0 in E. congruence. }
  unfold marketAndLimits. go_step. go_step. go_step. go_step.
  eapply wp_mono; [|apply redis_Get_law]. cbn. intros w1 r1 _.
  destruct r1 as [st|]; cbn; [|by eauto 10].
  go_step; [go_step; by eauto 10|]. go_step. go_step. go_step.
  eapply wp_mono; [|apply redis_Get_law]. cbn. intros w2 r2 (_&_&Hold&Hr).
  assert (∀ t k, redis_at (db w2) t k = None) as Hp2.
  { intros t k. destruct (redis_at (db w2) t k) eqn:E; [|done]. apply Hold in E. congruence. }
  destruct r2 as [raw|]; [by rewrite Hp in Hr; discriminate (Hr raw eq_refl)|]. by eauto 10.
Qed.

Lemma publishBatch_quiet locked (c : world (BetAcceptance F Ro Rm Rr K W)) :
  no_bets (db c) →
  wp (publishBatch outbox_table kafka locked) (λ c' _, no_bets (db c') ∧
    produced (ba_kafka (db c')) = produced (ba_kafka (db c)) ∧ ba_wallet (db c') = ba_wallet (db c)) c.
Proof.
  intros (Ho&Hp&Hi). eapply wp_mono; [|apply publishBatch_wp; apply _].
  cbn. intros c' _ (Hfr&_&_&sent&marked&Hprod&_&_&_&Hsent&Hlook).
  cbn in Hsent, Hlook. rewrite Ho in Hsent, Hlook.
  assert (sent = []) as ->.
  { destruct sent as [|[k row] sent]; [done|]. destruct (Hsent k row) as [Hk _]; [by apply list_elem_of_here|].
    by rewrite lookup_empty in Hk. }
  cbn in Hprod. rewrite app_nil_r in Hprod. unfold no_bets.
  assert (ba_wallet (db c') = ba_wallet (db c)) as -> by by apply (Hfr W wallet).
  assert (ba_redisOdds (db c') = ba_redisOdds (db c)) as -> by by apply (Hfr Ro redisOdds).
  assert (ba_redisRateLimit (db c') = ba_redisRateLimit (db c)) as -> by by apply (Hfr Rr redisRateLimit).
  split_and!; try done.
  apply map_eq. intros k. rewrite Hlook, lookup_empty. by case_decide.
Qed.

Lemma eventMessage_topic t (e : NormalisedMarketEvent F) m :
  eventMessage t e = Some m → Topic m = "market-data-normalised".
Proof. unfold eventMessage. destruct (Marshal _) as [data|]; [|done]. by intros [= <-]. Qed.

Lemma publish_event_quiet (e : NormalisedMarketEvent F) (c : world K) :
  feed_only (db c) → wp (publish_event e) (λ c' _, feed_only (db c')) c.
Proof.
  intros Hk. eapply wp_mono; [|apply publish_event_wp]. intros c' _ (_&sent&Hs&Hp) m. rewrite Hp, elem_of_app.
  intros [Hm|Hm]; [auto|]. eapply elem_of_sublist in Hm; [|exact Hs].
  pose proof (eventMessage_topic (clock c) e) as He. revert Hm He. generalize (eventMessage (clock c) e).
  intros [m'|] Hm He; [|by apply not_elem_of_nil in Hm]. apply list_elem_of_singleton in Hm as ->. by apply He.
Qed.

Lemma handleResult_quiet msg (c : world (Settlement F W K)) :
  pending_bets (db c) = ∅ → wp (handleResult uuid msg) (λ c' _, db c' = db c) c.
Proof.
  intros Hp. unfold handleResult. destruct (Unmarshal _ _) as [e|]; [|by go_step].
  go_step; [by go_step|]. do 3 go_step; [by cbn|]. go_step.
  unfold placed_bets. rewrite Hp, map_to_list_empty. by go_step.
Qed.

Lemma warm_quiet (c : world (CatalogService F Rm)) : wp warm (λ c' _, cs_db (db c') = cs_db (db c)) c.
Proof.
  unfold warm. go_step. go_step. go_step; cbn beta iota; [by go_step|].
  destruct (warm_rows (cs_db (db c))); [by go_step|]. do 3 go_step. apply wp_run. intros c1 r1 _. by go_step.
Qed.

Lemma quiet_step w w' : sb_step uuid cfg w w' → quiet (db w) → quiet (db w').
Proof.
  intros Hstep (Hb&Hk&Ho&Hp&Hs&Hh). unfold quiet.
  destruct Hstep as [req r Hm|locked r Hm|e r Hm|msg r [_ Ht] Hm|msg r [Hin Ht] Hm|msg r _ Hm|msg r [_ Ht] Hm|r Hm|He].
  - revert w' r Hm. apply wp_intro. go_step. eapply wp_mono; [|by apply PlaceBet_turned_away].
    cbn. intros c' r (Hb'&_&->&_). by split_and!.
  - revert w' r Hm. apply wp_intro. go_step. eapply wp_mono; [|by apply publishBatch_quiet].
    cbn. intros c' r (Hb'&Hpr&_). unfold feed_only. by rewrite Hpr.
  - revert w' r Hm. apply wp_intro. go_step. eapply wp_mono; [|by apply publish_event_quiet].
    cbn. intros c' r Hk'. by split_and!.
  - unfold zoom in Hm. rewrite handleEvent_ignores in Hm by done. injection Hm as <- _. cbn.
    destruct (db w) as [[] ? ? ? ? ?]. by split_and!.
  - apply Hk in Hin. rewrite Hin in Ht. by apply list_elem_of_singleton in Ht.
  - revert w' r Hm. apply wp_intro. go_step. eapply wp_mono; [|by apply handleResult_quiet].
    cbn. intros c' _ ->. cbn. by destruct (db w) as [[] ? ? ? ? ?].
  - unfold zoom in Hm. rewrite handleBetEvent_ignores in Hm by done. injection Hm as <- _. cbn.
    destruct (db w) as [[] ? ? ? ? ?]. by split_and!.
  - revert w' r Hm. apply wp_intro. go_step. eapply wp_mono; [|apply warm_quiet].
    cbn. intros c' r _. by split_and!.
  - destruct He as (Ho'&Hk'&Hr'&Hi'&->&->&->&->). destruct Hb as (?&Hp0&Hi0).
    unfold no_bets, feed_only. rewrite Ho', Hk'. split_and!; try done; intros t k.
    + destruct (redis_at _ t k) eqn:E; [|done]. apply Hr' in E. congruence.
    + destruct (redis_at _ t k) eqn:E; [|done]. apply Hi' in E. congruence.
Qed.
End Quiet.

(** ** Properties *)

Section Properties.
Context {F Ro Rm Rr K W : Type} `{FloatOps F} `{Postgres F}.
Context `{RedisClient (bytes F) Ro} `{RedisPipeline string Rm} `{RedisClient string Rr}.
Context `{OffsetApi K} `{SyncProducer F K} `{WalletServiceServer W}.
Abbreviation State := (Sportsbook F Ro Rm Rr K W).
Context (uuid : nat → string) (cfg : Config F).
Implicit Types (w : world State).

(** C4. As the services are wired, no bet is ever accepted. Start them on empty
    tables, an empty log and empty Redis instances, whatever the catalogue and
    the wallet hold, and let them run in any order, under any faults, with any
    requests, any feed events and any redeliveries: every later request
    is turned away because its market is unknown, not open or without a price,
    and moves no money; nothing was ever published on [odds-updated] or
    [bet-placed], no price is stored or cached, no bet is queued, settled or
    listed. *)
Theorem no_bet_is_ever_accepted w w' req c r :
  quiet (db w) → rtc (sb_step uuid cfg) w w' →
  zoom accept_part (PlaceBet uuid cfg req) w' = (c, r) →
  turned_away r ∧ ba_wallet (sb_accept (db c)) = ba_wallet (sb_accept (db w')) ∧
  (∀ m, m ∈ produced (ba_kafka (sb_accept (db c))) → Topic m = "market-data-normalised") ∧
  (∀ t k, redis_at (ba_redisOdds (sb_accept (db c))) t k = None) ∧
  ba_outbox (sb_accept (db c)) = ∅ ∧ sb_odds (db c) = [] ∧ sb_settlements (db c) = ∅ ∧ sb_history (db c) = ∅.
Proof.
  intros Hq Hsteps Hm.
  assert (quiet (db w')) as Hq' by (clear Hm; induction Hsteps; eauto using quiet_step).
  pose proof (quiet_step uuid cfg w' c (sb_PlaceBet _ _ _ _ req r Hm) Hq') as ((Ho&Hr&_)&Hk&Hod&_&Hs&Hh).
  destruct Hq' as [Hb _]. split_and!; try done.
  - revert c r Hm Ho Hr Hk Hod Hs Hh. intros c r Hm _ _ _ _ _ _. revert c r Hm. apply wp_intro. go_step.
    eapply wp_mono; [|by apply PlaceBet_turned_away]. by intros c' r (_&?&_).
  - clear Ho Hr Hk Hod Hs Hh. revert c r Hm. apply wp_intro. go_step.
    eapply wp_mono; [|by apply PlaceBet_turned_away]. cbn. by intros c' r (_&_&_&?).
Qed.
End Properties.
