(* ===== verification/Journey.v ===== *)
(** * A price and a bet on their way through the services

    The handlers of [OddsManagement], [OddsCache], [BetFlow], [Outbox],
    [BetHistory] and [HistoryHttp] one after the other: from a feed event to the
    odds of an accepted bet, and from an accepted bet to the page of its user.
    The handlers are called directly; that the dispatchers in front of two
    of them never do so is the subject of [System]. *)
From Stdlib Require Import Ascii.
From S2P Require Export System.
Local Open Scope Z_scope.
Local Open Scope go_scope.

(** ** From the feed to the bet: the price *)

Section Price.
Context {F : Type} `{FloatOps F}.

Lemma decodeOddsUpdated_inv (e e' : OddsUpdatedEvent F) :
  Unmarshal decodeOddsUpdated (Doc (encodeOddsUpdated e)) = Some e' → e' = e.
Proof.
  cbn [Unmarshal encodeOddsUpdated]. unfold decodeOddsUpdated. json_keys. unfold into_float64, into_int64.
  destruct (is_finite (oue_Decimal e)); cbn [mbind option_bind]; [|done]. json_keys.
  destruct (in_int64 (oue_American e)); cbn [mbind option_bind]; [|done]. json_keys.
  destruct (in_int64 (oue_SourceEventOffset e)); cbn [mbind option_bind]; [|done]. json_keys.
  intros [= <-]. by destruct e.
Qed.

(** What the updater reads from the message of a quote. *)
Lemma odds_event_quote marketID off t r (msg : ConsumerMessage F) e :
  cm msg = quote_message marketID off t r → odds_event msg = Some e →
  e = Build_OddsUpdatedEvent marketID (res_ID r) (Decimal r) (American r) off (FormatRFC3339Nano t).
Proof.
  intros Hm. unfold odds_event. rewrite Hm. cbn [quote_message Value].
  intros (e'&He&Hid)%bind_Some. apply decodeOddsUpdated_inv in He. destruct (_ || _); [done|]. by simplify_eq.
Qed.

Definition no_colon (s : string) : Prop := ∀ i, String.get i s ≠ Some ":"%char.
End Price.

Section PriceJourney.
Context {F Ro Rm Rr K Ko W : Type} `{FloatOps F} `{Postgres F} `{SyncProducer F Ko}.
Context `{RedisClient (bytes F) Ro} `{RedisClient string Rm} `{RedisClient string Rr}.
Context `{OffsetApi K} `{WalletServiceServer W} `{!WalletView W} `{!WalletContract W}.
Context (uuid : nat → string) `{!Inj (=) (=) uuid} (cfg : Config F).
Implicit Types (w : world (OddsService F Ko)) (c : world Ro) (b : world (BetAcceptance F Ro Rm Rr K W)).

(** An entry that the updater wrote from the messages of one feed event. *)
Lemma cached_quote feed w w1 res marketID offers msgs c c1 marked t k v :
  quotes (os_catalog (db w)) (Value (cm feed)) = (marketID, offers) →
  produced (os_kafka (db w)) = [] → handleNormalisedFeed feed w = (w1, res) →
  (∀ m, m ∈ msgs → cm m ∈ produced (os_kafka (db w1))) → NoDup (map Offset msgs) →
  (∀ t k, redis_at (db c) t k = None) → cacheConsumeClaim msgs c = (c1, Ok marked) →
  redis_at (db c1) t k = Some v →
  ∃ r, r ∈ offers ∧ k = "odds:" +:+ marketID +:+ ":" +:+ res_ID r ∧
    Unmarshal decodeCachedOdds v = Some {| co_Decimal := Decimal r; co_American := American r;
      co_SourceEventOffset := Offset feed |}.
Proof.
  intros Hq Hempty Hfeed Hin Hnd Hc0 Hrun Hat.
  from_wp (handleNormalisedFeed_wp feed w) at Hfeed as Hf. rewrite Hq in Hf.
  destruct Hf as (_&_&written&sent&rows&Hsent&Hwr&_&_&_&Hp&_). rewrite Hempty in Hp. cbn in Hp.
  from_wp (cacheConsumeClaim_wp msgs c Hnd) at Hrun as Hcache. destruct Hcache as (?&_&_&Horigin).
  destruct (Horigin t k v Hat) as [[Hold _]|(before&msg&after&Hmsgs&(e&He&<-&Hdec)&_&_)]; [by rewrite Hc0 in Hold|].
  assert (msg ∈ msgs) as Hmsg by (rewrite Hmsgs, elem_of_app, elem_of_cons; auto).
  apply Hin in Hmsg. rewrite Hp in Hmsg. apply list_elem_of_In, in_map_iff in Hmsg as (r&Hr&Hrin).
  apply list_elem_of_In in Hrin. exists r.
  apply (odds_event_quote _ _ _ _ _ _ (eq_sym Hr)) in He as ->. split_and!; [|done|exact Hdec].
  eapply elem_of_prefix; [|done]. by eapply elem_of_prefix.
Qed.

(** C3. The price of a bet, from the feed to the receipt: let Odds Management handle
    a feed event, the cache updater consume any of the messages this
    published, in any order and under any faults, into an empty cache, and
    Bet Acceptance accept a bet from that cache, one without a stored idempotency
    key and, like the feed event, on a market whose id holds no colon. Then the bet is
    on the feed event's market, the price it asked for passed the tolerance test
    against the price that Odds Management computed for its selection, and its
    receipt carries exactly that decimal and American price. *)
Theorem accepted_at_offered_price feed w w1 res marketID offers msgs c c1 marked b b1 req resp :
  quotes (os_catalog (db w)) (Value (cm feed)) = (marketID, offers) →
  produced (os_kafka (db w)) = [] → handleNormalisedFeed feed w = (w1, res) →
  (∀ m, m ∈ msgs → cm m ∈ produced (os_kafka (db w1))) → NoDup (map Offset msgs) →
  (∀ t k, redis_at (db c) t k = None) → cacheConsumeClaim msgs c = (c1, Ok marked) →
  ba_redisOdds (db b) = db c1 →
  (∀ t, redis_at (ba_redisRateLimit (db b)) t (idemKeyOf req) = None) → ids_fresh uuid b →
  PlaceBet uuid cfg req b = (b1, Ok resp) →
  no_colon marketID → no_colon (MarketID req) →
  MarketID req = marketID ∧
  ∃ r, r ∈ offers ∧ res_ID r = SelectionID req ∧
    validateOdds req {| co_Decimal := Decimal r; co_American := American r; co_SourceEventOffset := Offset feed |}
      (OddsTolerance cfg) = None ∧
    resp_OddsDecimal resp = Decimal r ∧ resp_OddsAmerican resp = American r.
Proof.
  intros Hq Hempty Hfeed Hin Hnd Hc0 Hrun Hcache Hidem Hids Hplace Hcolon Hcolon'.
  pose proof (PlaceBet_wp uuid cfg (λ _ _, True) req b Hids (cache_sound_trivial _) (λ _ _, I)) as Hwp.
  apply (wp_intro _ _ _ Hwp) in Hplace as (_&_&_&_&Hr).
  destruct Hr as [(betID&Hat&_)|[(odds&(_&(raw&Hraw&Hdec)&Hvalid&_)&_&->&_) _]]; [by rewrite Hidem in Hat|].
  rewrite Hcache in Hraw.
  destruct (cached_quote _ _ _ _ _ _ _ _ _ _ _ _ _ Hq Hempty Hfeed Hin Hnd Hc0 Hrun Hraw) as (r&Hoffer&Hk&Hdec').
  unfold oddsKeyOf in Hk. injection Hk as Hk.
  apply append_colon_inj in Hk as [Hm Hs]; [|done..]. split; [done|]. exists r.
  rewrite Hdec in Hdec'. injection Hdec' as ->. by split_and!.
Qed.
End PriceJourney.

(** ** From the bet to the page *)

Section BetJourney.
Context {F Ro Rm Rr K W Wh : Type} `{FloatOps F} `{Postgres F} `{JwtLibrary}.
Context `{RedisClient (bytes F) Ro} `{RedisClient string Rm} `{RedisClient string Rr}.
Context `{OffsetApi K} `{SyncProducer F K} `{WalletServiceServer W} `{!WalletView W} `{!WalletContract W}.
Context `{WalletServiceServer Wh}.
Context (uuid : nat → string) `{!Inj (=) (=) uuid} (cfg : Config F).
Implicit Types (b : world (BetAcceptance F Ro Rm Rr K W)) (h : world (BetHistory F Wh)).

(** The row of a new bet is the only one with its identifier. *)
Lemma row_of_new_bet req odds s b b1 k row :
  ids_fresh uuid b → new_row uuid req odds s b b1 →
  ba_outbox (db b1) !! k = Some row → BetID row = uuid (fresh b) →
  buildBetPlacedPayload (uuid (fresh b)) req odds (clock b) = Some (Payload row).
Proof.
  intros Hids (payload&Hp&Ho). rewrite Ho, lookup_insert_Some. intros [[_ <-]|[_ Hold]] Hid; [done|].
  destruct (Hids (fresh b)) as (_&_&Hbets); [done|]. by destruct (Hbets k row Hold).
Qed.

(** A message that a batch of the relay adds for a bet carries the bet's event. *)
Lemma relayed_message locked req odds s b b1 b2 res m :
  ids_fresh uuid b → new_row uuid req odds s b b1 →
  publishBatch outbox_table kafka locked b1 = (b2, res) →
  m ∈ produced (ba_kafka (db b2)) → m ∉ produced (ba_kafka (db b1)) →
  ("bet_id", uuid (fresh b)) ∈ Headers m →
  ∃ k row, m = row_message (k, row) ∧
    buildBetPlacedPayload (uuid (fresh b)) req odds (clock b) = Some (Payload row).
Proof.
  intros Hids Hnew Hbatch Hm Hold Hhead.
  from_wp (publishBatch_wp outbox_table kafka locked b1) at Hbatch as Heff.
  destruct Heff as (_&_&_&sent&_&Hp&_&_&_&Hsent&_). cbn in Hp, Hsent. rewrite Hp, elem_of_app in Hm.
  destruct Hm as [?|Hm]; [done|].
  apply list_elem_of_In, in_map_iff in Hm as ([k row]&<-&Hin). apply list_elem_of_In in Hin.
  exists k, row. split; [done|]. destruct (Hsent k row Hin) as (Hrow&_).
  eapply row_of_new_bet; [done|done|exact Hrow|].
  cbn in Hhead. rewrite !elem_of_cons, elem_of_nil in Hhead. destruct Hhead as [[= ->]|[Hh|[]]]; [done|discriminate Hh].
Qed.

End BetJourney.
