(* ===== verification/Money.v ===== *)
(** * What betting does to money

    The services of [System] once more, now with the handlers of Odds Management
    and Bet History called on any message, as they would be under the right topic
    names, and with the cashier's calls among the steps. A small frame logic
    ([preserves]) carries a relation between the states before and after through a
    method. The theorem: taking a bet, settling it and recording it move a user's
    money between available and bets in flight, and never change the sum, which
    only the cashier changes. *)
From S2P Require Export System.
Local Open Scope Z_scope.
Local Open Scope go_scope.

(** ** Methods that keep a relation *)

Section Preserves.
Context {D : Type} (R : relation D) `{!PreOrder R}.

(** Whatever [m] answers, its final state is related to the initial one. *)
Definition preserves {E A} (m : Go D E A) : Prop := ∀ w, wp m (λ w' _, R (db w) (db w')) w.

Lemma preserves_ret {E A} (a : A) : preserves (E:=E) (ret a).
Proof. intros w. by go_step. Qed.
Lemma preserves_throw {E A} (e : E) : preserves (A:=A) (throw e).
Proof. intros w. by go_step. Qed.
Lemma preserves_now {E} : preserves (E:=E) now.
Proof. intros w. by go_step. Qed.
Lemma preserves_newID {E} name : preserves (E:=E) (newID name).
Proof. intros w. by go_step. Qed.
Lemma preserves_queryRow {A} (f : D → option A) : preserves (queryRow f).
Proof. intros w. by go_step. Qed.

Lemma preserves_exec (f : D → option D) : (∀ s s', f s = Some s' → R s s') → preserves (exec f).
Proof. intros Hf w. go_step; [done|]. cbn. destruct (f (db w)) eqn:E; cbn; [by apply Hf|done]. Qed.

Lemma preserves_bind {E A B} (m : Go D E A) (k : A → Go D E B) :
  preserves m → (∀ a, preserves (k a)) → preserves (gbind m k).
Proof.
  intros Hm Hk w. go_step. eapply wp_mono; [|apply Hm]. intros w1 [a|e] H1; [|done].
  eapply wp_mono; [|apply Hk]. intros w2 r H2. by etrans.
Qed.

Lemma preserves_catch {E E' A} (m : Go D E A) : preserves m → preserves (catch (E':=E') m).
Proof. intros Hm w. go_step. apply Hm. Qed.

Lemma preserves_mapErr {E E' A} (f : E → E') (m : Go D E A) : preserves m → preserves (mapErr f m).
Proof. intros Hm w. go_step. eapply wp_mono; [|apply Hm]. by intros w' []. Qed.

Lemma preserves_forM {E A} (xs : list A) (body : A → Go D E unit) :
  (∀ x, preserves (body x)) → preserves (forM_ xs body).
Proof. intros Hb. induction xs; cbn; [apply preserves_ret|by apply preserves_bind]. Qed.

(** A method of a part: any method when writing the part is harmless, else one
    that keeps the part's own relation. *)
Lemma preserves_elsewhere {X E A} (l : lens D X) (m : Go X E A) :
  (∀ s x, R s (put l x s)) → preserves (zoom l m).
Proof. intros Hl w. go_step. apply wp_run. intros w' r _. apply Hl. Qed.

Lemma preserves_run {E A} (m : Go D E A) w w' r : preserves m → m w = (w', r) → R (db w) (db w').
Proof. intros Hm Hr. specialize (Hm w). unfold wp in Hm. by rewrite Hr in Hm. Qed.
End Preserves.

Lemma preserves_zoom {D X E A} (R : relation D) (R' : relation X) (l : lens D X) (m : Go X E A) :
  preserves R' m → (∀ s x, R' (view l s) x → R s (put l x s)) → preserves R (zoom l m).
Proof. intros Hm Hl w. go_step. eapply wp_mono; [|apply Hm]. intros w' r Hr. by apply Hl. Qed.

(** One rule per construct; writes of a part that cannot matter are dismissed. *)
Ltac preserve_step :=
  lazymatch goal with
  | |- preserves _ (gbind _ _) => apply preserves_bind; [apply _| |intros ?]
  | |- preserves _ (ret _) => apply preserves_ret; apply _
  | |- preserves _ (throw _) => apply preserves_throw; apply _
  | |- preserves _ now => apply preserves_now; apply _
  | |- preserves _ (newID _) => apply preserves_newID; apply _
  | |- preserves _ (queryRow _) => apply preserves_queryRow; apply _
  | |- preserves _ (catch _) => apply preserves_catch
  | |- preserves _ (mapErr _ _) => apply preserves_mapErr
  | |- preserves _ (forM_ _ _) => apply preserves_forM; [apply _|intros ?]
  | |- preserves _ (if ?b then _ else _) => destruct b
  | |- preserves _ (match ?x with _ => _ end) => destruct x
  | |- preserves _ (zoom _ _) => apply preserves_elsewhere; solve [done]
  end.

(** ** Totals *)

Section Totals.
Context {W : Type} `{WalletView W}.
Implicit Types (d : W) (u : string).

(** What a user owns: available and in flight. *)
Definition total d u : option Z := (λ p, p.1 + p.2) <$> account d u.

Definition same_totals : relation W := λ d d', ∀ u, total d' u = total d u.

#[export] Instance same_totals_preorder : PreOrder same_totals.
Proof. split; [done|]. intros d1 d2 d3 H1 H2 u. by rewrite H2. Qed.

Lemma deduct_same_totals req d d' : deduct_effect req d d' → same_totals d d'.
Proof.
  intros (a&f&Ha&_&Ha'&_&Hother&_) u. unfold total.
  destruct (decide (u = ded_UserId req)) as [->|Hne]; [|by rewrite Hother].
  rewrite Ha, Ha'. cbn. f_equal. lia.
Qed.

Lemma credit_same_totals req d d' : credit_effect req d d' → same_totals d d'.
Proof.
  intros (Hself&Hother&_) u. unfold total.
  destruct (decide (u = cred_UserId req)) as [->|Hne]; [|by rewrite Hother].
  rewrite Hself. destruct (account d (cred_UserId req)); cbn; [|done]. f_equal. lia.
Qed.

(** What a cashier call has booked between [d] and [d']: its amount, or nothing when
    it failed or the transaction id was known. *)
Definition booked (req : CashierRequest) (sign : Z) d d' : list (string * Z) :=
  if negb (known d (cash_TransactionId req)) && known d' (cash_TransactionId req)
  then [(cash_UserId req, sign * GetAmountMinor (cash_Amount req))] else [].
Definition net_of (moves : list (string * Z)) u : Z :=
  foldr (λ m n, (if (m.1 =? u)%string then m.2 else 0) + n) 0 moves.
Definition owns d u : Z := default 0 (total d u).

Lemma once_booked req sign effect ok d d' u :
  once (cash_TransactionId req) effect d d' ok →
  (effect d d' → known d' (cash_TransactionId req) = true ∧
     owns d' u = owns d u + (if (cash_UserId req =? u)%string then sign * GetAmountMinor (cash_Amount req) else 0)) →
  owns d' u = owns d u + net_of (booked req sign d d') u.
Proof.
  intros Ho He. unfold booked. destruct (known d _) eqn:Hk.
  - assert (d' = d) as -> by (unfold once in Ho; rewrite Hk in Ho; destruct ok; naive_solver). cbn. lia.
  - assert (d' = d ∨ effect d d') as [->|[Hk' Hown]%He] by (unfold once in Ho; rewrite Hk in Ho; destruct ok; naive_solver).
    + rewrite Hk. cbn. lia.
    + rewrite Hk'. cbn. rewrite Hown. lia.
Qed.

Lemma cashier_known req d d' : cashier_effect req d d' → known d' (cash_TransactionId req) = true.
Proof. intros (_&_&Hk). by rewrite Hk, bool_decide_true. Qed.

Lemma owns_other d d' u : account d' u = account d u → owns d' u = owns d u.
Proof. intros Ha. unfold owns, total. by rewrite Ha. Qed.

Lemma deposit_booked req ok d d' u :
  once (cash_TransactionId req) (deposit_effect req) d d' ok → owns d' u = owns d u + net_of (booked req 1 d d') u.
Proof.
  intros Ho. eapply once_booked; [exact Ho|]. intros [Ha Hc]. split; [by eapply cashier_known|].
  destruct (String.eqb_spec (cash_UserId req) u) as [<-|Hne]; [|rewrite (owns_other d d' u); [lia|by apply Hc, not_eq_sym]].
  unfold owns, total. rewrite Ha. destruct (account d _) as [[a f]|]; cbn; lia.
Qed.

Lemma withdraw_booked req ok d d' u :
  once (cash_TransactionId req) (withdraw_effect req) d d' ok → owns d' u = owns d u + net_of (booked req (-1) d d') u.
Proof.
  intros Ho. eapply once_booked; [exact Ho|]. intros (a&f&Ha&_&Ha'&Hc). split; [by eapply cashier_known|].
  destruct (String.eqb_spec (cash_UserId req) u) as [<-|Hne]; [|rewrite (owns_other d d' u); [lia|by apply Hc, not_eq_sym]].
  unfold owns, total. rewrite Ha, Ha'. cbn. lia.
Qed.

Context `{WalletServiceServer W} `{!WalletContract W}.

Lemma limits_same_totals req : preserves same_totals (wallet_GetUserLimits (D:=W) req).
Proof. intros w. eapply wp_mono; [|apply limits_read_only]. cbn. by intros w' r (->&_). Qed.

Lemma deduct_preserves req : preserves same_totals (wallet_DeductBalance (D:=W) req).
Proof.
  intros w. eapply wp_mono; [|apply deduct_contract]. cbn. intros w' [resp|e] (_&_&Hr).
  - destruct (known _ _); [by rewrite Hr|by eapply deduct_same_totals].
  - destruct Hr as [->|[_ Hr]]; [done|by eapply deduct_same_totals].
Qed.

Lemma credit_preserves req : preserves same_totals (wallet_CreditBalance (D:=W) req).
Proof.
  intros w. eapply wp_mono; [|apply credit_contract]. cbn. intros w' [resp|e] (_&_&Hr).
  - by eapply credit_same_totals.
  - destruct Hr as [->|Hr]; [done|by eapply credit_same_totals].
Qed.

Lemma confirm_preserves req : preserves same_totals (wallet_ConfirmTransaction (D:=W) req).
Proof.
  intros w. eapply wp_mono; [|apply confirm_contract]. cbn. intros w' r (_&_&Ha&_) u. unfold total. by rewrite Ha.
Qed.
End Totals.

(** ** The services *)

Section Services.
Context {F Ro Rm Rr K W : Type} `{FloatOps F} `{Postgres F}.
Context `{RedisClient (bytes F) Ro} `{RedisPipeline string Rm} `{RedisClient string Rr}.
Context `{OffsetApi K} `{SyncProducer F K}.
Context `{WalletServiceServer W} `{!WalletView W} `{!WalletContract W}.
Abbreviation State := (Sportsbook F Ro Rm Rr K W).
Context (uuid : nat → string) (cfg : Config F).

Definition wallet_of (s : State) : W := ba_wallet (sb_accept s).

(** A relation on the wallet, seen from a larger state. *)
#[local] Abbreviation accept_totals :=
  (λ s s' : BetAcceptance F Ro Rm Rr K W, same_totals (ba_wallet s) (ba_wallet s')).
#[local] Abbreviation settlement_totals :=
  (λ s s' : Settlement F W K, same_totals (sc_wallet s) (sc_wallet s')).
#[local] Abbreviation history_totals :=
  (λ s s' : BetHistory F W, same_totals (bh_wallet s) (bh_wallet s')).
Definition keeps_totals : relation State := λ s s', same_totals (wallet_of s) (wallet_of s').

#[local] Instance accept_totals_preorder : PreOrder accept_totals.
Proof. split; [by intros s u|]. intros ??? Hx Hy. cbn in *. by etrans. Qed.
#[local] Instance settlement_totals_preorder : PreOrder settlement_totals.
Proof. split; [by intros s u|]. intros ??? Hx Hy. cbn in *. by etrans. Qed.
#[local] Instance history_totals_preorder : PreOrder history_totals.
Proof. split; [by intros s u|]. intros ??? Hx Hy. cbn in *. by etrans. Qed.
#[export] Instance keeps_totals_preorder : PreOrder keeps_totals.
Proof. split; [by intros s u|]. intros ??? Hx Hy. unfold keeps_totals in *. by etrans. Qed.

Lemma PlaceBet_keeps_totals req : preserves accept_totals (PlaceBet uuid cfg req).
Proof.
  unfold PlaceBet, marketAndLimits, check, lagCheck, IsLagging, cachedLag, fetchLag, reserveAndQueue,
    writeOutboxPending, markOutboxReady, cancelOutbox.
  repeat preserve_step; (eapply preserves_zoom; [|by intros ???]).
  - apply limits_same_totals.
  - apply deduct_preserves.
Qed.

Lemma publishBatch_keeps_totals locked :
  preserves accept_totals (publishBatch (D:=BetAcceptance F Ro Rm Rr K W) outbox_table kafka locked).
Proof.
  intros w. eapply wp_mono; [|apply publishBatch_wp; apply _]. cbn. intros w' _ (Hfr&_).
  assert (ba_wallet (db w') = ba_wallet (db w)) as -> by by apply (Hfr W wallet). done.
Qed.

Lemma insertSettlement_wallet betID row (s s' : Settlement F W K) :
  insertSettlement betID row s = Some s' → sc_wallet s' = sc_wallet s.
Proof. unfold insertSettlement. intros Hs. repeat case_match; by simplify_eq. Qed.

Lemma handleResult_keeps_totals msg : preserves settlement_totals (handleResult uuid msg).
Proof.
  unfold handleResult, settleBet.
  repeat preserve_step.
  - apply preserves_exec; [apply _|]. intros s s' ->%insertSettlement_wallet. done.
  - eapply preserves_zoom; [apply credit_preserves|by intros ???].
Qed.

Lemma insertBet_wallet betID t row (s s' : BetHistory F W) :
  insertBet betID t row s = Some s' → bh_wallet s' = bh_wallet s.
Proof.
  unfold insertBet. intros (odds&_&Hs)%bind_Some. repeat case_match; by simplify_eq.
Qed.

Lemma handleBetPlaced_keeps_totals msg : preserves history_totals (BetHistory.handleBetPlaced msg).
Proof.
  unfold BetHistory.handleBetPlaced. repeat preserve_step.
  - apply preserves_exec; [apply _|]. intros s s' ->%insertBet_wallet. done.
  - eapply preserves_zoom; [apply confirm_preserves|by intros ???].
Qed.

Lemma updateBets_keeps_totals betID f : preserves history_totals (exec (updateBets (F:=F) betID f)).
Proof. apply preserves_exec; [apply _|]. by intros s s' [= <-]. Qed.

Lemma handleBetSettled_keeps_totals msg : preserves history_totals (handleBetSettled msg).
Proof. unfold handleBetSettled. repeat preserve_step. apply updateBets_keeps_totals. Qed.

Lemma handleBetVoided_keeps_totals msg : preserves history_totals (handleBetVoided msg).
Proof. unfold handleBetVoided. repeat preserve_step. apply updateBets_keeps_totals. Qed.

(** *** The steps *)

(** Every operation of the services on any message, and whatever leaves the
    accounts alone. *)
Inductive betting_step (w w' : world State) : Prop :=
| bet_PlaceBet req r : zoom accept_part (PlaceBet uuid cfg req) w = (w', r) → betting_step w w'
| bet_publishBatch locked r :
    zoom accept_part (publishBatch outbox_table kafka locked) w = (w', r) → betting_step w w'
| bet_publish_event (e : NormalisedMarketEvent F) r : zoom kafka_part (publish_event e) w = (w', r) → betting_step w w'
| bet_price msg r : zoom odds_part (handleNormalisedFeed msg) w = (w', r) → betting_step w w'
| bet_liability msg r : zoom odds_part (OddsManagement.handleBetPlaced msg) w = (w', r) → betting_step w w'
| bet_cacheUpdater msg r : zoom cache_part (handleMessage msg) w = (w', r) → betting_step w w'
| bet_result msg r : zoom settlement_part (handleResult uuid msg) w = (w', r) → betting_step w w'
| bet_recorded msg r : zoom history_part (BetHistory.handleBetPlaced msg) w = (w', r) → betting_step w w'
| bet_settled msg r : zoom history_part (handleBetSettled msg) w = (w', r) → betting_step w w'
| bet_voided msg r : zoom history_part (handleBetVoided msg) w = (w', r) → betting_step w w'
| bet_warm r : zoom catalog_part warm w = (w', r) → betting_step w w'
| bet_elsewhere : (∀ u, account (wallet_of (db w')) u = account (wallet_of (db w)) u) → betting_step w w'.

Lemma betting_step_keeps_totals w w' : betting_step w w' → keeps_totals (db w) (db w').
Proof.
  intros [req r Hm|locked r Hm|e r Hm|msg r Hm|msg r Hm|msg r Hm|msg r Hm|msg r Hm|msg r Hm|msg r Hm|r Hm|Ha];
    try (eapply preserves_run; [|exact Hm]; preserve_step).
  - eapply preserves_run, Hm. eapply preserves_zoom; [apply PlaceBet_keeps_totals|by intros ???].
  - eapply preserves_run, Hm. eapply preserves_zoom; [apply publishBatch_keeps_totals|by intros ???].
  - eapply preserves_run, Hm. eapply preserves_zoom; [apply handleResult_keeps_totals|by intros ???].
  - eapply preserves_run, Hm. eapply preserves_zoom; [apply handleBetPlaced_keeps_totals|by intros ???].
  - eapply preserves_run, Hm. eapply preserves_zoom; [apply handleBetSettled_keeps_totals|by intros ???].
  - eapply preserves_run, Hm. eapply preserves_zoom; [apply handleBetVoided_keeps_totals|by intros ???].
  - intros u. unfold total. by rewrite Ha.
Qed.

(** *** Runs, with the cashier *)

Definition wallet_part : lens State W := Lens wallet_of (λ x s, set_accept (put wallet x (sb_accept s)) s).

(** A run, with what the cashier has booked in it. *)
Inductive money_run : world State → list (string * Z) → world State → Prop :=
| run_nil w : money_run w [] w
| run_betting w w1 w2 moves : betting_step w w1 → money_run w1 moves w2 → money_run w moves w2
| run_deposit req r w w1 w2 moves :
    zoom wallet_part (wallet_Deposit req) w = (w1, r) → money_run w1 moves w2 →
    money_run w (booked req 1 (wallet_of (db w)) (wallet_of (db w1)) ++ moves) w2
| run_withdraw req r w w1 w2 moves :
    zoom wallet_part (wallet_Withdraw req) w = (w1, r) → money_run w1 moves w2 →
    money_run w (booked req (-1) (wallet_of (db w)) (wallet_of (db w1)) ++ moves) w2.

Lemma net_of_app l1 l2 u : net_of (l1 ++ l2) u = net_of l1 u + net_of l2 u.
Proof. unfold net_of. induction l1 as [|m l1 IH]; cbn [app foldr]; [lia|]. rewrite IH. lia. Qed.

Lemma cashier_books {E} (m : Go W status E) id effect w w1 r :
  (∀ c, wp m (λ c' r, clock c' = clock c ∧ fresh c' = fresh c ∧ once id effect (db c) (db c') (is_ok r)) c) →
  zoom wallet_part m w = (w1, r) → once id effect (wallet_of (db w)) (wallet_of (db w1)) (is_ok r).
Proof.
  intros Hm. revert w1 r. apply (wp_intro _ (λ w1 r, once id effect (wallet_of (db w)) (wallet_of (db w1)) (is_ok r))).
  go_step. eapply wp_mono; [|apply Hm]. cbn. intros c r (_&_&Ho). exact Ho.
Qed.

Lemma money_run_owns w moves w' u :
  money_run w moves w' → owns (wallet_of (db w')) u = owns (wallet_of (db w)) u + net_of moves u.
Proof.
  induction 1 as [w|w w1 w2 moves Hs _ IH|req r w w1 w2 moves Hs _ IH|req r w w1 w2 moves Hs _ IH]; rewrite ?net_of_app.
  - cbn. lia.
  - apply betting_step_keeps_totals in Hs. specialize (Hs u). rewrite IH. unfold owns. by rewrite Hs.
  - pose proof (cashier_books _ _ (deposit_effect req) _ _ _ (deposit_contract req) Hs) as Ho.
    rewrite IH, (deposit_booked _ _ _ _ u Ho). lia.
  - pose proof (cashier_books _ _ (withdraw_effect req) _ _ _ (withdraw_contract req) Hs) as Ho.
    rewrite IH, (withdraw_booked _ _ _ _ u Ho). lia.
Qed.

(** ** Properties *)

(** C5. Betting never changes what a user owns. Whatever the services do, in any
    order, on any messages, with any redeliveries and under any faults, the sum of
    available money and bets in flight of every user changes by what the cashier
    has booked for them, and by nothing else: nobody can win and nobody can lose
    by betting. In particular a result under which all placed bets of a user lose
    leaves both parts of their account as they were. *)
Theorem no_bet_changes_a_total w moves w' :
  money_run w moves w' →
  (∀ u, owns (wallet_of (db w')) u = owns (wallet_of (db w)) u + net_of moves u) ∧
  (∀ msg event u c r,
     Unmarshal decodeResultEvent (Value (cm msg)) = Some event → re_EventType event = "market.resulted" →
     (∀ k bet, sb_pending (db w') !! k = Some bet → pb_MarketID bet = re_MarketID event → pb_UserID bet = u →
        pb_SelectionID bet ≠ re_SelectionID event) →
     zoom settlement_part (handleResult uuid msg) w' = (c, r) →
     account (wallet_of (db c)) u = account (wallet_of (db w')) u).
Proof.
  intros Hrun. split; [intros u; by apply money_run_owns|].
  - intros msg event u c r Hdec Hty Hlose. revert c r.
    apply (wp_intro _ (λ c _, account (wallet_of (db c)) u = account (wallet_of (db w')) u)). go_step.
    eapply wp_mono; [|by apply (losers_keep_their_account uuid msg event u)]. by intros c' r Hc.
Qed.
End Services.
