(* ===== verification/JourneyExamples.v ===== *)
(** * Concrete journeys

    The theorems of [System] and [Journey] on a sportsbook with one NBA game,
    over the reference caches, broker and wallet and machine floats: a feed event
    that nobody prices, the same event priced, cached and bet on, and a bet that
    reaches the page of its user. *)
From S2P Require Import Wallet BetFlowExamples Journey Money.
Local Open Scope Z_scope.

#[local] Existing Instance even_platform.
#[local] Existing Instance ex_numeric.
#[local] Existing Instance toy_jwt.

Abbreviation Book :=
  (Sportsbook binary64 (RedisMap (bytes binary64)) (RedisMap string) (RedisMap string) Broker WalletDB).

Definition ex_now : Z := 1772368245120000.
Definition ex_later : Z := ex_now + 3600 * second_us.

(** The request of Ann on the even market of [ex_prices], at the price [p]. *)
Definition ex_even_req (p : binary64) : PlaceBetRequest binary64 := {|
  IdempotencyKey := "k1"; UserID := "ann"; MarketID := "m1"; MarketName := "Moneyline";
  SelectionID := "m1-0"; SelectionName := "yes"; RequestedOddsDecimal := p;
  RequestedOddsAmerican := -110; StakeMinor := 300; req_Currency := "USD" |}.

Definition ex_broker : Broker := ({| ends := ∅; group_offsets := ∅ |}, []).

(** Ann's wallet, the game's market open, nothing priced. *)
Definition ex_book : Book := Build_Sportsbook
  (Build_BetAcceptance ∅ ∅ ∅ ∅ ex_broker ex_wallet) [] ex_prices ∅ ∅ ∅.
Definition ex_start : world Book := World ex_book ex_now 0 [].

(** ** Nobody prices the game *)

Definition ex_price_notice : NormalisedMarketEvent binary64 := marketNotice "price.update" "polymarket" "m1".
Definition ex_warmed : world Book := (zoom catalog_part warm ex_start).1.
Definition ex_fed : world Book := (zoom kafka_part (publish_event ex_price_notice) ex_warmed).1.
Definition ex_notice : ConsumerMessage binary64 :=
  {| cm := List.hd (Build_ProducerMessage "" "" (Garbage "") []) (produced (ba_kafka (sb_accept (db ex_fed)))); Offset := 0 |}.
Definition ex_consumed : world Book := (zoom odds_part (handleEvent ex_notice) ex_fed).1.
Definition ex_turned_away := zoom accept_part (PlaceBet ex_uuid DefaultConfig (ex_even_req (lit 2 1))) ex_consumed.

Lemma ex_book_quiet : quiet (db ex_start).
Proof.
  split_and!; try done; try (intros t k; cbn; unfold redis_live; by rewrite lookup_empty).
  intros m Hm. by apply not_elem_of_nil in Hm.
Qed.

Lemma ex_book_steps : rtc (sb_step ex_uuid DefaultConfig) ex_start ex_consumed.
Proof.
  eapply rtc_l; [|eapply rtc_l; [|eapply rtc_l; [|apply rtc_refl]]].
  - eapply (sb_warm _ _ ex_start ex_warmed), surjective_pairing.
  - eapply (sb_publish_event _ _ ex_warmed ex_fed ex_price_notice), surjective_pairing.
  - eapply (sb_oddsManagement _ _ ex_fed ex_consumed ex_notice), surjective_pairing.
    assert (produced (ba_kafka (sb_accept (db ex_fed))) = [cm ex_notice]) as Hlog by (vm_compute; reflexivity).
    split; [rewrite Hlog; apply list_elem_of_here|]. apply list_elem_of_In. vm_compute. by left.
Qed.

Lemma no_bet_is_ever_accepted_witness :
  ex_turned_away.2 = Err (ErrOther "odds cache miss") ∧ turned_away ex_turned_away.2 ∧
  length (produced (ba_kafka (sb_accept (db ex_turned_away.1)))) = 1%nat.
Proof.
  split; [vm_compute; reflexivity|]. split; [|vm_compute; reflexivity].
  exact (proj1 (no_bet_is_ever_accepted ex_uuid DefaultConfig ex_start ex_consumed (ex_even_req (lit 2 1))
    ex_turned_away.1 ex_turned_away.2 ex_book_quiet ex_book_steps (surjective_pairing _))).
Defined.

(** ** The same event, priced, cached and bet on *)

Definition ex_priced := handleNormalisedFeed ex_feed_msg (ex_odds_world []).
Definition ex_offers : list (SelectionResult binary64) :=
  (quotes (os_catalog (db (ex_odds_world []))) (Value (cm ex_feed_msg))).2.
Definition ex_updates : list (ConsumerMessage binary64) :=
  imap (λ i m, {| cm := m; Offset := Z.of_nat i |}) (os_kafka (db ex_priced.1)).
Definition ex_cold : world (RedisMap (bytes binary64)) := World ∅ ex_now 0 [].
Definition ex_filled := cacheConsumeClaim ex_updates ex_cold.
Definition ex_open (odds : RedisMap (bytes binary64)) : world Bets :=
  World (Build_BetAcceptance ∅ odds {[ "market:status:m1" := ("OPEN", ex_later) ]} ∅ ex_broker ex_wallet) ex_now 0 [].
Definition ex_offered_price : binary64 := match ex_offers with r :: _ => Decimal r | [] => lit 0 1 end.
Definition ex_receipt := PlaceBet ex_uuid DefaultConfig (ex_even_req ex_offered_price) (ex_open (db ex_filled.1)).

Definition ex_uncached : PlaceBetResponse binary64 :=
  {| resp_BetID := ""; resp_Status := ""; resp_OddsDecimal := lit 0 1; resp_OddsAmerican := 0; resp_Stake := 0;
     resp_Currency := ""; PlacedAt := 0 |}.
Definition the_response (r : result betErr (PlaceBetResponse binary64)) : PlaceBetResponse binary64 :=
  match r with Ok resp => resp | Err _ => ex_uncached end.
Lemma the_response_ok r : is_ok r = true → r = Ok (the_response r).
Proof. by destruct r. Qed.

Lemma ex_open_fresh odds : ids_fresh ex_uuid (ex_open odds).
Proof. intros n Hn. split_and!; [|done|by intros id row]. by apply (ex_ids_fresh []). Qed.

Lemma no_colon_m1 : no_colon "m1".
Proof. intros [|[|[|i]]]; by vm_compute. Qed.

Lemma accepted_at_offered_price_witness :
  map (λ r, (res_ID r, American r)) ex_offers = [("m1-0", -110); ("m1-1", -110)] ∧
  resp_OddsAmerican (the_response ex_receipt.2) = -110 ∧
  ∃ r, r ∈ ex_offers ∧ resp_OddsDecimal (the_response ex_receipt.2) = Decimal r.
Proof.
  split; [vm_compute; reflexivity|]. split; [vm_compute; reflexivity|].
  assert (quotes (os_catalog (db (ex_odds_world []))) (Value (cm ex_feed_msg)) = ("m1", ex_offers)) as Hq
    by (apply injective_projections; [vm_compute; reflexivity|reflexivity]).
  assert (ex_filled = (ex_filled.1, Ok [0; 1])) as Hfill by (apply run_snd; vm_compute; reflexivity).
  assert (ex_receipt = (ex_receipt.1, Ok (the_response ex_receipt.2))) as Hbet
    by (apply run_snd, the_response_ok; vm_compute; reflexivity).
  assert (∀ m, m ∈ ex_updates → cm m ∈ os_kafka (db ex_priced.1)) as Hin.
  { intros m (i&x&->&Hx)%elem_of_lookup_imap. by eapply list_elem_of_lookup_2. }
  destruct (accepted_at_offered_price ex_uuid DefaultConfig ex_feed_msg (ex_odds_world []) ex_priced.1 ex_priced.2
    "m1" ex_offers ex_updates ex_cold ex_filled.1 [0; 1] (ex_open (db ex_filled.1)) ex_receipt.1
    (ex_even_req ex_offered_price) (the_response ex_receipt.2) Hq) as (_&r&Hr&_&_&Hd&_).
  - reflexivity.
  - apply surjective_pairing.
  - exact Hin.
  - apply (bool_decide_unpack _). vm_compute. exact I.
  - intros t k. cbn. unfold redis_live. by rewrite lookup_empty.
  - exact Hfill.
  - reflexivity.
  - intros t. cbn. unfold redis_live. by rewrite lookup_empty.
  - apply ex_open_fresh.
  - exact Hbet.
  - exact no_colon_m1.
  - exact no_colon_m1.
  - exists r. split; [exact Hr|exact Hd].
Defined.

(** ** The bet on its way to the page *)

Definition ex_sent := publishBatch outbox_table kafka (λ _, false) ex_receipt.1.
Definition ex_bet_message : ProducerMessage binary64 :=
  List.hd (Build_ProducerMessage "" "" (Garbage "") []) (produced (ba_kafka (db ex_sent.1))).
Definition ex_no_history : world (BetHistory binary64 WalletDB) := World (Build_BetHistory ∅ empty_db) ex_now 0 [].
Definition ex_kept := handleBetPlaced {| cm := ex_bet_message; Offset := 0 |} ex_no_history.
Definition ex_page_request : Request binary64 :=
  Build_Request {[ "Authorization" := "Bearer " +:+
      toy_sign "k" (Build_Claims ex_later ex_now "sportsbook" "ann" "PENDING" "s1") ]} (Garbage "").
Definition ex_bets_page := GET_bets "k" 50 ex_page_request ex_kept.1.

Lemma ex_bets_page_200 : has_code 200 (GET_bets "k" 50 ex_page_request ex_kept.1).2 = true.
Proof. vm_compute. reflexivity. Qed.

Lemma ex_page_claims : cl_UserID <$> claims_of ex_page_request ex_now = Some "ann".
Proof. vm_compute. reflexivity. Qed.
Lemma ex_kept_clock : clock ex_kept.1 = ex_now.
Proof. vm_compute. reflexivity. Qed.


(** ** A lost bet *)

(** The game open and priced, and the bet that Ann is about to make already in
    the settlement database. *)
Definition ex_pending : PendingBet binary64 :=
  Build_PendingBet "ann" "m1" "m1-0" 300 ex_offered_price "USD" "PLACED".
Definition ex_open_book : world Book :=
  World (Build_Sportsbook (db (ex_open (db ex_filled.1))) [] ex_prices {[ "u" := ex_pending ]} ∅ ∅) ex_now 0 [].
Definition ex_staked := zoom accept_part (PlaceBet ex_uuid DefaultConfig (ex_even_req ex_offered_price)) ex_open_book.
Definition ann_of (w : world Book) : option (Z * Z) := account (wallet_of (db w)) "ann".

Definition ex_topup : CashierRequest :=
  {| cash_TransactionId := "top-up"; cash_UserId := "ann"; cash_Amount := usd 1000; cash_PaymentMethod := "card" |}.
Definition ex_topped := zoom wallet_part (wallet_Deposit ex_topup) ex_staked.1.
Definition ex_lost := zoom settlement_part (handleResult ex_uuid (ex_result "m1-1")) ex_topped.1.

Lemma no_bet_changes_a_total_witness :
  ann_of ex_open_book = Some (50000, 0) ∧ ann_of ex_topped.1 = Some (50700, 300) ∧
  outcome <$> sb_settlements (db ex_lost.1) !! "u" = Some "LOSS" ∧
  owns (wallet_of (db ex_topped.1)) "ann" = owns (wallet_of (db ex_open_book)) "ann" + 1000 ∧
  ann_of ex_lost.1 = ann_of ex_topped.1.
Proof.
  do 3 (split; [vm_compute; reflexivity|]).
  destruct (no_bet_changes_a_total ex_uuid DefaultConfig ex_open_book
    (booked ex_topup 1 (wallet_of (db ex_staked.1)) (wallet_of (db ex_topped.1)) ++ []) ex_topped.1) as [Htotal Hlost].
  - eapply run_betting; [eapply bet_PlaceBet, surjective_pairing|].
    eapply run_deposit; [apply surjective_pairing|apply run_nil].
  - split; [rewrite Htotal; f_equal; vm_compute; reflexivity|].
    apply (Hlost (ex_result "m1-1") (ex_result_event "m1-1") "ann" ex_lost.1 ex_lost.2).
    + vm_compute. reflexivity.
    + reflexivity.
    + intros k bet Hk. assert (sb_pending (db ex_topped.1) = {[ "u" := ex_pending ]}) as He by reflexivity.
      rewrite He in Hk. apply lookup_singleton_Some in Hk as [_ <-]. intros _ _. vm_compute. discriminate.
    + apply surjective_pairing.
Defined.
