(* ===== verification/Services.v ===== *)
(** * The background loops of the services

    The loops of [Loops] with the work of each service: the consumers of the six
    consumer groups ([Run], [RunConsumer], [ConsumeNormalisedFeed],
    [ConsumeOddsUpdates]), the outbox relay and the status warmer. The theorems
    are about whole runs: the relay drains the outbox, a consumer's data after a
    run. *)
From stdpp Require Import sorting.
From S2P Require Export ConsumerGroup OddsCache Settlement BetHistory CatalogService.
From ITree Require Import ITreeFacts.
Local Open Scope Z_scope.
Local Open Scope go_scope.

#[local] Notation "x ⇐ t ;; k" := (ITree.bind t (λ x, k))
  (at level 100, t at next level, right associativity).

(** ** The consumer groups *)

(** [oddsmanagement.RunConsumer]. *)
Definition odds_group : GroupConfig := {|
  gc_group := OddsManagementConsumerGroup; gc_topics := odds_topics;
  gc_initial := OffsetOldest; gc_autocommit := false; gc_prefix := "odds" |}.
Definition RunConsumer : itree consumerE (result string unit) := RunGroup odds_group.

(** [bethistory.Run]. *)
Definition history_group : GroupConfig := {|
  gc_group := "bet-history-cg"; gc_topics := history_topics;
  gc_initial := OffsetOldest; gc_autocommit := false; gc_prefix := "bet_history" |}.
Definition historyRun : itree consumerE (result string unit) := RunGroup history_group.

(** [settlement.Run]. *)
Definition settlement_group : GroupConfig := {|
  gc_group := "settlement-cg"; gc_topics := ["market-data-normalised"];
  gc_initial := OffsetOldest; gc_autocommit := false; gc_prefix := "settlement" |}.
Definition settlementRun : itree consumerE (result string unit) := RunGroup settlement_group.

(** [catalog.ConsumeNormalisedFeed]: marks are committed by a timer. *)
Definition catalog_group : GroupConfig := {|
  gc_group := "market-catalog-cg"; gc_topics := ["market-data-normalised"];
  gc_initial := OffsetOldest; gc_autocommit := true; gc_prefix := "catalog consumer" |}.
Definition ConsumeNormalisedFeed : itree consumerE (result string unit) := RunGroup catalog_group.

(** [catalog.ConsumeOddsUpdates]: only live updates. *)
Definition odds_ws_group : GroupConfig := {|
  gc_group := "catalog-odds-ws-cg"; gc_topics := ["odds-updated"];
  gc_initial := OffsetNewest; gc_autocommit := true; gc_prefix := "odds ws consumer" |}.
Definition ConsumeOddsUpdates : itree consumerE (result string unit) := RunGroup odds_ws_group.

(** The cache updater makes its group in the constructor and leaves it to
    [Close]. *)
Definition cache_group : GroupConfig := {|
  gc_group := "odds-cache-updater-cg"; gc_topics := [TopicOddsUpdated];
  gc_initial := OffsetOldest; gc_autocommit := false; gc_prefix := "cache_updater" |}.
Definition NewCacheUpdater : itree consumerE (result string unit) :=
  err ⇐ ITree.trigger (NewConsumerGroup cache_group) ;;
  Ret (match err with Some e => Err ("cache_updater: create consumer group: " +:+ e) | None => Ok tt end).
Definition cacheUpdaterRun : itree consumerE (result string unit) :=
  _ ⇐ consume_loop (gc_topics cache_group) ;; Ret (Ok tt).
Definition cacheUpdaterClose : itree consumerE unit := ITree.trigger CloseGroup.

(** ** The relay's loop *)

Section Relay.
Context {F D K : Type} `{SyncProducer F K}.
Variables (outbox : lens D (OutboxTable F)) (kafka : lens D K) (locked : string → bool).

(** [OutboxRelay.Run]: the error of a batch is logged. *)
Definition relayRun : itree tickE unit := tick_loop.
Definition relay_work (w : world D) : world D := (publishBatch outbox kafka locked w).1.
End Relay.

(** ** The warmer's loop *)

(** [StatusCacheWarmer.Run]. *)
Definition warmerRun : itree tickE unit := poll_loop.
Definition warm_work {F R} `{RedisPipeline string R} (w : world (CatalogService F R)) : world (CatalogService F R) :=
  (warm w).1.

(** ** The relay drains the outbox *)

Section Drain.
Context {F D K : Type} `{SyncProducer F K} `{!ProducerUp (F:=F) (K:=K)}.
Context (outbox : lens D (OutboxTable F)) (kafka : lens D K) (locked : string → bool).
Context `{!LensLaws outbox} `{!LensLaws kafka} `{!LensDisjoint outbox kafka} `{!LensDisjoint kafka outbox}.
Implicit Types (w : world D) (t : OutboxTable F) (r : string * OutboxRow F).

#[local] Abbreviation ready t := (ready_all locked t).
#[local] Abbreviation batch t := (ready_rows locked 100 t).

(** Between the ticks only time passes. *)
Definition only_time (σ : Schedule (world D)) : Prop :=
  ∀ i f w, σ i = Some f → db (f w) = db w ∧ faults (f w) = faults w.

(** The rows that a batch leaves. *)
Lemma ready_after_batch now t : ready (mark_all now (batch t) t) ≡ₚ drop 100 (ready t).
Proof.
  pose proof (ready_all_NoDup locked t) as Hnd. pose proof (ready_rows_NoDup locked 100 t) as Hb.
  assert (NoDup ((take 100 (ready t)).*1 ++ (drop 100 (ready t)).*1)) as Hsplit
    by (by rewrite <- fmap_app, take_drop).
  apply NoDup_app in Hsplit as (_&Hdisj&Hdrop).
  apply NoDup_Permutation; [by apply NoDup_fmap_1 with (f := fst), ready_all_NoDup|by eapply NoDup_fmap_1|].
  intros [k row]. rewrite elem_of_ready_all. cbn [fst snd]. rewrite mark_all_lookup by done.
  rewrite ready_rows_take in *. split.
  - intros (Hk&Hst&Hl). case_decide as Hin.
    + apply fmap_Some in Hk as (row0&_&->). cbn in Hst. done.
    + assert ((k, row) ∈ ready t) as Hall by (by apply elem_of_ready_all).
      rewrite <- (take_drop 100 (ready t)) in Hall. apply elem_of_app in Hall as [Htake|]; [|done].
      contradict Hin. apply list_elem_of_fmap. by exists (k, row).
  - intros Hin. assert ((k, row) ∈ ready t) as Hall by (eapply elem_of_sublist; [done|apply sublist_drop]).
    apply elem_of_ready_all in Hall as (Hk&Hst&Hl). cbn in *. split_and!; [|done|done].
    case_decide as Htake; [|done]. exfalso. apply (Hdisj k Htake).
    apply list_elem_of_fmap. by exists (k, row).
Qed.

(** What was published by a run that started from table [t]. *)
Definition published_from t (t' : OutboxTable F) (sent : list (string * OutboxRow F)) : Prop :=
  sent ≡ₚ ready t ∧ StronglySorted older sent ∧
  (∀ k row, (k, row) ∈ sent → ∃ now, t' !! k = Some (set_published now row)) ∧
  (∀ k, k ∉ sent.*1 → t' !! k = t !! k).

Lemma published_batch now t t' sent :
  published_from (mark_all now (batch t) t) t' sent → published_from t t' (batch t ++ sent).
Proof.
  intros (Hperm&Hsort&Hpub&Hsame). rewrite ready_after_batch in Hperm.
  pose proof (ready_all_sorted locked t) as Hs. rewrite <- (take_drop 100 (ready t)) in Hs.
  apply StronglySorted_app in Hs as (Hle&Htake&_).
  pose proof (ready_all_NoDup locked t) as Hnd. rewrite <- (take_drop 100 (ready t)), fmap_app in Hnd.
  apply NoDup_app in Hnd as (_&Hdisj&_).
  assert (∀ k, k ∈ (batch t).*1 → k ∉ sent.*1) as Hapart.
  { intros k Hk. rewrite Hperm. apply Hdisj. by rewrite <- ready_rows_take. }
  split_and!.
  - by rewrite Hperm, ready_rows_take, take_drop.
  - apply StronglySorted_app. split_and!; [|by rewrite ready_rows_take|done].
    intros x y Hx Hy. apply Hle; [by rewrite <- ready_rows_take|by rewrite <- Hperm].
  - intros k row [Hin|Hin]%elem_of_app; [|by apply Hpub].
    assert (k ∈ (batch t).*1) as Hk by (apply list_elem_of_fmap; by exists (k, row)).
    exists now. rewrite (Hsame k (Hapart k Hk)), mark_all_lookup, decide_True by (done || apply ready_rows_NoDup).
    eapply elem_of_sublist in Hin; [|apply (ready_rows_sublist locked 100 t)].
    apply elem_of_ready_all in Hin as (Hrow&_). cbn in Hrow. by rewrite Hrow.
  - intros k Hk. rewrite fmap_app, elem_of_app in Hk.
    rewrite (Hsame k) by tauto. rewrite mark_all_lookup, decide_False; [done|tauto|apply ready_rows_NoDup].
Qed.

Lemma relay_turns σ n i w :
  only_time σ → fires σ i n → faults w = [] →
  (length (ready (view outbox (db w))) ≤ 100 * n)%nat →
  let w' := turns (relay_work outbox kafka locked) σ i n w in
  ∃ sent, published_from (view outbox (db w)) (view outbox (db w')) sent ∧
    produced (view kafka (db w')) = produced (view kafka (db w)) ++ List.map row_message sent.
Proof.
  intros Htime. revert i w. induction n as [|n IH]; intros i w Hf Hw Hlen; cbn [turns].
  - exists []. cbn. rewrite app_nil_r. split; [|done].
    destruct (ready (view outbox (db w))) eqn:He; [|cbn in Hlen; lia]. split_and!.
    + by rewrite He.
    + constructor.
    + intros k row Hin. by apply not_elem_of_nil in Hin.
    + done.
  - destruct (Hf 0%nat ltac:(lia)) as [f Hi]. rewrite Nat.add_0_r in Hi. rewrite Hi.
    destruct (Htime i f w Hi) as [Hdb Hfl]. unfold relay_work at 2 4.
    destruct (publishBatch outbox kafka locked (f w)) as [w1 r1] eqn:Hrun.
    assert (faults (f w) = []) as Hfw by by rewrite Hfl.
    from_wp (publishBatch_up outbox kafka locked (f w) Hfw) at Hrun as Hup.
    destruct Hup as (_&Hw1&Hp&Ht). rewrite Hdb in Hp, Ht. cbn [fst].
    destruct (IH (S i) w1) as (sent&Hpub&Hp2).
    { intros k Hk. rewrite Nat.add_succ_l, <- Nat.add_succ_r. apply Hf. lia. }
    { done. }
    { rewrite Ht, ready_after_batch, length_drop. lia. }
    exists (batch (view outbox (db w)) ++ sent). rewrite Ht in Hpub. split; [by eapply published_batch|].
    by rewrite Hp2, Hp, map_app, app_assoc.
Qed.
End Drain.

(** ** A consumer whose handler does nothing *)

Section Idle.
Context {F D E : Type} (initial : InitialOffset) (handle : ConsumerMessage F → Go D E unit) (topics : list string).
Implicit Types (s : GroupState F D).

(** The broker keeps each message under its topic. *)
Definition log_by_topic (log : gmap TP (list (ProducerMessage F))) : Prop :=
  ∀ tp l m, log !! tp = Some l → m ∈ l → Topic m = tp.1.

Lemma arrive_by_topic log pm : log_by_topic log → log_by_topic (arrive log pm).
Proof.
  intros Hlog tp l m. unfold arrive. rewrite lookup_insert_Some. intros [[<- <-]|[_ Hl]]; [|by eapply Hlog].
  intros [Hm|Hm]%elem_of_app; [|by apply list_elem_of_singleton in Hm as ->].
  destruct (log !! _) as [l|] eqn:Hl; [exact (Hlog _ l m Hl Hm)|by apply not_elem_of_nil in Hm].
Qed.

Definition ignores : Prop := ∀ msg w, Topic (cm msg) ∈ topics → handle msg w = (w, Ok tt).

(** Everything handed over was handled without an error, so it is marked. *)
Definition all_handled (seen : list (TP * nat * bool)) : Prop := ∀ tp i b, (tp, i, b) ∈ seen → b = true.

Lemma deliver_idle log p tpc :
  ignores → log_by_topic log → tpc.1.1 ∈ topics → all_handled (pg_seen p) →
  let p' := deliver initial handle log p tpc in pg_world p' = pg_world p ∧ all_handled (pg_seen p').
Proof.
  destruct tpc as [tp kept]. intros Hi Hlog Htp Hp. unfold deliver. destruct (message_at _ _ _) as [msg|] eqn:Hm; [|done].
  apply message_at_Some in Hm as (l&Hl&Hmsg&_).
  assert (Topic (cm msg) = tp.1) as Ht by (eapply Hlog; [done|by eapply list_elem_of_lookup_2]).
  rewrite Hi by by rewrite Ht. cbn. split; [done|].
  intros tp' i b [Hx|Hx]%elem_of_app; [by eapply Hp|]. by apply list_elem_of_singleton in Hx as [= -> -> ->].
Qed.

Lemma deliveries_idle log p tps :
  ignores → log_by_topic log → (∀ tpc, tpc ∈ tps → tpc.1.1 ∈ topics) → all_handled (pg_seen p) →
  let p' := foldl (deliver initial handle log) p tps in pg_world p' = pg_world p ∧ all_handled (pg_seen p').
Proof.
  intros Hi Hlog. revert p. induction tps as [|tp tps IH]; intros p Htps Hp; cbn [foldl]; [done|].
  destruct (deliver_idle log p tp Hi Hlog) as [Hw Hp']; [apply Htps, list_elem_of_here|done|].
  destruct (IH (deliver initial handle log p tp)) as [Hw2 ?]; [|done|by rewrite Hw2].
  intros tp' Htp'. by apply Htps, list_elem_of_further.
Qed.

(** After any number of sessions the data is what the others made of it, and every
    message handed over was marked. *)
Definition untouched (plan : nat → Turn F D) (n : nat) s s' : Prop :=
  gs_world s' = foldl (λ w t, tn_outside t w) (gs_world s) (plan <$> seq (gs_turn s) n) ∧
  all_handled (gs_seen s').

Lemma idle_sessions plan refused n s :
  ignores → log_by_topic (gs_log s) → all_handled (gs_seen s) →
  untouched plan n s (sessions (group_env initial handle plan refused) topics n s).
Proof.
  intros Hi. revert s. induction n as [|n IH]; intros s Hlog Hseen; cbn [sessions]; [done|].
  rewrite session_play. set (t := plan (gs_turn s)).
  assert (log_by_topic (foldl arrive (gs_log s) (tn_arrivals t))) as Hlog'.
  { clear -Hlog. revert Hlog. generalize (gs_log s). induction (tn_arrivals t) as [|pm pms IH]; intros log Hlog; [done|].
    by apply IH, arrive_by_topic. }
  destruct (deliveries_idle _ (opening t s) (base.filter (λ tpc, tpc.1.1 ∈ topics) (tn_deliver t)) Hi Hlog')
    as [Hw Hseen']; [by intros tp [? _]%list_elem_of_filter|done|].
  destruct (IH (play initial handle topics t s) Hlog' Hseen') as [Hw2 Hseen2]. split; [|done].
  rewrite Hw2. cbn [play gs_world gs_turn]. by rewrite Hw.
Qed.
End Idle.

(** ** Properties *)

Section DrainProperty.
Context {F D K : Type} `{SyncProducer F K} `{!ProducerUp (F:=F) (K:=K)}.
Context (outbox : lens D (OutboxTable F)) (kafka : lens D K) (locked : string → bool).
Context `{!LensLaws outbox} `{!LensLaws kafka} `{!LensDisjoint outbox kafka} `{!LensDisjoint kafka outbox}.

(** C19. The relay drains the outbox: with the database and the broker up and at most
    [100 n] rows ready, the loop that is cancelled after [n] ticks returns and
    by then every ready row has been published exactly once, oldest first
    over all the batches, and is PUBLISHED with nothing else changed; all other
    rows are as they were. *)
Theorem relay_drains (σ : Schedule (world D)) n w :
  only_time σ → fires σ 0 n → σ n = None → faults w = [] →
  (length (ready_all locked (view outbox (db w))) ≤ 100 * n)%nat →
  ∃ w' sent,
    ticks_in (relay_work outbox kafka locked) σ relayRun w ≈ Ret (n, w', tt) ∧
    sent ≡ₚ ready_all locked (view outbox (db w)) ∧ StronglySorted older sent ∧
    produced (view kafka (db w')) = produced (view kafka (db w)) ++ List.map row_message sent ∧
    (∀ k row, (k, row) ∈ sent → ∃ now, view outbox (db w') !! k = Some (set_published now row)) ∧
    (∀ k, k ∉ sent.*1 → view outbox (db w') !! k = view outbox (db w) !! k).
Proof.
  intros Htime Hf Hn Hw Hlen.
  destruct (relay_turns outbox kafka locked σ n 0 w Htime Hf Hw Hlen) as (sent&(?&?&?&?)&?).
  exists (turns (relay_work outbox kafka locked) σ 0 n w), sent.
  split; [exact (tick_loop_stops (relay_work outbox kafka locked) σ 0 n w Hf Hn)|]. by split_and!.
Qed.
End DrainProperty.

Section RunProperties.
Context {F K W : Type} `{FloatOps F} `{Postgres F} `{SyncProducer F K} `{WalletServiceServer W}.

(** What [RunConsumer] of Odds Management and [Run] of Bet History do as they
    are written, over the whole life of the process: whatever the broker
    delivers, however sessions end, for any number of sessions, the odds
    database, the log, the bets and the wallet are exactly what the other services
    made of them, and yet every message handed over counts as processed and is
    marked for the next commit. *)
Theorem deployed_consumers_idle log n :
  log_by_topic log →
  (∀ (plan : nat → Turn F (OddsService F K)) w,
     let s := new_group log w in
     untouched plan n s (sessions (group_env (gc_initial odds_group) handleEvent plan None) (gc_topics odds_group) n s)) ∧
  (∀ (plan : nat → Turn F (BetHistory F W)) w,
     let s := new_group log w in
     untouched plan n s (sessions (group_env (gc_initial history_group) handleBetEvent plan None) (gc_topics history_group) n s)).
Proof.
  intros Hlog. split; intros plan w; apply idle_sessions; try done.
  - intros msg w'. apply handleEvent_ignores.
  - by intros tp i b ?%not_elem_of_nil.
  - intros msg w'. apply handleBetEvent_ignores.
  - by intros tp i b ?%not_elem_of_nil.
Qed.
End RunProperties.

(** ** Witnesses *)

Section Witnesses.
#[local] Existing Instance inert_platform.
#[local] Instance services_postgres : Postgres binary64 := {| numeric _ _ x := Some x; timestamptz := ParseRFC3339Nano |}.

(** The outbox of [Outbox], drained by a relay that is cancelled after one tick. *)
Definition ex_relay_schedule : Schedule (world OutboxExample) := λ i,
  if decide (i < 1)%nat then Some (λ w, World (db w) (clock w + 100000) (fresh w) (faults w)) else None.
Definition ex_relay_world : world OutboxExample := World (ex_table, []) 30 0 [].

Lemma relay_drains_witness :
  ∃ w' sent, ticks_in (relay_work ex_outbox ex_log unlocked) ex_relay_schedule relayRun ex_relay_world ≈
      Ret (1%nat, w', tt) ∧
    sent ≡ₚ ready_all unlocked ex_table ∧ length (ready_all unlocked ex_table) = 2%nat ∧
    produced (view ex_log (db w')) = [] ++ List.map row_message sent.
Proof.
  destruct (relay_drains ex_outbox ex_log unlocked ex_relay_schedule 1 ex_relay_world)
    as (w'&sent&Hrun&Hsent&_&Hlog&_).
  - intros i f w. unfold ex_relay_schedule. case_decide; [|discriminate]. intros [= <-]. split; reflexivity.
  - intros k Hk. unfold ex_relay_schedule. rewrite decide_True by lia. eexists. reflexivity.
  - reflexivity.
  - reflexivity.
  - vm_compute. lia.
  - exists w', sent. split; [exact Hrun|]. split; [exact Hsent|]. split; [vm_compute; reflexivity|exact Hlog].
Defined.

(** Odds Management and Bet History are handed one event each. *)
Definition ex_deployed_log : gmap TP (list (ProducerMessage binary64)) :=
  {[ ("market-data-normalised", 0) := [cm (ex_price_update "market-data-normalised")];
     ("bet-placed", 0) := [row_message ("o1", ex_relayed)] ]}.
Definition ex_turn {D} : Turn binary64 D :=
  {| tn_outside := id; tn_arrivals := []; tn_deliver := [(("market-data-normalised", 0), true); (("bet-placed", 0), true)];
     tn_err := None; tn_cancel := true |}.

Lemma ex_deployed_by_topic : log_by_topic ex_deployed_log.
Proof.
  intros tp l m Hl Hm. unfold ex_deployed_log in Hl. apply lookup_insert_Some in Hl as [[<- <-]|[_ Hl]].
  - by apply list_elem_of_singleton in Hm as ->.
  - apply lookup_singleton_Some in Hl as [<- <-]. by apply list_elem_of_singleton in Hm as ->.
Qed.

Definition ex_odds_session := sessions (group_env OffsetOldest handleEvent (λ _, ex_turn) None)
  (gc_topics odds_group) 1 (new_group ex_deployed_log (ex_odds_world [])).
Definition ex_history_session := sessions (group_env OffsetOldest handleBetEvent (λ _, ex_turn) None)
  (gc_topics history_group) 1 (new_group ex_deployed_log ex_history_world).

Lemma deployed_consumers_idle_witness :
  gs_committed ex_odds_session !! ("market-data-normalised", 0) = Some 1%nat ∧
  gs_committed ex_history_session !! ("bet-placed", 0) = Some 1%nat ∧
  gs_world ex_odds_session = ex_odds_world [] ∧ gs_world ex_history_session = ex_history_world.
Proof.
  split; [vm_compute; reflexivity|]. split; [vm_compute; reflexivity|].
  destruct (deployed_consumers_idle ex_deployed_log 1 ex_deployed_by_topic) as [Ho Hh].
  split; [exact (proj1 (Ho (λ _, ex_turn) (ex_odds_world [])))|exact (proj1 (Hh (λ _, ex_turn) ex_history_world))].
Defined.

(** Settlement on a message that is no result and on a result: the first fails, the
    second is handled and its commit gets through; the session ends in an error, the
    next one is cancelled. *)
Definition ex_result_log : gmap TP (list (ProducerMessage binary64)) :=
  {[ ("market-data-normalised", 0) :=
     [{| Topic := "market-data-normalised"; Key := "m1"; Value := Garbage ""; Headers := [] |}; cm (ex_result "no")] ]}.
Definition ex_result_plan (i : nat) : Turn binary64 (Settlement binary64 WalletDB (list (ProducerMessage binary64))) :=
  {| tn_outside := id; tn_arrivals := [];
     tn_deliver := [(("market-data-normalised", 0), true); (("market-data-normalised", 0), true)];
     tn_err := Some "rebalance"; tn_cancel := bool_decide (i = 1%nat) |}.
Definition ex_result_handler := handleResult (F:=binary64) (H0:=wallet_client) settle_uuid.
Definition ex_result_env := group_env OffsetOldest ex_result_handler ex_result_plan None.
Definition ex_result_group (n : nat) := sessions ex_result_env (gc_topics settlement_group) n
  (new_group ex_result_log (ex_settlement_world ∅)).

Lemma consumer_group_delivery_witness :
  gs_seen (ex_result_group 2) = [(("market-data-normalised", 0), 0%nat, false); (("market-data-normalised", 0), 1%nat, true)] ∧
  run_in ex_result_env settlementRun (new_group ex_result_log (ex_settlement_world ∅)) ≈
    Ret (env_close ex_result_env (ex_result_group 2), Ok tt) ∧
  ∃ later, gs_seen (ex_result_group 2) = gs_seen (ex_result_group 1) ++ later ∧
    ∀ i b, (("market-data-normalised", 0), i, b) ∈ later → (2 ≤ i)%nat.
Proof.
  split; [vm_compute; reflexivity|].
  destruct (consumer_group_delivery ex_result_handler settlement_group ex_result_plan ex_result_log (ex_settlement_world ∅) 1)
    as [Hrun Hseen].
  - reflexivity.
  - reflexivity.
  - intros [|i] Hi; [vm_compute; reflexivity|lia].
  - vm_compute. reflexivity.
  - split; [exact Hrun|].
    destruct (Hseen 1%nat ("market-data-normalised", 0) 2%nat) as (_&_&Hlater); [lia|vm_compute; reflexivity|exact Hlater].
Defined.
End Witnesses.
