(* ===== verification/Warmer.v ===== *)
(** * The status warmer over time

    [StatusCacheWarmer.Run] of [Services] against a clock: between two ticks
    [statusCacheInterval] passes while others change the catalogue and overwrite
    statuses. The theorem is that bet placement always finds a status for a market
    that was open or suspended at the last warm-up: the interval is shorter than
    the time to live of the entries. *)
From S2P Require Export Services.
From ITree Require Import ITreeFacts.
Local Open Scope Z_scope.
Local Open Scope go_scope.

Definition statusCacheInterval : Z := 3 * second_us.

(** A Redis that works writes the whole pipeline. *)
Class PipelineUp (V R : Type) `{RedisPipeline V R} : Prop :=
  pipeline_up cmds ttl (w : world R) : faults w = [] → NoDup cmds.*1 →
    wp (redis_Pipeline cmds ttl) (λ w' r, r = Ok tt ∧ faults w' = [] ∧
      ∀ k v t, (k, v) ∈ cmds → t < clock w + ttl → redis_at (db w') t k = Some v) w.

Lemma wp_queryRow_up {D A} (f : D → option A) (Q : world D → result dberr A → Prop) w :
  faults w = [] → Q w (match f (db w) with Some a => Ok a | None => Err ErrNoRows end) → wp (queryRow f) Q w.
Proof. intros Hw HQ. unfold wp, queryRow, flaky. by rewrite Hw. Qed.

Section Warmer.
Context {F R : Type} `{FloatOps F} `{Postgres F} `{RedisPipeline string R} `{!PipelineUp string R}.
Abbreviation State := (CatalogService F R).
Implicit Types (w : world State) (σ : Schedule (world State)).

(** The status of an open or suspended market. *)
Definition offered w (m s : string) : Prop :=
  statuses (cs_db (db w)) !! m = Some s ∧ s ∈ ["OPEN"; "SUSPENDED"].

(** The cache right after a warm-up. *)
Definition warmed w : Prop := ∀ m s t, offered w m s → t < clock w + statusCacheTTL →
  redis_at (cs_redis (db w)) t (statusKey m) = Some s.

(** What happens between the ticks: at most the interval passes, nothing fails,
    and whatever is done to the catalogue and the cache, no live entry is lost. *)
Definition ticks_on_time σ : Prop := ∀ i f w, σ i = Some f →
  clock w ≤ clock (f w) ≤ clock w + statusCacheInterval ∧ faults (f w) = [] ∧
  ∀ t k, is_Some (redis_at (cs_redis (db w)) t k) → is_Some (redis_at (cs_redis (db (f w))) t k).

Lemma warm_rows_NoDup (d : CatalogDB F) : NoDup (warm_rows d).*1.
Proof.
  unfold warm_rows. rewrite <- list_fmap_compose. cbn.
  assert ((fst ∘ λ r : string * MarketRow F, (statusKey r.1, mk_status r.2)) = statusKey ∘ fst) as -> by done.
  rewrite list_fmap_compose. apply NoDup_fmap_2; [intros m m'; apply statusKey_inj|].
  eapply sublist_NoDup; [apply (NoDup_fst_map_to_list (markets d))|]. apply sublist_map, sublist_filter.
Qed.

Lemma elem_of_warm_rows (d : CatalogDB F) m s :
  statuses d !! m = Some s → s ∈ ["OPEN"; "SUSPENDED"] → (statusKey m, s) ∈ warm_rows d.
Proof.
  unfold statuses. rewrite lookup_fmap. intros (row&Hrow&->)%fmap_Some Hs.
  apply list_elem_of_fmap. exists (m, row). split; [done|]. apply list_elem_of_filter.
  by rewrite elem_of_map_to_list.
Qed.

Lemma warm_work_warms w : faults w = [] → faults (warm_work w) = [] ∧ warmed (warm_work w).
Proof.
  intros Hw. unfold warm_work. pose proof (warm_wp w) as [[Hclk _] Hdb].
  assert (wp warm (λ w' _, faults w' = [] ∧ clock w' = clock w ∧ ∀ m s t,
    offered w m s → t < clock w + statusCacheTTL → redis_at (cs_redis (db w')) t (statusKey m) = Some s) w) as Hwarm.
  { unfold warm. do 2 go_step. apply wp_queryRow_up; [done|]. cbn beta iota zeta.
    destruct (warm_rows (cs_db (db w))) as [|c cmds] eqn:Hc.
    - go_step. split_and!; [done|done|]. intros m s t [Hm Hs] _. apply elem_of_warm_rows in Hm; [|done].
      rewrite Hc in Hm. by apply not_elem_of_nil in Hm.
    - rewrite <- Hc. do 3 go_step.
      pose proof (pipeline_up (warm_rows (cs_db (db w))) statusCacheTTL (set_db (view service_redis (db w)) w) Hw
        (warm_rows_NoDup _)) as Hup.
      pose proof (redis_Pipeline_law (warm_rows (cs_db (db w))) statusCacheTTL (set_db (view service_redis (db w)) w)) as Hlaw.
      apply wp_run. intros w1 r Hrun. unfold wp in Hup, Hlaw. rewrite Hrun in Hup, Hlaw. cbn in Hup, Hlaw.
      destruct Hup as (_&Hf&Hat), Hlaw as (Hck&_). go_step. cbn. split_and!; [done|done|].
      intros m s t [Hm Hs] Ht. apply Hat; [by apply elem_of_warm_rows|done]. }
  destruct Hwarm as (Hf&Hck&Hat). split; [done|]. intros m s t [Hm Hs] Ht.
  rewrite Hck in Ht. apply Hat; [|done]. split; [|done]. by rewrite <- Hdb.
Qed.

(** The world after the first warm-up and [i] ticks. *)
Definition after_ticks σ w (i : nat) : world State := turns warm_work σ 0 i (warm_work w).

Lemma turns_warmed σ i n w :
  ticks_on_time σ → faults w = [] → warmed w →
  faults (turns warm_work σ i n w) = [] ∧ warmed (turns warm_work σ i n w).
Proof.
  intros Hσ. revert i w. induction n as [|n IH]; intros i w Hf Hw; cbn [turns]; [done|].
  destruct (σ i) as [f|] eqn:Hi; [|done]. destruct (Hσ i f w Hi) as (_&Hff&_).
  destruct (warm_work_warms (f w) Hff). by apply IH.
Qed.

(** C22. Bet placement finds the status of every market on offer at all times: under
    the warmer's loop, with the database and Redis up and ticks on time, after
    any number [i] of ticks every open or suspended market's status can be
    read from the cache for the next five seconds, and, whatever others do to the
    catalogue and the cache meanwhile, some status of it can still be read at
    every moment until the next tick. The loop returns when it is cancelled. *)
Theorem statuses_stay_readable σ w n :
  ticks_on_time σ → fires σ 0 n → σ n = None → faults w = [] →
  ticks_in warm_work σ warmerRun w ≈ Ret (n, after_ticks σ w n, tt) ∧
  ∀ i m s, offered (after_ticks σ w i) m s →
    (∀ t, t < clock (after_ticks σ w i) + statusCacheTTL →
       redis_at (cs_redis (db (after_ticks σ w i))) t (statusKey m) = Some s) ∧
    (∀ f t, σ i = Some f → t ≤ clock (f (after_ticks σ w i)) →
       is_Some (redis_at (cs_redis (db (f (after_ticks σ w i)))) t (statusKey m))).
Proof.
  intros Hσ Hf Hn Hw. split; [by apply (poll_loop_stops warm_work σ n)|]. intros i m s Ho.
  destruct (warm_work_warms w Hw) as [Hf0 Hw0].
  destruct (turns_warmed σ 0 i (warm_work w) Hσ Hf0 Hw0) as [_ Hwarm]. fold (after_ticks σ w i) in Hwarm.
  split; [intros t; by apply Hwarm|]. intros f t Hi Ht.
  destruct (Hσ i f (after_ticks σ w i) Hi) as (Hclk&_&Hkeep). apply Hkeep. exists s. apply Hwarm; [done|].
  unfold statusCacheInterval, statusCacheTTL, second_us in *. lia.
Qed.
End Warmer.

(** ** The reference cache and the witness *)

Lemma set_all_other {V} expires (cmds : list (string * V)) (r : RedisMap V) k :
  k ∉ cmds.*1 → set_all expires cmds r !! k = r !! k.
Proof.
  revert r. induction cmds as [|[k' v'] cmds IH]; intros r Hk; [done|]. rewrite fmap_cons, elem_of_cons in Hk.
  cbn. unfold set_all in IH. rewrite IH by tauto. apply lookup_insert_ne. naive_solver.
Qed.

Lemma set_all_in {V} expires (cmds : list (string * V)) (r : RedisMap V) k v :
  NoDup cmds.*1 → (k, v) ∈ cmds → set_all expires cmds r !! k = Some (v, expires).
Proof.
  revert r. induction cmds as [|[k' v'] cmds IH]; intros r Hnd Hin; [by apply not_elem_of_nil in Hin|].
  rewrite fmap_cons in Hnd. apply NoDup_cons in Hnd as [Hk' Hnd].
  apply elem_of_cons in Hin as [[= <- <-]|Hin]; [|by apply IH].
  pose proof (set_all_other expires cmds (<[k:=(v, expires)]> r) k Hk') as Ho. cbn. unfold set_all in *.
  rewrite Ho. apply lookup_insert_eq.
Qed.

#[export] Instance redis_map_up V : PipelineUp V (RedisMap V).
Proof.
  intros cmds ttl w Hw Hnd. destruct w as [d c f fs]. cbn in Hw. subst fs. split_and!; [done|done|].
  intros k v t Hin Ht. cbn in *. unfold redis_live. rewrite (set_all_in _ cmds d k v Hnd Hin).
  by destruct (Z.ltb_spec t (c + ttl)); [|lia].
Qed.

Section Witness.
#[local] Existing Instance inert_platform.
#[local] Instance warmer_postgres : Postgres binary64 := {| numeric _ _ x := Some x; timestamptz := ParseRFC3339Nano |}.

Abbreviation ServiceState := (CatalogService binary64 (RedisMap string)).

(** Three seconds pass, in which the first market is suspended in the database. *)
Definition ex_meanwhile (w : world ServiceState) : world ServiceState :=
  World (Build_CatalogService
      (set_markets (alter (with_status "SUSPENDED" (clock w)) "m1" (markets (cs_db (db w)))) (cs_db (db w)))
      (cs_redis (db w)))
    (clock w + statusCacheInterval) (fresh w) [].
Definition ex_ticks : Schedule (world ServiceState) := λ i, if decide (i < 1)%nat then Some ex_meanwhile else None.

Lemma statuses_stay_readable_witness :
  statuses (cs_db (db (after_ticks ex_ticks (ex_service_world []) 1))) !! "m1" = Some "SUSPENDED"%string ∧
  redis_at (cs_redis (db (after_ticks ex_ticks (ex_service_world []) 1))) (7 * second_us) (statusKey "m1") =
    Some "SUSPENDED"%string ∧
  is_Some (redis_at (cs_redis (db (ex_meanwhile (after_ticks ex_ticks (ex_service_world []) 0)))) (3 * second_us)
    (statusKey "m1")).
Proof.
  split; [vm_compute; reflexivity|].
  destruct (statuses_stay_readable ex_ticks (ex_service_world []) 1) as [_ Hread].
  - intros i f w. unfold ex_ticks. case_decide; [|discriminate]. intros [= <-].
    split; [cbn; unfold statusCacheInterval, second_us; lia|]. split; [reflexivity|]. intros t k Hk. exact Hk.
  - intros k Hk. unfold ex_ticks. rewrite decide_True by lia. eexists. reflexivity.
  - reflexivity.
  - reflexivity.
  - split.
    + refine (proj1 (Hread 1%nat "m1" "SUSPENDED" _) (7 * second_us) _); [|vm_compute; reflexivity].
      split; [vm_compute; reflexivity|]. right. left.
    + refine (proj2 (Hread 0%nat "m1" "OPEN" _) ex_meanwhile (3 * second_us) eq_refl _); [|vm_compute; discriminate].
      split; [vm_compute; reflexivity|]. left.
Defined.
End Witness.
