(* ===== verification/FeedLoops.v ===== *)
(** * The loops of the polling feeds

    [Subscribe] of [nba_score_feed.go], [ncaab_score_feed.go], [nhl_score_feed.go]
    and [polymarket_feed.go]: a goroutine that polls once and then at every tick
    of its ticker, over the loops of [Loops]. Whatever a subscription puts in its
    channel is what [MarketData] lets the feed send. *)
From S2P Require Export Loops MarketData.
From ITree Require Import ITreeFacts.
Local Open Scope Z_scope.

(** ** Polling

    The goroutine of [Subscribe] polls once, then at every tick, and puts what
    a poll yields in its channel, which it closes when it returns. A poll that
    the cancellation cuts short is one that yields less. *)
Section Feeds.
Context {A : Type}.

Definition Subscribe : itree tickE unit := poll_loop.
Definition feed_turn (poll_at : nat → list A) (s : nat * list A) : nat * list A :=
  (S s.1, s.2 ++ poll_at s.1).

(** Ticks until the context is cancelled before turn [n]. *)
Definition until {S} (n : nat) : Schedule S := λ i, if decide (i < n)%nat then Some id else None.

Lemma until_fires {S} i n : fires (until (S:=S) (i + n)) i n.
Proof. intros k Hk. unfold until. rewrite decide_True by lia. by eexists. Qed.

Lemma feed_turns poll_at i n k sent :
  turns (feed_turn poll_at) (until (i + n)) i n (k, sent) =
  ((k + n)%nat, sent ++ concat (poll_at <$> seq k n)).
Proof.
  revert i k sent. induction n as [|n IH]; intros i k sent; cbn [turns].
  - by rewrite Nat.add_0_r, app_nil_r.
  - unfold until at 1. rewrite decide_True by lia.
    unfold feed_turn at 2. replace (i + S n)%nat with (S i + n)%nat by lia. unfold id. rewrite IH.
    cbn [fst snd seq]. rewrite fmap_cons. cbn [concat]. rewrite app_assoc. f_equal. lia.
Qed.

(** A subscription that is cancelled after [n] ticks has sent the results of its
    [n + 1] polls, in order. *)
Lemma Subscribe_sends poll_at n :
  ticks_in (feed_turn poll_at) (until n) Subscribe (0%nat, []) ≈
  Ret (n, (S n, concat (poll_at <$> seq 0 (S n))), tt).
Proof.
  unfold Subscribe. rewrite (poll_loop_stops (feed_turn poll_at) (until n) n).
  - assert (turns (feed_turn poll_at) (until n) 0 n (feed_turn poll_at (0%nat, [])) =
      (S n, concat (poll_at <$> seq 0 (S n)))) as ->; [|reflexivity].
    exact (feed_turns poll_at 0 n 1 (poll_at 0%nat)).
  - apply (until_fires 0 n).
  - unfold until. rewrite decide_False by lia. done.
Qed.
End Feeds.


(** ** The feeds *)

Section Subscriptions.
Context {F : Type} `{FloatOps F} `{GoFormat F} `{!FiniteZero F}.
Abbreviation Raw := (RawProviderEvent F).

(** The run of a subscription that is cancelled after [n] ticks. *)
Definition subscription {A} (poll_at : nat → list A) (n : nat) : itree void1 (nat * (nat * list A) * unit) :=
  ticks_in (feed_turn poll_at) (until n) Subscribe (0%nat, []).

(** [NBAScoreFeed.Subscribe]: the matcher, the clock and the answer of each poll. *)
Definition nbaSubscribe (l : nat → lookups) (t : nat → Z) (resp : nat → option (Z * bytes F)) :=
  subscription (A := Raw) (λ i, nbaPoll (l i) (t i) (resp i)).

(** [NCAABScoreFeed.Subscribe]. *)
Definition ncaabSubscribe (l : nat → lookups) (t : nat → Z) (resps : nat → list (option (Z * bytes F))) :=
  subscription (A := Raw) (λ i, ncaabPoll (l i) (t i) (resps i)).

(** [NHLScoreFeed.Subscribe]. *)
Definition nhlSubscribe (l : nat → lookups) (t : nat → Z) (resp : nat → option (Z * bytes F)) :=
  subscription (A := Raw) (λ i, nhlPoll (l i) (t i) (resp i)).

(** [PolymarketFeed.Subscribe]: registrations and events. *)
Definition gammaSubscribe (f : PolymarketFeed) (t : nat → Z) (resps : nat → list (option (Z * bytes F))) :=
  subscription (λ i, default [] (poll f (t i) (resps i))).

(** A subscription whose polls only yield what satisfies [P] returns when it is
    cancelled, with a channel that only ever held such things, in order. *)
Lemma subscription_sends {A} (P : A → Prop) (poll_at : nat → list A) n :
  (∀ i a, a ∈ poll_at i → P a) →
  ∃ sent, subscription poll_at n ≈ Ret (n, (S n, sent), tt) ∧
    sent = concat (poll_at <$> seq 0 (S n)) ∧ ∀ a, a ∈ sent → P a.
Proof.
  intros HP. exists (concat (poll_at <$> seq 0 (S n))). split_and!; [apply Subscribe_sends|done|].
  intros a Ha. apply list_elem_of_In, in_concat in Ha as (l&Hl&Ha). apply list_elem_of_In in Ha.
  apply list_elem_of_In, list_elem_of_fmap in Hl as (i&->&_). by eapply HP.
Qed.

(** Every polling feed, cancelled after any number of ticks, returns, and its
    channel held the results of its polls in order, each of them something that
    [MarketData] lets this feed send. *)
Theorem subscriptions_send n :
  (∀ l t resp, ∃ sent, nbaSubscribe l t resp n ≈ Ret (n, (S n, sent), tt) ∧
     ∀ raw, raw ∈ sent → may_send NBAScoreFeed raw) ∧
  (∀ l t resps, ∃ sent, ncaabSubscribe l t resps n ≈ Ret (n, (S n, sent), tt) ∧
     ∀ raw, raw ∈ sent → may_send NCAABScoreFeed raw) ∧
  (∀ l t resp, ∃ sent, nhlSubscribe l t resp n ≈ Ret (n, (S n, sent), tt) ∧
     ∀ raw, raw ∈ sent → may_send NHLScoreFeed raw) ∧
  (∀ f t resps, ∃ sent, gammaSubscribe f t resps n ≈ Ret (n, (S n, sent), tt) ∧
     ∀ raw, Send raw ∈ sent → may_send (GammaFeed f) raw).
Proof.
  split_and!; intros.
  - destruct (subscription_sends (may_send NBAScoreFeed) (λ i, nbaPoll (l i) (t i) (resp i)) n) as (sent&?&_&?);
      [intros i a; apply nba_sends|eauto].
  - destruct (subscription_sends (may_send NCAABScoreFeed) (λ i, ncaabPoll (l i) (t i) (resps i)) n) as (sent&?&_&?);
      [intros i a; apply ncaab_sends|eauto].
  - destruct (subscription_sends (may_send NHLScoreFeed) (λ i, nhlPoll (l i) (t i) (resp i)) n) as (sent&?&_&?);
      [intros i a; apply nhl_sends|eauto].
  - destruct (subscription_sends (λ a, ∀ raw, a = Send raw → may_send (GammaFeed f) raw)
      (λ i, default [] (poll f (t i) (resps i))) n) as (sent&?&_&Hsent).
    + intros i a Ha raw ->. destruct (poll f (t i) (resps i)) as [actions|] eqn:Hp; cbn in Ha;
        [by eapply gamma_sends|by apply not_elem_of_nil in Ha].
    + exists sent. eauto.
Qed.
End Subscriptions.
