(* ===== verification/ScoreJourney.v ===== *)
(** * A score on its way to the clients

    From the NBA scoreboard through the feed, the normaliser, the topic and the
    catalogue's consumer to the row of the event and the WebSocket clients: the
    operations of [ScoreFeeds], [Scores], [MarketEvent] and [Catalog] one after
    the other. *)
From S2P Require Export ScoreFeeds Catalog Outbox.
Local Open Scope Z_scope.
Local Open Scope go_scope.

(** ** A feed whose broker is up *)

Section Up.
Context {F K N : Type} `{FloatOps F} `{SyncProducer F K} `{!ProducerUp (F:=F) (K:=K)} `{Normaliser F N}.
Implicit Types w : world K.

(** Exactly [ms] is added to the log. *)
Definition adds (ms : list (ProducerMessage F)) w w' : Prop :=
  clock w' = clock w ∧ faults w' = [] ∧ produced (db w') = produced (db w) ++ ms.

Lemma adds_nil w : faults w = [] → adds [] w w.
Proof. intros Hw. split_and!; [done|done|]. by rewrite app_nil_r. Qed.

Lemma adds_app ms ms' w1 w2 w3 : adds ms w1 w2 → adds ms' w2 w3 → adds (ms ++ ms') w1 w3.
Proof.
  intros (Hc&_&Hp) (Hc'&Hf&Hp'). split_and!; [congruence|done|]. by rewrite Hp', Hp, app_assoc.
Qed.

Lemma publish_event_up e w :
  faults w = [] → wp (publish_event e) (λ w' _, adds (option_list (eventMessage (clock w) e)) w w') w.
Proof.
  intros Hw. unfold publish_event. do 2 go_step. destruct (eventMessage (clock w) e) as [m|]; cbn.
  - pose proof (SendMessage_law m w) as Hlaw. destruct (send_up m w Hw) as [Hok Hup].
    apply wp_run. intros w' r Hr. unfold wp in Hlaw. rewrite Hr in Hlaw, Hok, Hup. cbn in *. subst r.
    destruct Hlaw as (Hc&_&Hp). by split_and!.
  - go_step. by apply adds_nil.
Qed.

Lemma publish_events_up es w :
  faults w = [] →
  wp (forM_ es (λ e, catch (E:=string) (publish_event e) ;;; ret tt)) (λ w' (r : result string unit),
    r = Ok tt ∧ adds (omap (eventMessage (clock w)) es) w w') w.
Proof.
  revert w. induction es as [|e es IH]; intros w Hw; cbn [forM_]; go_step; [by split; [|apply adds_nil]|].
  do 2 go_step. eapply wp_mono; [|by apply publish_event_up]. intros w1 r1 H1'. cbn beta in H1'. go_step.
  eapply wp_mono; [|apply IH, H1']. intros w2 r2 [-> H2']. split; [done|].
  assert (omap (eventMessage (clock w)) (e :: es) =
    option_list (eventMessage (clock w) e) ++ omap (eventMessage (clock w)) es) as ->.
  { cbn [omap list_omap]. by destruct (eventMessage (clock w) e). }
  eapply adds_app; [done|]. by rewrite <- (proj1 H1').
Qed.

Lemma consumeFeed_up (n : N) feed w :
  faults w = [] → wp (consumeFeed n feed) (λ w' r, r = Ok tt ∧ adds (feedMessages n (clock w) feed) w w') w.
Proof.
  unfold consumeFeed, feedMessages, normalised. revert w.
  induction feed as [|raw feed IH]; intros w Hw; cbn [forM_]; go_step; [by split; [|apply adds_nil]|].
  do 2 go_step. cbn [mbind list_bind]. destruct (Normalise n (clock w) raw) as [es|e].
  - eapply wp_mono; [|by apply publish_events_up]. intros w1 r1 [-> H1'].
    eapply wp_mono; [|apply IH, H1']. intros w2 r2 [-> H2']. split; [done|].
    eapply adds_app; [done|]. by rewrite <- (proj1 H1').
  - go_step. by apply IH.
Qed.
End Up.

(** ** The games of a scoreboard *)

Section Games.
Context {F : Type} `{FloatOps F}.

(** The games that have started and that the matcher knows, with their events. *)
Definition started_games (l : lookups) (games : list NBAGame) : list (string * NBAGame) :=
  omap (λ '(i, game),
    if GameStatus game =? 1 then None else
    id ← find_game l i (TeamName (nba_HomeTeam game)) (TeamName (nba_AwayTeam game));
    Some (id, game)) (imap pair games).

Definition state_of (g : string * NBAGame) : NormalisedMarketEvent F :=
  nbaState {| nba_EventID := g.1; nba_Game := g.2 |}.

Lemma nba_states_started l games :
  nba_states (F:=F) l games = (λ g, Ok [state_of g]) <$> started_games l games.
Proof.
  unfold nba_states, started_games. rewrite fmap_omap. apply omap_same. intros [i game] _.
  destruct (GameStatus game =? 1); [done|]. by destruct (find_game _ _ _ _).
Qed.

Lemma poll_messages l t (resp : option (Z * bytes F)) games now :
  nbaFetchScoreboard resp = Ok games →
  feedMessages nba_scores now (nbaPoll l t resp) = omap (eventMessage now) (state_of <$> started_games l games).
Proof.
  intros Hf. pose proof (nbaPoll_normalised l t resp now) as Hn. rewrite Hf, nba_states_started in Hn.
  unfold feedMessages, normalised. revert Hn. generalize (nbaPoll l t resp) as raws.
  induction (started_games l games) as [|g gs IH]; intros [|raw raws] Hn; try done.
  cbn [fmap list_fmap] in Hn. injection Hn as Hg Hn. cbn [mbind list_bind]. rewrite (IH raws Hn), Hg.
  cbn [fmap list_fmap omap list_omap]. by destruct (eventMessage now (state_of g)).
Qed.
End Games.

(** ** What the catalogue makes of a state *)

Section Catalogue.
Context {F B : Type} `{FloatOps F} `{!FiniteZero F} `{Postgres F} `{BroadcasterApi F B}.
Implicit Types (g : string * NBAGame) (w : world (CatalogDB F * option B)).

(** The status of a started game, its scores and labels. *)
Definition game_status g : string := if GameStatus g.2 =? 3 then "FINISHED" else "LIVE".
Definition scores_fit g : bool := in_int32 (nba_Score (nba_HomeTeam g.2)) && in_int32 (nba_Score (nba_AwayTeam g.2)).

Definition scored (t : Z) g (r : EventRow) : EventRow :=
  {| evt_competition_id := evt_competition_id r; evt_name := evt_name r; evt_starts_at := evt_starts_at r;
     evt_status := game_status g;
     evt_home_score := nba_Score (nba_HomeTeam g.2); evt_away_score := nba_Score (nba_AwayTeam g.2);
     evt_game_period := formatPeriod g.2; evt_game_clock := formatClock g.2; evt_updated_at := t |}.

(** The message a client is sent. *)
Definition score_text g : json F := JObj [
  ("type", JStr "score_update"); ("event_id", JStr g.1);
  ("home_score", JInt (nba_Score (nba_HomeTeam g.2))); ("away_score", JInt (nba_Score (nba_AwayTeam g.2)));
  ("game_period", JStr (formatPeriod g.2)); ("game_clock", JStr (formatClock g.2));
  ("status", JStr (game_status g))].

Lemma int32_in_int64 z : in_int32 z = true → in_int64 z = true.
Proof. unfold in_int32, in_int64, int64_min, int64_max. rewrite !andb_true_iff, !Z.leb_le, Z.ltb_lt. lia. Qed.

Lemma state_writable t g : scores_fit g = true → writable (F:=F) (stamp t (state_of g)).
Proof.
  intros [Hh Ha]%andb_true_iff. unfold writable. cbn.
  split_and!; try apply finite_zero; try done; by apply int32_in_int64.
Qed.

(** The identifier of the event and the labels of the game are valid UTF-8. *)
Definition valid_labels g : Prop := Forall ValidString [g.1; formatPeriod g.2; formatClock g.2].

(** A state becomes a message that every consumer reads back. *)
Lemma state_message t g :
  scores_fit g = true →
  ∃ m, eventMessage (F:=F) t (state_of g) = Some m ∧
    Unmarshal decodeEvent (Value m) = Some (received (stamp t (state_of g))).
Proof.
  intros Hg. destruct (event_decodes _ (state_writable t g Hg)) as (data&Hm&Hu).
  unfold eventMessage. rewrite Hm. cbn [mbind option_bind]. eexists. split; [done|]. exact Hu.
Qed.

(** The event as the catalogue's consumer reads it. *)
Lemma state_received t g :
  valid_labels g → let e := received (F:=F) (stamp t (state_of g)) in
  EventType e = "game.state" ∧ EventID e = g.1 ∧ EventStatus e = game_status g ∧
  HomeScore e = nba_Score (nba_HomeTeam g.2) ∧ AwayScore e = nba_Score (nba_AwayTeam g.2) ∧
  GamePeriod e = formatPeriod g.2 ∧ GameClock e = formatClock g.2.
Proof.
  unfold valid_labels. intros Hv.
  apply Forall_cons in Hv as [V1 Hv]. apply Forall_cons in Hv as [V2 Hv]. apply Forall_cons in Hv as [V3 _].
  split_and!; [reflexivity|exact V1| |reflexivity|reflexivity|exact V2|exact V3].
  unfold game_status, state_of, nbaState, received, stamp, gameState. cbn [EventStatus nba_Game].
  by destruct (GameStatus g.2 =? 3).
Qed.

Lemma state_handled t g m off w row b :
  scores_fit g = true → valid_labels g →
  Unmarshal decodeEvent (Value m) = Some (received (stamp t (state_of g))) →
  faults w = [] → events (db w).1 !! g.1 = Some row → (db w).2 = Some b →
  handleFeedMessage {| cm := m; Offset := off |} w =
    (set_db (set_events (<[g.1 := scored (clock w) g row]> (events (db w).1)) (db w).1,
             Some (Broadcast (Doc (score_text g)) b)) w, Ok tt).
Proof.
  intros [Hh Ha]%andb_true_iff Hv Hu Hw Hrow Hb. pose proof (state_received t g Hv) as He. revert Hu He.
  generalize (received (F:=F) (stamp t (state_of g))) as e. intros e Hu (E1&E2&E3&E4&E5&E6&E7).
  destruct w as [[d b'] c f fs]. cbn in *. subst fs b'.
  unfold handleFeedMessage. cbn [cm]. rewrite Hu, E1. cbn.
  unfold gbind, catch, zoom, handleGameState, mapErr, now, exec, flaky, updateGameState, gets, broadcastScoreUpdate, scoreUpdate. cbn.
  rewrite E2, E3, E4, E5, E6, E7, Hh, Ha, Hrow. cbn.
  assert (event_status_ok (game_status g) = true) as Hs by (unfold game_status; by destruct (_ =? _)).
  rewrite Hs. cbn. done.
Qed.
End Catalogue.

(** ** Properties *)

Lemma omap_cons_Some {A B} (f : A → option B) x xs y : f x = Some y → omap f (x :: xs) = y :: omap f xs.
Proof. intros Hx. cbn. by rewrite Hx. Qed.

Lemma claim_one {F D E} (handle : ConsumerMessage F → Go D E unit) msg msgs w w1 w2 marks :
  handle msg w = (w1, Ok tt) → ConsumeClaim handle msgs w1 = (w2, Ok marks) →
  ConsumeClaim handle (msg :: msgs) w = (w2, Ok (Offset msg :: marks)).
Proof. intros H1 H2. cbn. unfold gbind, catch. by rewrite H1, H2. Qed.

Section Properties.
Context {F K B : Type} `{FloatOps F} `{!FiniteZero F} `{Postgres F} `{BroadcasterApi F B}.
Context `{SyncProducer F K} `{!ProducerUp (F:=F) (K:=K)}.
Implicit Types (g : string * NBAGame) (d : CatalogDB F) (w : world (CatalogDB F * option B)).

(** The tables and the hub after a game is shown. *)
Definition show_row (t : Z) d g : CatalogDB F := set_events (alter (scored t g) g.1 (events d)) d.
Definition show_text (b : B) g : B := Broadcast (Doc (score_text g)) b.

(** The catalogue can take a game's state: the scores fit their columns, the
    labels are valid UTF-8 and the event exists. *)
Definition showable d g : Prop := scores_fit g = true ∧ valid_labels g ∧ is_Some (events d !! g.1).

Lemma showable_later t d g g' : showable d g → showable (show_row t d g') g.
Proof. intros (Hf&Hv&He). split_and!; [done|done|]. by apply lookup_alter_is_Some. Qed.

Lemma alter_insert_row {V} (f : V → V) k (m : gmap string V) v : m !! k = Some v → alter f k m = <[k := f v]> m.
Proof.
  intros Hv. apply map_eq. intros k'. destruct (decide (k' = k)) as [->|Hne].
  - by rewrite lookup_insert_eq, lookup_alter_eq, Hv.
  - by rewrite lookup_insert_ne, lookup_alter_ne by done.
Qed.

Definition shown_world g b w : world (CatalogDB F * option B) :=
  set_db (show_row (clock w) (db w).1 g, Some (show_text b g)) w.

Lemma shown_insert g b w row :
  events (db w).1 !! g.1 = Some row →
  shown_world g b w = set_db (set_events (<[g.1 := scored (clock w) g row]> (events (db w).1)) (db w).1,
    Some (Broadcast (Doc (score_text g)) b)) w.
Proof. intros Hrow. unfold shown_world, show_row. by rewrite (alter_insert_row _ _ _ _ Hrow). Qed.

Lemma state_shown_row t g m off w b row :
  scores_fit g = true → valid_labels g → events (db w).1 !! g.1 = Some row →
  Unmarshal decodeEvent (Value m) = Some (received (stamp t (state_of g))) → faults w = [] → (db w).2 = Some b →
  handleFeedMessage {| cm := m; Offset := off |} w = (shown_world g b w, Ok tt).
Proof.
  intros Hfit Hv Hrow Hu Hw Hb. rewrite (shown_insert g b w row Hrow).
  exact (state_handled t g m off w row b Hfit Hv Hu Hw Hrow Hb).
Qed.

Lemma state_shown t g m off w b :
  showable (db w).1 g → Unmarshal decodeEvent (Value m) = Some (received (stamp t (state_of g))) →
  faults w = [] → (db w).2 = Some b →
  handleFeedMessage {| cm := m; Offset := off |} w = (shown_world g b w, Ok tt).
Proof.
  intros (Hf&Hv&row&Hrow) Hu Hw Hb. exact (state_shown_row t g m off w b row Hf Hv Hrow Hu Hw Hb).
Qed.

Lemma games_shown t gs msgs w b :
  Forall (showable (db w).1) gs → cm <$> msgs = omap (eventMessage t) (state_of <$> gs) →
  faults w = [] → (db w).2 = Some b →
  catalogConsumeClaim msgs w =
    (set_db (foldl (show_row (clock w)) (db w).1 gs, Some (foldl show_text b gs)) w, Ok (Offset <$> msgs)).
Proof.
  unfold catalogConsumeClaim. revert msgs w b. induction gs as [|g gs IH]; intros msgs w b Hgs Hmsgs Hw Hb.
  { destruct msgs; [|done]. destruct w as [[d b'] c f fs]. cbn in *. by subst. }
  apply Forall_cons in Hgs as [Hg Hgs].
  destruct (state_message (F:=F) t g (proj1 Hg)) as (m&Hm&Hu).
  rewrite fmap_cons, (omap_cons_Some _ _ _ _ Hm) in Hmsgs. clear Hm.
  destruct msgs as [|[m' off] msgs]; [done|]. rewrite fmap_cons in Hmsgs.
  apply (inj2 cons) in Hmsgs as [Heq Hmsgs]. cbn [cm] in Heq. subst m'.
  apply (claim_one _ _ _ _ (shown_world g b w)); [by apply (state_shown t)|].
  apply (IH msgs (shown_world g b w) (show_text b g)); [|done|done|done].
  eapply Forall_impl; [done|]. intros g' Hg'. by apply (showable_later (clock w) (db w).1).
Qed.

Lemma shown_other t d gs k : k ∉ gs.*1 → events (foldl (show_row t) d gs) !! k = events d !! k.
Proof.
  revert d. induction gs as [|g gs IH]; intros d Hk; [done|]. rewrite fmap_cons, elem_of_cons in Hk. cbn [foldl].
  rewrite IH by tauto. cbn. rewrite lookup_alter_ne; [done|]. naive_solver.
Qed.

(** The row of an event is that of its last state. *)
Lemma shown_last t d before g after row :
  events d !! g.1 = Some row → g.1 ∉ after.*1 →
  events (foldl (show_row t) d (before ++ g :: after)) !! g.1 = Some (scored t g row).
Proof.
  intros Hrow Hafter. rewrite foldl_app. cbn [foldl]. rewrite shown_other by done. cbn. rewrite lookup_alter_eq.
  assert (∃ row', events (foldl (show_row t) d before) !! g.1 = Some row' ∧ scored t g row' = scored t g row)
    as (row'&->&Hs); [|cbn; by rewrite Hs].
  clear Hafter. revert d row Hrow. induction before as [|g' before IH]; intros d row Hrow; [by exists row|].
  cbn [foldl]. destruct (decide (g'.1 = g.1)) as [He|Hne].
  - destruct (IH (show_row t d g') (scored t g' row)) as (row'&?&Hs).
    + cbn. by rewrite He, lookup_alter_eq, Hrow.
    + exists row'. by rewrite Hs.
  - apply (IH (show_row t d g') row). cbn. by rewrite lookup_alter_ne.
Qed.

End Properties.

(** ** Witness: one game under way, one ahead *)

Section Witness.
#[local] Existing Instance inert_platform.
#[local] Instance score_postgres : Postgres binary64 := {| numeric _ _ x := Some x; timestamptz := ParseRFC3339Nano |}.
#[local] Instance score_hub : BroadcasterApi binary64 (list (bytes binary64)) :=
  {| Broadcast m b := b ++ [m]; ClientCount b := Z.of_nat (length b) |}.

Definition ex_heat_celtics : NBAGame := {|
  GameStatus := 2; GameStatusText := "Q3 5:30"; nba_Period := 3; nba_GameClock := "PT05M30.00S";
  nba_HomeTeam := {| TeamTricode := "MIA"; TeamName := "Heat"; nba_Score := 71 |};
  nba_AwayTeam := {| TeamTricode := "BOS"; TeamName := "Celtics"; nba_Score := 80 |} |}.
Definition ex_nets_knicks : NBAGame := {|
  GameStatus := 1; GameStatusText := "7:30 pm ET"; nba_Period := 0; nba_GameClock := "";
  nba_HomeTeam := {| TeamTricode := "BKN"; TeamName := "Nets"; nba_Score := 0 |};
  nba_AwayTeam := {| TeamTricode := "NYK"; TeamName := "Knicks"; nba_Score := 0 |} |}.
Definition ex_scoreboard : option (Z * bytes binary64) :=
  Some (200, Doc (JObj [("scoreboard", JObj [("games", to_json [ex_heat_celtics; ex_nets_knicks])])])).
Definition ex_matcher : lookups := {|
  matcher _ := EventMatcher_Register "e1" "Celtics @ Heat" NewEventMatcher;
  order_at _ := map_to_list |}.
Definition ex_score_run := consumeFeed nba_scores (nbaPoll ex_matcher 7 ex_scoreboard)
  (World ([] : list (ProducerMessage binary64)) 1000000 0 []).
Definition ex_score_msgs : list (ConsumerMessage binary64) :=
  (λ m, {| cm := m; Offset := 5 |}) <$> produced (db ex_score_run.1).
Definition ex_event_row : EventRow := {|
  evt_competition_id := "nba"; evt_name := "Celtics @ Heat"; evt_starts_at := 0; evt_status := "SCHEDULED";
  evt_home_score := 0; evt_away_score := 0; evt_game_period := ""; evt_game_clock := ""; evt_updated_at := 0 |}.
Definition ex_score_world : world (CatalogDB binary64 * option (list (bytes binary64))) :=
  World (Build_CatalogDB ∅ ∅ {[ "e1" := ex_event_row ]} ∅ ∅, Some []) 2000000 0 [].

End Witness.
